(* ===== verification/_CoqProject ===== *)
-Q . S2P
Prelude.v
Arrow.v
Partitioning.v
Stream.v
Generation.v
Channels.v
FileSystem.v
CheckpointStorage.v
StateBackend.v
RemoteState.v
KeyedState.v
FiberStream.v
Source.v
Count.v
CountStar.v
CountByKey.v
Operators.v
LazyStreams.v
Nested.v
Barrier.v
RemoteSource.v
FiberRuns.v
MarkerCut.v
RemoteExchange.v
Serde.v
Task.v
Pipeline.v
Coordinator.v
Service.v
BatchStreams.v
FlightSchema.v
Flight.v
Edges.v
Relay.v
Plans.v
Codec.v
Processor.v
BatchService.v
Execute.v
Session.v
Transforms.v
Chunks.v
