(* ===== verification/Prelude.v ===== *)
(** * A streaming engine with checkpointing: verification library

    The repository is a Ray-backed DataFusion engine.  This library models its streaming engine,
    src/src/streaming/ (paths below are relative to that directory), and the core of the batch
    engine in src/src, as shallow embeddings: pure functions for the pure code, explicit state
    passing with [res] (below) for code that fails or panics, and step relations for code that
    runs concurrently.

    ** The program

    A job is a list of tasks.  A coordinator (coordinator.rs, ../python/py_utils.rs) places each
    task on a worker (worker_process.rs), which runs it in a loop that loads a checkpoint and
    runs the task's operator (task_main_3.rs, task_definition_2.rs).  The operator of a task is
    nested (operators/nested.rs): a graph that usually starts with a source or a remote source,
    and ends with a remote exchange.  Exchanges write to data channels
    (runtime/exchange_manager/), from which the remote sources of other tasks read over Flight,
    filtering rows by partition range (partitioning.rs).  Markers travel between the batches
    (action_stream.rs) and number checkpoints: a remote source lets all its remote streams agree
    at every marker (operators/remote_source/) on whether to go on or to look up the addresses
    of a new generation (generation.rs), and stateful operators (count_star.rs, count_by_key.rs)
    save their RocksDB state (state/) at every marker, which a background task uploads and
    records in an index, so that a restarted or rescaled task continues from it.  Workers are
    Python actors (../python/streaming_processor_service.rs) that Ray starts and calls
    (../python/remote_processor.rs); ../run.rs has the jobs that the entry point runs.

    The batch engine (../) cuts a physical plan into stages at the nodes that repartition or
    sort (../physical.rs, ../stage.rs), sends each stage with a codec (../codec.rs) to processors
    (../processor_service.rs), and reads one stage from another over Flight with stage readers
    (../stage_reader.rs) that merge the streams of several processors (../util.rs).

    ** Files and sources

    - Prelude: [res], its monad notation, 64-bit [usize] arithmetic whose overflow panics or
      wraps as the build [Profile] says, list and option lemmas, tactics.
    - Arrow: the interface to the arrow and datafusion crates, with a concrete instance.
    - Partitioning (partitioning.rs), Stream (action_stream.rs, task_function.rs),
      Generation (generation.rs, remote_source/utils.rs).
    - Channels (runtime/exchange_manager/, data_client_manager.rs): channel, store, clients.
    - FileSystem (state/file_system.rs), CheckpointStorage (state/checkpoint_storage.rs),
      StateBackend (state/state.rs), RemoteState (what these do together: a checkpoint is
      uploaded, and restored on another machine), KeyedState (the interface of a state backend).
    - FiberStream (operators/utils/fiber_stream.rs), Source (operators/source.rs), Count,
      CountStar, CountByKey (the counting operators), Operators (task_function.rs, operator.rs,
      identity.rs), LazyStreams (operators/utils/lazy_operator.rs), Nested (nested.rs,
      utils/example_ref_storage.rs).
    - Barrier, RemoteSource (operators/remote_source/), FiberRuns (the fibers of a remote source
      under every schedule), MarkerCut (the operator that reads them), RemoteExchange (operators/remote_exchange.rs), Serde (utils/serde_serialization.rs).
    - Task (task_definition_2.rs, task_main_3.rs, worker_process.rs), Coordinator
      (coordinator.rs, ../python/py_utils.rs).
    - Pipeline (../run.rs): the counting job, its operators composed by the nested operator and
      run by the main loop of a task.
    - Service (../python/streaming_processor_service.rs, ../python/remote_processor.rs,
      runtime/, utils/create_remote_stream.rs): starting a worker, its calls, and the cluster
      that the coordinators of Coordinator.v schedule on.
    - FlightSchema and Flight (processor/flight_data_encoder.rs, processor/
      stream_serialization.rs): the schema of what is sent, the encoder and the decoder.
    - Edges: an exchange, its service, the Flight stream and a remote source put together.
    - Relay (worker_process.rs with its tests): workers that run tasks over this network.
    - Transforms (operators/filter.rs, projection.rs, union.rs, identity.rs, serialization.rs),
      Chunks (operators/utils/chunked_stream.rs, checkpoint_storage_manager.rs).
    - BatchStreams (../util.rs, ../max_rows.rs, ../isolator.rs), Plans (../physical.rs and the
      plan nodes), Codec (../codec.rs, ../proto/generated/protobuf.rs), Processor
      (../processor_service.rs, ../stage_reader.rs, ../pre_fetch.rs, ../util.rs), BatchService
      (../processor_service.rs, ../flight.rs, ../util.rs): plans as bytes and the service around
      a processor, Execute (the execute methods of the plan nodes together), Session
      (../context.rs, ../util.rs).

    Rust structs are Records and enums are Inductives, under the names of the source; a method
    that changes [self] returns the new [self].  Machine integers are [N] below 2^64 ([fits]).

    ** Interfaces

    [FileSystemStorage] with [FileSystemLaws] is what the index and the state backend use of a
    file system; [PrefixedLocalFileSystemStorage] is shown to satisfy it.  [KeyedState] with
    [KeyedStateLaws] is what the counting operators use of their state; [RocksDBStateBackend]
    is shown to satisfy it.  [OperatorFunction2] is the operator trait, with an instance per
    operator, used by nested operators and by the main loop of a task.  [ComputeEnv] is what the
    coordinators use of a cluster; Service.v has the instance over actors.  Code outside the
    repository is behind the classes [Arrow] (with [FlightArrow], [FlightIpc], [IpcStream],
    [Expressions] and [StateBatches] for further parts of it), [DataFusion] and
    [DataFusionProto], [Protobuf], [RocksDB], [LatestJson], [MarkerProto], [Shuffle],
    [SelectAll], [ProtoCodec], [WorkerEnv] (the network and the files of a machine),
    [Flexbuffers] and [PhysicalPlanProto]; their [...Laws] state documented behaviour, and the
    theorems that assume laws are witnessed on concrete instances.  [TaskFunction] and
    [ProtoSerializer] are the traits of the stateless operators and of their messages.

    ** What the theorems show

    - Partitioning: ranges that tile the hash space split a batch, each row once.
    - Streams: merging inputs keeps each in order, aligns the markers and terminates, for every
      order of polling.  The merge of record batch streams polls each stream once per turn and
      yields an interleaving; the row limit cuts batches and keeps rows.
    - Addressing (Generation): the generation found is the latest that started; with disjoint
      locations the addresses found read every bucket exactly once; with overlapping ones the
      check of completeness, a sum of sizes, can be wrong.
    - Channels: over all interleavings of the critical sections a reader sees a prefix of what
      was sent and all of it at a regular end, no wake-up is lost, runs terminate; the window in
      which dropping the sender fails a reader; consumers with tiling ranges share the rows of
      each batch.
    - Flight: where dictionaries are left in a schema that is prepared; a batch is split within
      bounds; what is encoded, sent and decoded arrives with its rows and markers in order.
    - Checkpoints: a selection of partial checkpoints tiles the searched range; it is complete
      when they were completed in order, and not otherwise; what was completed is found; a local
      checkpoint restores the entries exactly, and so does a checkpoint that another machine
      uploaded; a state saved by several copies of an operator cannot be restored.
    - Sources and counting: the sequence of a source and its restart; counting is exactly-once
      across a failure and restart, for an operator that reads one stream.  Behind several fibers
      (MarkerCut) the last copy of a marker is a consistent cut of the streams, but the operator
      saves its count at the first: such a checkpoint loses rows.
    - Nested operators: the dataflow semantics, for graphs listed in order.
    - Remote sources and exchanges: the barrier's round, the agreement of the fibers at a
      marker; any number of fibers stay aligned under every schedule, and a fair one reads all
      streams up to the marker at which they pause; the fibers kept after a change of addresses, the exchange as a sender of its
      channel, and the situations in which a remote source blocks or fails.
    - Shuffles (Edges): the copies of a task that read other tasks through exchanges, Flight and
      fibers receive, together, every row before the marker at which they pause exactly once.
    - Jobs of several tasks (Relay): a stream that is passed on from worker to worker arrives as
      its source emitted it; what happens when an exchange and the schedule of its reader do not
      agree on partitions; the tests of worker_process.rs for counting and restarting.
    - Messages: remote exchanges, filters, projections, record batches and plan nodes are read
      back from what they are written to, with the exceptions that the theorems name.
    - Stateless operators: the filter equals the filter of the rows; reading a stream in chunks
      equals cutting it at its markers.
    - Plans and processors: the optimizer marks and numbers the stages of a plan; a processor
      connects to what its plan reads, and a stage reader gets all of it; a plan that is cut into
      stages over any number of processors delivers an outcome of the plan that was not cut, and
      its very rows where order and batches do not matter.
    - Tasks and scheduling: the main loop, the update of inputs, the wiring of streams and the
      tiling of scaled partitions.
    - The whole job: the counting task delivers its markers and the count of every key to the
      channel of its readers, and does so, every row counted once, when it is started again from
      any checkpoint of the first repetition of its source, wherever it crashed after it.
    - The cluster: however the calls that a static coordinator sends are delivered, every worker
      that it assigned a task runs that task, and nothing else runs; what is lost when a worker refuses.
    - Services: a batch processor arrives at the plan that was sent, serves exactly that plan and
      stops when told; a session registers a table over the object store of its path.
    - Lazy streams: over all interleavings the shared constructor runs at most once, and every
      stream that waits receives its own.

    ** Fuel and bounds

    [drain] (Stream) reads a merged stream to its end; [merged_stream_aligned] shows that fuel
    above the measure of its inputs is enough, and so do [combined_stream_merges] for
    [drain_combined] and [configured_context_reads] for a stage reader, with the polls left.
    [slices] (BatchStreams) and [split_loop] (FlightSchema) take at most one unit per row,
    [drain_encoder] (Flight) one per poll and [collect_chunk] (Chunks) one per item of the
    stream; their theorems show that this is enough.  [copy_rec] (FileSystem) takes one unit per
    directory level, and [copy_rec_copied] shows that the depth of the tree is enough.
    [fibers_aligned] (FiberRuns) bounds the rounds of polls by the lengths of the streams;
    [relayed_job_delivers] (Relay) shows that enough fuel and rounds exist for a whole job.
    [copy_queue] (StateBackend) takes one unit per directory of the source, which is enough
    ([copy_queue_copies] in RemoteState).  [execute] (Execute) takes one unit per nested connection
    and [distributed_plan_delivers] shows that the depth of the plan is enough.  [main_loop] (Task) really may not end, as
    [external_error_retries_forever] shows; it takes the number of rounds.

    ** What is not modelled, and why

    Logging, sleeping, the gRPC server and the Python interpreter, which carry calls: a call is
    a step that runs a method.  Streams are the lists of what they deliver (with pending polls
    where the code polls, and as step machines where two tasks share a channel), and the counting
    job runs its operators one stream at a time.  ../dataframe.rs (but for a wrapper of a record
    batch), translation/ and stateful_operator.rs are commented out in this commit.  Printing of
    plans ([print_node]) and [fix_plan], which sets an option of Parquet scans and is not called,
    are left out.  The execution of plan nodes other than those of this repository is
    DataFusion's. *)

From stdpp Require Export base numbers strings pretty gmap list.

#[global] Open Scope string_scope.
#[global] Open Scope list_scope.
#[global] Open Scope N_scope.

(** ** Errors and panics

    [DataFusionError] keeps the constructors that the modelled code builds or matches on
    (datafusion::error::DataFusionError), each with its message. *)

Inductive DataFusionError :=
  | Internal (msg : string)
  | Execution (msg : string)
  | External (msg : string)
  | IoError (msg : string)
  | ArrowErr (msg : string).

#[global] Instance DataFusionError_eq_dec : EqDecision DataFusionError.
Proof. solve_decision. Defined.

(** The result of running a Rust function that returns [Result<A, E>]: a value, an error
    value, or a panic (which unwinds the task and is never caught by the modelled code). *)
Inductive res (E A : Type) :=
  | Ok (a : A)
  | Err (e : E)
  | Panic (why : string).
Arguments Ok {E A} _.
Arguments Err {E A} _.
Arguments Panic {E A} _.

#[global] Instance res_eq_dec {E A} `{EqDecision E, EqDecision A} : EqDecision (res E A).
Proof. solve_decision. Defined.

#[global] Instance res_ret {E} : MRet (res E) := fun A a => Ok a.
#[global] Instance res_bind {E} : MBind (res E) := fun A B f m =>
  match m with Ok a => f a | Err e => Err e | Panic w => Panic w end.
#[global] Instance res_fmap {E} : FMap (res E) := fun A B f m =>
  match m with Ok a => Ok (f a) | Err e => Err e | Panic w => Panic w end.

(** [Result::map_err] *)
Definition map_err {E F A} (f : E -> F) (m : res E A) : res F A :=
  match m with Ok a => Ok a | Err e => Err (f e) | Panic w => Panic w end.

(** [Option::ok_or] *)
Definition ok_or {E A} (e : E) (o : option A) : res E A :=
  match o with Some a => Ok a | None => Err e end.

(** [Option::unwrap]/[expect] *)
Definition unwrap {E A} (why : string) (o : option A) : res E A :=
  match o with Some a => Ok a | None => Panic why end.

Definition is_Ok {E A} (m : res E A) : Prop := exists a, m = Ok a.

Section res_lemmas.
Context {E A B : Type}.

Lemma bind_Ok (a : A) (f : A -> res E B) : (Ok a ≫= f) = f a.
Proof. done. Qed.

Lemma bind_Ok_inv (m : res E A) (f : A -> res E B) b :
  (m ≫= f) = Ok b -> exists a, m = Ok a /\ f a = Ok b.
Proof. destruct m; cbn; naive_solver. Qed.

Lemma ok_or_Ok (e : E) (o : option A) a : ok_or e o = Ok a <-> o = Some a.
Proof. destruct o; cbn; naive_solver. Qed.

Lemma unwrap_Ok w (o : option A) a : unwrap (E := E) w o = Ok a <-> o = Some a.
Proof. destruct o; cbn; naive_solver. Qed.
End res_lemmas.

(** [iter.map(f).collect::<Result<Vec<_>, _>>()]: the first error (or panic) wins. *)
Fixpoint try_collect {E A B} (f : A -> res E B) (l : list A) : res E (list B) :=
  match l with
  | [] => Ok []
  | x :: l => y ← f x; k ← try_collect f l; Ok (y :: k)
  end.

Section try_collect_lemmas.
Context {E A B : Type} (f : A -> res E B).

Lemma try_collect_Ok l k : try_collect f l = Ok k <-> Forall2 (fun x y => f x = Ok y) l k.
Proof.
  split.
  - revert k. induction l as [|x l IH]; intros k; cbn.
    + intros [= <-]. constructor.
    + intros (y & Hy & Hk)%bind_Ok_inv.
      apply bind_Ok_inv in Hk as (k' & Hk' & [= <-]). constructor; auto.
  - induction 1 as [|x y l k Hx _ IH]; [done|].
    cbn. rewrite Hx. cbn. by rewrite IH.
Qed.

Lemma try_collect_length l k : try_collect f l = Ok k -> length k = length l.
Proof. intros H%try_collect_Ok. symmetry. by eapply Forall2_length. Qed.
End try_collect_lemmas.

(** ** Actions

    Code that changes a shared object and may fail: what it did before an error or a panic
    stays done, so the state is returned in every case. *)

Definition act (S E A : Type) : Type := S -> S * res E A.

#[global] Instance act_ret {S E} : MRet (act S E) := fun A a s => (s, Ok a).
#[global] Instance act_bind {S E} : MBind (act S E) := fun A B f m s =>
  match m s with
  | (s, Ok a) => f a s
  | (s, Err e) => (s, Err e)
  | (s, Panic w) => (s, Panic w)
  end.

Definition lift {S E A} (r : res E A) : act S E A := fun s => (s, r).
Definition read_state {S E} : act S E S := fun s => (s, Ok s).

(** [for x in l { f(x)?; }] *)
Fixpoint for_each {S E A} (f : A -> act S E unit) (l : list A) : act S E unit :=
  match l with
  | [] => mret tt
  | x :: l => f x ;; for_each f l
  end.

Lemma act_bind_Ok {S E A B} (m : act S E A) (f : A -> act S E B) s s' a :
  m s = (s', Ok a) -> (m ≫= f) s = f a s'.
Proof. intros Hm. unfold mbind, act_bind. by rewrite Hm. Qed.

Lemma act_bind_inv {S E A B} (m : act S E A) (f : A -> act S E B) s s' b :
  (m ≫= f) s = (s', Ok b) -> exists s1 a, m s = (s1, Ok a) /\ f a s1 = (s', Ok b).
Proof. unfold mbind, act_bind. destruct (m s) as [s1 [a|e|w]]; naive_solver. Qed.

(** ** Machine integers

    [usize] and [u64] are both 64 bits wide here and are values of [N].  The release profile
    wraps on overflow and the dev profile panics ([overflow-checks]); both are modelled by the
    [Profile] class, and no theorem assumes one of them. *)

Class Profile := overflow_checks : bool.

Definition u64_modulus : N := 18446744073709551616.

Definition fits (n : N) : Prop := n < u64_modulus.

#[global] Instance fits_dec n : Decision (fits n) := decide (n < u64_modulus).

Section machine.
Context `{Profile} {E : Type}.

Definition wrap (why : string) (n : N) : res E N :=
  if n <? u64_modulus then Ok n
  else if overflow_checks then Panic why else Ok (n mod u64_modulus).

Definition uadd (a b : N) : res E N := wrap "attempt to add with overflow" (a + b).
Definition umul (a b : N) : res E N := wrap "attempt to multiply with overflow" (a * b).
Definition usub (a b : N) : res E N :=
  if b <=? a then Ok (a - b)
  else if overflow_checks then Panic "attempt to subtract with overflow"
  else Ok (u64_modulus + a - b).
(** Division by zero panics in every profile. *)
Definition udiv (a b : N) : res E N :=
  if b =? 0 then Panic "attempt to divide by zero" else Ok (a / b).
Definition urem (a b : N) : res E N :=
  if b =? 0 then Panic "attempt to calculate the remainder with a divisor of zero"
  else Ok (a mod b).

Lemma wrap_fits w n : fits n -> wrap w n = Ok n.
Proof. intros Hn. unfold wrap. apply N.ltb_lt in Hn. by rewrite Hn. Qed.

Lemma wrap_Ok_fits w n m : wrap w n = Ok m -> fits m.
Proof.
  unfold wrap, fits. destruct (N.ltb_spec n u64_modulus).
  - naive_solver.
  - destruct overflow_checks; [done|]. intros [= <-].
    apply N.mod_lt. unfold u64_modulus. lia.
Qed.

Lemma uadd_fits a b : fits (a + b) -> uadd a b = Ok (a + b).
Proof. apply wrap_fits. Qed.
Lemma umul_fits a b : fits (a * b) -> umul a b = Ok (a * b).
Proof. apply wrap_fits. Qed.
Lemma usub_le a b : b <= a -> usub a b = Ok (a - b).
Proof. intros Hb%N.leb_le. unfold usub. by rewrite Hb. Qed.
Lemma udiv_pos a b : 0 < b -> udiv a b = Ok (a / b).
Proof. intros Hb. unfold udiv. destruct (N.eqb_spec b 0); [lia|done]. Qed.
Lemma urem_pos a b : 0 < b -> urem a b = Ok (a mod b).
Proof. intros Hb. unfold urem. destruct (N.eqb_spec b 0); [lia|done]. Qed.
End machine.
#[global] Arguments uadd : simpl never.
#[global] Arguments umul : simpl never.
#[global] Arguments usub : simpl never.
#[global] Arguments udiv : simpl never.
#[global] Arguments urem : simpl never.

(** ** Automation *)

Create HintDb frays discriminated.
#[export] Hint Rewrite @bind_Ok : frays.
#[export] Hint Rewrite @uadd_fits @umul_fits @usub_le @udiv_pos @urem_pos
  using (first [assumption | unfold fits, u64_modulus in *; lia]) : frays.

(** Reduce the arithmetic and the binds whose operands are known. *)
Ltac usimp := repeat progress (autorewrite with frays; cbn [mbind res_bind mret res_ret fmap res_fmap]).

(** Split every [_ ≫= _ = Ok _] hypothesis into its steps. *)
Ltac inv_res :=
  repeat match goal with
    | H : (_ ≫= _) = Ok _ |- _ =>
        let a := fresh "v" in let Ha := fresh "Hv" in
        apply bind_Ok_inv in H as (a & Ha & H)
    | H : ok_or _ _ = Ok _ |- _ => apply ok_or_Ok in H
    | H : unwrap _ _ = Ok _ |- _ => apply unwrap_Ok in H
    | H : Ok _ = Ok _ |- _ => injection H as H
    | H : mret _ = Ok _ |- _ => injection H as H
    | H : Err _ = Ok _ |- _ => discriminate H
    | H : Panic _ = Ok _ |- _ => discriminate H
    end.

(** ** Generic list lemmas and iterator adapters *)

(** [collect::<HashMap<_, _>>()]: the last of several entries with one key stays. *)
Definition collect_map {A} (l : list (N * A)) : gmap N A := foldl (fun m '(k, v) => <[k := v]> m) ∅ l.

(** [Iterator::find] *)
Fixpoint find_first {A} (p : A -> bool) (l : list A) : option A :=
  match l with [] => None | x :: l => if p x then Some x else find_first p l end.

(** [Iterator::find_map] *)
Fixpoint find_map {A B} (f : A -> option B) (l : list A) : option B :=
  match l with
  | [] => None
  | x :: l => match f x with Some y => Some y | None => find_map f l end
  end.

(** [Iterator::max]; [None] on an empty iterator *)
Definition max_opt (l : list N) : option N :=
  match l with [] => None | x :: l => Some (foldr N.max x l) end.

Definition sumN (l : list N) : N := foldr N.add 0 l.

Section list_lemmas.
Context {A B : Type}.

Lemma find_first_Some (p : A -> bool) l x :
  find_first p l = Some x -> x ∈ l /\ p x = true.
Proof.
  induction l as [|y l IH]; cbn; [done|]. destruct (p y) eqn:Hp; intros H; simplify_eq.
  - split; [left|done].
  - destruct (IH H). split; [by right|done].
Qed.

Lemma find_first_split (p : A -> bool) l x :
  find_first p l = Some x <->
  exists l1 l2, l = l1 ++ x :: l2 /\ p x = true /\ Forall (fun y => p y = false) l1.
Proof.
  split.
  - induction l as [|y l IH]; cbn; [done|]. destruct (p y) eqn:Hp; intros H; simplify_eq.
    + by exists [], l.
    + destruct (IH H) as (l1 & l2 & -> & ? & ?). exists (y :: l1), l2. auto.
  - intros (l1 & l2 & -> & Hx & Hl). induction Hl as [|y l1 Hy _ IH]; cbn.
    + by rewrite Hx.
    + by rewrite Hy.
Qed.

Lemma find_first_None (p : A -> bool) l :
  find_first p l = None <-> Forall (fun y => p y = false) l.
Proof.
  induction l as [|y l IH]; cbn; [by split|]. rewrite Forall_cons.
  destruct (p y); naive_solver.
Qed.

Lemma find_map_split (f : A -> option B) l y :
  find_map f l = Some y <->
  exists l1 x l2, l = l1 ++ x :: l2 /\ f x = Some y /\ Forall (fun z => f z = None) l1.
Proof.
  split.
  - induction l as [|z l IH]; cbn; [done|]. destruct (f z) eqn:Hf; intros H; simplify_eq.
    + by exists [], z, l.
    + destruct (IH H) as (l1 & x & l2 & -> & ? & ?). exists (z :: l1), x, l2. auto.
  - intros (l1 & x & l2 & -> & Hx & Hl). induction Hl as [|z l1 Hz _ IH]; cbn.
    + by rewrite Hx.
    + by rewrite Hz.
Qed.

Lemma max_opt_Some (l : list N) m : max_opt l = Some m -> m ∈ l /\ Forall (fun x => x <= m) l.
Proof.
  destruct l as [|x l]; cbn; [done|]. intros [= <-].
  induction l as [|y l IH]; cbn.
  - split; [left|]. constructor; [lia|constructor].
  - destruct IH as [Hin Hall]. apply Forall_cons in Hall as [Hx Hl].
    set (m := foldr N.max x l) in *. split.
    + destruct (decide (y <= m)).
      * rewrite N.max_r by done. set_solver.
      * rewrite N.max_l by lia. set_solver.
    + constructor; [lia|]. constructor; [lia|].
      eapply Forall_impl; [done|]. cbn. lia.
Qed.

Lemma max_opt_is_Some l : l <> [] -> is_Some (max_opt l).
Proof. destruct l; [done|]. cbn. eauto. Qed.

Lemma sumN_app l k : sumN (l ++ k) = sumN l + sumN k.
Proof. induction l as [|x l IH]; cbn; [done|]. fold (sumN (l ++ k)) (sumN l). lia. Qed.
End list_lemmas.

(** ** Splitting a list by predicates *)

Section split_by.
Context {A : Type}.

Lemma concat_filter_cons (ps : list (A -> bool)) (x : A) l :
  concat (map (fun p => List.filter p (x :: l)) ps) ≡ₚ
  replicate (length (List.filter (fun p => p x) ps)) x ++
  concat (map (fun p => List.filter p l) ps).
Proof.
  induction ps as [|p ps IH]; cbn; [done|]. destruct (p x); cbn.
  - by rewrite IH, !(assoc_L (++)), (comm (++) (replicate _ x)).
  - by rewrite IH, !(assoc_L (++)), (comm (++) (replicate _ x)).
Qed.

(** If every element satisfies exactly one of the predicates, filtering by each of them and
    concatenating gives the list back, up to order. *)
Lemma concat_filter_once (ps : list (A -> bool)) l :
  Forall (fun x => length (List.filter (fun p => p x) ps) = 1%nat) l ->
  concat (map (fun p => List.filter p l) ps) ≡ₚ l.
Proof.
  induction 1 as [|x l Hx _ IH].
  - induction ps as [|p ps IH]; cbn; done.
  - by rewrite concat_filter_cons, Hx, IH.
Qed.

Lemma map_Some_inj_Permutation (l k : list A) : map Some l ≡ₚ map Some k -> l ≡ₚ k.
Proof.
  intros (l3 & Heq & Hp)%Permutation_map_inv.
  assert (l = l3) as ->; [|done].
  clear Hp. revert l3 Heq. induction l as [|x l IH]; intros [|y l3]; cbn; try done.
  intros [= -> ?]. f_equal. auto.
Qed.

Lemma lookup_seq_all (l : list A) :
  (fun i => l !! i) <$> seq 0 (length l) = map Some l.
Proof.
  induction l as [|x l IH]; [done|]. cbn. f_equal.
  rewrite <- IH, <- fmap_S_seq, <- list_fmap_compose. done.
Qed.
End split_by.

(** A loop that inserts entries with distinct keys. *)
Lemma foldl_insert `{Countable K} {A} (l : list (K * A)) (m : gmap K A) :
  NoDup l.*1 -> foldl (fun m '(k, v) => <[k := v]> m) m l = list_to_map l ∪ m.
Proof.
  revert m. induction l as [|[k v] l IH]; intros m; cbn.
  - intros _. by rewrite (left_id_L ∅ (∪)).
  - intros [Hk Hnd]%NoDup_cons. rewrite IH by done.
    rewrite <- insert_union_l, <- insert_union_r; [done|]. by apply not_elem_of_list_to_map_1.
Qed.

(** ** Lists of lists *)

Lemma bind_perm {A B} (l l' : list A) (f g : A -> list B) :
  l ≡ₚ l' -> (forall a, a ∈ l -> f a ≡ₚ g a) -> l ≫= f ≡ₚ l' ≫= g.
Proof.
  intros Hl Hf. transitivity (l ≫= g); [|by rewrite Hl]. clear Hl l'.
  induction l as [|a l IH]; [done|]. cbn. apply Permutation_app; [apply Hf; by left|apply IH; intros; apply Hf; by right].
Qed.

Lemma filter_bind {A B} (P : B -> Prop) `{!forall x, Decision (P x)} (g : A -> list B) (l : list A) :
  filter P (l ≫= g) = l ≫= fun x => filter P (g x).
Proof. induction l as [|x l IH]; [done|]. by rewrite !bind_cons, filter_app, IH. Qed.

Lemma bind_bind {A B C} (f : A -> list B) (g : B -> list C) (l : list A) :
  (l ≫= f) ≫= g = l ≫= fun x => f x ≫= g.
Proof. induction l as [|x l IH]; [done|]. by rewrite !bind_cons, bind_app, IH. Qed.

Lemma bind_app_perm {A B} (f g : A -> list B) (l : list A) :
  l ≫= (fun x => f x ++ g x) ≡ₚ (l ≫= f) ++ (l ≫= g).
Proof. induction l as [|x l IH]; [done|]. rewrite !bind_cons, IH. solve_Permutation. Qed.

Lemma bind_swap {A B C} (h : A -> B -> list C) (l : list A) (k : list B) :
  (l ≫= fun x => k ≫= h x) ≡ₚ k ≫= fun y => l ≫= fun x => h x y.
Proof.
  induction l as [|x l IH]; [by induction k|]. rewrite bind_cons, IH. symmetry. apply bind_app_perm.
Qed.

Lemma bind_pick {A} (k : N) (F : N -> list A) (l : list N) : NoDup l -> k ∈ l ->
  (l ≫= fun q => if q =? k then F q else []) = F k.
Proof.
  intros Hnd Hk. assert (forall l', k ∉ l' -> (l' ≫= fun q => if q =? k then F q else []) = []) as Hnone.
  { induction l' as [|q l' IH]; [done|]. intros Hn. rewrite bind_cons, IH by set_solver.
    destruct (N.eqb_spec q k); [set_solver|done]. }
  induction Hnd as [|q l Hq _ IH]; [by apply not_elem_of_nil in Hk|]. rewrite bind_cons.
  apply elem_of_cons in Hk as [->|Hk]; [by rewrite N.eqb_refl, Hnone, app_nil_r|].
  rewrite (IH Hk). destruct (N.eqb_spec q k) as [->|]; [done|done].
Qed.

(** A list is cut where the lists that it lies over are cut. *)
Lemma split_over {A B} (ks : list N) (R : N -> list A) (T : list (A * B)) :
  NoDup ks -> T.*1 = ks ≫= R -> exists g, ks ≫= g = T /\ forall k, k ∈ ks -> (g k).*1 = R k.
Proof.
  intros Hnd. revert T. induction Hnd as [|k ks Hk _ IH]; intros T HT.
  { exists (fun _ => []). split; [by apply fmap_nil_inv in HT|]. intros k Hk. by apply not_elem_of_nil in Hk. }
  rewrite bind_cons in HT. apply fmap_app_inv in HT as (T1 & T2 & H1 & H2 & ->).
  destruct (IH T2 (eq_sym H2)) as (g & <- & Hg). exists (fun x => if x =? k then T1 else g x). split.
  - rewrite bind_cons, N.eqb_refl. f_equal. clear -Hk.
    induction ks as [|x ks IH]; [done|]. rewrite !bind_cons, IH by set_solver.
    destruct (N.eqb_spec x k); [set_solver|done].
  - intros x Hx. destruct (N.eqb_spec x k) as [->|]; [done|]. apply Hg. set_solver.
Qed.
