(* ===== verification/Arrow.v ===== *)
(** * Interface to the Arrow and DataFusion libraries

    The engine manipulates record batches only through the arrow and datafusion crates, which
    are not part of the repository.  [Arrow] is the record of operations the modelled code
    calls, [ArrowLaws] states the documented behaviour those calls rely on, in terms of the
    abstract view [rows] of a batch, and [RowArrow] is a concrete instance (a batch is a
    schema and its rows) used to run the model. *)

From S2P Require Import Prelude.

Class Arrow := {
  Batch : Type;
  Schema : Type;
  Array : Type;
  Expr : Type;
  Row : Type;
  Schema_eq_dec : EqDecision Schema;
  (** [RecordBatch::schema], [num_rows], [columns], [slice] *)
  batch_schema : Batch -> Schema;
  num_rows : Batch -> nat;
  columns : Batch -> list Array;
  slice : Batch -> nat -> nat -> Batch;
  (** [arrow::compute::take_arrays(columns, indices, None)] *)
  take_arrays : list Array -> list nat -> res DataFusionError (list Array);
  (** [RecordBatch::try_new_with_options(schema, columns, row_count)] *)
  try_new_with_options : Schema -> list Array -> option nat -> res DataFusionError Batch;
  (** [expr.evaluate(batch)?.into_array(batch.num_rows())] *)
  evaluate : Expr -> Batch -> res DataFusionError Array;
  (** [create_hashes(arrays, seeds 0 0 0 0, buffer of n rows)]: the filled buffer *)
  create_hashes : list Array -> nat -> res DataFusionError (list N);
  (** The rows of a batch, in order: the abstract view the laws speak about. *)
  rows : Batch -> list Row;
}.
#[global] Existing Instance Schema_eq_dec.

Class ArrowLaws `{Arrow} : Prop := {
  num_rows_rows b : num_rows b = length (rows b);
  (** [slice] is zero-copy and keeps the schema (arrow documents a panic out of range). *)
  slice_rows b o n :
    (o + n <= num_rows b)%nat -> rows (slice b o n) = take n (drop o (rows b));
  slice_schema b o n : batch_schema (slice b o n) = batch_schema b;
  (** [take] gathers the rows at the given indices, in the order of the indices. *)
  take_rows b ix :
    Forall (fun i => i < num_rows b)%nat ix ->
    exists cs b', take_arrays (columns b) ix = Ok cs /\
      try_new_with_options (batch_schema b) cs (Some (length ix)) = Ok b' /\
      batch_schema b' = batch_schema b /\
      map Some (rows b') = (fun i => rows b !! i) <$> ix;
  (** [create_hashes] writes one hash per row of its buffer; a hash is a [u64]. *)
  create_hashes_length arrs n hs : create_hashes arrs n = Ok hs -> length hs = n;
  create_hashes_fits arrs n hs : create_hashes arrs n = Ok hs -> Forall fits hs;
}.

Section arrow_lemmas.
Context `{ArrowLaws}.

Lemma num_rows_slice b o n : (o + n <= num_rows b)%nat -> num_rows (slice b o n) = n.
Proof.
  intros Hon. rewrite num_rows_rows, slice_rows by done.
  rewrite num_rows_rows in Hon. rewrite length_take, length_drop. lia.
Qed.
End arrow_lemmas.

(** ** A concrete instance

    A batch is a schema (the column names), an explicit row count and one list of numbers per
    row; an expression is a column index, and the hash of a row is the value of its first
    hashed column.  It satisfies every law, so no theorem stated over [ArrowLaws] is vacuous. *)
Module RowArrow.
Record batch := { b_schema : list string; b_rows : list (list N) }.

Definition column (b : batch) (i : nat) : list (option N) :=
  (fun r => r !! i) <$> b_rows b.

(** A column array carries the rows it was cut from, so [take] is computable. *)
Definition array : Type := list (list N) * option nat.

Definition gather (l : list (list N)) (ix : list nat) : option (list (list N)) :=
  mapM (fun i => l !! i) ix.

Definition hash_row (a : array) (r : list N) : N :=
  match snd a with
  | Some i => default 0 (r !! i) mod u64_modulus
  | None => 0
  end.

Definition hashes (arrs : list array) (n : nat) : list N :=
  match arrs with
  | [] => replicate n 0
  | a :: _ => take n ((hash_row a <$> fst a) ++ replicate n 0)
  end.

#[export] Instance arrow : Arrow := {|
  Batch := batch; Schema := list string; Array := array; Expr := nat; Row := list N;
  batch_schema := b_schema;
  num_rows b := length (b_rows b);
  columns b := [(b_rows b, None)];
  slice b o n := {| b_schema := b_schema b; b_rows := take n (drop o (b_rows b)) |};
  take_arrays cs ix :=
    match cs with
    | [(l, c)] =>
        match gather l ix with
        | Some l' => Ok [(l', c)]
        | None => Err (ArrowErr "index out of bounds")
        end
    | _ => Err (ArrowErr "invalid columns")
    end;
  try_new_with_options s cs n :=
    match cs with
    | [(l, _)] =>
        if decide (n = Some (length l)) then Ok {| b_schema := s; b_rows := l |}
        else Err (ArrowErr "row count mismatch")
    | _ => Err (ArrowErr "invalid columns")
    end;
  evaluate e b := Ok (b_rows b, Some e);
  create_hashes arrs n := Ok (hashes arrs n);
  rows := b_rows;
|}.

Lemma gather_in_range l ix :
  Forall (fun i => i < length l)%nat ix ->
  exists l', gather l ix = Some l' /\ length l' = length ix /\
    map Some l' = (fun i => l !! i) <$> ix.
Proof.
  induction 1 as [|i ix Hi _ (l' & Hl & Hlen & Hmap)]; [by exists []|].
  apply lookup_lt_is_Some in Hi as [x Hx]. exists (x :: l').
  unfold gather in *. cbn. rewrite Hx, Hl. cbn. rewrite Hlen, Hmap. done.
Qed.

#[export] Instance arrow_laws : ArrowLaws.
Proof.
  split.
  - done.
  - done.
  - done.
  - intros b ix Hin. cbn.
    destruct (gather_in_range (b_rows b) ix Hin) as (l' & Hg & Hlen & Hmap).
    exists [(l', None)]. eexists {| b_schema := b_schema b; b_rows := l' |}.
    rewrite Hg. repeat split; [|done]. rewrite Hlen. by case_decide.
  - intros arrs n hs. cbn. intros [= <-]. unfold hashes. destruct arrs.
    + apply length_replicate.
    + rewrite length_take, length_app, length_replicate. lia.
  - intros arrs n hs. cbn. intros [= <-]. unfold hashes.
    assert (Hz : Forall fits (replicate n 0)) by (apply Forall_replicate; done).
    destruct arrs as [|a arrs]; [done|]. apply Forall_take, Forall_app. split; [|done].
    apply Forall_fmap, Forall_true. intros r. unfold compose, hash_row.
    destruct (snd a); [|done]. apply N.mod_lt. done.
Qed.
End RowArrow.
