(* ===== verification/Partitioning.v ===== *)
(** * Partition ranges and hash partitioning (src/streaming/partitioning.rs)

    [PartitionRange] is the half-open interval [start, end) of a hash space cut into
    [partitions] buckets.  The file models every operation of the type and
    [filter_by_partition_range], and proves that ranges that tile the hash space split a
    batch: every row lands in exactly one of the filtered batches. *)

From S2P Require Import Prelude Arrow.

Record PartitionRange := mkRange { start : N; end_ : N; partitions : N }.

#[global] Instance PartitionRange_eq_dec : EqDecision PartitionRange.
Proof. solve_decision. Defined.

#[global] Instance PartitionRange_countable : Countable PartitionRange.
Proof.
  apply (inj_countable' (fun r => (start r, end_ r, partitions r))
           (fun '(s, e, p) => mkRange s e p)).
  by intros [].
Defined.

Module PartitionRangeOps.
Section ops.
Context `{Profile}.

Definition new (s e p : N) : PartitionRange := mkRange s e p.

Definition empty : PartitionRange := mkRange 0 0 0.

Definition unit : PartitionRange := mkRange 0 1 1.

(** The source writes [2^32]; in Rust [^] is bitwise exclusive or. *)
Definition full : PartitionRange := new 0 (N.lxor 2 32) (N.lxor 2 32).

Definition new_from_index {E} (index p : N) : res E PartitionRange :=
  e ← uadd index 1; Ok (mkRange index e p).

Definition intersection (self other : PartitionRange) : PartitionRange :=
  let s := N.max (start self) (start other) in
  let e := N.min (end_ self) (end_ other) in
  if s <? e then mkRange s e (partitions self) else empty.

Definition is_empty (self : PartitionRange) : bool := start self =? end_ self.

Definition size {E} (self : PartitionRange) : res E N := usub (end_ self) (start self).

Definition contains_hash {E} (self : PartitionRange) (hash : N) : res E bool :=
  partition ← urem hash (partitions self);
  Ok ((start self <=? partition) && (partition <? end_ self)).

Definition contains_partition_indices (self : PartitionRange) (indices : list N) : bool :=
  existsb (fun index => (start self <=? index) && (index <? end_ self)) indices.

(** The protobuf message of the same shape (src/proto/src/streaming.proto); its fields are
    [u64], so the casts in both directions keep the value. *)
Record ProtoRange := mkProtoRange { p_start : N; p_end : N; p_partitions : N }.
Definition from_proto (p : ProtoRange) : PartitionRange :=
  mkRange (p_start p) (p_end p) (p_partitions p).
Definition into_proto (r : PartitionRange) : ProtoRange :=
  mkProtoRange (start r) (end_ r) (partitions r).

(** The buckets of a range, as a predicate. *)
Definition covers (r : PartitionRange) (k : N) : Prop := start r <= k < end_ r.

Lemma into_from_proto r : from_proto (into_proto r) = r.
Proof. by destruct r. Qed.

Lemma covers_intersection a b k : covers (intersection a b) k <-> covers a k /\ covers b k.
Proof.
  unfold covers, intersection. destruct (N.ltb_spec (N.max (start a) (start b))
    (N.min (end_ a) (end_ b))); cbn; lia.
Qed.

Lemma is_empty_intersection a b :
  is_empty (intersection a b) = true <-> forall k, ~ (covers a k /\ covers b k).
Proof.
  unfold is_empty, intersection, covers.
  destruct (N.ltb_spec (N.max (start a) (start b)) (N.min (end_ a) (end_ b))) as [Hl|Hl]; cbn.
  - split.
    + intros He%N.eqb_eq. lia.
    + intros Hn. destruct (Hn (N.max (start a) (start b))). lia.
  - split; [|done]. intros _ k Hk. lia.
Qed.

Lemma contains_hash_covers {E} r h :
  0 < partitions r ->
  exists b, contains_hash (E := E) r h = Ok b /\ (b = true <-> covers r (h mod partitions r)).
Proof.
  intros Hp. unfold contains_hash. usimp. eexists. split; [done|].
  unfold covers. rewrite andb_true_iff, N.leb_le, N.ltb_lt. done.
Qed.

Lemma size_intersection_le {E} a b :
  start a <= end_ a ->
  exists n, size (E := E) (intersection a b) = Ok n /\ n <= end_ a - start a.
Proof.
  intros Ha. unfold size, intersection.
  destruct (N.ltb_spec (N.max (start a) (start b)) (N.min (end_ a) (end_ b))); cbn.
  - eexists. rewrite usub_le by lia. split; [done|]. lia.
  - exists 0. rewrite usub_le by lia. split; [done|]. lia.
Qed.
End ops.
End PartitionRangeOps.
Import PartitionRangeOps.

(** ** Tilings of the hash space *)

(** Consecutive ranges over [p] buckets that start at [lo] and end at [hi]. *)
Fixpoint tiles (p lo hi : N) (rs : list PartitionRange) : Prop :=
  match rs with
  | [] => lo = hi
  | r :: rs => start r = lo /\ start r <= end_ r /\ partitions r = p /\ tiles p (end_ r) hi rs
  end.

Lemma tiles_le p lo hi rs : tiles p lo hi rs -> lo <= hi.
Proof.
  revert lo. induction rs as [|r rs IH]; intros lo; cbn; [lia|].
  intros (<- & ? & _ & ?%IH). lia.
Qed.

Lemma tiles_Forall p lo hi rs :
  tiles p lo hi rs ->
  Forall (fun r => partitions r = p /\ lo <= start r /\ start r <= end_ r /\ end_ r <= hi) rs.
Proof.
  revert lo. induction rs as [|r rs IH]; intros lo; cbn; [constructor|].
  intros (<- & Hr & Hp & Ht). pose proof (tiles_le _ _ _ _ Ht). constructor; [lia|].
  eapply Forall_impl; [by apply IH|]. cbn. lia.
Qed.

(** Counting, for every bucket, the ranges of a list that cover it. *)
Definition covers_b (r : PartitionRange) (k : N) : bool := (start r <=? k) && (k <? end_ r).

Lemma covers_b_covers r k : covers_b r k = true <-> covers r k.
Proof. unfold covers_b, covers. rewrite andb_true_iff, N.leb_le, N.ltb_lt. done. Qed.

Definition cover_count (k : N) (rs : list PartitionRange) : nat :=
  length (List.filter (fun r => covers_b r k) rs).

Lemma cover_count_cons k r rs :
  cover_count k (r :: rs) = ((if covers_b r k then 1 else 0) + cover_count k rs)%nat.
Proof. unfold cover_count. cbn. by destruct (covers_b r k). Qed.

Lemma tiles_below p lo hi rs k : tiles p lo hi rs -> k < lo -> cover_count k rs = 0%nat.
Proof.
  revert lo. induction rs as [|r rs IH]; intros lo; [done|].
  intros (<- & Hr & Hp & Ht) Hk. rewrite cover_count_cons, (IH _ Ht) by lia.
  destruct (covers_b r k) eqn:Hc; [|done]. apply covers_b_covers in Hc. unfold covers in Hc. lia.
Qed.

Lemma tiles_cover_once p lo hi rs k :
  tiles p lo hi rs -> lo <= k < hi -> cover_count k rs = 1%nat.
Proof.
  revert lo. induction rs as [|r rs IH]; intros lo; [cbn; lia|].
  intros (<- & Hr & Hp & Ht) Hk. rewrite cover_count_cons.
  destruct (covers_b r k) eqn:Hc.
  - apply covers_b_covers in Hc. unfold covers in Hc. rewrite (tiles_below _ _ _ _ _ Ht); lia.
  - rewrite (IH _ Ht); [lia|].
    assert (~ covers r k) as Hn by (rewrite <- covers_b_covers; congruence).
    unfold covers in Hn. lia.
Qed.

(** ** Filtering a batch by a partition range *)

(** A cast [as u32]. *)
Definition as_u32 (i : nat) : nat := N.to_nat (N.of_nat i mod 4294967296).

Lemma as_u32_small i : (N.of_nat i < 4294967296) -> as_u32 i = i.
Proof. intros Hi. unfold as_u32. rewrite N.mod_small by done. lia. Qed.

Section filtering.
Context `{Profile} `{Arrow}.

Record PartitioningSpec := mkPartitioningSpec { expressions : list Expr }.

(** The loop over the hash buffer that collects the indices of the kept rows. *)
Fixpoint select_indices (partition_range : PartitionRange) (index : nat)
    (hash_buffer : list N) : res DataFusionError (list nat) :=
  match hash_buffer with
  | [] => Ok []
  | hash :: rest =>
      keep ← contains_hash partition_range hash;
      indices ← select_indices partition_range (S index) rest;
      Ok (if keep : bool then as_u32 index :: indices else indices)
  end.

Definition filter_by_partition_range (batch : Batch) (partition_range : PartitionRange)
    (exprs : list Expr) : res DataFusionError Batch :=
  arrays ← try_collect (fun expr => evaluate expr batch) exprs;
  hash_buffer ← create_hashes arrays (num_rows batch);
  indices ← select_indices partition_range 0 hash_buffer;
  columns ← take_arrays (columns batch) indices;
  try_new_with_options (batch_schema batch) columns (Some (length indices)).

(** The bucket test of the loop, for a hash that is known. *)
Definition keeps (r : PartitionRange) (hs : list N) (i : nat) : bool :=
  match hs !! i with Some h => covers_b r (h mod partitions r) | None => false end.

Lemma select_indices_spec r i hs :
  0 < partitions r -> N.of_nat (i + length hs) <= 4294967296 ->
  select_indices r i hs = Ok (List.filter (fun j => keeps r hs (j - i)) (seq i (length hs))).
Proof.
  intros Hp. revert i. induction hs as [|h hs IH]; intros i Hi; [done|]. cbn in *.
  destruct (contains_hash_covers (E := DataFusionError) r h Hp) as (b & Hb & Hc).
  rewrite Hb. cbn. rewrite IH by lia. cbn.
  assert (b = keeps r (h :: hs) (i - i)) as <-.
  { rewrite Nat.sub_diag. cbn. apply eq_bool_prop_intro. rewrite !Is_true_true, Hc.
    by rewrite covers_b_covers. }
  assert (List.filter (fun j => keeps r hs (j - S i)) (seq (S i) (length hs)) =
          List.filter (fun j => keeps r (h :: hs) (j - i)) (seq (S i) (length hs))) as ->.
  { apply filter_ext_in. intros j [Hj _]%in_seq. unfold keeps.
    by replace (j - i)%nat with (S (j - S i)) by lia. }
  rewrite as_u32_small by lia. by destruct b.
Qed.
End filtering.

Section filtering_correct.
Context `{Profile} `{ArrowLaws}.

(** Filtering succeeds whenever the expressions evaluate and hash, and keeps exactly the
    rows whose hash falls in the range, in their order. *)
Lemma filter_by_partition_range_spec batch r exprs arrays hs :
  0 < partitions r -> N.of_nat (num_rows batch) <= 4294967296 ->
  try_collect (fun e => evaluate e batch) exprs = Ok arrays ->
  create_hashes arrays (num_rows batch) = Ok hs ->
  exists b', filter_by_partition_range batch r exprs = Ok b' /\
    batch_schema b' = batch_schema batch /\
    map Some (rows b') =
      (fun i => rows batch !! i) <$> List.filter (keeps r hs) (seq 0 (num_rows batch)).
Proof.
  intros Hp Hn Harr Hhs. pose proof (create_hashes_length _ _ _ Hhs) as Hlen.
  pose proof (select_indices_spec r 0 hs Hp ltac:(lia)) as Hsel.
  rewrite Hlen in Hsel.
  assert (List.filter (fun j => keeps r hs (j - 0)) (seq 0 (num_rows batch)) =
          List.filter (keeps r hs) (seq 0 (num_rows batch))) as Hf.
  { apply filter_ext. intros j. by rewrite Nat.sub_0_r. }
  rewrite Hf in Hsel. set (ix := List.filter (keeps r hs) _) in *.
  destruct (take_rows batch ix) as (cs & b' & Hcs & Hb' & Hs & Hrows).
  { apply Forall_forall. intros i Hi. subst ix.
    apply list_elem_of_In, filter_In in Hi as [Hi _].
    apply in_seq in Hi. lia. }
  exists b'. split; [|done]. unfold filter_by_partition_range.
  rewrite Harr. cbn. rewrite Hhs. cbn. rewrite Hsel. cbn. rewrite Hcs. cbn. done.
Qed.

Lemma filter_tiling_rows batch rs p exprs arrays hs :
  0 < p -> tiles p 0 p rs -> N.of_nat (num_rows batch) <= 4294967296 ->
  try_collect (fun e => evaluate e batch) exprs = Ok arrays ->
  create_hashes arrays (num_rows batch) = Ok hs ->
  exists bs, try_collect (fun r => filter_by_partition_range batch r exprs) rs = Ok bs /\
    concat (map rows bs) ≡ₚ rows batch.
Proof.
  intros Hp Ht Hn Harr Hhs.
  assert (exists bs, try_collect (fun r => filter_by_partition_range batch r exprs) rs = Ok bs
    /\ map Some (concat (map rows bs)) = (fun i => rows batch !! i) <$>
         concat (map (fun q => List.filter q (seq 0 (num_rows batch)))
                   (map (fun r => keeps r hs) rs))) as (bs & Hbs & Hrows).
  { pose proof (tiles_Forall _ _ _ _ Ht) as Hall. clear Ht.
    induction Hall as [|r rs [Hr _] _ (bs & Hbs & IH)]; [by exists []|].
    destruct (filter_by_partition_range_spec batch r exprs arrays hs) as (b' & Hb' & _ & Hrow);
      [lia|done..|].
    exists (b' :: bs). cbn. rewrite Hb'. cbn. rewrite Hbs. split; [done|].
    rewrite map_app, fmap_app, Hrow. f_equal. exact IH. }
  exists bs. split; [done|]. apply map_Some_inj_Permutation. rewrite Hrows.
  rewrite <- lookup_seq_all, <- num_rows_rows. apply fmap_Permutation, concat_filter_once.
  apply Forall_forall. intros i Hi%elem_of_seq.
  destruct (lookup_lt_is_Some_2 hs i) as [h Hh].
  { rewrite (create_hashes_length _ _ _ Hhs). lia. }
  rewrite <- (tiles_cover_once p 0 p rs (h mod p)); [|done|].
  2:{ split; [apply N.le_0_l|]. apply N.mod_lt. lia. }
  apply tiles_Forall in Ht. clear -Ht Hh. unfold cover_count, keeps.
  induction Ht as [|r rs [Hr _] _ IH]; cbn; [done|].
  rewrite Hh, Hr. destruct (covers_b r (h mod p)); cbn; by rewrite IH.
Qed.

(** C1: hash partitioning loses and duplicates no row.  If the ranges tile the hash space
    [0, p) and the key expressions evaluate and hash on the batch, then filtering the batch
    by every range succeeds and the concatenation of the filtered batches is a permutation
    of the rows of the batch. *)
Theorem filter_by_tiling_partitions_rows batch rs p exprs arrays hs :
  0 < p -> tiles p 0 p rs -> N.of_nat (num_rows batch) <= 4294967296 ->
  try_collect (fun e => evaluate e batch) exprs = Ok arrays ->
  create_hashes arrays (num_rows batch) = Ok hs ->
  exists bs, try_collect (fun r => filter_by_partition_range batch r exprs) rs = Ok bs /\
    concat (map rows bs) ≡ₚ rows batch.
Proof. apply filter_tiling_rows. Qed.
End filtering_correct.

(** Two ranges that tile three buckets, on a batch of four rows. *)
Lemma filter_by_tiling_partitions_rows_witness :
  exists bs : list RowArrow.batch,
    try_collect (fun r => @filter_by_partition_range RowArrow.arrow
      (RowArrow.Build_batch ["k"] [[7]; [8]; [9]; [10]]) r [0%nat])
      [mkRange 0 1 3; mkRange 1 3 3] = Ok bs /\
    concat (map RowArrow.b_rows bs) ≡ₚ [[7]; [8]; [9]; [10]].
Proof.
  pose (b := RowArrow.Build_batch ["k"] [[7]; [8]; [9]; [10]]).
  apply (@filter_by_tiling_partitions_rows RowArrow.arrow RowArrow.arrow_laws b
           [mkRange 0 1 3; mkRange 1 3 3] 3 [0%nat]
           [([[7]; [8]; [9]; [10]], Some 0%nat)] [7; 8; 9; 10]).
  - lia.
  - cbn. lia.
  - cbn. lia.
  - reflexivity.
  - reflexivity.
Defined.
