(* ===== verification/Stream.v ===== *)
(** * Stream items and the merged, marker-aligned input stream (src/streaming/action_stream.rs)

    [Marker], [StreamItem], [OrdinalStreamItem] and [SItem] are the items that flow between
    operators; [MergedActionStream] merges the inputs of an operator and aligns their
    checkpoint markers: an input that delivered a marker is blocked until every other input
    delivered its own, and then one marker is passed downstream. *)

From S2P Require Import Prelude.

Record Marker := mkMarker { checkpoint_number : N }.

#[global] Instance Marker_eq_dec : EqDecision Marker.
Proof. solve_decision. Defined.

Inductive StreamItem (B : Type) :=
  | SIMarker (m : Marker)
  | SIRecordBatch (b : B).
Arguments SIMarker {B} _.
Arguments SIRecordBatch {B} _.

Inductive OrdinalStreamItem (B : Type) :=
  | OMarker (m : Marker)
  | ORecordBatch (ordinal : N) (b : B).
Arguments OMarker {B} _.
Arguments ORecordBatch {B} _ _.

(** src/streaming/operators/task_function.rs *)
Inductive SItem (B : Type) :=
  | SRecordBatch (b : B)
  | SMarker (m : Marker)
  | SGeneration (g : N).
Arguments SRecordBatch {B} _.
Arguments SMarker {B} _.
Arguments SGeneration {B} _.

(** [impl From<StreamItem> for SItem] *)
Definition sitem_of_stream_item {B} (i : StreamItem B) : SItem B :=
  match i with
  | SIRecordBatch b => SRecordBatch b
  | SIMarker m => SMarker m
  end.

Inductive Poll (A : Type) := Ready (a : A) | Pending.
Arguments Ready {A} _.
Arguments Pending {A}.

(** ** Markers on the wire

    The bytes are produced by prost from the generated message [proto::Marker]. *)
Class MarkerProto := {
  encode_to_vec : N -> list N;
  decode : list N -> res string N;
}.
Class MarkerProtoLaws `{MarkerProto} : Prop := {
  decode_encode n : fits n -> decode (encode_to_vec n) = Ok n;
}.

Section marker_bytes.
Context `{MarkerProto}.

Definition to_bytes (self : Marker) : list N := encode_to_vec (checkpoint_number self).

Definition from_bytes (buffer : list N) : res string Marker :=
  proto_marker ← decode buffer; Ok (mkMarker proto_marker).

Lemma marker_bytes_roundtrip `{!MarkerProtoLaws} m :
  fits (checkpoint_number m) -> from_bytes (to_bytes m) = Ok m.
Proof.
  intros Hm. unfold from_bytes, to_bytes. rewrite decode_encode by done. by destruct m.
Qed.
End marker_bytes.

(** ** The merged stream *)

Module MergedActionStream.

(** [rand]'s [SliceRandom::shuffle] on the list of the unblocked inputs. *)
Class Shuffle := {
  Rng : Type;
  shuffle : Rng -> list nat -> list nat * Rng;
}.
Class ShuffleLaws `{Shuffle} : Prop := {
  shuffle_perm r l : fst (shuffle r l) ≡ₚ l;
}.

Section merged.
Context {B : Type} `{Shuffle}.

Abbreviation StreamResult := (res DataFusionError (StreamItem B)).

(** The future of a fused input stream: each entry is the answer to one poll ([None] is
    [Poll::Pending]); after the last entry every poll answers [Ready(None)]. *)
Abbreviation polls := (list (option StreamResult)).

Definition poll_stream (s : polls) : Poll (option StreamResult) * polls :=
  match s with
  | [] => (Ready None, [])
  | None :: s => (Pending, s)
  | Some item :: s => (Ready (Some item), s)
  end.

Record InputStream := mkInput { ordinal : N; blocked : bool; stream : polls }.

Record t := mkMerged {
  inputs : list InputStream;
  current_checkpoint : option N;
  rng : Rng;
}.

Definition merge_inputs (r : Rng) (ins : list (N * polls)) : t := {|
  inputs := (fun x => mkInput (fst x) false (snd x)) <$> ins;
  current_checkpoint := None;
  rng := r;
|}.

(** The indices of the unblocked inputs, in order. *)
Definition unblocked_indices (ins : list InputStream) : list nat :=
  List.filter (fun i => match ins !! i with Some x => negb (blocked x) | None => false end)
    (seq 0 (length ins)).

Inductive loop_result :=
  | Return (out : option (res DataFusionError (OrdinalStreamItem B)))
  | Finished (some_pending : bool).

(** The [for input in unblocked_inputs] loop. *)
Fixpoint poll_inputs (order : list nat) (ins : list InputStream) (cp : option N)
    (some_pending : bool) : loop_result * list InputStream * option N :=
  match order with
  | [] => (Finished some_pending, ins, cp)
  | i :: order =>
      match ins !! i with
      | None => poll_inputs order ins cp some_pending
      | Some input =>
          match poll_stream (stream input) with
          | (Ready (Some (Ok (SIRecordBatch b))), s) =>
              (Return (Some (Ok (ORecordBatch (ordinal input) b))),
               <[i := mkInput (ordinal input) (blocked input) s]> ins, cp)
          | (Ready (Some (Ok (SIMarker m))), s) =>
              let ins := <[i := mkInput (ordinal input) true s]> ins in
              let cp := match cp with
                        | Some current => Some current (* a mismatch is only printed *)
                        | None => Some (checkpoint_number m)
                        end in
              poll_inputs order ins cp some_pending
          | (Ready (Some (Err e)), s) =>
              (Return (Some (Err e)),
               <[i := mkInput (ordinal input) (blocked input) s]> ins, cp)
          | (Ready (Some (Panic w)), s) =>
              (Return (Some (Panic w)),
               <[i := mkInput (ordinal input) (blocked input) s]> ins, cp)
          | (Pending, s) =>
              poll_inputs order (<[i := mkInput (ordinal input) (blocked input) s]> ins) cp true
          | (Ready None, s) =>
              poll_inputs order (<[i := mkInput (ordinal input) (blocked input) s]> ins) cp
                some_pending
          end
      end
  end.

Definition unblock (x : InputStream) : InputStream := mkInput (ordinal x) false (stream x).

Definition poll_next (self : t) : Poll (option (res DataFusionError (OrdinalStreamItem B))) * t :=
  let '(order, r) := shuffle (rng self) (unblocked_indices (inputs self)) in
  let '(result, ins, cp) := poll_inputs order (inputs self) (current_checkpoint self) false in
  match result with
  | Return out => (Ready out, mkMerged ins cp r)
  | Finished true => (Pending, mkMerged ins cp r)
  | Finished false =>
      if existsb blocked ins then
        match cp with
        | Some c => (Ready (Some (Ok (OMarker (mkMarker c)))), mkMerged (unblock <$> ins) None r)
        | None => (Ready None, mkMerged ins cp r)
        end
      else (Ready None, mkMerged ins cp r)
  end.

(** A consumer that polls until the stream ends and collects what it was given. *)
Fixpoint drain (fuel : nat) (self : t)
    : option (list (res DataFusionError (OrdinalStreamItem B))) :=
  match fuel with
  | O => None
  | S fuel =>
      match poll_next self with
      | (Ready None, _) => Some []
      | (Ready (Some x), self) => cons x <$> drain fuel self
      | (Pending, self) => drain fuel self
      end
  end.

(** *** What an input delivers, and what the merged stream delivers of it *)

Definition items (s : polls) : list StreamResult := omap id s.

Definition project (o : N) (x : res DataFusionError (OrdinalStreamItem B)) : option StreamResult :=
  match x with
  | Ok (OMarker m) => Some (Ok (SIMarker m))
  | Ok (ORecordBatch o' b) => if o =? o' then Some (Ok (SIRecordBatch b)) else None
  | Err _ => None
  | Panic _ => None
  end.

Definition is_marker (x : StreamResult) : option Marker :=
  match x with Ok (SIMarker m) => Some m | _ => None end.
Definition markers (l : list StreamResult) : list Marker := omap is_marker l.

(** Polls an input can still cause: each entry of its stream, and the marker it waits for. *)
Definition weight (x : InputStream) : nat :=
  (2 * length (stream x) + (if blocked x then 1 else 0))%nat.
Definition total (ins : list InputStream) : nat := sum_list_with weight ins.
Definition measure (self : t) : nat := total (inputs self).

(** What is still to come from an input: the marker it is blocked on and its stream. *)
Definition pend (cp : option N) (x : InputStream) : list StreamResult :=
  (if blocked x then
     match cp with Some c => [Ok (SIMarker (mkMarker c))] | None => [] end
   else []) ++ items (stream x).

Definition all_ok (l : list StreamResult) : Prop := Forall is_Ok l.

(** A checkpoint is current exactly while some input is blocked. *)
Definition cp_ok (ins : list InputStream) (cp : option N) : Prop :=
  match cp with
  | None => Forall (fun x => blocked x = false) ins
  | Some _ => Exists (fun x => blocked x = true) ins
  end.

(** The invariant: ordinals are distinct, no input will fail, and all of them will deliver
    the same markers [M]. *)
Definition wf (M : list Marker) (ins : list InputStream) (cp : option N) : Prop :=
  NoDup (ordinal <$> ins) /\
  Forall (fun x => all_ok (pend cp x) /\ markers (pend cp x) = M) ins /\
  cp_ok ins cp.

(** [ins] delivers [out], then behaves like [ins']. *)
Definition delivers (out : N -> list StreamResult) cp ins cp' ins' : Prop :=
  Forall2 (fun x y => ordinal x = ordinal y /\ pend cp x = out (ordinal x) ++ pend cp' y) ins ins'.

Abbreviation silent := (delivers (fun _ => [])).

Lemma total_insert ins i x y :
  ins !! i = Some x -> (total (<[i := y]> ins) + weight x = total ins + weight y)%nat.
Proof.
  unfold total. revert i. induction ins as [|z ins IH]; intros [|i]; cbn [lookup list_lookup];
    [done..| |].
  - intros [= ->]. cbn - [weight]. lia.
  - intros Hi%IH.
    change (sum_list_with weight (<[S i := y]> (z :: ins)))
      with (weight z + sum_list_with weight (<[i := y]> ins))%nat.
    cbn [sum_list_with]. lia.
Qed.

Lemma delivers_refl cp ins : silent cp ins cp ins.
Proof. induction ins; by constructor. Qed.

Lemma delivers_ordinals out cp ins cp' ins' :
  delivers out cp ins cp' ins' -> ordinal <$> ins' = ordinal <$> ins.
Proof. induction 1 as [|x y ins ins' [? _] _ IH]; cbn; [done|]. congruence. Qed.

Lemma delivers_trans out cp ins cp1 ins1 cp2 ins2 :
  silent cp ins cp1 ins1 -> delivers out cp1 ins1 cp2 ins2 -> delivers out cp ins cp2 ins2.
Proof.
  intros H1 H2. eapply Forall2_trans; [|exact H1|exact H2].
  cbn. intros x y z [-> ->] [-> Hy]. done.
Qed.

Lemma delivers_insert (out : N -> list StreamResult) cp ins i x y :
  NoDup (ordinal <$> ins) ->
  ins !! i = Some x -> ordinal y = ordinal x -> pend cp x = out (ordinal x) ++ pend cp y ->
  (forall o, o <> ordinal x -> out o = []) ->
  delivers out cp ins cp (<[i := y]> ins).
Proof.
  intros Hnd Hi Hord Hpend Hout. apply Forall2_same_length_lookup.
  split; [by rewrite length_insert|]. intros j a b Ha Hb.
  destruct (decide (i = j)) as [<-|Hij].
  - rewrite list_lookup_insert_eq in Hb by by eapply lookup_lt_Some. naive_solver.
  - rewrite list_lookup_insert_ne in Hb by done. simplify_eq. split; [done|].
    rewrite Hout; [done|]. intros Heq. apply Hij.
    apply (NoDup_lookup _ i j (ordinal x) Hnd); rewrite list_lookup_fmap.
    + by rewrite Hi.
    + rewrite Ha. cbn. by f_equal.
Qed.

(** Recording the first marker changes nothing for inputs that are not blocked. *)
Lemma silent_set_cp cp cp' ins :
  cp_ok ins cp -> (forall c, cp = Some c -> cp' = Some c) -> silent cp ins cp' ins.
Proof.
  intros Hok Hcp. apply Forall2_same_length_lookup. split; [done|].
  intros j a b Ha Hb. simplify_eq. split; [done|]. cbn. destruct cp as [c|]; cbn in *.
  - by rewrite (Hcp c).
  - rewrite Forall_lookup in Hok. apply Hok in Ha. unfold pend. by rewrite Ha.
Qed.

Lemma delivers_wf out M cp ins cp' ins' :
  wf (markers (out 0) ++ M) ins cp -> (forall o, markers (out o) = markers (out 0)) ->
  delivers out cp ins cp' ins' -> cp_ok ins' cp' -> wf M ins' cp'.
Proof.
  intros (Hnd & Hall & _) Hout Hd Hok. split; [|split; [|done]].
  - by rewrite (delivers_ordinals _ _ _ _ _ Hd).
  - clear Hnd Hok. induction Hd as [|x y ins ins' [Hxy Hp] _ IH]; [constructor|].
    apply Forall_cons in Hall as [[Hx HM] Hall]. constructor; [|by apply IH].
    unfold all_ok in *. rewrite Hp in Hx, HM. apply Forall_app in Hx as [_ Hx].
    split; [done|]. unfold markers in *. rewrite omap_app in HM.
    rewrite <- (Hout (ordinal x)) in HM. by eapply app_inv_head.
Qed.

Lemma silent_wf M cp ins cp' ins' :
  wf M ins cp -> silent cp ins cp' ins' -> cp_ok ins' cp' -> wf M ins' cp'.
Proof. intros Hwf Hd Hok. by eapply (delivers_wf (fun _ => [])). Qed.

(** The first pending item of an unblocked input is the head of its stream. *)
Lemma wf_head_ok M ins cp i x item s :
  wf M ins cp -> ins !! i = Some x -> stream x = Some item :: s -> is_Ok item.
Proof.
  intros (_ & Hall & _) Hi Hs. rewrite Forall_lookup in Hall. apply Hall in Hi as [Hi _].
  unfold all_ok, pend in Hi. apply Forall_app in Hi as [_ Hi]. rewrite Hs in Hi. cbn in Hi.
  by apply Forall_cons in Hi as [? _].
Qed.

Lemma cp_ok_insert_same ins i x y cp :
  ins !! i = Some x -> blocked y = blocked x -> cp_ok ins cp -> cp_ok (<[i := y]> ins) cp.
Proof.
  intros Hi Hb. pose proof (lookup_lt_Some _ _ _ Hi) as Hlt. unfold cp_ok.
  destruct cp; rewrite ?Exists_exists, ?Forall_lookup.
  - intros (z & Hz & Hzb). apply list_elem_of_lookup in Hz as [j Hj].
    destruct (decide (i = j)) as [<-|Hij].
    + exists y. split; [|congruence].
      apply list_elem_of_lookup. exists i. by apply list_lookup_insert_eq.
    + exists z. split; [|done]. apply list_elem_of_lookup. exists j.
      by rewrite list_lookup_insert_ne.
  - intros Hall j z. destruct (decide (i = j)) as [<-|Hij].
    + rewrite list_lookup_insert_eq by done. intros [= <-]. rewrite Hb. by eapply Hall.
    + rewrite list_lookup_insert_ne by done. apply Hall.
Qed.

Lemma cp_ok_insert_blocked (ins : list InputStream) i x y c :
  ins !! i = Some x -> blocked y = true -> cp_ok (<[i := y]> ins) (Some c).
Proof.
  intros Hi%lookup_lt_Some Hb. apply Exists_exists. exists y. split; [|done].
  apply list_elem_of_lookup. exists i. by apply list_lookup_insert_eq.
Qed.

(** The marker an unblocked input delivers while another waits is the same marker. *)
Lemma wf_marker_agrees M ins c i x m s :
  wf M ins (Some c) -> ins !! i = Some x -> blocked x = false ->
  stream x = Some (Ok (SIMarker m)) :: s -> m = mkMarker c.
Proof.
  intros (_ & Hall & Hok) Hi Hb Hs. cbn in Hok.
  apply Exists_exists in Hok as (y & Hy & Hyb). rewrite Forall_forall in Hall.
  destruct (Hall y Hy) as [_ HMy]. destruct (Hall x) as [_ HMx].
  { apply list_elem_of_lookup. eauto. }
  unfold pend in *. rewrite Hyb in HMy. rewrite Hb, Hs in HMx.
  cbn in *. congruence.
Qed.

(** One input moves from [x] to [y] without the stream returning. *)
Lemma silent_step M ins cp i x y cp' :
  wf M ins cp -> ins !! i = Some x -> ordinal y = ordinal x ->
  (forall c, cp = Some c -> cp' = Some c) ->
  pend cp x = pend cp' y -> cp_ok (<[i := y]> ins) cp' ->
  silent cp ins cp' (<[i := y]> ins) /\ wf M (<[i := y]> ins) cp'.
Proof.
  intros Hwf Hi Hord Hcp Hpend Hok.
  assert (silent cp ins cp' (<[i := y]> ins)) as Hs; [|by eauto using silent_wf].
  apply Forall2_same_length_lookup. split; [by rewrite length_insert|]. intros j a b Ha Hb.
  destruct (decide (i = j)) as [<-|Hij].
  - rewrite list_lookup_insert_eq in Hb by by eapply lookup_lt_Some. naive_solver.
  - rewrite list_lookup_insert_ne in Hb by done. simplify_eq. split; [done|]. cbn.
    pose proof (silent_set_cp cp cp' ins ltac:(apply Hwf) Hcp) as Hset.
    eapply Forall2_lookup_lr in Hset; [|exact Ha..]. apply Hset.
Qed.

(** Every index of the order is an input that is not blocked. *)
Definition free (order : list nat) (ins : list InputStream) : Prop :=
  NoDup order /\ Forall (fun i => exists x, ins !! i = Some x /\ blocked x = false) order.

Lemma free_insert i order ins y : free (i :: order) ins -> free order (<[i := y]> ins).
Proof.
  intros [[Hi Hnd]%NoDup_cons [_ Hall]%Forall_cons]. split; [done|].
  rewrite Forall_forall in *. intros j Hj. destruct (Hall j Hj) as (x & Hx & Hb).
  exists x. split; [|done]. rewrite list_lookup_insert_ne; [done|]. set_solver.
Qed.

Definition one_batch (o : N) (b : B) (o' : N) : list StreamResult :=
  if o' =? o then [Ok (SIRecordBatch b)] else [].

(** What the loop over the unblocked inputs establishes. *)
Definition loop_post (order : list nat) ins cp sp
    (r : loop_result * list InputStream * option N) : Prop :=
  let '(result, ins', cp') := r in
  cp_ok ins' cp' /\
  match result with
  | Return out => exists o b, out = Some (Ok (ORecordBatch o b)) /\ o ∈ ordinal <$> ins /\
      delivers (one_batch o b) cp ins cp' ins' /\ (total ins' < total ins)%nat
  | Finished sp' => silent cp ins cp' ins' /\ (total ins' <= total ins)%nat /\
      (sp' = true -> sp = true \/ (total ins' < total ins)%nat) /\
      (sp' = false -> forall i x, i ∈ order -> ins' !! i = Some x ->
         blocked x = true \/ stream x = []) /\
      (forall i, i ∉ order -> ins' !! i = ins !! i)
  end.

Lemma loop_post_step order ins cp sp i y cp1 sp1 r x :
  ins !! i = Some x -> i ∉ order ->
  silent cp ins cp1 (<[i := y]> ins) -> (weight y <= weight x)%nat ->
  (sp1 = true -> sp = true \/ (weight y < weight x)%nat) ->
  (sp1 = false -> blocked y = true \/ stream y = []) -> (sp = true -> sp1 = true) ->
  loop_post order (<[i := y]> ins) cp1 sp1 r -> (forall ins2 cp2, r = (Finished false, ins2, cp2) -> sp1 = false) ->
  loop_post (i :: order) ins cp sp r.
Proof.
  intros Hi Hni Hs Hw Hsp1 Hy Hsp. destruct r as [[result ins'] cp'].
  pose proof (total_insert ins i x y Hi) as Htot. cbn. intros [Hok Hres] Hfin.
  split; [done|]. destruct result as [out|sp'].
  - destruct Hres as (o & b & -> & Ho & Hd & Hlt). exists o, b. split; [done|].
    rewrite <- (delivers_ordinals _ _ _ _ _ Hs). split; [done|].
    split; [by eapply delivers_trans|lia].
  - destruct Hres as (Hd & Hle & Htrue & Hfalse & Hrest).
    split; [by eapply delivers_trans|]. split; [lia|]. split.
    { intros [H1|]%Htrue; [|right; lia]. destruct (Hsp1 H1); [by left|right; lia]. }
    split.
    + intros -> j z [->|Hj]%elem_of_cons Hz; [|by eauto].
      rewrite Hrest, list_lookup_insert_eq in Hz by (done || by eapply lookup_lt_Some).
      simplify_eq. by eapply Hy, Hfin.
    + intros j Hj. rewrite Hrest by set_solver.
      apply list_lookup_insert_ne. set_solver.
Qed.

Lemma poll_inputs_sp order ins cp ins' cp' sp :
  poll_inputs order ins cp sp = (Finished false, ins', cp') -> sp = false.
Proof.
  revert ins cp sp. induction order as [|i order IH]; intros ins cp sp; cbn; [naive_solver|].
  destruct (ins !! i) as [x|]; [|eauto].
  destruct (stream x) as [|[[[m|b]|e|w]|] s]; cbn; try done; eauto.
  intros H'%IH. done.
Qed.

Lemma poll_inputs_post M order ins cp sp :
  wf M ins cp -> free order ins ->
  loop_post order ins cp sp (poll_inputs order ins cp sp).
Proof.
  revert ins cp sp. induction order as [|i order IH]; intros ins cp sp Hwf Hfree; cbn.
  { split; [apply Hwf|]. split; [apply delivers_refl|]. split; [lia|]. split; [by left|].
    split; [set_solver|done]. }
  pose proof (free_insert i order ins) as Hins. specialize (fun y => Hins y Hfree).
  destruct Hfree as [[Hni _]%NoDup_cons [(x & Hx & Hb) _]%Forall_cons]. rewrite Hx.
  destruct x as [o bl s0]. cbn in Hb. subst bl.
  destruct s0 as [|[item|] s]; cbn - [weight].
  - destruct (silent_step M ins cp i _ (mkInput o false []) cp Hwf Hx) as [Hs Hwf'];
      [done..|by eapply cp_ok_insert_same, Hwf|].
    eapply loop_post_step; eauto using poll_inputs_sp.
  - destruct (wf_head_ok M ins cp i _ _ _ Hwf Hx eq_refl) as [[m|b] ->].
    + set (cp1 := match cp with Some _ => _ | None => _ end).
      assert (exists c, cp1 = Some c /\ m = mkMarker c /\ forall c', cp = Some c' -> c' = c)
        as (c & -> & -> & Hc).
      { subst cp1. destruct cp as [c|].
        - exists c. split; [done|]. split; [by eapply wf_marker_agrees|]. congruence.
        - exists (checkpoint_number m). by destruct m. }
      destruct (silent_step M ins cp i _ (mkInput o true s) (Some c) Hwf Hx) as [Hs Hwf'];
        [done|naive_solver|done|by eapply cp_ok_insert_blocked|].
      eapply loop_post_step; eauto using poll_inputs_sp; cbn; lia || auto.
    + split; [by eapply cp_ok_insert_same, Hwf|]. exists o, b. split; [done|]. split.
      { apply list_elem_of_fmap. exists (mkInput o false (Some (Ok (SIRecordBatch b)) :: s)).
        split; [done|]. by eapply list_elem_of_lookup_2. }
      split.
      * eapply delivers_insert; [apply Hwf|done|done|..]; unfold one_batch; cbn.
        -- by rewrite N.eqb_refl.
        -- intros o' Ho'%N.eqb_neq. by rewrite Ho'.
      * pose proof (total_insert ins i _ (mkInput o false s) Hx) as Ht.
        unfold weight in Ht. cbn in Ht. lia.
  - destruct (silent_step M ins cp i _ (mkInput o false s) cp Hwf Hx) as [Hs Hwf'];
      [done..|by eapply cp_ok_insert_same, Hwf|].
    eapply (loop_post_step _ _ _ _ _ _ _ true); eauto using poll_inputs_sp; cbn; [lia|].
    intros _. right. lia.
Qed.

Lemma unblocked_free ins order : order ≡ₚ unblocked_indices ins -> free order ins.
Proof.
  intros Hperm. split.
  - rewrite Hperm. apply NoDup_ListNoDup, List.NoDup_filter, seq_NoDup.
  - rewrite Forall_forall. intros i Hi. rewrite Hperm in Hi.
    apply list_elem_of_In, filter_In in Hi as [_ Hi].
    destruct (ins !! i) as [x|] eqn:Hx; [|done]. exists x. by destruct (blocked x).
Qed.

Lemma not_unblocked ins i x :
  ins !! i = Some x -> i ∉ unblocked_indices ins -> blocked x = true.
Proof.
  intros Hx Hi. destruct (blocked x) eqn:Hb; [done|]. destruct Hi.
  apply list_elem_of_In, filter_In. rewrite Hx, Hb. split; [|done].
  apply in_seq. apply lookup_lt_Some in Hx. lia.
Qed.

(** What one poll of the merged stream does to a well-formed state: it delivers an item and
    shrinks, ends when nothing is left, or is pending and shrinks. *)
Definition poll_post M self
    (r : Poll (option (res DataFusionError (OrdinalStreamItem B))) * t) : Prop :=
  let '(p, self') := r in
  let step out M' :=
    delivers out (current_checkpoint self) (inputs self) (current_checkpoint self') (inputs self') /\
    wf M' (inputs self') (current_checkpoint self') /\ (measure self' < measure self)%nat in
  match p with
  | Pending => step (fun _ => []) M
  | Ready None => Forall (fun x => pend (current_checkpoint self) x = []) (inputs self)
  | Ready (Some (Ok (ORecordBatch o b))) =>
      o ∈ ordinal <$> inputs self /\ step (one_batch o b) M
  | Ready (Some (Ok (OMarker m))) =>
      exists M', M = m :: M' /\ step (fun _ => [Ok (SIMarker m)]) M'
  | Ready (Some _) => False
  end.

Lemma one_batch_markers o b o' : markers (one_batch o b o') = [].
Proof. unfold one_batch. by destruct (o' =? o). Qed.

Lemma total_unblock ins :
  (total (unblock <$> ins) <= total ins)%nat /\
  (Exists (fun x => blocked x = true) ins -> total (unblock <$> ins) < total ins)%nat.
Proof.
  unfold total. induction ins as [|x ins [IH1 IH2]].
  - split; [done|]. intros Hex. inversion Hex.
  - cbn [fmap list_fmap sum_list_with].
    assert (weight (unblock x) + (if blocked x then 1 else 0) = weight x)%nat.
    { unfold weight, unblock. cbn [blocked stream]. lia. }
    split; [lia|]. intros [Hx|Hx]%Exists_cons; [rewrite Hx in *|apply IH2 in Hx]; lia.
Qed.

(** With every unblocked input finished, all inputs are blocked on the same marker. *)
Lemma align_blocked M ins c :
  wf M ins (Some c) ->
  (forall i x, ins !! i = Some x -> blocked x = true \/ stream x = []) ->
  Forall (fun x => blocked x = true) ins.
Proof.
  intros (_ & Hall & Hok) Hdone. cbn in Hok. rewrite Forall_forall in *.
  apply Exists_exists in Hok as (y & Hy & Hyb).
  destruct (Hall y Hy) as [_ HMy]. unfold pend in HMy. rewrite Hyb in HMy.
  intros x Hx. destruct (Hall x Hx) as [_ HMx].
  apply list_elem_of_lookup in Hx as [i Hi]. destruct (Hdone i x Hi) as [|Hs]; [done|].
  unfold pend in HMx. rewrite Hs in HMx. destruct (blocked x); [done|].
  cbn in *. congruence.
Qed.

Lemma existsb_blocked ins :
  existsb blocked ins = true <-> Exists (fun x => blocked x = true) ins.
Proof.
  rewrite existsb_exists, Exists_exists. setoid_rewrite list_elem_of_In. done.
Qed.

Lemma silent_pend_nil cp ins cp' ins' :
  silent cp ins cp' ins' -> Forall (fun x => pend cp' x = []) ins' ->
  Forall (fun x => pend cp x = []) ins.
Proof.
  induction 1 as [|x y ins ins' [_ Hp] _ IH]; [done|].
  intros [Hy Hall]%Forall_cons. constructor; [|by apply IH]. by rewrite Hp, Hy.
Qed.

(** The tail of [poll_next], when no input is pending: pass the aligned marker on, or end. *)
Lemma poll_finished M cp ins (r : Rng) self' p :
  wf M ins cp ->
  (forall i x, ins !! i = Some x -> blocked x = true \/ stream x = []) ->
  (p, self') = (if existsb blocked ins then
      match cp with
      | Some c => (Ready (Some (Ok (OMarker (mkMarker c)))), mkMerged (unblock <$> ins) None r)
      | None => (Ready None, mkMerged ins cp r)
      end
    else (Ready None, mkMerged ins cp r)) ->
  poll_post M (mkMerged ins cp r) (p, self').
Proof.
  intros Hwf Hdone. destruct (existsb blocked ins) eqn:Hex.
  - apply existsb_blocked in Hex as Hb. destruct cp as [c|].
    2:{ destruct Hwf as (_ & _ & Hok). cbn in Hok. apply Exists_exists in Hb as (x & Hx & Hbx).
        rewrite Forall_forall in Hok. apply Hok in Hx. congruence. }
    intros [= -> ->]. pose proof (align_blocked M ins c Hwf Hdone) as Hall.
    assert (delivers (fun _ => [Ok (SIMarker (mkMarker c))]) (Some c) ins None (unblock <$> ins))
      as Hd.
    { clear -Hall. induction Hall as [|x ins Hx _ IH]; [constructor|].
      constructor; [|done]. unfold pend. by rewrite Hx. }
    assert (exists M', M = mkMarker c :: M') as [M' ->].
    { destruct Hwf as (_ & Hf & _). apply Exists_exists in Hb as (x & Hx & Hbx).
      rewrite Forall_forall in Hf. destruct (Hf x Hx) as [_ HM]. unfold pend in HM.
      rewrite Hbx in HM. cbn in HM. by eexists. }
    exists M'. split; [done|]. cbn [current_checkpoint inputs measure]. split; [done|]. split.
    + eapply (delivers_wf (fun _ => [Ok (SIMarker (mkMarker c))])); [exact Hwf|done|done|].
      apply Forall_fmap, Forall_true. done.
    + by apply total_unblock.
  - intros [= -> ->]. cbn. rewrite Forall_lookup. intros i x Hx.
    assert (blocked x = false) as Hb.
    { destruct (blocked x) eqn:Hb; [|done].
      assert (existsb blocked ins = true); [|congruence].
      apply existsb_blocked, Exists_exists. exists x. split; [|done].
      by eapply list_elem_of_lookup_2. }
    destruct (Hdone i x Hx); [congruence|]. unfold pend. rewrite Hb. by rewrite H0.
Qed.

Lemma poll_next_post `{!ShuffleLaws} M self :
  wf M (inputs self) (current_checkpoint self) -> poll_post M self (poll_next self).
Proof.
  intros Hwf. unfold poll_next.
  destruct (shuffle (rng self) (unblocked_indices (inputs self))) as [order r] eqn:Hsh.
  assert (order ≡ₚ unblocked_indices (inputs self)) as Hperm.
  { change order with (order, r).1. rewrite <- Hsh. apply shuffle_perm. }
  pose proof (poll_inputs_post M order (inputs self) (current_checkpoint self) false Hwf
    (unblocked_free _ _ Hperm)) as Hpost.
  destruct (poll_inputs _ _ _ _) as [[result ins'] cp'] eqn:Hpoll. cbn in Hpost.
  destruct Hpost as [Hok Hpost]. destruct result as [out|sp'].
  - destruct Hpost as (o & b & -> & Ho & Hd & Hlt). cbn. split; [done|].
    split; [done|]. split; [|done].
    eapply (delivers_wf (one_batch o b)); [by rewrite one_batch_markers| |done|done].
    intros. by rewrite !one_batch_markers.
  - destruct Hpost as (Hd & Hle & Htrue & Hfalse & Hrest).
    pose proof (silent_wf _ _ _ _ _ Hwf Hd Hok) as Hwf'. destruct sp'.
    { cbn. split; [done|]. split; [done|]. by destruct (Htrue eq_refl). }
    assert (forall i x, ins' !! i = Some x -> blocked x = true \/ stream x = []) as Hdone.
    { intros i x Hx. destruct (decide (i ∈ order)) as [|Hi]; [by eauto|]. left.
      rewrite Hrest in Hx by done. eapply not_unblocked; [done|]. by rewrite <- Hperm. }
    destruct (if existsb blocked ins' then _ else _) as [p self'] eqn:Hres.
    pose proof (poll_finished M cp' ins' r self' p Hwf' Hdone (eq_sym Hres)) as Hfin.
    unfold poll_post in *. cbn [current_checkpoint inputs] in Hfin.
    unfold measure in *. cbn [inputs] in Hfin.
    destruct p as [[[[m|o b]|e|w]|]|]; try done.
    + destruct Hfin as (M' & -> & Hd' & Hwf'' & Hlt). exists M'. split; [done|].
      split; [by eapply delivers_trans|]. split; [done|lia].
    + destruct Hfin as (Ho & Hd' & Hwf'' & Hlt). rewrite (delivers_ordinals _ _ _ _ _ Hd) in Ho.
      split; [done|]. split; [by eapply delivers_trans|]. split; [done|lia].
    + by eapply silent_pend_nil.
    + destruct Hfin as (Hd' & Hwf'' & Hlt).
      split; [by eapply delivers_trans|]. split; [done|lia].
Qed.

(** What the consumer may see: no error, and batches of the inputs only. *)
Definition tagged (ords : list N) (x : res DataFusionError (OrdinalStreamItem B)) : Prop :=
  match x with
  | Ok (OMarker _) => True
  | Ok (ORecordBatch o _) => o ∈ ords
  | _ => False
  end.

Definition drain_post self outs : Prop :=
  Forall (tagged (ordinal <$> inputs self)) outs /\
  Forall (fun x => omap (project (ordinal x)) outs = pend (current_checkpoint self) x)
    (inputs self).

Lemma drain_post_cons out self self' x outs :
  delivers out (current_checkpoint self) (inputs self) (current_checkpoint self') (inputs self') ->
  (forall o, out o = match project o x with Some y => [y] | None => [] end) ->
  tagged (ordinal <$> inputs self) x ->
  drain_post self' outs -> drain_post self (x :: outs).
Proof.
  intros Hd Hout Htag [Htags Hall]. rewrite (delivers_ordinals _ _ _ _ _ Hd) in Htags.
  split; [by constructor|]. clear Htag Htags.
  induction Hd as [|a b ins ins' [Hord Hp] _ IH]; [constructor|].
  apply Forall_cons in Hall as [Hb Hall]. constructor; [|by apply IH].
  rewrite Hp, Hout, <- Hb, Hord. cbn. by destruct (project (ordinal b) x).
Qed.

Lemma drain_post_silent self self' outs :
  silent (current_checkpoint self) (inputs self) (current_checkpoint self') (inputs self') ->
  drain_post self' outs -> drain_post self outs.
Proof.
  intros Hd [Htags Hall]. rewrite (delivers_ordinals _ _ _ _ _ Hd) in Htags. split; [done|].
  clear Htags. induction Hd as [|a b ins ins' [Hord Hp] _ IH]; [constructor|].
  apply Forall_cons in Hall as [Hb Hall]. constructor; [|by apply IH].
  rewrite Hp, Hord. done.
Qed.

Lemma drain_spec `{!ShuffleLaws} fuel M self :
  wf M (inputs self) (current_checkpoint self) -> (measure self < fuel)%nat ->
  exists outs, drain fuel self = Some outs /\ drain_post self outs.
Proof.
  revert M self. induction fuel as [|fuel IH]; intros M self Hwf Hfuel; [lia|]. cbn.
  pose proof (poll_next_post M self Hwf) as Hpost.
  destruct (poll_next self) as [[[[[m|o b]|e|w]|]|] self'] eqn:Hpoll; cbn in Hpost; try done.
  - destruct Hpost as (M' & -> & Hd & Hwf' & Hlt).
    destruct (IH M' self' Hwf') as (outs & -> & Hp); [lia|]. eexists. split; [done|].
    by eapply drain_post_cons.
  - destruct Hpost as (Ho & Hd & Hwf' & Hlt).
    destruct (IH M self' Hwf') as (outs & -> & Hp); [lia|]. eexists. split; [done|].
    eapply drain_post_cons; [done| |done|done]. intros o'. unfold one_batch. cbn.
    by destruct (o' =? o).
  - exists []. split; [done|]. split; [constructor|].
    eapply Forall_impl; [exact Hpost|]. cbn. congruence.
  - destruct Hpost as (Hd & Hwf' & Hlt).
    destruct (IH M self' Hwf') as (outs & -> & Hp); [lia|]. eexists. split; [done|].
    by eapply drain_post_silent.
Qed.

Lemma measure_merge_inputs r ins :
  measure (merge_inputs r ins) = (2 * sum_list_with (fun x => length (snd x)) ins)%nat.
Proof.
  unfold measure, total, merge_inputs. cbn [inputs].
  induction ins as [|x ins IH]; [done|].
  rewrite fmap_cons. cbn [sum_list_with]. rewrite IH. unfold weight. cbn [stream blocked]. lia.
Qed.

(** C2: merging preserves every input and aligns the markers.  If the inputs have distinct
    ordinals, none of them fails and all of them carry the same sequence of checkpoint
    markers, then, whatever the polling order, a consumer that polls the merged stream
    reaches its end within a bound on the polls, sees no error, and the batches of an input
    interleaved with the markers it sees are exactly that input's items in order: no batch
    crosses a marker, none is lost, duplicated or reordered, and a marker is passed on once
    per checkpoint. *)
Theorem merged_stream_aligned `{!ShuffleLaws} (ins : list (N * polls)) M fuel r :
  NoDup (fst <$> ins) ->
  Forall (fun x => all_ok (items (snd x)) /\ markers (items (snd x)) = M) ins ->
  (2 * sum_list_with (fun x => length (snd x)) ins < fuel)%nat ->
  exists outs, drain fuel (merge_inputs r ins) = Some outs /\
    Forall (tagged (fst <$> ins)) outs /\
    Forall (fun x => omap (project (fst x)) outs = items (snd x)) ins.
Proof.
  intros Hnd Hall Hfuel.
  assert (ordinal <$> inputs (merge_inputs r ins) = fst <$> ins) as Hords.
  { cbn. by rewrite <- list_fmap_compose. }
  destruct (drain_spec fuel M (merge_inputs r ins)) as (outs & Hd & Htag & Hproj).
  - split; [by rewrite Hords|]. split.
    + apply Forall_fmap. exact Hall.
    + apply Forall_fmap, Forall_true. done.
  - by rewrite measure_merge_inputs.
  - exists outs. split; [done|]. rewrite Hords in Htag. split; [done|].
    cbn in Hproj. apply Forall_fmap in Hproj. exact Hproj.
Qed.
End merged.

(** A concrete shuffle: a random number generator that reverses every list. *)
#[export] Instance reversing : Shuffle := {| Rng := unit; shuffle r l := (reverse l, r) |}.
#[export] Instance reversing_laws : ShuffleLaws.
Proof. split. intros r l. cbn. apply reverse_Permutation. Qed.

(** Two inputs with one checkpoint; the second is pending once before its marker. *)
Lemma merged_stream_aligned_witness :
  exists outs,
    drain (B := N) 20 (merge_inputs (tt : @Rng reversing)
      [(0, [Some (Ok (SIRecordBatch 10)); Some (Ok (SIMarker (mkMarker 1))); Some (Ok (SIRecordBatch 11))]);
       (1, [Some (Ok (SIRecordBatch 20)); None; Some (Ok (SIMarker (mkMarker 1)))])]) = Some outs /\
    Forall (tagged [0; 1]) outs /\
    omap (project 0) outs =
      [Ok (SIRecordBatch 10); Ok (SIMarker (mkMarker 1)); Ok (SIRecordBatch 11)].
Proof.
  destruct (merged_stream_aligned (B := N)
    [(0, [Some (Ok (SIRecordBatch 10)); Some (Ok (SIMarker (mkMarker 1))); Some (Ok (SIRecordBatch 11))]);
     (1, [Some (Ok (SIRecordBatch 20)); None; Some (Ok (SIMarker (mkMarker 1)))])]
    [mkMarker 1] 20 (tt : @Rng reversing)) as (outs & Hd & Ht & Hp).
  - apply NoDup_cons. split; [set_solver|]. apply NoDup_singleton.
  - unfold all_ok, is_Ok. cbn. repeat constructor; eauto.
  - cbn. lia.
  - exists outs. split; [exact Hd|]. split; [exact Ht|].
    apply Forall_cons in Hp as [Hp _]. exact Hp.
Defined.
End MergedActionStream.
