(* ===== verification/Generation.v ===== *)
(** * Generations and input addressing (src/streaming/generation.rs,
    src/streaming/operators/remote_source/utils.rs)

    A generation assigns a partition range to a task from some checkpoint on; the input details
    list where each stream can be read, for which checkpoints and for which partitions.  The
    file models the lookup of the generation that is current at a marker and of the addresses
    that serve a partition range, and proves that the addresses found read every bucket of the
    range exactly once. *)

From S2P Require Import Prelude Arrow Partitioning.
Import PartitionRangeOps.

Record GenerationInputLocation := mkLocation {
  address : string;
  offset_range : N * N;
  loc_partitions : PartitionRange;
}.

Record GenerationInputDetail := mkInputDetail {
  stream_id : string;
  locations : list GenerationInputLocation;
}.

Inductive GenerationStartOffset :=
  | AnyTimeAfter (minimum_checkpoint : N).

Record GenerationSpec := mkGenerationSpec {
  gen_id : string;
  gen_partitions : PartitionRange;
  start_conditions : list (string * GenerationStartOffset);
}.

Record TaskSchedulingDetailsUpdate := mkTaskSchedulingDetailsUpdate {
  generation : option GenerationSpec;
  input_details : option (list GenerationInputDetail);
}.

(** ** The current generation *)

Definition start_condition_holds (current_marker : N) (c : GenerationStartOffset) : bool :=
  match c with AnyTimeAfter minimum_checkpoint => minimum_checkpoint <=? current_marker end.

Definition generation_valid (stream_ids : list string) (current_marker : N)
    (generation : GenerationSpec) : bool :=
  forallb (fun c => start_condition_holds current_marker (snd c))
    (List.filter (fun c => bool_decide (fst c ∈ stream_ids)) (start_conditions generation)).

Definition find_current_generation (stream_ids : list string)
    (generations : list GenerationSpec) (current_marker : N)
    : res DataFusionError GenerationSpec :=
  ok_or (Execution "No generation found for the current marker")
    (find_first (generation_valid stream_ids current_marker) (reverse generations)).

(** The start conditions of a generation that concern the given streams all hold. *)
Definition started (stream_ids : list string) (marker : N) (g : GenerationSpec) : Prop :=
  forall sid m, (sid, AnyTimeAfter m) ∈ start_conditions g -> sid ∈ stream_ids -> m <= marker.

Lemma generation_valid_started stream_ids marker g :
  generation_valid stream_ids marker g = true <-> started stream_ids marker g.
Proof.
  unfold generation_valid, started. rewrite forallb_forall. split.
  - intros Hall sid m Hin Hsid. specialize (Hall (sid, AnyTimeAfter m)). cbn in Hall.
    apply N.leb_le, Hall, filter_In. split; [by apply list_elem_of_In|]. cbn.
    by apply bool_decide_eq_true_2.
  - intros Hall [sid [m]] [Hin Hsid]%filter_In. cbn in *. apply N.leb_le.
    apply bool_decide_eq_true in Hsid. apply Hall with sid; [by apply list_elem_of_In|done].
Qed.

Lemma generation_valid_mono stream_ids m m' g :
  m <= m' -> generation_valid stream_ids m g = true -> generation_valid stream_ids m' g = true.
Proof.
  rewrite !generation_valid_started. unfold started. intros Hm Hg sid k Hk Hs.
  specialize (Hg sid k Hk Hs). lia.
Qed.

(** C16: the current generation is the latest one whose start conditions on the operator's
    streams are met by the marker; the lookup fails exactly when no generation qualifies. *)
Theorem find_current_generation_latest stream_ids generations marker :
  match find_current_generation stream_ids generations marker with
  | Ok g => exists older newer, generations = older ++ g :: newer /\
      started stream_ids marker g /\ Forall (fun g' => ~ started stream_ids marker g') newer
  | Err e => e = Execution "No generation found for the current marker" /\
      Forall (fun g' => ~ started stream_ids marker g') generations
  | Panic _ => False
  end.
Proof.
  assert (forall l, Forall (fun g => generation_valid stream_ids marker g = false) l ->
    Forall (fun g => ~ started stream_ids marker g) (reverse l)) as Hinv.
  { intros l Hl. rewrite Forall_forall in *. intros g Hg. rewrite elem_of_reverse in Hg.
    intros Hs%generation_valid_started. by rewrite Hl in Hs. }
  unfold find_current_generation.
  destruct (find_first _ (reverse generations)) as [g|] eqn:Hf; cbn.
  - apply find_first_split in Hf as (l1 & l2 & Heq & Hg & Hl1).
    exists (reverse l2), (reverse l1). split; [|split; [by apply generation_valid_started|auto]].
    rewrite <- (reverse_involutive generations), Heq, reverse_app, reverse_cons.
    by rewrite <- (assoc_L (++)).
  - split; [done|]. apply find_first_None in Hf. apply Hinv in Hf.
    by rewrite reverse_involutive in Hf.
Qed.

(** ** Addresses of a stream *)

(** [impl Debug for PartitionRange] (derived) *)
Definition debug_range (r : PartitionRange) : string :=
  "PartitionRange { start: " +:+ pretty (start r) +:+ ", end: " +:+ pretty (end_ r) +:+
  ", partitions: " +:+ pretty (partitions r) +:+ " }".

Section addresses.
Context `{Profile}.

Definition serves_checkpoint (checkpoint : N) (location : GenerationInputLocation) : bool :=
  (fst (offset_range location) <=? checkpoint) && (checkpoint <? snd (offset_range location)).

(** The [filter_map] closure: the address (if any) and the range it adds to
    [all_found_partitions] (if any). *)
Definition match_location (parts : PartitionRange) (sid : string)
    (location : GenerationInputLocation)
    : option (string * string * PartitionRange) * option PartitionRange :=
  if is_empty (loc_partitions location) && is_empty parts then
    (Some (sid, address location, empty), None)
  else
    let overlapping_partitions := intersection parts (loc_partitions location) in
    if is_empty overlapping_partitions then (None, None)
    else (Some (sid, address location, overlapping_partitions), Some overlapping_partitions).

(** [.map(size).sum::<usize>()] *)
Fixpoint sum_sizes (acc : N) (rs : list PartitionRange) : res DataFusionError N :=
  match rs with
  | [] => Ok acc
  | r :: rs => n ← size r; acc ← uadd acc n; sum_sizes acc rs
  end.

Definition get_addresses_for_stream (parts : PartitionRange) (checkpoint : N)
    (detail : GenerationInputDetail)
    : res DataFusionError (list (string * string * PartitionRange)) :=
  let matches := match_location parts (stream_id detail) <$>
    List.filter (serves_checkpoint checkpoint) (locations detail) in
  let addresses := omap fst matches in
  let all_found_partitions := omap snd matches in
  found_partition_count ← sum_sizes 0 all_found_partitions;
  expected ← size parts;
  if negb (found_partition_count =? expected) then
    Err (Execution ("Missing partitions for stream " +:+ stream_id detail +:+
      " at checkpoint " +:+ pretty checkpoint +:+ ". Expected: " +:+ debug_range parts +:+
      ", Found: " +:+ pretty found_partition_count))
  else Ok addresses.

Definition get_addresses (parts : PartitionRange) (checkpoint : N) (stream_ids : list string)
    (details : list GenerationInputDetail)
    : res DataFusionError (list (string * string * PartitionRange)) :=
  found ← try_collect (fun sid =>
    ok_or (Execution ("No input detail found for stream ID: " +:+ sid))
      (find_first (fun d => bool_decide (stream_id d = sid)) details)) stream_ids;
  addresses ← try_collect (get_addresses_for_stream parts checkpoint) found;
  Ok (concat addresses).
End addresses.

(** ** Counting buckets *)

(** The buckets of a range, in order. *)
Definition buckets (r : PartitionRange) : list N :=
  (fun i => start r + N.of_nat i) <$> seq 0 (N.to_nat (end_ r - start r)).

Lemma elem_of_buckets r k : k ∈ buckets r <-> covers r k.
Proof.
  unfold buckets, covers. rewrite list_elem_of_fmap. setoid_rewrite elem_of_seq. split.
  - intros (i & -> & Hi). lia.
  - intros Hk. exists (N.to_nat (k - start r)). lia.
Qed.

Lemma length_buckets r : N.of_nat (length (buckets r)) = end_ r - start r.
Proof. unfold buckets. rewrite length_fmap, length_seq. lia. Qed.

Lemma count_covered l s n :
  N.of_nat (length (List.filter (covers_b l) ((fun i => s + N.of_nat i) <$> seq 0 n))) =
  N.min (s + N.of_nat n) (end_ l) - N.max s (start l).
Proof.
  induction n as [|n IH]; [cbn; lia|].
  rewrite seq_S, fmap_app, List.filter_app, length_app, Nat2N.inj_add, IH. cbn.
  destruct (covers_b l (s + N.of_nat n)) eqn:Hc; cbn.
  - apply covers_b_covers in Hc. unfold covers in Hc. lia.
  - assert (~ covers l (s + N.of_nat n)) as Hn by (rewrite <- covers_b_covers; congruence).
    unfold covers in Hn. lia.
Qed.

(** Counting pairs of a bucket and a range that covers it, by bucket or by range. *)
Lemma count_swap (ls : list PartitionRange) (ks : list N) :
  sum_list_with (fun l => length (List.filter (covers_b l) ks)) ls =
  sum_list_with (fun k => cover_count k ls) ks.
Proof.
  induction ks as [|k ks IH]; cbn.
  - induction ls; cbn; auto.
  - rewrite <- IH. clear IH. induction ls as [|l ls IH]; [done|].
    rewrite cover_count_cons. cbn - [cover_count] in *. rewrite IH.
    destruct (covers_b l k); cbn - [cover_count]; lia.
Qed.

Lemma sum_at_most_one {A} (f : A -> nat) l :
  Forall (fun x => f x <= 1)%nat l ->
  (sum_list_with f l <= length l)%nat /\
  (sum_list_with f l = length l <-> Forall (fun x => f x = 1%nat) l).
Proof.
  induction 1 as [|x l Hx _ [IH1 IH2]]; cbn; [done|]. split; [lia|].
  rewrite Forall_cons, <- IH2. lia.
Qed.

(** ** The addresses of a stream read every bucket exactly once *)

Section addresses_correct.
Context `{Profile}.

(** The ranges of the locations that hold the stream at a checkpoint. *)
Definition live (checkpoint : N) (detail : GenerationInputDetail) : list PartitionRange :=
  loc_partitions <$> List.filter (serves_checkpoint checkpoint) (locations detail).

Lemma size_of_overlap {E} a l :
  start a <= end_ a ->
  size (E := E) (intersection a l) =
    Ok (N.of_nat (length (List.filter (covers_b l) (buckets a)))).
Proof.
  intros Ha. unfold buckets. rewrite count_covered. unfold size, intersection.
  destruct (N.ltb_spec (N.max (start a) (start l)) (N.min (end_ a) (end_ l))) as [Hl|Hl]; cbn.
  - rewrite usub_le by lia. f_equal. lia.
  - rewrite usub_le by lia. f_equal. lia.
Qed.

Lemma is_empty_no_overlap a l :
  is_empty (intersection a l) = true ->
  length (List.filter (covers_b l) (buckets a)) = 0%nat.
Proof.
  intros Hn. rewrite is_empty_intersection in Hn. apply length_zero_iff_nil.
  destruct (List.filter _ _) as [|k ks] eqn:Hf; [done|]. exfalso.
  assert (In k (List.filter (covers_b l) (buckets a))) as Hk by (rewrite Hf; by left).
  apply filter_In in Hk as [Hk Hc]. apply list_elem_of_In, elem_of_buckets in Hk.
  apply covers_b_covers in Hc. by apply (Hn k).
Qed.

Definition overlap_count (parts : PartitionRange) (ls : list PartitionRange) : nat :=
  sum_list_with (fun l => length (List.filter (covers_b l) (buckets parts))) ls.

Lemma buckets_empty parts : is_empty parts = true -> buckets parts = [].
Proof.
  unfold is_empty, buckets. intros He%N.eqb_eq. rewrite He, N.sub_diag. done.
Qed.

(** The sum the code computes is the number of (bucket, live range) pairs. *)
Lemma sum_sizes_matches parts sid acc (locs : list GenerationInputLocation) :
  start parts <= end_ parts ->
  fits (acc + N.of_nat (overlap_count parts (loc_partitions <$> locs))) ->
  sum_sizes acc (omap snd (match_location parts sid <$> locs)) =
    Ok (acc + N.of_nat (overlap_count parts (loc_partitions <$> locs))).
Proof.
  intros Hp. revert acc. induction locs as [|l locs IH]; intros acc Hfit.
  { cbn. f_equal. unfold overlap_count. cbn. lia. }
  unfold overlap_count in *. rewrite fmap_cons in *. cbn [fmap list_fmap sum_list_with] in *.
  rewrite Nat2N.inj_add in *. cbn [omap list_omap]. unfold match_location at 1.
  destruct (is_empty (loc_partitions l) && is_empty parts) eqn:He.
  { apply andb_true_iff in He as [_ He]. rewrite (buckets_empty _ He) in *.
    cbn [fst snd] in *. cbn [List.filter length] in *. rewrite IH; [f_equal; lia|].
    unfold fits in *. lia. }
  destruct (is_empty (intersection parts (loc_partitions l))) eqn:Hi; cbn [fst snd].
  - rewrite (is_empty_no_overlap _ _ Hi) in *. rewrite IH; [f_equal; lia|].
    unfold fits in *. lia.
  - cbn [sum_sizes]. rewrite size_of_overlap by done. usimp.
    rewrite IH; [f_equal; lia|]. unfold fits in *. lia.
Qed.

(** The ranges handed out count a bucket of [parts] as often as the live ranges do. *)
Lemma cover_count_addresses parts sid (locs : list GenerationInputLocation) k :
  covers parts k ->
  cover_count k (snd <$> omap fst (match_location parts sid <$> locs)) =
  cover_count k (loc_partitions <$> locs).
Proof.
  intros Hk. induction locs as [|l locs IH]; [done|].
  rewrite !fmap_cons, cover_count_cons, <- IH. cbn [omap list_omap]. unfold match_location at 1.
  assert (is_empty parts = false) as Hpe.
  { unfold is_empty, covers in *. apply N.eqb_neq. lia. }
  rewrite Hpe, andb_false_r.
  destruct (is_empty (intersection parts (loc_partitions l))) eqn:Hi; cbn [fst snd].
  - destruct (covers_b (loc_partitions l) k) eqn:Hc; [|done].
    apply covers_b_covers in Hc. by destruct (proj1 (is_empty_intersection _ _) Hi k).
  - rewrite fmap_cons, cover_count_cons. cbn [snd]. f_equal.
    assert (covers_b (intersection parts (loc_partitions l)) k =
            covers_b (loc_partitions l) k) as ->; [|done].
    apply eq_bool_prop_intro. rewrite !Is_true_true, !covers_b_covers, covers_intersection.
    naive_solver.
Qed.

(** C17: input addressing is exact.  If the range to read is a proper [usize] range and no
    bucket of it is held by two live locations, then [get_addresses_for_stream] succeeds
    exactly when every bucket is held by some live location, and the ranges it returns then
    read every bucket of the range from exactly one address; when it does not succeed it
    returns the error, never a panic. *)
Theorem get_addresses_for_stream_exact parts checkpoint detail :
  start parts <= end_ parts -> fits (end_ parts) ->
  (forall k, covers parts k -> cover_count k (live checkpoint detail) <= 1)%nat ->
  match get_addresses_for_stream parts checkpoint detail with
  | Ok addresses =>
      forall k, covers parts k -> cover_count k (snd <$> addresses) = 1%nat
  | Err _ => exists k, covers parts k /\ cover_count k (live checkpoint detail) = 0%nat
  | Panic _ => False
  end.
Proof.
  intros Hp Hfit Hone. unfold get_addresses_for_stream, live in *.
  set (locs := List.filter (serves_checkpoint checkpoint) (locations detail)) in *.
  assert (Forall (fun k => cover_count k (loc_partitions <$> locs) <= 1)%nat (buckets parts))
    as Hall by (apply Forall_forall; intros k Hk%elem_of_buckets; auto).
  apply sum_at_most_one in Hall as [Hle Heq]. rewrite <- count_swap in Hle, Heq.
  fold (overlap_count parts (loc_partitions <$> locs)) in Hle, Heq.
  pose proof (length_buckets parts) as Hlen. unfold fits in Hfit.
  rewrite sum_sizes_matches by (done || (unfold fits; lia)).
  unfold size. usimp. rewrite N.add_0_l, <- Hlen.
  destruct (N.eqb_spec (N.of_nat (overlap_count parts (loc_partitions <$> locs)))
    (N.of_nat (length (buckets parts)))) as [Hc|Hc]; cbn [negb].
  - intros k Hk. rewrite cover_count_addresses by done.
    apply Nat2N.inj, Heq in Hc. rewrite Forall_forall in Hc.
    by apply Hc, elem_of_buckets.
  - assert (~ Forall (fun k => cover_count k (loc_partitions <$> locs) = 1%nat) (buckets parts))
      as Hex%not_Forall_Exists by (rewrite <- Heq; congruence); [|intros; apply _].
    apply Exists_exists in Hex as (k & Hk%elem_of_buckets & Hn). exists k.
    split; [done|]. specialize (Hone k Hk). unfold compose in Hn. lia.
Qed.
End addresses_correct.

(** Two live locations that split the range [0, 4), and one that is no longer live. *)
Definition example_detail : GenerationInputDetail := mkInputDetail "s" [
  mkLocation "a" (0, 10) (mkRange 0 2 4);
  mkLocation "old" (0, 3) (mkRange 0 4 4);
  mkLocation "b" (2, 10) (mkRange 2 4 4)].

Lemma get_addresses_for_stream_exact_witness :
  exists addresses, get_addresses_for_stream (H := true) (mkRange 1 3 4) 5 example_detail
    = Ok addresses /\
    forall k, covers (mkRange 1 3 4) k -> cover_count k (snd <$> addresses) = 1%nat.
Proof.
  pose (addresses := [("s", "a", mkRange 1 2 4); ("s", "b", mkRange 2 3 4)]).
  assert (get_addresses_for_stream (H := true) (mkRange 1 3 4) 5 example_detail = Ok addresses)
    as Hr by reflexivity.
  pose proof (@get_addresses_for_stream_exact true (mkRange 1 3 4) 5 example_detail) as Ht.
  rewrite Hr in Ht. exists addresses. split; [exact Hr|]. apply Ht.
  - cbn. lia.
  - reflexivity.
  - intros k [Hk1 Hk2]. cbn in Hk1, Hk2. assert (k = 1 \/ k = 2) as [->| ->] by lia.
    + vm_compute. lia.
    + vm_compute. lia.
Defined.

(** Without the disjointness of the live locations the count is not enough: here bucket 0 is
    held twice and bucket 1 never, and the lookup still succeeds. *)
Definition overlapping_detail : GenerationInputDetail := mkInputDetail "s" [
  mkLocation "a" (0, 10) (mkRange 0 1 2);
  mkLocation "b" (0, 10) (mkRange 0 1 2)].

(** The completeness check of [get_addresses_for_stream] only compares sizes: overlapping
    locations can stand in for a missing one, and then a bucket is read twice and another one
    never, without an error. *)
Theorem get_addresses_overlap_hides_gap :
  exists addresses, (forall P : Profile,
    get_addresses_for_stream (mkRange 0 2 2) 0 overlapping_detail = Ok addresses) /\
    cover_count 0 (snd <$> addresses) = 2%nat /\ cover_count 1 (snd <$> addresses) = 0%nat.
Proof.
  eexists. split; [intros []; reflexivity|]. split; reflexivity.
Qed.

Section get_addresses_correct.
Context `{Profile}.

(** The result of [get_addresses] is the concatenation, stream by stream, of the addresses
    of the first input detail with that stream's id. *)
Lemma get_addresses_Ok parts checkpoint sids details addrs :
  get_addresses parts checkpoint sids details = Ok addrs <->
  exists found lists,
    Forall2 (fun sid d => find_first (fun d => bool_decide (stream_id d = sid)) details = Some d)
      sids found /\
    Forall2 (fun d l => get_addresses_for_stream parts checkpoint d = Ok l) found lists /\
    addrs = concat lists.
Proof.
  unfold get_addresses. split.
  - intros (found & Hf & Hrest)%bind_Ok_inv.
    apply bind_Ok_inv in Hrest as (lists & Hl & [= <-]).
    apply try_collect_Ok in Hf, Hl. exists found, lists. split; [|done].
    eapply Forall2_impl; [exact Hf|]. cbn. intros sid d. apply ok_or_Ok.
  - intros (found & lists & Hf & Hl & ->).
    rewrite (proj2 (try_collect_Ok _ sids found)); cbn.
    + by rewrite (proj2 (try_collect_Ok _ found lists)).
    + eapply Forall2_impl; [exact Hf|]. cbn. intros sid d. apply ok_or_Ok.
Qed.
End get_addresses_correct.
