(* ===== verification/Channels.v ===== *)
(** * Data channels between tasks (src/streaming/runtime/exchange_manager/)

    A [DataChannel] is an append-only buffer shared by one [DataChannelSender] and any number
    of readers; readers wait on a [OnceNotify] for the next item.  The sender and a reader run
    concurrently, so besides the sequential operations the file has a small-step machine whose
    steps are the critical sections of the code (one lock acquisition each), and proves over
    all interleavings that a reader sees a prefix of what was sent, that an ended stream is
    complete and that no wake-up is lost.  [ExchangeChannelStore], the Flight service in front
    of it and the client cache are modelled at the end. *)

From stdpp Require Import relations.
From S2P Require Import Prelude Arrow Partitioning Stream Generation.
Import PartitionRangeOps.

(** ** The shared state *)

Inductive ChannelStatus :=
  | Running
  | Finished
  | Error (e : DataFusionError)
  | Cancelled (last_checkpoint : N) (valid_until : nat).

Section channel.
Context {B : Type}.

(** [OnceNotify] objects are numbered in the order of their creation; [notified] is the set
    of those whose semaphore is closed. *)
Record DataChannelState := mkState {
  data : list (StreamItem B);
  notification : option nat;
  status : ChannelStatus;
  fresh : nat;
  notified : gset nat;
}.

Record DataChannelSender := mkSender { next_index : nat; last_checkpoint : N }.

(** [OnceNotify::new], [notify] and the condition under which [wait] returns *)
Definition once_notify_new (st : DataChannelState) : nat * DataChannelState :=
  (fresh st, mkState (data st) (notification st) (status st) (S (fresh st)) (notified st)).
Definition notify (n : nat) (st : DataChannelState) : DataChannelState :=
  mkState (data st) (notification st) (status st) (fresh st) ({[n]} ∪ notified st).
Definition wait_ready (n : nat) (st : DataChannelState) : bool := bool_decide (n ∈ notified st).

Definition sender_new : DataChannelSender := mkSender 0 0.

Definition channel_create : DataChannelState * DataChannelSender :=
  (mkState [] (Some 0%nat) Running 1 ∅, sender_new).

(** The critical section of [send(Ok(item))]: append, and replace the notification; gives
    the previous notification. *)
Definition push (item : StreamItem B) (st : DataChannelState) (s : DataChannelSender)
    : option nat * DataChannelState * DataChannelSender :=
  let s' := mkSender (S (next_index s))
    (match item with SIMarker m => checkpoint_number m | _ => last_checkpoint s end) in
  let '(n, st) := once_notify_new st in
  (notification st, mkState (data st ++ [item]) (Some n) (status st) (fresh st) (notified st), s').

Definition set_status (cs : ChannelStatus) (st : DataChannelState) : DataChannelState :=
  mkState (data st) (notification st) cs (fresh st) (notified st).

Definition take_notification (st : DataChannelState) : option nat * DataChannelState :=
  (notification st, mkState (data st) None (status st) (fresh st) (notified st)).

(** *** The operations, run without interruption *)

Definition cancel_with_status (cs : ChannelStatus) (st : DataChannelState) : DataChannelState :=
  let '(n, st) := take_notification (set_status cs st) in
  match n with Some n => notify n st | None => st end.

Definition send (item : res DataFusionError (StreamItem B)) (st : DataChannelState)
    (s : DataChannelSender) : res DataFusionError (DataChannelState * DataChannelSender) :=
  match item with
  | Ok item =>
      let '(n, st, s) := push item st s in
      n ← unwrap "called `Option::unwrap()` on a `None` value" n;
      Ok (notify n st, s)
  | Err err => Ok (cancel_with_status (Error err) st, s)
  | Panic w => Panic w
  end.

Definition drop_sender (st : DataChannelState) (s : DataChannelSender) : DataChannelState :=
  cancel_with_status (Cancelled (last_checkpoint s) (next_index s)) st.

(** ** Interleaving a sender and a reader *)

(** What the owner of the sender does with it, in order; [DropSender] consumes it. *)
Inductive Cmd :=
  | SendItem (item : StreamItem B)
  | SendErr (e : DataFusionError)
  | DropSender.

(** Where the sender is: between two calls, before [notify] on an old notification, between
    the two critical sections of [cancel_with_status], or unwinding: the panic of [unwrap]
    drops the sender, so that its [drop] cancels the channel. *)
Inductive SenderPc := Idle | Notify (n : nat) | TakeNotification | Panicked.

(** Where a reader is in the loop of [stream]: before reading the status, before reading
    the data (with [is_finished]), waiting, or at the end of its stream. *)
Inductive ReaderPc :=
  | RStatus
  | RData (is_finished : bool)
  | RWait (n : nat)
  | RDone (end_ : option DataFusionError).

Record config := mkConfig {
  st : DataChannelState;
  sender : DataChannelSender;
  script : list Cmd;
  pc : SenderPc;
  index : nat;
  out : list (StreamItem B);
  rpc : ReaderPc;
}.

Definition init (cmds : list Cmd) : config :=
  let '(st, s) := channel_create in mkConfig st s cmds Idle 0 [] RStatus.

Definition after_take (n : option nat) : SenderPc :=
  match n with Some n => Notify n | None => Idle end.

Definition sender_step (c : config) : option config :=
  let upd st s script pc := Some (mkConfig st s script pc (index c) (out c) (rpc c)) in
  match pc c with
  | Panicked =>
      upd (set_status (Cancelled (last_checkpoint (sender c)) (next_index (sender c))) (st c))
        (sender c) [] TakeNotification
  | Notify n => upd (notify n (st c)) (sender c) (script c) Idle
  | TakeNotification =>
      let '(n, st) := take_notification (st c) in upd st (sender c) (script c) (after_take n)
  | Idle =>
      match script c with
      | [] => None
      | SendItem item :: cmds =>
          let '(n, st, s) := push item (st c) (sender c) in
          match n with Some n => upd st s cmds (Notify n) | None => upd st s [] Panicked end
      | SendErr e :: cmds =>
          upd (set_status (Error e) (st c)) (sender c) cmds TakeNotification
      | DropSender :: _ =>
          upd (set_status (Cancelled (last_checkpoint (sender c)) (next_index (sender c))) (st c))
            (sender c) [] TakeNotification
      end
  end.

(** One critical section of the [try_unfold] closure. *)
Definition reader_next (st : DataChannelState) (index : nat) (rpc : ReaderPc)
    : option (option (StreamItem B) * ReaderPc) :=
  match rpc with
  | RDone _ => None
  | RWait n => if wait_ready n st then Some (None, RStatus) else None
  | RStatus =>
      match status st with
      | Running => Some (None, RData false)
      | Finished => Some (None, RData true)
      | Error e => Some (None, RDone (Some e))
      | Cancelled last_checkpoint valid_until =>
          if (index =? valid_until)%nat then Some (None, RDone None)
          else if (valid_until <=? index)%nat then
            Some (None, RDone (Some (Execution ("Channel was cancelled at checkpoint " +:+
              pretty last_checkpoint +:+ ", last valid index " +:+ pretty (N.of_nat valid_until)))))
          else Some (None, RData true)
      end
  | RData is_finished =>
      match data st !! index with
      | Some item => Some (Some item, RStatus)
      | None =>
          match notification st with
          | Some n => if is_finished : bool then Some (None, RDone None) else Some (None, RWait n)
          | None => Some (None, RDone (Some (Execution "Channel has been closed")))
          end
      end
  end.

Definition reader_step (c : config) : option config :=
  match reader_next (st c) (index c) (rpc c) with
  | None => None
  | Some (None, rpc) => Some (mkConfig (st c) (sender c) (script c) (pc c) (index c) (out c) rpc)
  | Some (Some item, rpc) =>
      Some (mkConfig (st c) (sender c) (script c) (pc c) (S (index c)) (out c ++ [item]) rpc)
  end.

Inductive step (c c' : config) : Prop :=
  | step_sender : sender_step c = Some c' -> step c c'
  | step_reader : reader_step c = Some c' -> step c c'.

Definition reachable (cmds : list Cmd) (c : config) : Prop := rtc step (init cmds) c.

(** The items a script sends: those before the sender is dropped; after an error the channel
    has no notification, so that the next item is written and then the sender panics. *)
Fixpoint items_from (failed : bool) (cmds : list Cmd) : list (StreamItem B) :=
  match cmds with
  | [] => []
  | SendItem item :: cmds => item :: (if failed then [] else items_from failed cmds)
  | SendErr _ :: cmds => items_from true cmds
  | DropSender :: _ => []
  end.
Definition items_of (cmds : list Cmd) : list (StreamItem B) := items_from false cmds.

(** An error has been sent, or the sender is gone. *)
Definition failed (c : config) : bool := match status (st c) with Running => false | _ => true end.

(** *** The invariant *)

Record inv (cmds : list Cmd) (c : config) : Prop := {
  inv_sent : data (st c) ++ items_from (failed c) (script c) = items_of cmds;
  inv_next : next_index (sender c) = length (data (st c));
  inv_out : out c = take (index c) (data (st c));
  inv_index : (index c <= length (data (st c)))%nat;
  (** the sender is gone once the channel is cancelled, and the mark is the end *)
  inv_cancelled lc vu : status (st c) = Cancelled lc vu ->
    vu = length (data (st c)) /\ script c = [];
  inv_not_finished : status (st c) <> Finished;
  inv_fin : rpc c = RData true -> (index c < length (data (st c)))%nat;
  inv_end : rpc c = RDone None -> script c = [] /\ index c = length (data (st c));
  (** a reader that found the channel running and has read everything will find either a
      notification the sender still has to signal, or none *)
  inv_data : rpc c = RData false -> index c = length (data (st c)) ->
    status (st c) = Running \/ pc c = TakeNotification \/ notification (st c) = None;
  inv_wait n : rpc c = RWait n ->
    n ∈ notified (st c) \/ pc c = Notify n \/
    (notification (st c) = Some n /\ index c = length (data (st c)) /\
     (status (st c) = Running \/ pc c = TakeNotification));
  inv_running : status (st c) = Running ->
    is_Some (notification (st c)) /\ pc c <> Panicked /\ pc c <> TakeNotification;
  (** a sender that goes on after an error has no notification *)
  inv_failed : status (st c) <> Running -> script c <> [] ->
    pc c = TakeNotification \/ notification (st c) = None;
  inv_panicked : pc c = Panicked -> script c = [];
}.

Lemma inv_init cmds : inv cmds (init cmds).
Proof. split; cbn; try done; eauto. Qed.

(** An idle sender has a notification to signal exactly while the channel runs. *)
Lemma idle_notification cmds c : inv cmds c -> pc c = Idle -> script c <> [] ->
  notification (st c) = None <-> status (st c) <> Running.
Proof.
  intros Hc Hpc Hscr. split.
  - intros Hn Hs. destruct (inv_running _ _ Hc Hs) as ([n E] & _). by rewrite Hn in E.
  - intros Hs. destruct (inv_failed _ _ Hc Hs Hscr) as [E|?]; [by rewrite Hpc in E|done].
Qed.

(** Writing an item keeps the invariant, whether the sender goes on or panics. *)
Lemma inv_push cmds dat ntf sts fr nfd ni lc lc' scr item ix o rp :
  inv cmds (mkConfig (mkState dat ntf sts fr nfd) (mkSender ni lc) (SendItem item :: scr) Idle ix o rp) ->
  inv cmds (mkConfig (mkState (dat ++ [item]) (Some fr) sts (S fr) nfd) (mkSender (S ni) lc')
    (match ntf with Some _ => scr | None => [] end)
    (match ntf with Some n => Notify n | None => Panicked end) ix o rp).
Proof.
  intros Hc. pose proof (idle_notification _ _ Hc eq_refl ltac:(done)) as Hntf.
  destruct Hc as [Hsent Hnext Hout Hidx Hcan Hnf Hfin Hend Hdata Hwait Hrun Hfail Hpan].
  unfold failed in *; cbn in *. split; unfold failed; cbn; try done.
  - rewrite <- (assoc_L (++)), <- Hsent. cbn. do 2 f_equal.
    destruct ntf as [n|]; destruct sts; try done; [..|by destruct (proj1 Hntf eq_refl)];
      by discriminate (proj2 Hntf ltac:(done)).
  - rewrite length_app. cbn. lia.
  - by rewrite take_app_le.
  - rewrite length_app. lia.
  - intros a b Hs. by destruct (Hcan a b Hs).
  - intros Hr. rewrite length_app. apply Hfin in Hr. lia.
  - intros Hr. by destruct (Hend Hr).
  - intros _. rewrite length_app. cbn. lia.
  - intros n Hr. destruct (Hwait n Hr) as [?|[?|(-> & _)]]; [by left|done|by right; left].
  - intros Hs. destruct (Hrun Hs) as ([n ->] & _). split; [by eexists|done].
  - intros Hs%Hntf. by rewrite Hs.
  - by destruct ntf.
Qed.

Lemma inv_sender cmds c c' : inv cmds c -> sender_step c = Some c' -> inv cmds c'.
Proof.
  intros Hc. destruct c as [[dat ntf sts fr nfd] [ni lc] scr spc ix o rp].
  unfold sender_step; cbn. destruct spc as [|n| |].
  { destruct scr as [|[item|e|] scr]; cbn; [done|..].
    - pose proof (inv_push _ _ _ _ _ _ _ _ (match item with SIMarker m => checkpoint_number m | _ => lc end)
        _ _ _ _ _ Hc) as Hp.
      destruct ntf as [n|]; by intros [= <-].
    - destruct Hc as [Hsent Hnext Hout Hidx Hcan Hnf Hfin Hend Hdata Hwait Hrun Hfail Hpan].
      unfold failed in *; cbn in *. intros [= <-].
      split; unfold failed; cbn; try done; try naive_solver.
    - destruct Hc as [Hsent Hnext Hout Hidx Hcan Hnf Hfin Hend Hdata Hwait Hrun Hfail Hpan].
      unfold failed in *; cbn in *. intros [= <-].
      split; unfold failed; cbn; try done; try naive_solver. }
  all: destruct Hc as [Hsent Hnext Hout Hidx Hcan Hnf Hfin Hend Hdata Hwait Hrun Hfail Hpan];
    unfold failed in *; cbn in *; intros [= <-].
  - split; unfold failed; cbn; try done; try naive_solver set_solver.
  - split; unfold failed; cbn; try done.
    + intros _ _. by right; right.
    + intros n Hr. destruct (Hwait n Hr) as [?|[?|(-> & _)]]; [by left|done|by right; left].
    + intros Hs. by destruct (Hrun Hs) as (_ & _ & ?).
    + intros _ _. by right.
    + by destruct ntf.
  - rewrite (Hpan eq_refl) in *. split; unfold failed; cbn; try done; try naive_solver.
Qed.

Lemma inv_reader cmds c c' : inv cmds c -> reader_step c = Some c' -> inv cmds c'.
Proof.
  intros [Hsent Hnext Hout Hidx Hcan Hnf Hfin Hend Hdata Hwait Hrun Hfail Hpan].
  destruct c as [[dat ntf sts fr nfd] [ni lc] scr spc ix o rp]; unfold failed in *; cbn in *.
  unfold reader_step; cbn. destruct rp as [|fin|n|]; cbn; [..|done].
  - destruct sts as [| |e|lc' vu]; cbn; [|done|..].
    + intros [= <-]. split; cbn; try done; naive_solver.
    + intros [= <-]. split; cbn; try done; naive_solver.
    + destruct (Hcan lc' vu eq_refl) as [-> ->].
      destruct (Nat.eqb_spec ix (length dat)); [|destruct (Nat.leb_spec (length dat) ix); [lia|]].
      * intros [= <-]. split; cbn; try done; naive_solver.
      * intros [= <-]. split; cbn; try done; naive_solver.
  - destruct (dat !! ix) as [item|] eqn:Hitem.
    + intros [= <-]. pose proof (lookup_lt_Some _ _ _ Hitem).
      split; cbn; try done. by rewrite Hout, (take_S_r _ _ _ Hitem).
    + apply lookup_ge_None in Hitem. destruct fin; [specialize (Hfin eq_refl); lia|].
      assert (ix = length dat) as Hlast by lia.
      specialize (Hdata eq_refl Hlast).
      destruct ntf as [n|]; intros [= <-]; split; cbn; try done; naive_solver.
  - unfold wait_ready; cbn. case_bool_decide; [|done]. intros [= <-].
    split; cbn; try done; naive_solver.
Qed.

Lemma reachable_inv cmds c : reachable cmds c -> inv cmds c.
Proof.
  unfold reachable. intros Hr. remember (init cmds) as c0 eqn:Hc.
  assert (inv cmds c0) as Hinv by (subst; apply inv_init). clear Hc.
  induction Hr as [|c0 c1 c2 [Hs|Hs] _ IH]; [done|apply IH..].
  - by eapply inv_sender.
  - by eapply inv_reader.
Qed.

(** A reader has a prefix of what is sent, and all of it at an end without error. *)
Lemma inv_reader_prefix cmds c : inv cmds c ->
  (exists rest, items_of cmds = out c ++ rest) /\ (rpc c = RDone None -> out c = items_of cmds).
Proof.
  intros Hc. split.
  - rewrite <- (inv_sent _ _ Hc), (inv_out _ _ Hc). eexists.
    rewrite <- (take_drop (index c) (data (st c))) at 1. by rewrite <- (assoc_L (++)).
  - intros Hend. destruct (inv_end _ _ Hc Hend) as [Hscr Hidx].
    rewrite <- (inv_sent _ _ Hc), (inv_out _ _ Hc), Hscr, Hidx, firstn_all. cbn.
    by rewrite app_nil_r.
Qed.

(** C21: safety of the channel under every interleaving of the sender's and a reader's
    critical sections: the reader has received a prefix, in order, of the items sent (up to
    the panic of a sender that goes on after an error); and if its stream ended without an error, it has received all of them. *)
Theorem channel_reader_prefix cmds c :
  reachable cmds c ->
  (exists rest, items_of cmds = out c ++ rest) /\
  (rpc c = RDone None -> out c = items_of cmds).
Proof.
  intros Hc. by apply inv_reader_prefix, reachable_inv.
Qed.

(** C22: no wake-up is lost.  If neither the sender nor the reader can move, then the
    reader's stream has ended, or the sender is still alive and idle with nothing left to
    send and the reader has received everything sent: a reader never waits for an item that
    is there or for an end that was announced. *)
Theorem channel_no_lost_wakeup cmds c :
  reachable cmds c -> sender_step c = None -> reader_step c = None ->
  (exists e, rpc c = RDone e) \/
  (script c = [] /\ pc c = Idle /\ status (st c) = Running /\ out c = items_of cmds).
Proof.
  intros Hc%reachable_inv Hs Hr.
  destruct (rpc c) as [|fin|n|e] eqn:Hrpc; unfold reader_step, reader_next in Hr;
    rewrite ?Hrpc in Hr.
  - destruct (status (st c)); try done. by repeat case_match.
  - by repeat case_match.
  - right. unfold wait_ready in Hr. case_bool_decide as Hn; [done|].
    destruct (inv_wait _ _ Hc n Hrpc) as [?|[Hpc|(Hntf & Hidx & Hst)]]; [done|..];
      unfold sender_step in Hs; [by rewrite Hpc in Hs|].
    destruct (pc c) eqn:Hpc; try done.
    + destruct (script c) as [|[]] eqn:Hscr; try done; [|by destruct (push _ _ _) as [[[?|] ?] ?]].
      destruct Hst as [Hst|]; [|done]. repeat split; try done.
      rewrite <- (inv_sent _ _ Hc), (inv_out _ _ Hc), Hscr, Hidx, firstn_all. cbn.
      by rewrite app_nil_r.
  - left. by eexists.
Qed.

(** *** Executions are finite *)

(** The current notification has not been signalled, and identifiers are not reused. *)
Record inv_fresh (c : config) : Prop := {
  fresh_notified n : n ∈ notified (st c) -> (n < fresh (st c))%nat;
  fresh_pc n : pc c = Notify n -> (n < fresh (st c))%nat;
  fresh_current n : notification (st c) = Some n ->
    (n < fresh (st c))%nat /\ n ∉ notified (st c) /\ pc c <> Notify n;
}.

Lemma inv_fresh_step c c' : inv_fresh c -> step c c' -> inv_fresh c'.
Proof.
  intros [Hn Hp Hc] [Hs|Hs]; destruct c as [[dat ntf sts fr nfd] [ni lc] scr spc ix o rp];
    unfold sender_step, reader_step in Hs; cbn in *.
  - destruct spc as [|n| |]; [destruct scr as [|[item|e|] scr]|..]; cbn in Hs; try done;
      [destruct ntf as [n'|]|..]; injection Hs as <-; split; cbn; try done.
    + intros n Hin. specialize (Hn n Hin). lia.
    + intros n [= <-]. destruct (Hc n' eq_refl). lia.
    + intros n [= <-]. split; [lia|]. split; [intros Hin; specialize (Hn _ Hin); lia|].
      intros [= ->]. destruct (Hc _ eq_refl). lia.
    + intros n Hin. specialize (Hn n Hin). lia.
    + intros n [= <-]. split; [lia|]. split; [intros Hin; specialize (Hn _ Hin); lia|done].
    + naive_solver.
    + naive_solver.
    + set_solver.
    + intros n' Hn'. destruct (Hc n' Hn') as (? & ? & ?). split; [done|].
      split; [|done]. set_solver.
    + intros n Hpc. destruct ntf as [n'|]; [|done]. injection Hpc as <-. by destruct (Hc n' eq_refl).
    + naive_solver.
  - destruct (reader_next _ _ _) as [[[item|] rp']|]; try done; injection Hs as <-; by split.
Qed.

Definition pc_rank (p : SenderPc) : nat :=
  match p with Panicked => 3 | TakeNotification => 2 | Notify _ => 1 | Idle => 0 end.
Definition rpc_rank (p : ReaderPc) : nat :=
  match p with RWait _ => 3 | RStatus => 2 | RData _ => 1 | RDone _ => 0 end.
(** Can the reader still come to wait on the current notification?  It does so only after it
    has found the channel running and no item. *)
Definition unwaited (c : config) : nat :=
  let running := if failed c then 0%nat else 1%nat in
  match notification (st c), rpc c with
  | Some n, RWait m => if decide (n = m) then 0 else running
  | Some _, RData _ => if (index c <? length (data (st c)))%nat then running else 1
  | Some _, _ => running
  | None, _ => 0
  end.
Definition rank (cmds : list Cmd) (c : config) : nat :=
  (3 * length (script c) + pc_rank (pc c) + rpc_rank (rpc c) +
   2 * (length (items_of cmds) - index c) + 3 * length (items_from (failed c) (script c)) +
   3 * unwaited c)%nat.

Lemma rank_sender cmds c c' :
  inv cmds c -> sender_step c = Some c' -> (rank cmds c' < rank cmds c)%nat.
Proof.
  intros Hc. destruct c as [[dat ntf sts fr nfd] [ni lc] scr spc ix o rp].
  pose proof (inv_index _ _ Hc) as Hidx. cbn in Hidx.
  unfold sender_step. cbn. destruct spc as [|n| |]; [destruct scr as [|[item|e|] scr]|..]; cbn; try done.
  - pose proof (idle_notification _ _ Hc eq_refl ltac:(done)) as Hntf. cbn in Hntf.
    destruct ntf as [n|]; intros [= <-]; unfold rank, unwaited, failed; cbn -[Nat.ltb].
    + assert (sts = Running) as -> by (destruct sts; try done; by discriminate (proj2 Hntf ltac:(done))).
      repeat case_match; cbn; lia.
    + assert (sts <> Running) as Hs by by apply Hntf.
      assert ((ix <? length (dat ++ [item]))%nat = true) as Hlt by (apply Nat.ltb_lt; rewrite length_app; cbn; lia).
      destruct sts; [done|..]; destruct rp; rewrite ?Hlt; cbn; try case_decide; lia.
  - intros [= <-]. unfold rank, unwaited, failed. cbn -[Nat.ltb].
    destruct ntf as [n|], sts, rp; cbn -[Nat.ltb]; try case_decide; try destruct (_ <? _)%nat; lia.
  - intros [= <-]. unfold rank, unwaited, failed. cbn -[Nat.ltb].
    destruct ntf as [m|], sts, rp; cbn -[Nat.ltb]; try case_decide; try destruct (_ <? _)%nat; lia.
  - intros [= <-]. unfold rank, unwaited, failed. cbn -[Nat.ltb]. lia.
  - intros [= <-]. unfold rank, unwaited, failed. cbn -[Nat.ltb].
    destruct ntf as [m|]; cbn; lia.
  - intros [= <-]. unfold rank, unwaited, failed. cbn -[Nat.ltb].
    destruct ntf as [m|], sts, rp; cbn -[Nat.ltb]; try case_decide; try destruct (_ <? _)%nat; lia.
Qed.

Lemma rank_reader cmds c c' :
  inv cmds c -> inv_fresh c -> reader_step c = Some c' -> (rank cmds c' < rank cmds c)%nat.
Proof.
  intros [Hsent _ _ Hidx Hcan Hnf Hfin _ _ _ _ _ _] [_ _ Hcur].
  destruct c as [[dat ntf sts fr nfd] [ni lc] scr spc ix o rp].
  unfold reader_step, rank, unwaited, failed, wait_ready in *. cbn -[Nat.ltb] in *.
  apply (f_equal length) in Hsent. rewrite length_app in Hsent.
  destruct rp as [|fin|n|e]; cbn -[Nat.ltb]; [| | |done].
  - destruct sts as [| |e|lc' vu]; cbn -[Nat.ltb].
    + intros [= <-]. cbn -[Nat.ltb]. destruct ntf, (ix <? length dat)%nat; lia.
    + done.
    + intros [= <-]. cbn -[Nat.ltb]. destruct ntf; lia.
    + destruct (Hcan lc' vu eq_refl) as [-> ->].
      destruct (Nat.eqb_spec ix (length dat)); [|destruct (Nat.leb_spec (length dat) ix)];
        intros [= <-]; cbn -[Nat.ltb]; [destruct ntf; lia..|].
      rewrite (proj2 (Nat.ltb_lt ix (length dat))) by lia. destruct ntf; lia.
  - destruct (dat !! ix) as [item|] eqn:Hitem.
    + intros [= <-]. cbn -[Nat.ltb]. apply lookup_lt_Some in Hitem.
      rewrite (proj2 (Nat.ltb_lt ix (length dat))) by lia. destruct ntf; lia.
    + apply lookup_ge_None in Hitem. rewrite (proj2 (Nat.ltb_ge ix (length dat))) by lia.
      destruct ntf as [n|]; [destruct fin|]; intros [= <-]; cbn -[Nat.ltb]; try (destruct sts; lia).
      destruct (decide (n = n)); [lia|done].
  - unfold wait_ready. cbn -[Nat.ltb]. case_bool_decide as Hin; [|done]. intros [= <-]. cbn -[Nat.ltb].
    destruct ntf as [m|]; [|lia].
    destruct (decide (m = n)) as [->|]; [|lia]. by destruct (Hcur n eq_refl) as (_ & ? & _).
Qed.

(** C23: every run of a sender script against a reader is finite: at most [3] steps per
    command and [5] per item, plus [5]; with no lost wake-up, a reader of a channel whose
    sender is eventually dropped therefore reaches the end of its stream. *)
Theorem channel_runs_terminate cmds k c :
  nsteps step k (init cmds) c ->
  (k <= 3 * length cmds + 5 * length (items_of cmds) + 5)%nat.
Proof.
  assert (forall c0, inv cmds c0 -> inv_fresh c0 -> nsteps step k c0 c ->
    (k + rank cmds c <= rank cmds c0)%nat) as Hk.
  { induction k as [|k IH]; intros c0 Hi Hf Hs; inversion Hs as [|? ? c1 ? Hstep Hrest]; subst.
    - done.
    - pose proof (inv_fresh_step _ _ Hf Hstep) as Hf1.
      destruct Hstep as [Hstep|Hstep].
      + pose proof (rank_sender _ _ _ Hi Hstep).
        specialize (IH c1 (inv_sender _ _ _ Hi Hstep) Hf1 Hrest). lia.
      + pose proof (rank_reader _ _ _ Hi Hf Hstep).
        specialize (IH c1 (inv_reader _ _ _ Hi Hstep) Hf1 Hrest). lia. }
  intros Hs. assert (inv_fresh (init cmds)) as Hf.
  { split; cbn; [set_solver|done|]. intros n [= <-]. split; [lia|]. split; [set_solver|done]. }
  pose proof (Hk _ (inv_init cmds) Hf Hs) as Hle.
  unfold rank at 2 in Hle. unfold unwaited in Hle. cbn in Hle. fold (items_of cmds) in Hle. lia.
Qed.

(** *** Running a schedule *)

(** Run the sender ([true]) or the reader ([false]) for one step, as the schedule says. *)
Fixpoint run_schedule (sched : list bool) (c : config) : option config :=
  match sched with
  | [] => Some c
  | b :: sched =>
      c' ← (if b : bool then sender_step c else reader_step c); run_schedule sched c'
  end.

Lemma run_schedule_nsteps sched c c' :
  run_schedule sched c = Some c' -> nsteps step (length sched) c c'.
Proof.
  revert c. induction sched as [|b sched IH]; intros c; cbn.
  - intros [= ->]. constructor.
  - destruct (if b then sender_step c else reader_step c) as [c1|] eqn:Hs; [|done].
    cbn. intros Hr%IH. econstructor; [|exact Hr].
    destruct b; by constructor.
Qed.

Lemma run_schedule_reachable sched cmds c :
  run_schedule sched (init cmds) = Some c -> reachable cmds c.
Proof. intros Hr%run_schedule_nsteps. apply rtc_nsteps. by eexists. Qed.

(** The machine's sender steps are the sequential operations, cut at the locks. *)
Lemma send_is_sender_steps item c st' s' :
  pc c = Idle -> script c = SendItem item :: [] ->
  send (Ok item) (st c) (sender c) = Ok (st', s') ->
  run_schedule [true; true] c =
    Some (mkConfig st' s' [] Idle (index c) (out c) (rpc c)).
Proof.
  intros Hpc Hscr Hsend. cbn in Hsend. inv_res.
  unfold run_schedule, sender_step. rewrite Hpc, Hscr. cbn in *.
  rewrite Hv. cbn in *. by simplify_eq.
Qed.
End channel.

Arguments Cmd : clear implicits.
Arguments config : clear implicits.
Arguments DataChannelState : clear implicits.

(** A sender that writes one item and a marker and is then dropped, read by a reader that
    starts first and has to wait. *)
Definition example_script : list (Cmd N) :=
  [SendItem (SIRecordBatch 7); SendItem (SIMarker (mkMarker 1)); DropSender].
Definition example_schedule : list bool :=
  [false; false; true; true; false; false; false; true; true; false; false;
   true; true; true; false].

Lemma channel_reader_prefix_witness :
  exists c, reachable example_script c /\ rpc c = RDone None /\
    out c = [SIRecordBatch 7; SIMarker (mkMarker 1)].
Proof.
  destruct (run_schedule example_schedule (init example_script)) as [c|] eqn:Hr;
    [|vm_compute in Hr; discriminate].
  pose proof (run_schedule_reachable _ _ _ Hr) as Hreach. exists c. split; [done|].
  assert (rpc c = RDone None) as Hend by (vm_compute in Hr; by injection Hr as <-).
  split; [done|]. exact (proj2 (channel_reader_prefix example_script c Hreach) Hend).
Defined.

Lemma channel_no_lost_wakeup_witness :
  exists c, reachable [SendItem (SIRecordBatch 7)] c /\ rpc c = RWait 1 /\
    ((exists e, rpc c = RDone e) \/
     (script c = [] /\ pc c = Idle /\ status (st c) = Running /\ out c = [SIRecordBatch 7])).
Proof.
  destruct (run_schedule [true; true; false; false; false; false]
    (init [SendItem (SIRecordBatch (B := N) 7)])) as [c|] eqn:Hr; [|vm_compute in Hr; discriminate].
  pose proof (run_schedule_reachable _ _ _ Hr) as Hreach. exists c. split; [done|].
  vm_compute in Hr. injection Hr as <-. split; [reflexivity|].
  apply (channel_no_lost_wakeup [SendItem (SIRecordBatch 7)]); [exact Hreach|reflexivity..].
Defined.

Lemma channel_runs_terminate_witness :
  exists c, nsteps step 15 (init example_script) c /\
    (15 <= 3 * length example_script + 5 * length (items_of example_script) + 5)%nat.
Proof.
  destruct (run_schedule example_schedule (init example_script)) as [c|] eqn:Hr;
    [|vm_compute in Hr; discriminate].
  exists c. pose proof (run_schedule_nsteps _ _ _ Hr) as Hn. split; [exact Hn|].
  exact (channel_runs_terminate example_script 15 c Hn).
Defined.

(** ** What the channel does not guarantee *)

(** C24: [cancel_with_status] writes the status and the notification in two critical sections
    and the reader reads them in two, so a channel whose sender is only dropped, without any
    error, can still end a reader's stream with the error that the channel was closed. *)
Theorem drop_race_fails_reader :
  exists c : config N, reachable [DropSender] c /\
    rpc c = RDone (Some (Execution "Channel has been closed")).
Proof.
  destruct (run_schedule [false; true; true; false] (init (B := N) [DropSender])) as [c|] eqn:Hr;
    [|vm_compute in Hr; discriminate].
  exists c. split; [by eapply run_schedule_reachable|].
  vm_compute in Hr. by injection Hr as <-.
Qed.

(** An error that was sent can be lost, and the sender cannot be used after it: dropping
    the sender after [send(Err)] overwrites the error status, so a reader that had not looked
    yet ends without an error; and [send(Ok)] after [send(Err)] panics. *)
Theorem send_error_overwritten (e : DataFusionError) (item : StreamItem N) :
  (exists c : config N, reachable [SendErr e; DropSender] c /\ rpc c = RDone None) /\
  (let '(st, s) := channel_create in
   exists st' s', send (Err e) st s = Ok (st', s') /\
     send (Ok item) st' s' = Panic "called `Option::unwrap()` on a `None` value").
Proof.
  split; [|cbn; eauto].
  destruct (run_schedule [true; true; true; true; true; false]
    (init (B := N) [SendErr e; DropSender])) as [c|] eqn:Hr; [|vm_compute in Hr; discriminate].
  exists c. split; [by eapply run_schedule_reachable|].
  vm_compute in Hr. by injection Hr as <-.
Qed.

(** ** The channel store and the Flight service *)

Module ExchangeChannelStore.
Section store.
Context `{Arrow}.

Record ChannelPartitioningDetails := mkDetails {
  partitioning_spec : PartitioningSpec;
  cp_partitions : PartitionRange;
}.

(** A channel is named by its position in [heap] (an [Arc]); recreating a stream id replaces
    the entry of the map and leaves the earlier channel to those who hold it. *)
Record OutputStream := mkOutput {
  channel : nat;
  partitioning_details : option ChannelPartitioningDetails;
}.

Record t := mkStore {
  heap : list (DataChannelState Batch);
  channels : gmap string OutputStream;
}.

Definition new : t := mkStore [] ∅.

Definition create (self : t) (sid : string) (details : option ChannelPartitioningDetails)
    : DataChannelSender * t :=
  let '(st, s) := channel_create in
  (s, mkStore (heap self ++ [st]) (<[sid := mkOutput (length (heap self)) details]> (channels self))).

(** The channel to read and the filter to apply, or the reason there is none. *)
Definition stream (self : t) (sid : string) (parts : PartitionRange)
    : res DataFusionError (nat * option ChannelPartitioningDetails) :=
  channel_ ← ok_or (Internal ("No channel found for stream id: " +:+ sid)) (channels self !! sid);
  partitioning_filter ←
    match partitioning_details channel_ with
    | None =>
        if negb (is_empty parts) then
          Err (Internal ("A partitioned stream was requested for a non partitioned output: " +:+ sid))
        else Ok None
    | Some details =>
        let inter := intersection (cp_partitions details) parts in
        if is_empty inter then
          Err (Internal ("Requested partitions " +:+ debug_range parts +:+
            " do not intersect available partitions " +:+ debug_range (cp_partitions details)))
        else Ok (Some (mkDetails (partitioning_spec details) inter))
    end;
  Ok (channel channel_, partitioning_filter).

(** The closure mapped over the items of a channel. *)
Definition apply_filter (partitioning_filter : option ChannelPartitioningDetails)
    (result : res DataFusionError (StreamItem Batch)) : res DataFusionError (StreamItem Batch) :=
  match partitioning_filter with
  | None => result
  | Some f =>
      item ← result;
      match item with
      | SIMarker marker => Ok (SIMarker marker)
      | SIRecordBatch record_batch =>
          b ← filter_by_partition_range record_batch (cp_partitions f)
                (expressions (partitioning_spec f));
          Ok (SIRecordBatch b)
      end
  end.

(** [DataExchangeFlightService::get_stream]; the ticket bytes are decoded by prost. *)
Record Ticket := mkTicket { ticket_stream_id : string; ticket_partitions : option ProtoRange }.
Inductive Status := InvalidArgument (msg : string) | NotFound (e : DataFusionError).

Definition get_stream (decode_ticket : list N -> res string Ticket) (self : t) (bytes : list N)
    : res Status (nat * option ChannelPartitioningDetails) :=
  ticket ← map_err (fun e => InvalidArgument ("Failed to decode ticket data: " +:+ e))
             (decode_ticket bytes);
  let request_partitions :=
    match ticket_partitions ticket with Some p => from_proto p | None => empty end in
  map_err NotFound (stream self (ticket_stream_id ticket) request_partitions).

(** Streaming a channel that was created gives that channel, as it was created last. *)
Lemma stream_create self sid details parts :
  stream (snd (create self sid details)) sid parts =
    match details with
    | None => if is_empty parts then Ok (length (heap self), None) else
        Err (Internal ("A partitioned stream was requested for a non partitioned output: " +:+ sid))
    | Some d =>
        if is_empty (intersection (cp_partitions d) parts) then
          Err (Internal ("Requested partitions " +:+ debug_range parts +:+
            " do not intersect available partitions " +:+ debug_range (cp_partitions d)))
        else Ok (length (heap self),
                 Some (mkDetails (partitioning_spec d) (intersection (cp_partitions d) parts)))
    end.
Proof.
  unfold stream. cbn. rewrite lookup_insert_eq. cbn.
  destruct details as [d|]; cbn.
  - by destruct (is_empty (intersection (cp_partitions d) parts)).
  - by destruct (is_empty parts).
Qed.

(** Creating one stream does not disturb another. *)
Lemma stream_create_ne self sid sid' details parts :
  sid <> sid' -> stream (snd (create self sid details)) sid' parts = stream self sid' parts.
Proof. intros Hne. unfold stream. cbn. by rewrite lookup_insert_ne. Qed.
End store.

Section store_correct.
Context `{ArrowLaws}.

(** The rows a reader gets of a batch that passes through the filter. *)
Definition delivered_rows (item : StreamItem Batch) : list Row :=
  match item with SIRecordBatch b => rows b | SIMarker _ => [] end.

(** What the consumers of a stream that request the ranges [reqs] receive of one batch. *)
Definition fan_out (self : t) (sid : string) (reqs : list PartitionRange) (b : Batch)
    : res DataFusionError (list (StreamItem Batch)) :=
  try_collect (fun req =>
    '(_, f) ← stream self sid req; apply_filter f (Ok (SIRecordBatch b))) reqs.

Lemma intersection_full p r :
  partitions r = p -> start r < end_ r -> end_ r <= p ->
  intersection (mkRange 0 p p) r = r.
Proof.
  intros <- Hlt Hp. unfold intersection. cbn.
  rewrite N.max_0_l, N.min_r by lia. rewrite (proj2 (N.ltb_lt _ _) Hlt). by destruct r.
Qed.

(** A partitioned exchange delivers every row to exactly one consumer.  When an output
    stream was created with the whole hash space [0, p) and its consumers request non-empty
    ranges that tile it, then every request is accepted, and the batches that the consumers
    are given of one written batch together have exactly its rows. *)
Theorem exchange_fan_out_rows self sid exprs p reqs b arrays hs :
  0 < p -> tiles p 0 p reqs -> Forall (fun r => start r < end_ r) reqs ->
  N.of_nat (num_rows b) <= 4294967296 ->
  try_collect (fun e => evaluate e b) exprs = Ok arrays ->
  create_hashes arrays (num_rows b) = Ok hs ->
  let self' := snd (create self sid
    (Some (mkDetails (mkPartitioningSpec exprs) (mkRange 0 p p)))) in
  exists outs, fan_out self' sid reqs b = Ok outs /\
    concat (map delivered_rows outs) ≡ₚ rows b.
Proof.
  intros Hp Ht Hne Hn Harr Hhs self'.
  destruct (filter_tiling_rows b reqs p exprs arrays hs) as (bs & Hbs & Hperm); [done..|].
  exists (SIRecordBatch <$> bs). split.
  - apply try_collect_Ok in Hbs. apply try_collect_Ok. apply Forall2_fmap_r.
    pose proof (tiles_Forall _ _ _ _ Ht) as Hall. subst self'. clear Hperm Ht.
    induction Hbs as [|r b' reqs bs Hb _ IH]; [constructor|].
    apply Forall_cons in Hne as [Hr Hne], Hall as [(Hpr & _ & _ & Hend) Hall].
    constructor; [|by apply IH].
    rewrite stream_create. cbn [cp_partitions]. rewrite intersection_full by done.
    assert (is_empty r = false) as -> by (unfold is_empty; apply N.eqb_neq; lia).
    cbn - [filter_by_partition_range]. by rewrite Hb.
  - rewrite <- Hperm. clear. induction bs; cbn; [done|]. by rewrite IHbs.
Qed.
End store_correct.

(** Two consumers that split three buckets read a batch of three rows. *)
Lemma exchange_fan_out_rows_witness :
  exists outs : list (StreamItem RowArrow.batch),
    fan_out (snd (create (H := RowArrow.arrow) new "out"
      (Some (mkDetails (@mkPartitioningSpec RowArrow.arrow [0%nat]) (mkRange 0 3 3))))) "out"
      [mkRange 0 2 3; mkRange 2 3 3]
      (RowArrow.Build_batch ["k"] [[7]; [8]; [9]]) = Ok outs /\
    concat (map (@delivered_rows RowArrow.arrow) outs) ≡ₚ [[7]; [8]; [9]].
Proof.
  apply (@exchange_fan_out_rows RowArrow.arrow RowArrow.arrow_laws new "out" [0%nat] 3
           [mkRange 0 2 3; mkRange 2 3 3] (RowArrow.Build_batch ["k"] [[7]; [8]; [9]])
           [([[7]; [8]; [9]], Some 0%nat)] [7; 8; 9]).
  - lia.
  - cbn. lia.
  - repeat constructor; cbn; lia.
  - cbn. lia.
  - reflexivity.
  - reflexivity.
Defined.
End ExchangeChannelStore.

(** ** The cache of Flight clients (src/streaming/runtime/data_client_manager.rs) *)

Module DataClientManager.
Section clients.
Context {Client : Type}.

Abbreviation t := (gmap string Client).

(** [get_client] holds the read lock to look up, releases it to connect, and takes the write
    lock to insert: the two critical sections, with the connection between them. *)
Definition lookup_client (self : t) (address : string) : option Client := self !! address.

Definition insert_client (self : t) (address : string) (new_client : Client) : Client * t :=
  match self !! address with
  | Some existing => (existing, self)
  | None => (new_client, <[address := new_client]> self)
  end.

Definition get_client (make_client : string -> res DataFusionError Client) (self : t)
    (address : string) : res DataFusionError (Client * t) :=
  match lookup_client self address with
  | Some client => Ok (client, self)
  | None =>
      new_client ← make_client address;
      Ok (insert_client self address new_client)
  end.

(** Calls in progress: a call that missed the cache inserts at any later moment. *)
Inductive client_step (self : t) : t -> Prop :=
  | insert_any address client : client_step self (snd (insert_client self address client)).

(** One client per address.  Once a call has been given a client for an address, every
    later call gets the same one, whatever other calls insert in between (including calls
    that missed the cache before and connected concurrently). *)
Theorem get_client_stable make make' self address client self1 self2 :
  get_client make self address = Ok (client, self1) ->
  rtc client_step self1 self2 ->
  get_client make' self2 address = Ok (client, self2) /\
  (forall late, insert_client self2 address late = (client, self2)).
Proof.
  intros Hget Hsteps.
  assert (self1 !! address = Some client) as Hl.
  { unfold get_client, lookup_client, insert_client in Hget.
    destruct (self !! address) eqn:Hs; cbn in Hget; [naive_solver|].
    destruct (make address) as [new_client| |]; cbn in Hget; try done.
    injection Hget as <- <-. apply lookup_insert_eq. }
  clear Hget. revert Hl. induction Hsteps as [self1|self1 s' self2 [a cl] _ IH]; intros Hl.
  - unfold get_client, lookup_client, insert_client. by rewrite Hl.
  - apply IH. unfold insert_client. destruct (self1 !! a) eqn:Ha; [done|].
    cbn [snd]. rewrite lookup_insert_ne; [done|]. congruence.
Qed.
End clients.

Lemma get_client_stable_witness :
  get_client (fun _ => Err (Internal "offline")) (<["b" := 2]> (<["a" := 1]> ∅)) "a" =
    Ok (1, <["b" := 2]> (<["a" := 1]> ∅)).
Proof.
  apply (get_client_stable (Client := N) (fun _ => Ok 1) (fun _ => Err (Internal "offline"))
           ∅ "a" 1 (<["a" := 1]> ∅)).
  - reflexivity.
  - apply rtc_once.
    replace (<["b" := 2]> (<["a" := 1]> ∅))
      with (snd (insert_client (<["a" := 1]> ∅) "b" 2)) by (vm_compute; reflexivity).
    constructor.
Defined.
End DataClientManager.
