(* ===== verification/FileSystem.v ===== *)
(** * File systems (src/streaming/state/file_system.rs)

    [Path] and the part of the operating system's file system that the code uses through
    [tokio::fs]; the trait [FileSystemStorage] as a class, the laws its clients rely on
    ([FileSystemLaws]), and the implementation [PrefixedLocalFileSystemStorage] with the proof
    that it satisfies them. *)

From Stdlib Require Import Ascii.
From S2P Require Import Prelude.

(** ** Paths *)

(** A relative path is the list of its components. *)
Abbreviation Path := (list string).

(** Split at ["/"]; empty and ["."] components disappear, as in [std::path]. *)
Fixpoint split_slash (s : string) (acc : string) : list string :=
  match s with
  | EmptyString => [acc]
  | String c s =>
      if Ascii.eqb c "/"%char then acc :: split_slash s ""
      else split_slash s (acc +:+ String c EmptyString)
  end.
Definition to_path (s : string) : Path :=
  List.filter (fun c => negb (String.eqb c "" || String.eqb c ".")) (split_slash s "").

(** [path.join(name)] *)
Definition join (p : Path) (s : string) : Path := p ++ to_path s.

(** [path.to_string_lossy().to_string()] *)
Definition path_string (p : Path) : string := String.concat "/" p.

(** A component that [to_path] gives back. *)
Fixpoint no_slash (s : string) : bool :=
  match s with
  | EmptyString => true
  | String c s => negb (Ascii.eqb c "/"%char) && no_slash s
  end.
Definition component (s : string) : Prop := s <> "" /\ s <> "." /\ no_slash s = true.

Lemma string_app_assoc (a b c : string) : (a +:+ b) +:+ c = a +:+ (b +:+ c).
Proof. induction a as [|x a IH]; [done|]. exact (f_equal (String x) IH). Qed.

Lemma string_app_empty_r (a : string) : a +:+ "" = a.
Proof. induction a as [|x a IH]; [done|]. exact (f_equal (String x) IH). Qed.

Lemma split_slash_component s rest acc :
  no_slash s = true ->
  split_slash (s +:+ String "/" rest) acc = (acc +:+ s) :: split_slash rest "" /\
  split_slash s acc = [acc +:+ s].
Proof.
  revert acc. induction s as [|c s IH]; intros acc Hs.
  - cbn. by rewrite string_app_empty_r.
  - cbn [no_slash] in Hs. apply andb_true_iff in Hs as [Hc%negb_true_iff Hs].
    assert (forall r, split_slash (String c r) acc = split_slash r (acc +:+ String c "")) as Hstep.
    { intros r. cbn [split_slash]. by rewrite Hc. }
    destruct (IH (acc +:+ String c "") Hs) as [H1 H2].
    change (String c s +:+ String "/" rest) with (String c (s +:+ String "/" rest)).
    by rewrite !Hstep, H1, H2, string_app_assoc.
Qed.

Lemma component_kept s : component s -> negb (String.eqb s "" || String.eqb s ".") = true.
Proof.
  intros (H1 & H2 & _). apply String.eqb_neq in H1, H2. by rewrite H1, H2.
Qed.

Lemma to_path_component s : component s -> to_path s = [s].
Proof.
  intros Hs. unfold to_path.
  rewrite (proj2 (split_slash_component s "" "" (proj2 (proj2 Hs)))). cbn [List.filter].
  change ("" +:+ s) with s. by rewrite component_kept.
Qed.

Lemma to_path_path_string p : Forall component p -> to_path (path_string p) = p.
Proof.
  intros Hp. destruct p as [|s p]; [done|].
  apply Forall_cons in Hp as [Hs Hp]. revert s Hs. induction Hp as [|s' p Hs' _ IH]; intros s Hs.
  - by apply to_path_component.
  - change (path_string (s :: s' :: p)) with (s +:+ String "/" (path_string (s' :: p))).
    unfold to_path.
    rewrite (proj1 (split_slash_component s _ "" (proj2 (proj2 Hs)))). cbn [List.filter].
    change ("" +:+ s) with s. rewrite component_kept by done. f_equal. by apply IH.
Qed.

(** The rest of [q] after the prefix [p]. *)
Definition strip (p q : Path) : option Path :=
  if decide (p `prefix_of` q) then Some (drop (length p) q) else None.

Lemma strip_Some p q r : strip p q = Some r <-> q = p ++ r.
Proof.
  unfold strip. case_decide as Hp.
  - destruct Hp as [k ->]. rewrite drop_app_length. split; [congruence|].
    intros ->%app_inv_head. done.
  - split; [done|]. intros ->. destruct Hp. by eexists.
Qed.
Lemma strip_None p q : strip p q = None <-> ~ p `prefix_of` q.
Proof. unfold strip. case_decide; naive_solver. Qed.

(** Neither path lies below the other. *)
Definition apart (p q : Path) : Prop := ~ p `prefix_of` q /\ ~ q `prefix_of` p.

Lemma apart_below p q r s : apart p q -> apart (p ++ r) (q ++ s).
Proof.
  intros [H1 H2]. split; intros Hpre.
  - assert (p `prefix_of` q ++ s) as Hp by (etrans; [by eexists|exact Hpre]).
    destruct (prefix_weak_total p q (q ++ s)); [done|by eexists|done..].
  - assert (q `prefix_of` p ++ r) as Hp by (etrans; [by eexists|exact Hpre]).
    destruct (prefix_weak_total q p (p ++ r)); [done|by eexists|done..].
Qed.

Lemma apart_not_below p q r : apart p q -> strip p (q ++ r) = None.
Proof.
  intros Ha. apply strip_None. pose proof (apart_below p q [] r Ha) as [H _].
  by rewrite app_nil_r in H.
Qed.

(** ** Directory trees *)

Inductive node := FileNode (contents : list N) | DirNode.
#[global] Instance node_eq_dec : EqDecision node.
Proof. solve_decision. Defined.

(** The nodes of a file system below its root, which is a directory. *)
Abbreviation tree := (gmap Path node).

Definition is_dir (t : tree) (p : Path) : bool :=
  match p with [] => true | _ => bool_decide (t !! p = Some DirNode) end.
Definition is_file (t : tree) (p : Path) : bool :=
  match t !! p with Some (FileNode _) => true | _ => false end.
Definition parent (p : Path) : Path := removelast p.

(** The prefixes of a path, shortest first, without the empty one. *)
Definition prefixes (p : Path) : list Path := (fun n => take (S n) p) <$> seq 0 (length p).

(** [create_dir_all]: make every missing prefix a directory. *)
Definition mkdirs (t : tree) (p : Path) : tree :=
  foldl (fun t q => match t !! q with Some _ => t | None => <[q := DirNode]> t end) t (prefixes p).

Record FileSystemEntry := mkEntry { name : string; directory : bool }.

(** [k] is the entry [n] of the directory [p]. *)
Definition child_of (p k : Path) : option string :=
  match last k with
  | Some n => if decide (k = p ++ [n]) then Some n else None
  | None => None
  end.
Definition children (t : tree) (p : Path) : list FileSystemEntry :=
  omap (fun '(k, v) => (fun n => mkEntry n (bool_decide (v = DirNode))) <$> child_of p k)
    (map_to_list t).

(** ** The operating system's operations ([tokio::fs]) *)

Module Os.
Definition write (p : Path) (contents : list N) : act tree string unit := fun t =>
  if is_dir t p then (t, Err "Is a directory")
  else if is_dir t (parent p) then (<[p := FileNode contents]> t, Ok tt)
  else (t, Err "No such file or directory").

Definition read (p : Path) : act tree string (list N) := fun t =>
  match t !! p with
  | Some (FileNode c) => (t, Ok c)
  | Some DirNode => (t, Err "Is a directory")
  | None => (t, Err "No such file or directory")
  end.

(** The entries of a directory, in the order the system gives them. *)
Definition read_dir (p : Path) : act tree string (list FileSystemEntry) := fun t =>
  if is_dir t p then (t, Ok (children t p)) else (t, Err "No such file or directory").

Definition create_dir_all (p : Path) : act tree string unit := fun t =>
  if existsb (is_file t) (prefixes p) then (t, Err "Not a directory") else (mkdirs t p, Ok tt).

Definition remove_dir_all (p : Path) : act tree string unit := fun t =>
  if is_dir t p then (filter (fun kv => ~ p `prefix_of` kv.1) t, Ok tt)
  else (t, Err "No such file or directory").

Definition copy_file (src dst : Path) : act tree string unit :=
  c ← read src; write dst c.
End Os.

(** ** The storage trait *)

Class FileSystemStorage (FS : Type) := {
  write_file : Path -> list N -> act FS DataFusionError unit;
  read_file : Path -> act FS DataFusionError (list N);
  list_files : Path -> act FS DataFusionError (list FileSystemEntry);
  copy : Path -> Path -> act FS DataFusionError unit;
  remove_dir_all : Path -> act FS DataFusionError unit;
  mkdir_all : Path -> act FS DataFusionError unit;
  get_physical_path : Path -> res DataFusionError Path;
}.

(** The nodes a storage holds, as its clients see them. *)
Class FileSystemView (FS : Type) := {
  view : FS -> Path -> option node;
  fs_wf : FS -> Prop;
}.

Definition dir_at {FS} `{FileSystemView FS} (fs : FS) (p : Path) : Prop :=
  p = [] \/ view fs p = Some DirNode.

(** What the clients of a storage rely on. *)
Class FileSystemLaws (FS : Type) `{FileSystemStorage FS, FileSystemView FS} : Prop := {
  view_closed fs p n : fs_wf fs -> is_Some (view fs (p ++ [n])) -> dir_at fs p;
  view_finite fs : fs_wf fs -> exists ps : list Path, forall q, is_Some (view fs q) -> q ∈ ps;
  read_file_spec fs p c :
    fs_wf fs -> p <> [] -> view fs p = Some (FileNode c) -> read_file p fs = (fs, Ok c);
  read_file_missing fs p :
    fs_wf fs -> p <> [] -> view fs p = None -> exists e, read_file p fs = (fs, Err e);
  list_files_spec fs p : fs_wf fs -> dir_at fs p ->
    exists l, list_files p fs = (fs, Ok l) /\ NoDup (name <$> l) /\
      forall n d, mkEntry n d ∈ l <->
        exists v, view fs (p ++ [n]) = Some v /\ d = bool_decide (v = DirNode);
  mkdir_all_spec fs p : fs_wf fs ->
    (forall q c, q `prefix_of` p -> q <> [] -> view fs q <> Some (FileNode c)) ->
    exists fs', mkdir_all p fs = (fs', Ok tt) /\ fs_wf fs' /\
      forall q, view fs' q =
        if decide (q <> [] /\ q `prefix_of` p) then Some DirNode else view fs q;
  write_file_spec fs p c : fs_wf fs -> p <> [] -> dir_at fs (parent p) ->
    view fs p <> Some DirNode ->
    exists fs', write_file p c fs = (fs', Ok tt) /\ fs_wf fs' /\
      forall q, view fs' q = if decide (q = p) then Some (FileNode c) else view fs q;
  (** copying to a fresh name in an existing directory copies the whole subtree *)
  copy_spec fs src dst : fs_wf fs -> is_Some (view fs src) -> src <> [] -> dst <> [] ->
    apart src dst -> view fs dst = None -> dir_at fs (parent dst) ->
    exists fs', copy src dst fs = (fs', Ok tt) /\ fs_wf fs' /\
      forall q, view fs' q =
        match strip dst q with Some r => view fs (src ++ r) | None => view fs q end;
}.

(** ** A storage in a directory of the local file system *)

Module PrefixedLocalFileSystemStorage.
Section prefixed.
(** [self.dir]; the same operations serve [TempdirFileSystemStorage], whose [inner] storage
    is the temporary directory's. *)
Context (dir : Path).

Definition prefixed_path (p : Path) : Path := dir ++ p.

Definition with_msg {A} (msg : string) (m : act tree string A) : act tree DataFusionError A :=
  fun t => let '(t, r) := m t in (t, map_err (fun e => Execution (msg +:+ e)) r).

(** The recursive [copy]; one unit of fuel per directory level. *)
Fixpoint copy_rec (fuel : nat) (src dst : Path) : act tree DataFusionError unit := fun t =>
  let absolute_src_path := prefixed_path src in
  let absolute_dst_path := prefixed_path dst in
  if negb (is_dir t absolute_src_path) then
    with_msg "Failed to copy file: " (Os.copy_file absolute_src_path absolute_dst_path) t
  else
    match fuel with
    | O => (t, Panic "out of fuel")
    | S fuel =>
        (with_msg "Failed to create directory: " (Os.create_dir_all absolute_dst_path) ;;
         entries ← with_msg "Failed to read directory: " (Os.read_dir absolute_src_path);
         for_each (fun entry => copy_rec fuel (src ++ [name entry]) (dst ++ [name entry])) entries) t
    end.

#[export] Instance storage : FileSystemStorage tree := {|
  write_file p c := with_msg "Failed to write file: " (Os.write (prefixed_path p) c);
  read_file p := with_msg "Failed to read file: " (Os.read (prefixed_path p));
  list_files p := with_msg "Failed to read dir: " (Os.read_dir (prefixed_path p));
  copy src dst t := copy_rec (S (size t)) src dst t;
  remove_dir_all p := with_msg "Failed to remove directory: " (Os.remove_dir_all (prefixed_path p));
  mkdir_all p := with_msg "Failed to create directory: " (Os.create_dir_all (prefixed_path p));
  get_physical_path p := Ok (prefixed_path p);
|}.

(** Every node is in a directory, and the storage's own directory exists. *)
Definition closed (t : tree) : Prop :=
  forall p n, is_Some (t !! (p ++ [n])) -> is_dir t p = true.
Definition wf (t : tree) : Prop := closed t /\ is_dir t dir = true.

Lemma is_dir_true t p : is_dir t p = true <-> p = [] \/ t !! p = Some DirNode.
Proof.
  unfold is_dir. destruct p as [|x p]; [naive_solver|].
  rewrite bool_decide_eq_true. naive_solver.
Qed.

Lemma elem_of_prefixes p q : q ∈ prefixes p <-> q <> [] /\ q `prefix_of` p.
Proof.
  unfold prefixes. rewrite list_elem_of_fmap. setoid_rewrite elem_of_seq. split.
  - intros (n & -> & Hn). split.
    + destruct p; cbn in *; [lia|done].
    + exists (drop (S n) p). by rewrite take_drop.
  - intros [Hq [k ->]]. destruct q as [|x q] using rev_ind; [done|]. clear IHq.
    exists (length q). rewrite !length_app. cbn. split; [|lia].
    rewrite take_app_le by (rewrite length_app; cbn; lia).
    rewrite take_ge; [done|]. rewrite length_app. cbn. lia.
Qed.

Lemma mkdirs_lookup t p q :
  mkdirs t p !! q = match t !! q with
                    | Some v => Some v
                    | None => if decide (q <> [] /\ q `prefix_of` p) then Some DirNode else None
                    end.
Proof.
  unfold mkdirs. rewrite <- (decide_ext _ _ _ _ (elem_of_prefixes p q)).
  generalize (prefixes p) as l. intros l. revert t. induction l as [|x l IH]; intros t; cbn.
  - by destruct (t !! q).
  - rewrite IH. destruct (decide (q = x)) as [->|Hne].
    + destruct (t !! x) eqn:Hx; [by rewrite Hx|]. rewrite lookup_insert_eq.
      rewrite decide_True by set_solver. done.
    + assert ((match t !! x with Some _ => t | None => <[x := DirNode]> t end) !! q = t !! q) as ->.
      { destruct (t !! x); [done|]. by rewrite lookup_insert_ne. }
      destruct (t !! q); [done|]. apply decide_ext. set_solver.
Qed.

#[export] Instance fs_view : FileSystemView tree := {|
  view t q := t !! (dir ++ q);
  fs_wf := wf;
|}.

Lemma dir_at_is_dir t p : wf t -> dir_at t p -> is_dir t (dir ++ p) = true.
Proof.
  intros [_ Hdir] [->|Hp]; [by rewrite app_nil_r|]. apply is_dir_true. by right.
Qed.

Lemma is_dir_dir_at t p : p <> [] -> is_dir t (dir ++ p) = true -> dir_at t p.
Proof.
  intros Hp [Hn|Hd]%is_dir_true; [|by right]. by destruct (app_eq_nil _ _ Hn).
Qed.

(** The prefixes of an existing directory are directories. *)
Lemma closed_prefix t p q : closed t -> is_dir t p = true -> q `prefix_of` p -> is_dir t q = true.
Proof.
  intros Hc. induction p as [|x p IH] using rev_ind; intros Hp Hq.
  - by rewrite (prefix_nil_inv _ Hq).
  - destruct (decide (q = p ++ [x])) as [->|Hne]; [done|]. apply IH.
    + apply is_dir_true in Hp as [Hn|Hp]; [by destruct (app_cons_not_nil p [] x)|].
      eapply Hc. by eexists.
    + destruct Hq as [k Hk]. destruct k as [|y k _] using rev_ind.
      * by rewrite app_nil_r in Hk.
      * rewrite (assoc_L (++)) in Hk. apply app_inj_tail in Hk as [-> _]. by eexists.
Qed.

Lemma closed_insert_file t p c :
  closed t -> is_dir t p = false -> is_dir t (parent p) = true ->
  closed (<[p := FileNode c]> t).
Proof.
  intros Hc Hp Hpar q n. rewrite lookup_insert.
  assert (forall r, is_dir t r = true -> is_dir (<[p := FileNode c]> t) r = true) as Hkeep.
  { intros r Hr. apply is_dir_true. pose proof Hr as Hr'.
    apply is_dir_true in Hr as [->|Hr]; [by left|]. right.
    rewrite lookup_insert_ne; [done|]. intros ->. congruence. }
  case_decide as Heq.
  - intros _. apply Hkeep. subst p. unfold parent in Hpar. by rewrite removelast_last in Hpar.
  - intros Hq. apply Hkeep. by eapply Hc.
Qed.

Lemma closed_mkdirs t p :
  closed t -> (forall q c, q ∈ prefixes p -> t !! q <> Some (FileNode c)) -> closed (mkdirs t p).
Proof.
  intros Hc Hp q n. rewrite mkdirs_lookup, is_dir_true, mkdirs_lookup.
  destruct (t !! (q ++ [n])) eqn:Hq.
  - intros _. destruct (proj1 (is_dir_true t q) (Hc q n ltac:(by eexists))) as [->|Hd]; [by left|].
    right. by rewrite Hd.
  - case_decide as Hpre; [|by intros []]. intros _. destruct q as [|x q]; [by left|]. right.
    assert (x :: q ∈ prefixes p) as Hin.
    { apply elem_of_prefixes. split; [done|]. destruct Hpre as [_ Hpre].
      etrans; [|exact Hpre]. by eexists. }
    destruct (t !! (x :: q)) as [[c|]|] eqn:Hx; [by destruct (Hp _ c Hin)|done|].
    apply elem_of_prefixes in Hin. by rewrite decide_True.
Qed.

Lemma elem_of_children t p n d :
  mkEntry n d ∈ children t p <->
  exists v, t !! (p ++ [n]) = Some v /\ d = bool_decide (v = DirNode).
Proof.
  unfold children. rewrite list_elem_of_omap. split.
  - intros ([k v] & Hkv & Hc). apply elem_of_map_to_list in Hkv.
    unfold child_of in Hc. destruct (last k) as [n'|]; [|done].
    case_decide as Hk; [|done]. cbn in Hc. injection Hc as -> <-. subst k. by exists v.
  - intros (v & Hv & ->). exists (p ++ [n], v). split; [by apply elem_of_map_to_list|].
    unfold child_of. rewrite last_snoc. by rewrite decide_True.
Qed.

Lemma NoDup_children t p : NoDup (name <$> children t p).
Proof.
  unfold children. rewrite list_fmap_omap.
  pose proof (NoDup_fst_map_to_list t) as Hnd. revert Hnd.
  generalize (map_to_list t) as l. induction l as [|[k v] l IH]; cbn; [constructor|].
  intros [Hk Hnd]%NoDup_cons. unfold child_of at 1.
  destruct (last k) as [n|]; [|by apply IH]. case_decide as Heq; [|by apply IH]. cbn.
  constructor; [|by apply IH]. rewrite list_elem_of_omap. intros ([k' v'] & Hin & Hc).
  unfold child_of in Hc. destruct (last k') as [n'|]; [|done].
  case_decide as Heq'; [|done]. cbn in Hc. injection Hc as ->. apply Hk.
  apply list_elem_of_fmap. exists (k', v'). split; [|done]. cbn. congruence.
Qed.

(** No file stands on the way to [dir ++ p]. *)
Lemma no_file_prefix t p :
  wf t -> (forall q c, q `prefix_of` p -> q <> [] -> view t q <> Some (FileNode c)) ->
  forall q c, q ∈ prefixes (dir ++ p) -> t !! q <> Some (FileNode c).
Proof.
  intros [Hc Hdir] Hp q c [Hne Hq]%elem_of_prefixes Hf.
  destruct (prefix_weak_total q dir (dir ++ p)) as [Hqd|[r ->]]; [done|by eexists|..].
  - pose proof (closed_prefix _ _ _ Hc Hdir Hqd) as Hd%is_dir_true. naive_solver.
  - destruct (decide (r = [])) as [->|Hr].
    + rewrite app_nil_r in *. apply is_dir_true in Hdir. naive_solver.
    + apply (Hp r c); [|done|done]. by apply prefix_app_inv in Hq.
Qed.

Lemma mkdirs_view t p :
  wf t -> (forall q c, q `prefix_of` p -> q <> [] -> view t q <> Some (FileNode c)) ->
  wf (mkdirs t (dir ++ p)) /\
  forall q, view (mkdirs t (dir ++ p)) q =
    if decide (q <> [] /\ q `prefix_of` p) then Some DirNode else view t q.
Proof.
  intros Hwf Hp. pose proof (no_file_prefix t p Hwf Hp) as Hno. destruct Hwf as [Hc Hdir].
  split; [split|].
  - by apply closed_mkdirs.
  - apply is_dir_true in Hdir as [->|Hd]; [done|]. apply is_dir_true. right.
    by rewrite mkdirs_lookup, Hd.
  - intros q. cbn. rewrite mkdirs_lookup.
    destruct (decide (q <> [] /\ q `prefix_of` p)) as [Hq|Hq].
    + destruct Hq as [Hne Hpre]. destruct (t !! (dir ++ q)) as [[c|]|] eqn:Hl; [|done|].
      * by destruct (Hp q c).
      * rewrite decide_True; [done|]. split; [|by apply prefix_app].
        intros Hn. by apply app_eq_nil in Hn as [_ ->].
    + destruct (t !! (dir ++ q)) eqn:Hl; [done|]. rewrite decide_False; [done|].
      intros [Hne Hpre]. apply prefix_app_inv in Hpre. destruct q as [|x q].
      * rewrite app_nil_r in *. apply is_dir_true in Hdir. naive_solver.
      * apply Hq. done.
Qed.

(** *** The recursive copy *)

Lemma not_dir_below t p r :
  wf t -> p <> [] -> view t p <> Some DirNode -> r <> [] -> view t (p ++ r) = None.
Proof.
  intros [Hc _] Hp Hnd. induction r as [|y r IH] using rev_ind; [done|]. intros _.
  destruct (view t (p ++ r ++ [y])) as [v|] eqn:Hv; [|done]. exfalso. cbn in Hv.
  rewrite !(assoc_L (++)) in Hv. rewrite <- (assoc_L (++) dir) in Hv.
  pose proof (Hc _ _ (mk_is_Some _ _ Hv)) as [Hn|Hd]%is_dir_true.
  - apply app_eq_nil in Hn as [_ Hn]. by apply app_eq_nil in Hn as [? _].
  - destruct r as [|x r]; [by rewrite app_nil_r in Hd|].
    specialize (IH ltac:(done)). cbn in IH. congruence.
Qed.

(** All nodes below [src] are less than [n] levels deep. *)
Definition depth (t : tree) (src : Path) (n : nat) : Prop :=
  forall r, is_Some (view t (src ++ r)) -> (length r < n)%nat.

Definition copied (t : tree) (src dst : Path) (t' : tree) : Prop :=
  wf t' /\ forall q, view t' q =
    match strip dst q with Some r => view t (src ++ r) | None => view t q end.

Definition copyable (t : tree) (src dst : Path) : Prop :=
  wf t /\ is_Some (view t src) /\ src <> [] /\ dst <> [] /\ apart src dst /\
  view t dst = None /\ dir_at t (parent dst).

(** The state of the loop over the entries: those in [todo] are missing in [dst]. *)
Definition copying (t : tree) (src dst : Path) (todo : list string) (u : tree) : Prop :=
  wf u /\ forall q, view u q =
    match strip dst q with
    | Some [] => Some DirNode
    | Some (n :: r) => if decide (n ∈ todo) then None else view t (src ++ n :: r)
    | None => view t q
    end.

Lemma copy_file_copied t src dst c :
  copyable t src dst -> view t src = Some (FileNode c) ->
  exists t', with_msg "Failed to copy file: "
    (Os.copy_file (prefixed_path src) (prefixed_path dst)) t = (t', Ok tt) /\
    copied t src dst t'.
Proof.
  intros (Hwf & _ & Hs & Hd & Hap & Hnone & Hpar) Hc.
  pose proof Hwf as [Hclo Hdir]. cbn in Hc, Hnone.
  assert (is_dir t (dir ++ dst) = false) as Hf.
  { apply not_true_iff_false. intros [Hn|Hx]%is_dir_true; [|congruence].
    by destruct (app_eq_nil _ _ Hn). }
  assert (is_dir t (parent (dir ++ dst)) = true) as Hpd.
  { unfold parent. rewrite removelast_app by done. by apply dir_at_is_dir. }
  exists (<[dir ++ dst := FileNode c]> t). split; [|split].
  - unfold with_msg, Os.copy_file, Os.read, Os.write, mbind, act_bind, prefixed_path.
    by rewrite Hc, Hf, Hpd.
  - split; [by apply closed_insert_file|]. apply is_dir_true in Hdir as [->|Hx]; [done|].
    apply is_dir_true. right. rewrite lookup_insert_ne; [done|]. congruence.
  - intros q. cbn. destruct (strip dst q) as [r|] eqn:Hst.
    + apply strip_Some in Hst as ->. destruct r as [|x r].
      * by rewrite !app_nil_r, lookup_insert_eq.
      * rewrite lookup_insert_ne.
        2:{ intros Heq%app_inv_head. rewrite <- (app_nil_r dst) in Heq at 1.
            by apply app_inv_head in Heq. }
        transitivity (@None node); [|symmetry].
        -- apply (not_dir_below t dst (x :: r)); (done || cbn; congruence).
        -- apply (not_dir_below t src (x :: r)); (done || cbn; congruence).
    + rewrite lookup_insert_ne; [done|]. intros <-%app_inv_head.
      apply strip_None in Hst. by destruct Hst.
Qed.

Lemma copying_step t src dst n todo u v :
  copyable t src dst -> n ∉ todo -> view t src = Some DirNode ->
  copying t src dst (n :: todo) u -> view t (src ++ [n]) = Some v ->
  copyable u (src ++ [n]) (dst ++ [n]) /\
  forall u', copied u (src ++ [n]) (dst ++ [n]) u' -> copying t src dst todo u'.
Proof.
  intros (Hwf & _ & Hs & Hd & Hap & Hnone & Hpar) Hn Hdir [Hwfu Hu] Hv.
  assert (forall r, view u (src ++ r) = view t (src ++ r)) as Hsrc.
  { intros r. rewrite Hu, apart_not_below; [done|]. by destruct Hap. }
  split.
  - split; [done|]. split; [rewrite Hsrc; by eexists|].
    split; [by destruct src|]. split; [by destruct dst|]. split; [by apply apart_below|].
    split.
    + rewrite Hu, (proj2 (strip_Some dst _ [n]) eq_refl). by rewrite decide_True by set_solver.
    + unfold parent. rewrite removelast_last. right.
      by rewrite Hu, (proj2 (strip_Some dst dst []) (eq_sym (app_nil_r dst))).
  - intros u' [Hwfu' Hu']. split; [done|]. intros q. rewrite Hu'.
    destruct (strip (dst ++ [n]) q) as [r|] eqn:Hq.
    + apply strip_Some in Hq as ->. rewrite <- !(assoc_L (++)).
      rewrite (proj2 (strip_Some dst _ ([n] ++ r)) eq_refl), Hsrc. cbn.
      by rewrite decide_False.
    + rewrite Hu. destruct (strip dst q) as [[|m r]|] eqn:Hq'; [done| |done].
      assert (m <> n) as Hne.
      { intros ->. apply strip_Some in Hq' as ->. apply strip_None in Hq. destruct Hq.
        exists r. by rewrite <- (assoc_L (++)). }
      apply decide_ext. set_solver.
Qed.

Lemma copyable_on_the_way t src dst q :
  copyable t src dst -> q `prefix_of` dst -> q <> [] -> q <> dst -> view t q = Some DirNode.
Proof.
  intros (Hwf & _ & _ & _ & _ & _ & Hpar) Hq Hq0 Hqd.
  assert (q `prefix_of` parent dst) as Hqp.
  { destruct Hq as [k ->]. destruct k as [|x k _] using rev_ind; [by rewrite app_nil_r in Hqd|].
    unfold parent. rewrite (assoc_L (++)), removelast_last. by eexists. }
  assert (is_dir t (dir ++ q) = true) as Hqq.
  { eapply closed_prefix; [apply Hwf|exact (dir_at_is_dir _ _ Hwf Hpar)|]. by apply prefix_app. }
  apply is_dir_dir_at in Hqq; [|done]. by destruct Hqq.
Qed.

Lemma copyable_no_file t src dst :
  copyable t src dst ->
  forall q c, q `prefix_of` dst -> q <> [] -> view t q <> Some (FileNode c).
Proof.
  intros Hcopy q c Hq Hq0 Hf. destruct (decide (q = dst)) as [->|Hne].
  - destruct Hcopy as (_ & _ & _ & _ & _ & Hnone & _). congruence.
  - rewrite (copyable_on_the_way t src dst) in Hf by done. congruence.
Qed.

Lemma copying_start t src dst l :
  copyable t src dst -> view t src = Some DirNode ->
  (forall n, n ∈ l <-> is_Some (view t (src ++ [n]))) ->
  copying t src dst l (mkdirs t (dir ++ dst)).
Proof.
  intros Hcopy Hdir Hl. pose proof Hcopy as (Hwf & _ & Hs & Hd & Hap & Hnone & _).
  destruct (mkdirs_view t dst Hwf (copyable_no_file t src dst Hcopy)) as [Hwfm Hm].
  split; [done|]. intros q. rewrite Hm. destruct (strip dst q) as [[|n r]|] eqn:Hq.
  - apply strip_Some in Hq as ->. rewrite app_nil_r. by rewrite decide_True.
  - apply strip_Some in Hq as ->. rewrite decide_False.
    2:{ intros [_ [k Hk]]. rewrite <- (assoc_L (++)) in Hk.
        rewrite <- (app_nil_r dst) in Hk at 1. by apply app_inv_head in Hk. }
    rewrite (not_dir_below t dst) by (done || congruence). case_decide as Hn; [done|].
    symmetry. rewrite Hl in Hn. change (n :: r) with ([n] ++ r). rewrite (assoc_L (++)).
    destruct (view t (src ++ [n])) eqn:Hv; [destruct Hn; by eexists|].
    destruct r as [|y r]; [by rewrite app_nil_r|].
    apply not_dir_below; (done || (by destruct src) || congruence).
  - case_decide as Hqd; [|done]. destruct Hqd as [Hq0 Hqd]. apply strip_None in Hq.
    rewrite (copyable_on_the_way t src dst); [done..|]. intros ->. by destruct Hq.
Qed.

Lemma create_dir_all_ok msg t p :
  wf t -> (forall q c, q `prefix_of` p -> q <> [] -> view t q <> Some (FileNode c)) ->
  with_msg msg (Os.create_dir_all (prefixed_path p)) t = (mkdirs t (dir ++ p), Ok tt).
Proof.
  intros Hwf Hp. unfold with_msg, Os.create_dir_all, prefixed_path.
  assert (existsb (is_file t) (prefixes (dir ++ p)) = false) as ->; [|done].
  apply not_true_iff_false. rewrite existsb_exists. intros (q & Hq & Hf).
  apply list_elem_of_In in Hq. unfold is_file in Hf.
  destruct (t !! q) as [[c|]|] eqn:Hl; try done. by eapply (no_file_prefix t p Hwf Hp q c).
Qed.

Lemma copying_src t src dst todo u r :
  copyable t src dst -> copying t src dst todo u -> view u (src ++ r) = view t (src ++ r).
Proof.
  intros (_ & _ & _ & _ & [Ha1 Ha2] & _) [_ Hu]. rewrite Hu, apart_not_below; [done|]. done.
Qed.

(** The loop over the entries, given that the recursive calls copy. *)
Lemma copy_entries_copied fuel t src dst l :
  (forall t src dst, copyable t src dst -> depth t src fuel ->
     exists t', copy_rec fuel src dst t = (t', Ok tt) /\ copied t src dst t') ->
  copyable t src dst -> depth t src (S fuel) -> view t src = Some DirNode ->
  NoDup (name <$> l) -> (forall n, n ∈ name <$> l -> is_Some (view t (src ++ [n]))) ->
  forall u, copying t src dst (name <$> l) u ->
  exists u', for_each (fun entry => copy_rec fuel (src ++ [name entry]) (dst ++ [name entry])) l u
    = (u', Ok tt) /\ copying t src dst [] u'.
Proof.
  intros IH Hcopy Hdepth Hdir. induction l as [|[n d] l IHl]; intros Hnd Hl u Hu.
  { by exists u. }
  rewrite fmap_cons in *. apply NoDup_cons in Hnd as [Hn Hnd]. cbn [name] in *.
  destruct (Hl n) as [v Hv]; [set_solver|].
  destruct (copying_step t src dst n (name <$> l) u v Hcopy Hn Hdir Hu Hv) as [Hc Hstep].
  destruct (IH u (src ++ [n]) (dst ++ [n]) Hc) as (u1 & Hr & Hcp).
  { intros r Hr. rewrite <- (assoc_L (++)) in Hr.
    rewrite (copying_src _ _ _ _ _ _ Hcopy Hu) in Hr. apply Hdepth in Hr.
    cbn in Hr. lia. }
  destruct (IHl Hnd ltac:(set_solver) u1 (Hstep u1 Hcp)) as (u' & Hloop & Hu').
  exists u'. split; [|done]. cbn [for_each name].
  unfold mbind, act_bind. rewrite Hr. exact Hloop.
Qed.

Lemma copying_done t src dst u :
  view t src = Some DirNode -> copying t src dst [] u -> copied t src dst u.
Proof.
  intros Hdir [Hwf Hu]. split; [done|]. intros q. rewrite Hu.
  destruct (strip dst q) as [[|n r]|]; [by rewrite app_nil_r| |done].
  by rewrite decide_False by set_solver.
Qed.

Lemma copy_rec_copied fuel t src dst :
  copyable t src dst -> depth t src fuel ->
  exists t', copy_rec fuel src dst t = (t', Ok tt) /\ copied t src dst t'.
Proof.
  revert t src dst. induction fuel as [|fuel IH]; intros t src dst Hcopy Hdepth.
  - destruct Hcopy as (_ & Hsome & _). specialize (Hdepth []). rewrite app_nil_r in Hdepth.
    specialize (Hdepth Hsome). lia.
  - pose proof Hcopy as (Hwf & [v Hv] & Hs & Hd & Hap & Hnone & Hpar). cbn [copy_rec].
    unfold prefixed_path. destruct v as [c|].
    { assert (is_dir t (dir ++ src) = false) as ->.
      { apply not_true_iff_false. intros Hdd%is_dir_dir_at; [|done]. destruct Hdd; congruence. }
      by apply (copy_file_copied t src dst c). }
    rewrite (dir_at_is_dir t src Hwf (or_intror Hv)). cbn [negb].
    pose proof (create_dir_all_ok "Failed to create directory: " t dst Hwf
      (copyable_no_file t src dst Hcopy)) as Hmk. unfold prefixed_path in Hmk.
    unfold mbind, act_bind. rewrite Hmk. set (u0 := mkdirs t (dir ++ dst)) in *.
    assert (forall l, (forall n, n ∈ l <-> is_Some (view t (src ++ [n]))) ->
      copying t src dst l u0) as Hstart by (intros l; by apply copying_start).
    assert (forall n, n ∈ name <$> children u0 (dir ++ src) <-> is_Some (view t (src ++ [n]))) as Hl.
    { intros n. destruct (mkdirs_view t dst Hwf (copyable_no_file t src dst Hcopy)) as [_ Hm].
      assert (view u0 (src ++ [n]) = view t (src ++ [n])) as Hsame.
      { subst u0. rewrite Hm, decide_False; [done|]. intros [_ [k Hk]].
        destruct Hap as [Hap _]. apply Hap. rewrite Hk, <- (assoc_L (++)). by eexists. }
      rewrite <- Hsame, list_elem_of_fmap. split.
      - intros ([n' d] & -> & Hin). apply elem_of_children in Hin as (v & Hv' & _).
        cbn. rewrite (assoc_L (++)). by eexists.
      - intros [v Hv']. cbn in Hv'. rewrite (assoc_L (++)) in Hv'.
        exists (mkEntry n (bool_decide (v = DirNode))). split; [done|].
        apply elem_of_children. by exists v. }
    specialize (Hstart _ Hl).
    assert (is_dir u0 (dir ++ src) = true) as Hsd.
    { apply dir_at_is_dir; [apply Hstart|]. right.
      pose proof (copying_src _ _ _ _ _ [] Hcopy Hstart) as Hsame.
      rewrite !app_nil_r in Hsame. congruence. }
    unfold with_msg at 1, Os.read_dir. rewrite Hsd. cbn [map_err].
    destruct (copy_entries_copied fuel t src dst (children u0 (dir ++ src)) IH Hcopy Hdepth Hv
      (NoDup_children _ _) (fun n => proj1 (Hl n)) u0 Hstart) as (u' & Hloop & Hu').
    exists u'. split; [exact Hloop|]. by apply copying_done.
Qed.

(** A path of a closed tree is no longer than the tree has nodes. *)
Lemma depth_size t src : wf t -> src <> [] -> depth t src (S (size t)).
Proof.
  intros [Hc _] Hs r [v Hv]. cbn in Hv.
  assert (length (dir ++ src ++ r) <= size t)%nat as Hle; [|rewrite !length_app in Hle; lia].
  assert (forall q, q ∈ prefixes (dir ++ src ++ r) -> q ∈ dom t) as Hsub.
  { intros q [Hq0 Hq]%elem_of_prefixes. apply elem_of_dom.
    destruct (decide (q = dir ++ src ++ r)) as [->|Hne]; [by eexists|].
    destruct Hq as [k Hk]. destruct k as [|x k _] using rev_ind; [by rewrite app_nil_r in Hk|].
    rewrite Hk, (assoc_L (++)) in Hv.
    pose proof (closed_prefix _ _ q Hc (Hc _ _ (mk_is_Some _ _ Hv)) ltac:(by eexists)) as Hd.
    apply is_dir_true in Hd as [|Hd]; [done|by eexists]. }
  rewrite <- size_dom. assert (NoDup (prefixes (dir ++ src ++ r))) as Hnd.
  { unfold prefixes. apply NoDup_fmap_2_strong; [|apply NoDup_seq].
    intros i j Hi%elem_of_seq Hj%elem_of_seq Heq%(f_equal length).
    rewrite !length_take in Heq. lia. }
  assert (length (prefixes (dir ++ src ++ r)) = length (dir ++ src ++ r)) as <-.
  { unfold prefixes. by rewrite length_fmap, length_seq. }
  rewrite <- (size_list_to_set (C := gset Path)) by done. apply subseteq_size.
  intros q. rewrite elem_of_list_to_set. apply Hsub.
Qed.

#[export] Instance laws : FileSystemLaws tree.
Proof.
  split.
  - intros t p n [Hc Hdir] Hs. cbn in Hs. rewrite (assoc_L (++)) in Hs. apply Hc in Hs.
    destruct (decide (p = [])) as [->|Hp]; [by left|]. by apply is_dir_dir_at.
  - intros t _. exists (drop (length dir) <$> (map_to_list t).*1). intros q [v Hv]. cbn in Hv.
    apply list_elem_of_fmap. exists (dir ++ q). split; [by rewrite drop_app_length|].
    apply list_elem_of_fmap. exists (dir ++ q, v). split; [done|]. by apply elem_of_map_to_list.
  - intros t p c _ _ Hv. cbn in Hv. cbn. unfold with_msg, Os.read, prefixed_path. by rewrite Hv.
  - intros t p _ _ Hv. cbn in Hv. cbn. unfold with_msg, Os.read, prefixed_path. rewrite Hv.
    by eexists.
  - intros t p Hwf Hd. exists (children t (dir ++ p)). split; [|split].
    + cbn. unfold with_msg, Os.read_dir, prefixed_path. by rewrite dir_at_is_dir.
    + apply NoDup_children.
    + intros n d. rewrite elem_of_children. cbn. by rewrite (assoc_L (++)).
  - intros t p Hwf Hp. exists (mkdirs t (dir ++ p)). split; [|by apply mkdirs_view].
    by apply create_dir_all_ok.
  - intros t p c Hwf Hp Hpar Hnd. exists (<[dir ++ p := FileNode c]> t).
    assert (is_dir t (dir ++ p) = false) as Hf.
    { apply not_true_iff_false. intros Hd. apply is_dir_dir_at in Hd; [|done].
      by destruct Hd. }
    assert (is_dir t (parent (dir ++ p)) = true) as Hpd.
    { unfold parent. rewrite removelast_app by done. by apply dir_at_is_dir. }
    split; [|split].
    + cbn. unfold with_msg, Os.write, prefixed_path. by rewrite Hf, Hpd.
    + destruct Hwf as [Hc Hdir]. split; [by apply closed_insert_file|].
      apply is_dir_true in Hdir as [->|Hd]; [done|]. apply is_dir_true. right.
      rewrite lookup_insert_ne; [done|]. intros Heq.
      rewrite <- (app_nil_r dir) in Heq at 2. by apply app_inv_head in Heq.
    + intros q. cbn. rewrite lookup_insert. apply decide_ext.
      split; [intros Heq; by apply app_inv_head in Heq|congruence].
  - intros t src dst Hwf Hsome Hs Hd Hap Hnone Hpar.
    assert (copyable t src dst) as Hc by done.
    exact (copy_rec_copied _ t src dst Hc (depth_size t src Hwf Hs)).
Qed.
End prefixed.
End PrefixedLocalFileSystemStorage.
