(* ===== verification/CheckpointStorage.v ===== *)
(** * The index of completed checkpoints (src/streaming/state/checkpoint_storage.rs)

    [FileSystemStateStorage] keeps, per operator, a [latest.json] that lists which partition
    ranges of which checkpoints were uploaded and where.  The file models its operations over
    any [FileSystemStorage], and proves that a selection of partial checkpoints tiles the
    searched range, when a selection is found, and that what was completed is found again. *)

From Stdlib Require Import Sorted Ascii.
From S2P Require Import Prelude Arrow Partitioning Generation FileSystem.
Import PartitionRangeOps.

Record PartitionInfo := mkPartitionInfo {
  partition_range : PartitionRange;
  timestamp : N;
  checkpoint_dir : string;
}.

Record CheckpointEntry := mkCheckpointEntry {
  entry_id : string;
  entry_partitions : list PartitionInfo;
}.

Record LatestCheckpoints := mkLatest { completed_checkpoints : list CheckpointEntry }.

Record OverlappingPartition := mkOverlap {
  ov_index : nat;
  selected_partition_range : PartitionRange;
}.

(** The [Serialize] and [Deserialize] instances derived for [LatestCheckpoints], through
    serde_json and UTF-8. *)
Class LatestJson := {
  to_string_pretty : LatestCheckpoints -> res string (list N);
  from_utf8 : list N -> res string string;
  from_str : string -> res string LatestCheckpoints;
}.
Class LatestJsonLaws `{LatestJson} : Prop := {
  json_roundtrip l : exists bytes text, to_string_pretty l = Ok bytes /\
    from_utf8 bytes = Ok text /\ from_str text = Ok l;
}.

(** ** Selecting partial checkpoints *)

(** [slice::sort_by_key], which is stable: an element goes behind those with an equal key. *)
Fixpoint insert_by_key {A} (key : A -> nat) (x : A) (l : list A) : list A :=
  match l with
  | [] => [x]
  | y :: l => if (key x <? key y)%nat then x :: y :: l else y :: insert_by_key key x l
  end.
Definition sort_by_key {A} (key : A -> nat) (l : list A) : list A :=
  foldl (fun acc x => insert_by_key key x acc) [] l.

Section selection.
Context `{Profile}.

(** [n * target_partitions / partitions] *)
Definition normalize (target n p : N) : res DataFusionError N :=
  m ← umul n target; udiv m p.

(** The loop over the sorted partitions. *)
Fixpoint select_loop (target search_end : N) (parts : list (nat * N * N))
    (current_search_start : N) (found : list OverlappingPartition)
    : res DataFusionError (option (list OverlappingPartition)) :=
  match parts with
  | [] =>
      if current_search_start <? search_end then Ok None
      else Panic "Search algorithm finished without returning the success case"
  | (index, start, end_) :: parts =>
      if current_search_start <? end_ then
        if current_search_start <? start then Ok None
        else
          let overlap_end := N.min search_end end_ in
          let found := found ++
            [mkOverlap index (PartitionRangeOps.new current_search_start overlap_end target)] in
          if search_end <=? overlap_end then Ok (Some found)
          else select_loop target search_end parts overlap_end found
      else select_loop target search_end parts current_search_start found
  end.

(** The enumerated, normalised ranges; a panic of the arithmetic ends the function. *)
Definition normalize_all (target : N) (available : list PartitionRange)
    : res DataFusionError (list (nat * N * N)) :=
  try_collect (fun '(index, r) =>
    s ← normalize target (start r) (partitions r);
    e ← normalize target (end_ r) (partitions r);
    Ok (index, s, e)) (imap pair available).

Definition get_non_overlapping_partitions (search_range : PartitionRange)
    (available : list PartitionRange) : res DataFusionError (option (list OverlappingPartition)) :=
  match max_opt ((partitions <$> available) ++ [partitions search_range]) with
  | None => Ok None
  | Some target_partitions =>
      search_start ← normalize target_partitions (start search_range) (partitions search_range);
      search_end ← normalize target_partitions (end_ search_range) (partitions search_range);
      normalized ← normalize_all target_partitions available;
      let overlapping := List.filter (fun '(_, s, e) => (s <? search_end) && (search_start <? e))
        normalized in
      (* the closure's first component is the index *)
      let sorted := sort_by_key (fun '(index, _, _) => index) overlapping in
      select_loop target_partitions search_end sorted search_start []
  end.
End selection.

(** ** The storage *)

Section storage.
Context {FS : Type} `{FileSystemStorage FS, LatestJson, Profile}.

Record FileSystemStateStorage := mkStateStorage { root_dir : Path }.
Implicit Types self : FileSystemStateStorage.

Definition get_checkpoint_path self (operator_id checkpoint_id : string) : Path :=
  join (join (join (join (root_dir self) "operators") operator_id) "checkpoints") checkpoint_id.

Definition get_latest_json_path self (operator_id : string) : Path :=
  join (join (join (root_dir self) "operators") operator_id) "latest.json".

Definition read_latest_json (path : Path) : act FS DataFusionError LatestCheckpoints := fun fs =>
  match read_file path fs with
  | (fs, Ok content) =>
      (fs, content_str ← map_err (fun e => Internal ("Failed to parse file as UTF-8: " +:+ e))
             (from_utf8 content);
           map_err (fun e => Internal ("Failed to parse JSON: " +:+ e)) (from_str content_str))
  | (fs, Err _) => (fs, Ok (mkLatest []))
  | (fs, Panic w) => (fs, Panic w)
  end.

Definition write_latest_json (path : Path) (latest : LatestCheckpoints)
    : act FS DataFusionError () :=
  json_content ← lift (map_err (fun e => Internal ("Failed to serialize JSON: " +:+ e))
                         (to_string_pretty latest));
  (match path with [] => mret tt | _ => mkdir_all (parent path) end ;;
   write_file path json_content).

(** The v4 UUID is the argument [uuid]. *)
Definition start_checkpoint self (uuid operator_id : string) : act FS DataFusionError Path :=
  let checkpoint_path := get_checkpoint_path self operator_id uuid in
  (mkdir_all checkpoint_path ;; mret checkpoint_path).

(** Add the partition to the first entry with the id, or as a new entry at the end. *)
Fixpoint add_partition (checkpoint_id : string) (info : PartitionInfo)
    (entries : list CheckpointEntry) : list CheckpointEntry :=
  match entries with
  | [] => [mkCheckpointEntry checkpoint_id [info]]
  | e :: entries =>
      if String.eqb (entry_id e) checkpoint_id then
        mkCheckpointEntry (entry_id e) (entry_partitions e ++ [info]) :: entries
      else e :: add_partition checkpoint_id info entries
  end.

(** The clock is the argument [now], in milliseconds, or the error of [duration_since]. *)
Definition complete_checkpoint self (now : res string N) (operator_id checkpoint_id : string)
    (dir : Path) (range : PartitionRange) : act FS DataFusionError () :=
  timestamp ← lift (map_err (fun e => Internal ("Failed to get current time: " +:+ e)) now);
  let partition_info := mkPartitionInfo range (timestamp mod u64_modulus) (path_string dir) in
  let latest_path := get_latest_json_path self operator_id in
  latest ← read_latest_json latest_path;
  write_latest_json latest_path
    (mkLatest (add_partition checkpoint_id partition_info (completed_checkpoints latest))).

(** The closure of both lookups: the selected directories of an entry, if it covers the range. *)
Definition entry_checkpoints (range : PartitionRange) (entry : CheckpointEntry)
    : res DataFusionError (option (list (string * PartitionRange))) :=
  found ← get_non_overlapping_partitions range (partition_range <$> entry_partitions entry);
  match found with
  | None => Ok None
  | Some overlaps =>
      infos ← try_collect (fun overlap =>
        info ← unwrap "index out of bounds" (entry_partitions entry !! ov_index overlap);
        Ok (checkpoint_dir info, selected_partition_range overlap)) overlaps;
      Ok (Some infos)
  end.

(** [find_map] over entries whose closure may panic. *)
Fixpoint find_map_entries {B} (f : CheckpointEntry -> res DataFusionError (option B))
    (entries : list CheckpointEntry) : res DataFusionError (option B) :=
  match entries with
  | [] => Ok None
  | e :: entries =>
      r ← f e;
      match r with Some b => Ok (Some b) | None => find_map_entries f entries end
  end.

Definition no_viable (operator_id : string) (range : PartitionRange) : DataFusionError :=
  Internal ("No viable checkpoints found for operator " +:+ operator_id +:+ " in range " +:+
    debug_range range).

Definition get_operator_checkpoints self (operator_id : string) (range : PartitionRange)
    (checkpoint_id : string) : act FS DataFusionError (list (string * PartitionRange)) :=
  latest ← read_latest_json (get_latest_json_path self operator_id);
  lift (found ← find_map_entries (entry_checkpoints range)
          (List.filter (fun e => String.eqb (entry_id e) checkpoint_id) (completed_checkpoints latest));
        ok_or (no_viable operator_id range) found).

Definition get_latest_operator_checkpoints self (operator_id : string) (range : PartitionRange)
    : act FS DataFusionError (string * list (string * PartitionRange)) :=
  latest ← read_latest_json (get_latest_json_path self operator_id);
  lift (found ← find_map_entries (fun e =>
          option_map (pair (entry_id e)) <$> entry_checkpoints range e) (completed_checkpoints latest);
        ok_or (no_viable operator_id range) found).
End storage.

(** ** The selection tiles the searched range *)

Section selection_correct.
Context `{Profile}.

(** Enumerated lists are sorted by index, so sorting them by index changes nothing. *)
Lemma insert_by_key_last {A} (key : A -> nat) x l :
  Forall (fun y => key y <= key x)%nat l -> insert_by_key key x l = l ++ [x].
Proof.
  induction 1 as [|y l Hy _ IH]; [done|]. cbn [insert_by_key].
  destruct (Nat.ltb_spec (key x) (key y)); [lia|]. by rewrite IH.
Qed.

Lemma sort_by_key_sorted {A} (key : A -> nat) l :
  StronglySorted (fun x y => key x <= key y)%nat l -> sort_by_key key l = l.
Proof.
  intros Hl. unfold sort_by_key.
  enough (forall acc, Forall (fun a => Forall (fun x => key a <= key x)%nat l) acc ->
    foldl (fun acc x => insert_by_key key x acc) acc l = acc ++ l) as Hgen
    by exact (Hgen [] ltac:(constructor)).
  induction Hl as [|x l Hl IH Hx]; intros acc Hacc; cbn; [by rewrite app_nil_r|].
  rewrite insert_by_key_last.
  - rewrite IH, <- (assoc_L (++)); [done|]. apply Forall_app. split.
    + eapply Forall_impl; [exact Hacc|]. cbn. by intros a [_ ?]%Forall_cons.
    + by constructor.
  - eapply Forall_impl; [exact Hacc|]. cbn. by intros a [? _]%Forall_cons.
Qed.

Lemma StronglySorted_filter {A} (R : A -> A -> Prop) (f : A -> bool) l :
  StronglySorted R l -> StronglySorted R (List.filter f l).
Proof.
  induction 1 as [|x l Hl IH Hx]; cbn; [constructor|]. destruct (f x); [|done].
  constructor; [done|]. rewrite Forall_forall in *. intros y Hy.
  apply list_elem_of_In, filter_In in Hy as [Hy _]. by apply Hx, list_elem_of_In.
Qed.

(** [normalize_all] keeps the positions. *)
Lemma normalize_all_lookup target available l :
  normalize_all target available = Ok l ->
  StronglySorted (fun x y : nat * N * N => x.1.1 <= y.1.1)%nat l /\
  forall ix s e, (ix, s, e) ∈ l <-> exists r, available !! ix = Some r /\
    normalize target (start r) (partitions r) = Ok s /\
    normalize target (end_ r) (partitions r) = Ok e.
Proof.
  unfold normalize_all. intros Hl%try_collect_Ok.
  assert (forall k (f : nat -> nat), (forall i, f i = k + i)%nat ->
    Forall2 (fun x y => (let '(index, r) := x in
      s ← normalize target (start r) (partitions r);
      e ← normalize target (end_ r) (partitions r); Ok (index, s, e)) = Ok y)
      (imap (fun i r => (f i, r)) available) l ->
    (Forall (fun y => k <= y.1.1)%nat l /\
     StronglySorted (fun x y : nat * N * N => x.1.1 <= y.1.1)%nat l) /\
    forall ix s e, (ix, s, e) ∈ l <-> exists i r, ix = f i /\ available !! i = Some r /\
      normalize target (start r) (partitions r) = Ok s /\
      normalize target (end_ r) (partitions r) = Ok e) as Hgen.
  { clear Hl. revert l. induction available as [|r available IH]; intros l k f Hf Hl.
    - inversion Hl. subst. split; [split; constructor|]. set_solver.
    - rewrite imap_cons in Hl. inversion Hl as [|? y ? l' Hy Hl']. subst. inv_res.
      destruct (IH l' (S k) (f ∘ S)) as [[Hge Hsort] Hin]; [intros i; cbn; rewrite Hf; lia|done|].
      assert (y = (f 0%nat, v, v0)) as -> by done. rewrite Hf, Nat.add_0_r in *.
      split; [split|].
      + constructor; [done|]. eapply Forall_impl; [exact Hge|]. cbn. lia.
      + constructor; [done|]. eapply Forall_impl; [exact Hge|]. cbn. lia.
      + intros ix s e. rewrite elem_of_cons, Hin. split.
        * intros [[= -> -> ->]|(i & r' & -> & ?)].
          -- exists 0%nat, r. rewrite Hf, Nat.add_0_r. done.
          -- by exists (S i), r'.
        * intros ([|i] & r' & -> & Hr & Hs & He).
          -- left. cbn in Hr. rewrite Hf, Nat.add_0_r. congruence.
          -- right. by exists i, r'. }
  destruct (Hgen 0%nat (fun i => i)) as [[_ Hs] Hin]; [done|done|]. split; [done|].
  intros ix s e. rewrite Hin. naive_solver.
Qed.

(** An overlap lies within the normalised range with its index. *)
Definition within (parts : list (nat * N * N)) (o : OverlappingPartition) : Prop :=
  exists s e, (ov_index o, s, e) ∈ parts /\ s <= start (selected_partition_range o) /\
    end_ (selected_partition_range o) <= e.

Lemma select_loop_sound target se parts cur found l :
  cur < se -> select_loop target se parts cur found = Ok (Some l) ->
  exists new, l = found ++ new /\ tiles target cur se (selected_partition_range <$> new) /\
    Forall (within parts) new.
Proof.
  revert cur found. induction parts as [|[[ix s] e] parts IH]; intros cur found Hlt; cbn.
  { by destruct (cur <? se). }
  assert (forall new, Forall (within parts) new -> Forall (within ((ix, s, e) :: parts)) new) as Hmono.
  { intros new Hn. eapply Forall_impl; [exact Hn|]. intros o (s' & e' & Hin & ?).
    exists s', e'. set_solver. }
  destruct (N.ltb_spec cur e) as [He|He].
  2:{ intros (new & ? & ? & ?)%IH; [|done]. exists new. auto. }
  destruct (N.ltb_spec cur s) as [Hs|Hs]; [done|].
  set (o := mkOverlap ix (PartitionRangeOps.new cur (N.min se e) target)).
  assert (within ((ix, s, e) :: parts) o) as Ho.
  { exists s, e. cbn. split; [left|]. lia. }
  destruct (N.leb_spec se (N.min se e)) as [Hm|Hm].
  - intros [= <-]. exists [o]. split; [done|]. split; [|by constructor].
    cbn. split; [done|]. split; [lia|]. split; [done|]. lia.
  - intros (new & -> & Ht & Hw)%IH; [|lia]. exists (o :: new).
    split; [by rewrite <- (assoc_L (++))|]. split; [|by constructor; auto].
    cbn. split; [done|]. split; [lia|]. done.
Qed.

(** Over ranges whose starts do not decrease, the loop finds a selection if there is one. *)
Lemma select_loop_complete target se parts cur found :
  StronglySorted (fun x y : nat * N * N => x.1.2 <= y.1.2) parts -> cur < se ->
  (forall k, cur <= k < se -> exists ix s e, (ix, s, e) ∈ parts /\ s <= k < e) ->
  exists l, select_loop target se parts cur found = Ok (Some l).
Proof.
  intros Hsort. revert cur found.
  induction Hsort as [|[[ix s] e] parts Hsort IH Hge]; intros cur found Hlt Hcov; cbn.
  { destruct (Hcov cur ltac:(lia)) as (? & ? & ? & Hin & _). by apply elem_of_nil in Hin. }
  destruct (N.ltb_spec cur e) as [He|He].
  - destruct (N.ltb_spec cur s) as [Hs|Hs].
    + destruct (Hcov cur ltac:(lia)) as (ix' & s' & e' & Hin & Hk).
      apply elem_of_cons in Hin as [[= -> -> ->]|Hin]; [lia|].
      rewrite Forall_forall in Hge. apply Hge in Hin. cbn in Hin. lia.
    + destruct (N.leb_spec se (N.min se e)) as [Hm|Hm]; [by eexists|].
      apply IH; [lia|]. intros k Hk. destruct (Hcov k ltac:(lia)) as (ix' & s' & e' & Hin & Hk').
      apply elem_of_cons in Hin as [[= -> -> ->]|Hin]; [lia|]. by exists ix', s', e'.
  - apply IH; [lia|]. intros k Hk. destruct (Hcov k ltac:(lia)) as (ix' & s' & e' & Hin & Hk').
    apply elem_of_cons in Hin as [[= -> -> ->]|Hin]; [lia|]. by exists ix', s', e'.
Qed.

(** The result in terms of the loop, with the sort gone. *)
Lemma get_non_overlapping_unfold search available target ss se l :
  max_opt ((partitions <$> available) ++ [partitions search]) = Some target ->
  normalize target (start search) (partitions search) = Ok ss ->
  normalize target (end_ search) (partitions search) = Ok se ->
  normalize_all target available = Ok l ->
  get_non_overlapping_partitions search available =
    select_loop target se
      (List.filter (fun '(_, s, e) => (s <? se) && (ss <? e)) l) ss [].
Proof.
  intros Ht Hs He Hl. unfold get_non_overlapping_partitions. rewrite Ht.
  cbn. rewrite Hs. cbn. rewrite He. cbn. rewrite Hl. cbn.
  rewrite sort_by_key_sorted; [done|]. apply StronglySorted_filter.
  destruct (normalize_all_lookup _ _ _ Hl) as [Hsort _].
  clear -Hsort. induction Hsort as [|[[ix s] e] l' Hsort IH Hge]; constructor; try done.
  eapply Forall_impl; [exact Hge|]. by intros [[? ?] ?].
Qed.

(** A selection of partial checkpoints covers the searched range exactly once.  If the
    search succeeds on a non-empty range, the selected ranges are consecutive pieces, over
    the common partition count, that start at the normalised start of the search and end at
    its normalised end, and each piece lies inside the normalised range of the checkpoint it
    is to be read from. *)
Theorem selection_tiles_search search available target ss se l :
  max_opt ((partitions <$> available) ++ [partitions search]) = Some target ->
  normalize target (start search) (partitions search) = Ok ss ->
  normalize target (end_ search) (partitions search) = Ok se ->
  ss < se ->
  get_non_overlapping_partitions search available = Ok (Some l) ->
  tiles target ss se (selected_partition_range <$> l) /\
  Forall (fun o => exists r s e, available !! ov_index o = Some r /\
    normalize target (start r) (partitions r) = Ok s /\
    normalize target (end_ r) (partitions r) = Ok e /\
    s <= start (selected_partition_range o) /\ end_ (selected_partition_range o) <= e) l.
Proof.
  intros Ht Hs He Hlt Hg.
  destruct (normalize_all target available) as [n|er|w] eqn:Hn.
  2-3: by unfold get_non_overlapping_partitions in Hg; rewrite Ht in Hg; cbn in Hg;
    rewrite Hs in Hg; cbn in Hg; rewrite He in Hg; cbn in Hg; rewrite Hn in Hg.
  rewrite (get_non_overlapping_unfold _ _ _ _ _ _ Ht Hs He Hn) in Hg.
  apply select_loop_sound in Hg as (new & -> & Htiles & Hw); [|done].
  split; [done|]. eapply Forall_impl; [exact Hw|].
  intros o (s & e & Hin & Hle). apply list_elem_of_In, filter_In in Hin as [Hin _].
  apply list_elem_of_In in Hin. destruct (normalize_all_lookup _ _ _ Hn) as [_ Hl].
  apply Hl in Hin as (r & Hr & Hs' & He'). by exists r, s, e.
Qed.

Lemma select_loop_total target se parts cur found :
  cur < se -> exists o, select_loop target se parts cur found = Ok o.
Proof.
  revert cur found. induction parts as [|[[ix s] e] parts IH]; intros cur found Hlt; cbn.
  - rewrite (proj2 (N.ltb_lt _ _) Hlt). by eexists.
  - destruct (cur <? e); [|by apply IH]. destruct (cur <? s); [by eexists|].
    destruct (N.leb_spec se (N.min se e)); [by eexists|]. by apply IH.
Qed.

(** Ranges that are all cut into [p] buckets. *)
Definition uniform (p : N) (r : PartitionRange) : Prop :=
  partitions r = p /\ fits (start r * p) /\ fits (end_ r * p).

Lemma normalize_uniform p r :
  0 < p -> uniform p r ->
  normalize p (start r) (partitions r) = Ok (start r) /\
  normalize p (end_ r) (partitions r) = Ok (end_ r).
Proof.
  intros Hp (-> & Hs & He). unfold normalize. split; usimp.
  - by rewrite N.div_mul by lia.
  - by rewrite N.div_mul by lia.
Qed.

Lemma max_opt_uniform p l : l <> [] -> Forall (fun x => x = p) l -> max_opt l = Some p.
Proof.
  intros Hl Hall. destruct (max_opt_is_Some l Hl) as [m Hm]. rewrite Hm. f_equal.
  apply max_opt_Some in Hm as [Hin _]. rewrite Forall_forall in Hall. by apply Hall.
Qed.

Lemma normalize_all_uniform p available :
  0 < p -> Forall (uniform p) available ->
  normalize_all p available = Ok (imap (fun i r => (i, start r, end_ r)) available).
Proof.
  intros Hp Hall. unfold normalize_all. apply try_collect_Ok, Forall2_same_length_lookup.
  split; [by rewrite !length_imap|]. intros i x y Hx Hy.
  rewrite list_lookup_imap in Hx. setoid_rewrite list_lookup_imap in Hy.
  destruct (available !! i) as [r|] eqn:Hr; [|done]. cbn in Hx, Hy. simplify_eq. rewrite Forall_lookup in Hall.
  destruct (normalize_uniform p r Hp (Hall i r Hr)) as [-> ->]. done.
Qed.

Lemma imap_starts_sorted (available : list PartitionRange) :
  StronglySorted (fun x y => start x <= start y) available ->
  forall f : nat -> nat,
  StronglySorted (fun x y : nat * N * N => x.1.2 <= y.1.2)
    (imap (fun i r => (f i, start r, end_ r)) available).
Proof.
  induction 1 as [|r available Hs IH Hge]; intros f; cbn; constructor; [apply (IH (f ∘ S))|].
  rewrite Forall_forall in Hge. apply Forall_forall.
  intros x Hx. apply elem_of_lookup_imap in Hx as (i & r' & -> & Hr). cbn. apply Hge. by eapply list_elem_of_lookup_2.
Qed.

Lemma max_opt_search p search available :
  partitions search = p -> Forall (uniform p) available ->
  max_opt ((partitions <$> available) ++ [partitions search]) = Some p.
Proof.
  intros Hs Hall. apply max_opt_uniform; [by destruct (partitions <$> available)|].
  apply Forall_app. split; [|by constructor]. apply Forall_fmap.
  eapply Forall_impl; [exact Hall|]. by intros r [? _].
Qed.

(** A selection lies inside the ranges it is taken from. *)
Definition taken_from (available : list PartitionRange) (o : OverlappingPartition) : Prop :=
  exists r, available !! ov_index o = Some r /\
    start r <= start (selected_partition_range o) /\ end_ (selected_partition_range o) <= end_ r.

Lemma selection_unfold_uniform p search available :
  0 < p -> uniform p search -> Forall (uniform p) available ->
  get_non_overlapping_partitions search available =
    select_loop p (end_ search)
      (List.filter (fun '(_, s, e) => (s <? end_ search) && (start search <? e))
        (imap (fun i r => (i, start r, end_ r)) available)) (start search) [].
Proof.
  intros Hp Hu Hall. destruct (normalize_uniform p search Hp Hu) as [Hs He].
  exact (get_non_overlapping_unfold _ _ _ _ _ _
    (max_opt_search p search available (proj1 Hu) Hall) Hs He (normalize_all_uniform p _ Hp Hall)).
Qed.

Lemma selection_covered p search available :
  0 < p -> uniform p search -> start search < end_ search ->
  Forall (uniform p) available -> StronglySorted (fun x y => start x <= start y) available ->
  (forall k, covers search k -> Exists (fun r => covers r k) available) ->
  exists l, get_non_overlapping_partitions search available = Ok (Some l) /\
    tiles p (start search) (end_ search) (selected_partition_range <$> l) /\
    Forall (taken_from available) l.
Proof.
  intros Hp Hu Hlt Hall Hsort Hcov. rewrite (selection_unfold_uniform p) by done.
  set (parts := List.filter _ _).
  assert (forall x s e, (x, s, e) ∈ parts <-> (exists r, available !! x = Some r /\ s = start r /\ e = end_ r)
    /\ s < end_ search /\ start search < e) as Hin.
  { intros x s e. subst parts. rewrite list_elem_of_In, filter_In, <- list_elem_of_In, elem_of_lookup_imap.
    rewrite andb_true_iff, !N.ltb_lt. naive_solver. }
  destruct (select_loop_complete p (end_ search) parts (start search) []) as [l Hl].
  - apply StronglySorted_filter, (imap_starts_sorted _ Hsort id).
  - done.
  - intros k Hk. destruct (proj1 (Exists_exists _ _) (Hcov k Hk)) as (r & [i Hr]%list_elem_of_lookup & Hc).
    unfold covers in *. exists i, (start r), (end_ r). rewrite Hin.
    split; [split; [by exists r|lia]|lia].
  - pose proof Hl as Hsel. apply select_loop_sound in Hl as (new & -> & Ht & Hw); [|done].
    exists new. split; [done|]. split; [done|]. eapply Forall_impl; [exact Hw|].
    intros o (s & e & Hi & Hle). apply Hin in Hi as [(r & Hr & -> & ->) _]. by exists r.
Qed.

End selection_correct.

Lemma selection_tiles_search_witness :
  tiles 16 4 12 [mkRange 4 8 16; mkRange 8 12 16].
Proof.
  apply (proj1 (@selection_tiles_search true (mkRange 2 6 8)
    [mkRange 3 8 16; mkRange 0 3 16; mkRange 6 16 16; mkRange 7 16 16] 16 4 12
    [mkOverlap 0 (mkRange 4 8 16); mkOverlap 2 (mkRange 8 12 16)]
    eq_refl eq_refl eq_refl eq_refl eq_refl)).
Defined.


(** The search depends on the order in which the partial checkpoints were completed.  The
    sort that should put them in the order of their starts uses the index as its key, so two
    ranges that cover the searched one are reported as having a gap when the later range was
    completed first. *)
Theorem selection_depends_on_order (P : Profile) :
  get_non_overlapping_partitions (mkRange 0 4 4) [mkRange 0 2 4; mkRange 2 4 4] =
    Ok (Some [mkOverlap 0 (mkRange 0 2 4); mkOverlap 1 (mkRange 2 4 4)]) /\
  get_non_overlapping_partitions (mkRange 0 4 4) [mkRange 2 4 4; mkRange 0 2 4] = Ok None.
Proof. destruct P; split; reflexivity. Qed.

(** ** What was completed is found again *)

Section storage_correct.
Context {FS : Type} `{FileSystemLaws FS} `{LatestJsonLaws} `{Profile}.
Implicit Types self : FileSystemStateStorage.

(** The index of an operator, as stored: nothing yet, or a file that parses to it. *)
Definition stored self (fs : FS) (op : string) (l : list CheckpointEntry) : Prop :=
  let path := get_latest_json_path self op in
  (view fs path = None /\ l = []) \/
  exists bytes text, view fs path = Some (FileNode bytes) /\
    from_utf8 bytes = Ok text /\ from_str text = Ok (mkLatest l).

(** The operator's directory can be created, and its index is not a directory. *)
Definition usable self (fs : FS) (op : string) : Prop :=
  (forall q c, q `prefix_of` parent (get_latest_json_path self op) -> q <> [] ->
     view fs q <> Some (FileNode c)) /\
  view fs (get_latest_json_path self op) <> Some DirNode.

Lemma latest_path_eq self op :
  component op -> get_latest_json_path self op = root_dir self ++ ["operators"; op; "latest.json"].
Proof.
  intros Hop. unfold get_latest_json_path, join. rewrite (to_path_component op) by done.
  change (to_path "operators") with ["operators"].
  change (to_path "latest.json") with ["latest.json"].
  by rewrite <- !(assoc_L (++)).
Qed.

Lemma latest_path_parent self op :
  component op -> parent (get_latest_json_path self op) = root_dir self ++ ["operators"; op].
Proof.
  intros Hop. rewrite latest_path_eq by done. unfold parent.
  change ["operators"; op; "latest.json"] with (["operators"; op] ++ ["latest.json"]).
  by rewrite (assoc_L (++)), removelast_last.
Qed.

Lemma latest_path_not_nil self op : component op -> get_latest_json_path self op <> [].
Proof. intros Hop. rewrite latest_path_eq by done. by destruct (root_dir self). Qed.

Lemma read_latest_stored self fs op l :
  fs_wf fs -> component op -> stored self fs op l ->
  read_latest_json (get_latest_json_path self op) fs = (fs, Ok (mkLatest l)).
Proof.
  intros Hwf Hop. pose proof (latest_path_not_nil self op Hop) as Hne. unfold read_latest_json.
  intros [[Hv ->]|(bytes & text & Hv & Hu & Hs)].
  - by destruct (read_file_missing fs _ Hwf Hne Hv) as [e ->].
  - rewrite (read_file_spec fs _ _ Hwf Hne Hv). rewrite Hu. cbn. by rewrite Hs.
Qed.

Lemma write_latest_stored self fs op l :
  fs_wf fs -> component op -> usable self fs op ->
  exists fs', write_latest_json (get_latest_json_path self op) (mkLatest l) fs = (fs', Ok tt) /\
    fs_wf fs' /\ usable self fs' op /\ stored self fs' op l /\
    (forall q, ~ q `prefix_of` get_latest_json_path self op -> view fs' q = view fs q).
Proof.
  intros Hwf Hop [Hway Hnd]. pose proof (latest_path_not_nil self op Hop) as Hne.
  destruct (json_roundtrip (mkLatest l)) as (bytes & text & Hjson & Hu & Hs).
  unfold write_latest_json. set (path := get_latest_json_path self op) in *.
  assert (parent path `prefix_of` path) as Hpp.
  { unfold parent. rewrite (app_removelast_last "" Hne) at 2. by eexists. }
  destruct (mkdir_all_spec fs (parent path) Hwf Hway) as (fs1 & Hmk & Hwf1 & Hv1).
  destruct (write_file_spec fs1 path bytes Hwf1 Hne) as (fs2 & Hwr & Hwf2 & Hv2).
  - destruct (decide (parent path = [])) as [->|Hpn]; [by left|]. right.
    by rewrite Hv1, decide_True.
  - rewrite Hv1. case_decide as Hd; [|done]. destruct Hd as [_ Hpre]. exfalso.
    apply prefix_length in Hpre. unfold parent in Hpre.
    rewrite (app_removelast_last "" Hne) in Hpre at 1. rewrite length_app in Hpre. cbn in Hpre. lia.
  - exists fs2. split; [|split; [done|split; [split|split]]].
    + unfold lift. unfold mbind at 1, act_bind at 1. rewrite Hjson. cbn [map_err].
      assert (forall p : Path, p <> [] -> match p with [] => mret tt | _ => mkdir_all (parent p) end
        = mkdir_all (FS := FS) (parent p)) as -> by (by intros []); [|done].
      erewrite act_bind_Ok by exact Hmk. exact Hwr.
    + fold path. intros q c Hq Hqn. rewrite Hv2. case_decide as Hd.
      * subst q. apply prefix_length in Hq. unfold parent in Hq.
        rewrite (app_removelast_last "" Hne) in Hq at 1. rewrite length_app in Hq. cbn in Hq. lia.
      * by rewrite Hv1, decide_True.
    + fold path. by rewrite Hv2, decide_True.
    + right. exists bytes, text. by rewrite Hv2, decide_True.
    + intros q Hq. rewrite Hv2, decide_False, Hv1, decide_False; [done|..].
      * intros [_ Hp]. apply Hq. by etrans.
      * intros ->. by destruct Hq.
Qed.

(** Another operator's index is not on the way to this one's. *)
Lemma latest_path_apart self op op' :
  component op -> component op' -> op' <> op ->
  ~ get_latest_json_path self op' `prefix_of` get_latest_json_path self op.
Proof.
  intros Hop Hop' Hne. rewrite !latest_path_eq by done. intros Hp%prefix_app_inv.
  apply prefix_cons_inv_2, prefix_cons_inv_1 in Hp. done.
Qed.

Lemma complete_checkpoint_stored self fs op l now id dir range :
  fs_wf fs -> component op -> usable self fs op -> stored self fs op l ->
  exists fs', complete_checkpoint self (Ok now) op id dir range fs = (fs', Ok tt) /\ fs_wf fs' /\
    usable self fs' op /\ stored self fs' op
      (add_partition id (mkPartitionInfo range (now mod u64_modulus) (path_string dir)) l) /\
    (forall q, ~ q `prefix_of` get_latest_json_path self op -> view fs' q = view fs q).
Proof.
  intros Hwf Hop Hus Hst. unfold complete_checkpoint.
  destruct (write_latest_stored self fs op
    (add_partition id (mkPartitionInfo range (now mod u64_modulus) (path_string dir)) l)
    Hwf Hop Hus) as (fs' & Hw & Hrest).
  exists fs'. split; [|done].
  unfold lift. unfold mbind at 1, act_bind at 1. cbn [map_err].
  erewrite act_bind_Ok by (by apply read_latest_stored). exact Hw.
Qed.

(** The index with the partial checkpoints [infos] of a new checkpoint. *)
Definition index_with (l : list CheckpointEntry) (id : string) (infos : list PartitionInfo)
    : list CheckpointEntry :=
  match infos with [] => l | _ => l ++ [mkCheckpointEntry id infos] end.

Lemma add_partition_fresh id info l t :
  Forall (fun e => entry_id e <> id) l ->
  add_partition id info (l ++ t) = l ++ add_partition id info t.
Proof.
  induction 1 as [|e l He _ IH]; [done|]. cbn. apply String.eqb_neq in He. by rewrite He, IH.
Qed.

Lemma add_partition_index l id infos info :
  Forall (fun e => entry_id e <> id) l ->
  add_partition id info (index_with l id infos) = index_with l id (infos ++ [info]).
Proof.
  intros Hid. destruct infos as [|i infos]; cbn.
  - rewrite <- (app_nil_r l) at 1. by rewrite add_partition_fresh.
  - rewrite add_partition_fresh by done. cbn. by rewrite String.eqb_refl.
Qed.

Lemma filter_index l id infos :
  Forall (fun e => entry_id e <> id) l -> infos <> [] ->
  List.filter (fun e => String.eqb (entry_id e) id) (index_with l id infos) =
    [mkCheckpointEntry id infos].
Proof.
  intros Hid Hne. destruct infos as [|i infos]; [done|]. cbn. rewrite List.filter_app. cbn.
  rewrite String.eqb_refl. induction Hid as [|e l He _ IH]; [done|]. cbn.
  apply String.eqb_neq in He. by rewrite He.
Qed.

(** The copies of an operator complete their parts of checkpoint [id], one after the other,
    each with the time, its directory and its partition range. *)
Definition complete_all self (op id : string) (parts : list (N * Path * PartitionRange))
    : act FS DataFusionError () :=
  for_each (fun '(now, dir, range) => complete_checkpoint self (Ok now) op id dir range) parts.

Definition info_of (part : N * Path * PartitionRange) : PartitionInfo :=
  let '(now, dir, range) := part in mkPartitionInfo range (now mod u64_modulus) (path_string dir).

Lemma complete_all_stored self fs op l id done_ parts :
  fs_wf fs -> component op -> usable self fs op -> stored self fs op (index_with l id done_) ->
  Forall (fun e => entry_id e <> id) l ->
  exists fs', complete_all self op id parts fs = (fs', Ok tt) /\ fs_wf fs' /\
    stored self fs' op (index_with l id (done_ ++ (info_of <$> parts))) /\
    (forall q, ~ q `prefix_of` get_latest_json_path self op -> view fs' q = view fs q).
Proof.
  intros Hwf Hop Hus Hst Hid. revert fs done_ Hwf Hus Hst.
  induction parts as [|[[now dir] range] parts IH]; intros fs done_ Hwf Hus Hst.
  { exists fs. by rewrite app_nil_r. }
  destruct (complete_checkpoint_stored self fs op _ now id dir range Hwf Hop Hus Hst)
    as (fs1 & Hc & Hwf1 & Hus1 & Hst1 & Hk1).
  rewrite add_partition_index in Hst1 by done.
  destruct (IH fs1 _ Hwf1 Hus1 Hst1) as (fs2 & Ha & Hwf2 & Hst2 & Hk2).
  exists fs2. split; [unfold complete_all; cbn [for_each]; by erewrite act_bind_Ok by exact Hc|].
  split; [done|]. split.
  - rewrite <- (assoc_L (++)) in Hst2. exact Hst2.
  - intros q Hq. by rewrite Hk2, Hk1.
Qed.

Lemma entry_checkpoints_covered p search id infos :
  0 < p -> uniform p search -> start search < end_ search ->
  Forall (uniform p) (partition_range <$> infos) ->
  StronglySorted (fun x y => start x <= start y) (partition_range <$> infos) ->
  (forall k, covers search k -> Exists (fun r => covers r k) (partition_range <$> infos)) ->
  exists found, entry_checkpoints search (mkCheckpointEntry id infos) = Ok (Some found) /\
    tiles p (start search) (end_ search) found.*2 /\
    Forall (fun '(dir, r) => Exists (fun info => checkpoint_dir info = dir /\
      start (partition_range info) <= start r /\ end_ r <= end_ (partition_range info)) infos) found.
Proof.
  intros Hp Hu Hlt Hall Hsort Hcov. unfold entry_checkpoints. cbn [entry_partitions].
  destruct (selection_covered p search (partition_range <$> infos)) as (sel & Hsel & Ht & Hfrom);
    [done..|]. rewrite Hsel, bind_Ok.
  enough (exists found, try_collect (E := DataFusionError) (fun o => info ← unwrap "index out of bounds" (infos !! ov_index o);
      Ok (checkpoint_dir info, selected_partition_range o)) sel = Ok found /\
    found.*2 = selected_partition_range <$> sel /\
    Forall (fun '(dir, r) => Exists (fun info => checkpoint_dir info = dir /\
      start (partition_range info) <= start r /\ end_ r <= end_ (partition_range info)) infos) found)
    as (found & Hf & Hm & Hd).
  { exists found. rewrite Hf. by rewrite Hm. }
  clear Ht Hsel. induction Hfrom as [|o sel (r & Hr & Hle) _ (found & Hf & Hm & Hd)].
  { by exists []. }
  rewrite list_lookup_fmap in Hr. destruct (infos !! ov_index o) as [info|] eqn:Hi; [|done].
  cbn in Hr. simplify_eq. exists ((checkpoint_dir info, selected_partition_range o) :: found).
  cbn [try_collect]. rewrite Hi. cbn [unwrap]. rewrite bind_Ok, bind_Ok, Hf. split; [done|].
  split; [cbn; by rewrite Hm|]. constructor; [|done]. apply Exists_exists. exists info.
  split; [by eapply list_elem_of_lookup_2|done].
Qed.

Lemma entry_checkpoints_single id range now dir :
  0 < partitions range -> uniform (partitions range) range -> start range < end_ range ->
  entry_checkpoints range (mkCheckpointEntry id [mkPartitionInfo range now dir]) =
    Ok (Some [(dir, range)]).
Proof.
  intros Hp Hu Hlt. unfold entry_checkpoints. cbn [entry_partitions fmap list_fmap partition_range].
  destruct (normalize_uniform _ _ Hp Hu) as [Hs He].
  rewrite (get_non_overlapping_unfold range [range] (partitions range) (start range) (end_ range)
    [(0%nat, start range, end_ range)]); [|cbn; by rewrite N.max_id|done|done|].
  2:{ rewrite (normalize_all_uniform (partitions range)); [done..|by constructor]. }
  cbn. rewrite (proj2 (N.ltb_lt _ _) Hlt). cbn.
  rewrite (proj2 (N.ltb_lt _ _) Hlt), N.ltb_irrefl, N.min_id, N.leb_refl. cbn.
  by destruct range.
Qed.

(** C26: what the copies of an operator complete is found again.  On a usable storage, when the
    copies complete their parts of a new checkpoint in the order of their ranges, all calls
    succeed; looking the checkpoint up for any range that the parts cover then gives
    directories of which each piece lies in the range that was completed with that directory,
    and whose pieces tile the range; and no other operator's index has changed. *)
Theorem complete_then_get_checkpoint self fs op l id parts search p :
  fs_wf fs -> component op -> usable self fs op -> stored self fs op l ->
  Forall (fun e => entry_id e <> id) l ->
  0 < p -> uniform p search -> start search < end_ search ->
  Forall (uniform p) parts.*2 -> StronglySorted (fun x y => start x <= start y) parts.*2 ->
  (forall k, covers search k -> Exists (fun r => covers r k) parts.*2) ->
  exists fs' found, complete_all self op id parts fs = (fs', Ok tt) /\
    get_operator_checkpoints self op search id fs' = (fs', Ok found) /\
    tiles p (start search) (end_ search) found.*2 /\
    Forall (fun '(dir, r) => exists now path range, (now, path, range) ∈ parts /\
      dir = path_string path /\ start range <= start r /\ end_ r <= end_ range) found /\
    (forall op' l', component op' -> op' <> op -> stored self fs op' l' -> stored self fs' op' l').
Proof.
  intros Hwf Hop Hus Hst Hid Hp Hu Hlt Hall Hsort Hcov.
  destruct (complete_all_stored self fs op l id [] parts) as (fs' & Hc & Hwf' & Hst' & Hkeep);
    [done..|]. cbn [app] in Hst'.
  assert (partition_range <$> (info_of <$> parts) = parts.*2) as Hr.
  { rewrite <- list_fmap_compose. apply list_fmap_ext. by intros ? [[? ?] ?]. }
  destruct (entry_checkpoints_covered p search id (info_of <$> parts)) as (found & Hf & Ht & Hd);
    rewrite ?Hr; [done..|].
  exists fs', found. split; [done|]. split; [|split; [done|split]].
  - unfold get_operator_checkpoints.
    erewrite act_bind_Ok by (by apply read_latest_stored). cbn [completed_checkpoints].
    unfold lift. rewrite filter_index; [cbn [find_map_entries]; by rewrite Hf|done|].
    intros ->%fmap_nil_inv. assert (covers search (start search)) as Hex%Hcov by (unfold covers; lia).
    by apply Exists_nil in Hex.
  - eapply Forall_impl; [exact Hd|]. intros [dir r] Hex. apply Exists_exists in Hex
      as (i & ([[now path] range] & -> & Hin)%list_elem_of_fmap & <- & Hle). by exists now, path, range.
  - intros op' l' Hop' Hne Hs'. unfold stored in *.
    rewrite Hkeep; [done|]. by apply latest_path_apart.
Qed.

Lemma find_map_entries_first {B} (f : CheckpointEntry -> res DataFusionError (option B)) e es b :
  f e = Ok (Some b) -> find_map_entries f (e :: es) = Ok (Some b).
Proof. intros Hf. cbn. by rewrite Hf. Qed.

(** [get_latest_operator_checkpoints] returns the earliest recorded checkpoint that
    covers the range, not the latest: after two checkpoints of the same range, it names the
    first. *)
Theorem get_latest_returns_oldest self fs op id1 id2 d1 d2 t1 t2 range rest :
  fs_wf fs -> component op ->
  0 < partitions range -> uniform (partitions range) range -> start range < end_ range ->
  stored self fs op
    (mkCheckpointEntry id1 [mkPartitionInfo range t1 d1] ::
     mkCheckpointEntry id2 [mkPartitionInfo range t2 d2] :: rest) ->
  get_latest_operator_checkpoints self op range fs = (fs, Ok (id1, [(d1, range)])).
Proof.
  intros Hwf Hop Hp Hu Hlt Hst. unfold get_latest_operator_checkpoints.
  erewrite act_bind_Ok by (by apply read_latest_stored). cbn [completed_checkpoints].
  unfold lift. rewrite (find_map_entries_first _ _ _ (id1, [(d1, range)])); [done|].
  rewrite entry_checkpoints_single by done. done.
Qed.
End storage_correct.

(** ** A concrete serialization, to run the storage *)

Module BitJson.
#[export] Instance PartitionInfo_eq_dec : EqDecision PartitionInfo.
Proof. solve_decision. Defined.
#[export] Instance CheckpointEntry_eq_dec : EqDecision CheckpointEntry.
Proof. solve_decision. Defined.
#[export] Instance LatestCheckpoints_eq_dec : EqDecision LatestCheckpoints.
Proof. solve_decision. Defined.
#[export] Instance PartitionInfo_countable : Countable PartitionInfo.
Proof.
  apply (inj_countable' (fun i => (partition_range i, timestamp i, checkpoint_dir i))
           (fun '(r, t, d) => mkPartitionInfo r t d)). by intros [].
Defined.
#[export] Instance CheckpointEntry_countable : Countable CheckpointEntry.
Proof.
  apply (inj_countable' (fun e => (entry_id e, entry_partitions e))
           (fun '(i, p) => mkCheckpointEntry i p)). by intros [].
Defined.
#[export] Instance LatestCheckpoints_countable : Countable LatestCheckpoints.
Proof. apply (inj_countable' completed_checkpoints mkLatest). by intros []. Defined.

(** The number of a value, written in binary. *)
Fixpoint bits (p : positive) : list N :=
  match p with xH => [] | xO p => 48 :: bits p | xI p => 49 :: bits p end.
Fixpoint text (l : list N) : string :=
  match l with
  | [] => ""
  | x :: l => String (if x =? 48 then "0"%char else "1"%char) (text l)
  end.
Fixpoint unbits (s : string) : positive :=
  match s with
  | EmptyString => xH
  | String c s => if Ascii.eqb c "0"%char then xO (unbits s) else xI (unbits s)
  end.

Lemma unbits_bits p : unbits (text (bits p)) = p.
Proof. induction p as [p IH|p IH|]; cbn; congruence. Qed.

#[export] Instance json : LatestJson := {|
  to_string_pretty l := Ok (bits (encode l));
  from_utf8 b := Ok (text b);
  from_str s := match decode (unbits s) with Some l => Ok l | None => Err "invalid" end;
|}.
#[export] Instance json_laws : LatestJsonLaws.
Proof.
  split. intros l. exists (bits (encode l)), (text (bits (encode l))).
  split; [done|]. split; [done|]. cbn. by rewrite unbits_bits, decode_encode.
Qed.
End BitJson.
Import BitJson.

(** A storage in an empty temporary directory. *)
Definition tmp_tree : tree := {[ ["tmp"] := DirNode ]}.

Lemma tmp_tree_wf : PrefixedLocalFileSystemStorage.wf ["tmp"] tmp_tree.
Proof.
  split; [|by vm_compute]. intros p n [v Hv]. unfold tmp_tree in Hv.
  apply lookup_singleton_Some in Hv as [Heq _].
  destruct p as [|x p]; [done|]. by destruct p.
Qed.

Lemma tmp_tree_view p : p <> [] -> tmp_tree !! ("tmp" :: p) = None.
Proof. intros Hp. apply lookup_singleton_ne. intros [=]. congruence. Qed.

Lemma complete_then_get_checkpoint_witness :
  let storage := PrefixedLocalFileSystemStorage.storage ["tmp"] in
  let self := mkStateStorage ["remote"] in
  exists fs' found,
    complete_all self "count" "1" [(5, ["a"], mkRange 0 2 4); (6, ["b"], mkRange 2 4 4)] tmp_tree =
      (fs', Ok tt) /\
    get_operator_checkpoints (H1 := true) self "count" (mkRange 1 4 4) "1" fs' = (fs', Ok found) /\
    tiles 4 1 4 found.*2.
Proof.
  intros storage self.
  destruct (@complete_then_get_checkpoint tree storage (PrefixedLocalFileSystemStorage.fs_view ["tmp"])
    (PrefixedLocalFileSystemStorage.laws ["tmp"]) json json_laws true self tmp_tree "count" [] "1"
    [(5, ["a"], mkRange 0 2 4); (6, ["b"], mkRange 2 4 4)] (mkRange 1 4 4) 4)
    as (fs' & found & Hc & Hg & Ht & _).
  - exact tmp_tree_wf.
  - done.
  - split.
    + intros q c _ Hq. cbn. by rewrite tmp_tree_view.
    + done.
  - left. done.
  - constructor.
  - done.
  - done.
  - done.
  - by repeat constructor.
  - repeat constructor; cbn; lia.
  - unfold covers. cbn. intros k Hk. destruct (decide (k < 2)); [left|right; left]; cbn; lia.
  - exists fs', found. done.
Defined.

Lemma get_latest_returns_oldest_witness :
  exists fs : tree,
    get_latest_operator_checkpoints (FS := tree)
      (H := PrefixedLocalFileSystemStorage.storage ["tmp"]) (H0 := json) (H1 := true)
      (mkStateStorage []) "op" (mkRange 0 2 4) fs = (fs, Ok ("1", [("a", mkRange 0 2 4)])).
Proof.
  pose (l := [mkCheckpointEntry "1" [mkPartitionInfo (mkRange 0 2 4) 1 "a"];
              mkCheckpointEntry "2" [mkPartitionInfo (mkRange 0 2 4) 2 "b"]]).
  pose (fs := <[["tmp"; "operators"; "op"; "latest.json"] := FileNode (bits (encode (mkLatest l)))]>
    (mkdirs tmp_tree ["tmp"; "operators"; "op"])).
  exists fs.
  apply (@get_latest_returns_oldest tree (PrefixedLocalFileSystemStorage.storage ["tmp"])
    (PrefixedLocalFileSystemStorage.fs_view ["tmp"]) (PrefixedLocalFileSystemStorage.laws ["tmp"])
    json true (mkStateStorage []) fs "op" "1" "2" "a" "b" 1 2 (mkRange 0 2 4) []).
  - destruct (PrefixedLocalFileSystemStorage.mkdirs_view ["tmp"] tmp_tree ["operators"; "op"])
      as [Hw Hv]; [exact tmp_tree_wf| |].
    { intros q c _ Hq. cbn. by rewrite tmp_tree_view. }
    split.
    + apply PrefixedLocalFileSystemStorage.closed_insert_file; [apply Hw|done..].
    + done.
  - done.
  - done.
  - done.
  - done.
  - right. exists (bits (encode (mkLatest l))), (text (bits (encode (mkLatest l)))).
    split; [done|]. split; [done|]. cbn. by rewrite unbits_bits, decode_encode.
Defined.
