(* ===== verification/StateBackend.v ===== *)
(** * Operator state in RocksDB (src/streaming/state/state.rs)

    [RocksDBStateBackend] keeps an operator's keyed state in a RocksDB database of the local
    file system.  A checkpoint snapshots the database into a local directory and hands it to a
    background task that uploads it; moving to a checkpoint looks for it locally, then in the
    remote index, copies it into a new working directory and opens that.  RocksDB itself is the
    class [RocksDB], with the documented behaviour of the calls used in [RocksDBLaws]. *)

From Stdlib Require Import Ascii.
From S2P Require Import Prelude Arrow Partitioning Generation FileSystem CheckpointStorage.
Import PartitionRangeOps.

Abbreviation Bytes := (list N).

(** The entries of a database. *)
Abbreviation Entries := (gmap Bytes Bytes).

(** The rocksdb crate, on the physical paths of a file system.  An open database is a handle;
    its operations may touch files of its directory. *)
Class RocksDB (FS : Type) := {
  Db : Type;
  db_entries : Db -> Entries;
  open_default : Path -> act FS string Db;
  db_put : Db -> Bytes -> Bytes -> act FS string Db;
  db_get : Db -> Bytes -> act FS string (option Bytes);
  (** [iterator(IteratorMode::Start)]: the entries in key order, or errors *)
  db_iterator : Db -> list (res string (Bytes * Bytes));
  db_flush : Db -> act FS string Db;
  (** [Checkpoint::new(db)?.create_checkpoint(dir)] *)
  create_checkpoint : Db -> Path -> act FS string ();
  (** [DB::destroy], after the handle was dropped *)
  destroy : Path -> act FS string ();
  (** [std::fs::create_dir_all], which the merge of partial checkpoints calls directly *)
  std_create_dir_all : Path -> act FS string ();
  (** [SstFileWriter::open(path)], [put] of all entries and [finish] *)
  sst_open : Path -> act FS string ();
  sst_finish : Path -> list (Bytes * Bytes) -> act FS string ();
  ingest_external_file : Db -> list Path -> act FS string Db;
}.

(** ** Two file systems *)

Section two_systems.
Context {FS FD : Type} `{FileSystemStorage FS} `{FileSystemStorage FD}.

Definition on_fst {S T E A} (m : act S E A) : act (S * T) E A := fun w =>
  let '(s, r) := m (fst w) in ((s, snd w), r).
Definition on_snd {S T E A} (m : act T E A) : act (S * T) E A := fun w =>
  let '(t, r) := m (snd w) in ((fst w, t), r).

(** The body of the [for entry in ...] loop: copies a file, or makes the directory and gives
    its path to the queue. *)
Definition copy_entry (source_dir dest_dir next : Path) (entry : FileSystemEntry)
    : act (FS * FD) DataFusionError (list Path) :=
  let entry_source_path := (source_dir ++ next) ++ [name entry] in
  let entry_dest_path := (dest_dir ++ next) ++ [name entry] in
  if directory entry then
    (on_snd (mkdir_all entry_dest_path) ;; mret [next ++ [name entry]])
  else
    contents ← on_fst (read_file entry_source_path);
    (on_snd (write_file entry_dest_path contents) ;; mret []).

Fixpoint copy_entries (source_dir dest_dir next : Path) (entries : list FileSystemEntry)
    (queue : list Path) : act (FS * FD) DataFusionError (list Path) :=
  match entries with
  | [] => mret queue
  | entry :: entries =>
      pushed ← copy_entry source_dir dest_dir next entry;
      copy_entries source_dir dest_dir next entries (pushed ++ queue)
  end.

(** The [while let Some(next) = queue.pop()] loop; the head of the list is the end of the
    vector.  One unit of fuel per directory. *)
Fixpoint copy_queue (fuel : nat) (source_dir dest_dir : Path) (queue : list Path)
    : act (FS * FD) DataFusionError () :=
  match queue with
  | [] => mret tt
  | next :: queue =>
      match fuel with
      | O => lift (Panic "out of fuel")
      | S fuel =>
          entries ← on_fst (list_files (source_dir ++ next));
          queue ← copy_entries source_dir dest_dir next entries queue;
          copy_queue fuel source_dir dest_dir queue
      end
  end.

Definition copy_dir_between_systems (fuel : nat) (source_dir dest_dir : Path)
    : act (FS * FD) DataFusionError () :=
  (on_snd (mkdir_all dest_dir) ;; copy_queue fuel source_dir dest_dir [[]]).
End two_systems.

(** ** The backend *)

Section backend.
Context {FL FR : Type} `{FileSystemStorage FL} `{FileSystemStorage FR} `{RocksDB FL}.
Context `{LatestJson} `{Profile}.

(** [queue] is what was sent to the background task and not received yet (the channel holds
    one element; a sender waits for room). *)
Record RocksDBStateBackend := mkBackend {
  state_id : string;
  be_root : Path;
  be_partitions : PartitionRange;
  remote : FileSystemStateStorage;
  working_dir : Path;
  open_db : Db;
  queue : list (string * PartitionRange * Path);
}.
Implicit Types self : RocksDBStateBackend.

(** The two file systems; the local one comes first. *)
Abbreviation world := (FL * FR)%type.
Abbreviation M := (act world DataFusionError).

Definition rocks {A} (msg : string) (m : act FL string A) : M A := on_fst (fun fs =>
  let '(fs, r) := m fs in (fs, map_err (fun e => Internal (msg +:+ e)) r)).

(** *** Paths *)

Definition create_root_directory_path (sid : string) (r : PartitionRange) : Path :=
  join (to_path sid) ("partition-" +:+ pretty (start r) +:+ "-" +:+ pretty (end_ r) +:+ "-" +:+
    pretty (partitions r)).
Definition base_working_directory_path (root : Path) : Path := join root "working".
Definition create_working_directory_path (uuid : string) (root : Path) : Path :=
  join (base_working_directory_path root) uuid.
Definition base_checkpoint_directory_path (root : Path) : Path := join root "checkpoint".
Definition create_checkpoint_directory_path (uuid : string) (root : Path) (cp : N) : Path :=
  join (base_checkpoint_directory_path root) (pretty cp +:+ "__" +:+ uuid).

(** *** RocksDB calls *)

Definition open_rocksdb_database (dir : Path) : M Db :=
  p ← lift (get_physical_path (FS := FL) dir);
  rocks "Failed to open RocksDB: " (open_default p).

Definition destroy_rocksdb (dir : Path) : M () :=
  p ← lift (get_physical_path (FS := FL) dir);
  rocks ("Failed to destroy old RocksDB at " +:+ path_string dir +:+ ": ") (destroy p).

Definition create_local_rocksdb_checkpoint self (dir : Path) : M () :=
  p ← lift (get_physical_path (FS := FL) dir);
  rocks ("Failed to create checkpoint at " +:+ path_string p +:+ ": ")
    (create_checkpoint (open_db self) p).

(** *** Operations *)

Definition open_new (uuid : string) (sid : string) (r : PartitionRange)
    (remote_storage : FileSystemStateStorage) : M RocksDBStateBackend :=
  let root := create_root_directory_path sid r in
  (on_fst (mkdir_all (base_working_directory_path root)) ;;
   on_fst (mkdir_all (base_checkpoint_directory_path root)) ;;
   let dir := create_working_directory_path uuid root in
   db ← open_rocksdb_database dir;
   mret (mkBackend sid root r remote_storage dir db [])).

Definition with_db self (db : Db) : RocksDBStateBackend :=
  mkBackend (state_id self) (be_root self) (be_partitions self) (remote self) (working_dir self)
    db (queue self).

Definition put self (k v : Bytes) : M RocksDBStateBackend :=
  db ← rocks "Failed to put key-value pair in RocksDB: " (db_put (open_db self) k v);
  mret (with_db self db).

Definition get self (k : Bytes) : M (option Bytes) :=
  rocks "Failed to get key from RocksDB: " (db_get (open_db self) k).

Definition iterate self : list (res DataFusionError (Bytes * Bytes)) :=
  map_err (fun e => Internal ("Failed to iterate over RocksDB: " +:+ e)) <$> db_iterator (open_db self).

Definition checkpoint self (uuid : string) (checkpoint_id : N) (range : PartitionRange)
    : M RocksDBStateBackend :=
  db ← rocks "Failed to flush RocksDB: " (db_flush (open_db self));
  let self := with_db self db in
  let dir := create_checkpoint_directory_path uuid (be_root self) checkpoint_id in
  (create_local_rocksdb_checkpoint self dir ;;
   mret (mkBackend (state_id self) (be_root self) (be_partitions self) (remote self)
     (working_dir self) db (queue self ++ [(pretty checkpoint_id, range, dir)]))).

(** The local search takes the first entry whose name starts with the number and ["__"]. *)
Definition is_checkpoint (cp : N) (entry : FileSystemEntry) : bool :=
  String.prefix (pretty cp +:+ "__") (name entry).

Definition find_checkpoint self (cp : N) (range : PartitionRange)
    : M (bool * list (string * PartitionRange)) :=
  let checkpoint_root_dir := base_checkpoint_directory_path (be_root self) in
  checkpoint_files ← on_fst (list_files checkpoint_root_dir);
  match find_first (is_checkpoint cp) checkpoint_files with
  | Some entry =>
      mret (true, [(path_string (checkpoint_root_dir ++ [name entry]), range)])
  | None =>
      remote_checkpoints ← on_snd (get_operator_checkpoints (remote self) (state_id self)
        (be_partitions self) (pretty cp));
      mret (false, remote_checkpoints)
  end.

(** [?] and [unwrap] on the results of RocksDB's iterator and SST writer *)
Definition or_panic {A} (m : act FL string A) : M A := on_fst (fun fs =>
  match m fs with
  | (fs, Ok a) => (fs, Ok a)
  | (fs, Err e) => (fs, Panic e)
  | (fs, Panic w) => (fs, Panic w)
  end).
Definition or_err {A} (err : string -> DataFusionError) (m : act FL string A) : M A :=
  on_fst (fun fs => let '(fs, r) := m fs in (fs, map_err err r)).

(** Writes one partial checkpoint into an SST file at [sst_dir/checkpoint_path], after making
    that path a directory ([fs::create_dir_all]). *)
Definition write_sst (sst_dir : Path) (checkpoint_path : string) : M Path :=
  let sst_path := sst_dir ++ to_path checkpoint_path in
  (or_err IoError (std_create_dir_all sst_path) ;; or_panic (sst_open sst_path) ;;
   db ← open_rocksdb_database (to_path checkpoint_path);
   entries ← lift (try_collect (fun r => match r with Ok kv => Ok kv | Err e => Panic e | Panic w => Panic w end)
     (db_iterator db));
   or_err External (sst_finish sst_path entries) ;;
   mret sst_path).

Fixpoint write_ssts (sst_dir : Path) (paths : list string) : M (list Path) :=
  match paths with
  | [] => mret []
  | p :: paths => sst ← write_sst sst_dir p; ssts ← write_ssts sst_dir paths; mret (sst :: ssts)
  end.

(** A remote directory to a local one: the source comes second in the world. *)
Definition download (fuel : nat) (p : Path) : M () := fun w =>
  let '((r, l), res) := copy_dir_between_systems (FS := FR) (FD := FL) fuel p p (snd w, fst w) in
  ((l, r), res).

(** [move_to_checkpoint] up to the point where the backend is given the new database. *)
Definition restore_checkpoint self (fuel : nat) (uuid : string) (sst_dir : Path) (cp : N)
    (range : PartitionRange) : M RocksDBStateBackend :=
  '(is_local, checkpoints) ← find_checkpoint self cp range;
  ((if negb is_local then
      for_each (fun c => download fuel (to_path (fst c))) checkpoints
    else mret tt) ;;
   let new_working_dir := create_working_directory_path uuid (be_root self) in
   new_db ← match checkpoints with
     | [(path, _)] =>
         (on_fst (copy (to_path path) new_working_dir) ;; open_rocksdb_database new_working_dir)
     | _ =>
         ssts ← write_ssts sst_dir (fst <$> checkpoints);
         db ← open_rocksdb_database new_working_dir;
         or_err External (ingest_external_file db ssts)
     end;
   mret (mkBackend (state_id self) (be_root self) (be_partitions self) (remote self)
     new_working_dir new_db (queue self))).

(** The backend keeps the new database even if destroying the old one fails. *)
Definition move_to_checkpoint self (fuel : nat) (uuid : string) (sst_dir : Path) (cp : N)
    (range : PartitionRange) (w : world)
    : world * RocksDBStateBackend * res DataFusionError () :=
  match restore_checkpoint self fuel uuid sst_dir cp range w with
  | (w, Ok self') => let '(w, r) := destroy_rocksdb (working_dir self) w in (w, self', r)
  | (w, Err e) => (w, self, Err e)
  | (w, Panic why) => (w, self, Panic why)
  end.

(** *** The background task *)

Definition upload_checkpoint (fuel : nat) (uuid : string) (now : res string N) (sid : string)
    (storage : FileSystemStateStorage) (item : string * PartitionRange * Path) : M () :=
  let '(checkpoint_id, range, path) := item in
  remote_checkpoint_path ← on_snd (start_checkpoint storage uuid sid);
  (copy_dir_between_systems fuel path remote_checkpoint_path ;;
   on_snd (complete_checkpoint storage now sid checkpoint_id remote_checkpoint_path range)).

(** One round of the receive loop: a failed upload is only printed. *)
Definition background_step (fuel : nat) (uuid : string) (now : res string N) self
    : act world DataFusionError RocksDBStateBackend := fun w =>
  match queue self with
  | [] => (w, Ok self)
  | item :: rest =>
      let '(w, r) := upload_checkpoint fuel uuid now (state_id self) (remote self) item w in
      let self := mkBackend (state_id self) (be_root self) (be_partitions self) (remote self)
        (working_dir self) (open_db self) rest in
      (w, match r with Panic why => Panic why | _ => Ok self end)
  end.
End backend.

(** ** Names of checkpoints *)

Lemma no_slash_app a b : no_slash (a +:+ b) = no_slash a && no_slash b.
Proof.
  induction a as [|c a IH]; [done|].
  change (String c a +:+ b) with (String c (a +:+ b)). cbn [no_slash]. by rewrite IH, andb_assoc.
Qed.

Lemma no_slash_pretty_go x s : no_slash s = true -> no_slash (pretty_N_go x s) = true.
Proof.
  revert s. induction (N.lt_wf_0 x) as [x _ IH]. intros s Hs.
  destruct (decide (0 < x)) as [Hx|Hx].
  - rewrite pretty_N_go_step by done. apply IH; [apply N.div_lt; lia|].
    cbn [no_slash]. rewrite Hs, andb_true_r. unfold pretty_N_char.
    by repeat case_match.
  - assert (x = 0) as -> by lia. by rewrite pretty_N_go_0.
Qed.

Lemma no_slash_pretty (n : N) : no_slash (pretty n) = true.
Proof. unfold pretty, pretty_N. destruct (decide (n = 0)); [done|]. by apply no_slash_pretty_go. Qed.

Lemma prefix_app_string (a b : string) : String.prefix a (a +:+ b) = true.
Proof.
  induction a as [|c a IH]; [by destruct b|].
  change (String c a +:+ b) with (String c (a +:+ b)). cbn [String.prefix].
  by destruct (ascii_dec c c).
Qed.

(** The local name of a checkpoint. *)
Definition checkpoint_name (cp : N) (uuid : string) : string := pretty cp +:+ "__" +:+ uuid.

Lemma checkpoint_name_component cp uuid :
  no_slash uuid = true -> component (checkpoint_name cp uuid).
Proof.
  intros Hu. unfold checkpoint_name, component. repeat split.
  - destruct (pretty cp); done.
  - destruct (pretty cp) as [|c [|c' s]]; [done|destruct uuid; done|].
    change (String c (String c' s) +:+ "__" +:+ uuid) with (String c (String c' (s +:+ "__" +:+ uuid))).
    intros [=].
  - by rewrite !no_slash_app, no_slash_pretty, Hu.
Qed.

Fixpoint no_underscore (s : string) : bool :=
  match s with
  | EmptyString => true
  | String c s => negb (Ascii.eqb c "_"%char) && no_underscore s
  end.

Lemma no_underscore_pretty_go x s : no_underscore s = true -> no_underscore (pretty_N_go x s) = true.
Proof.
  revert s. induction (N.lt_wf_0 x) as [x _ IH]. intros s Hs.
  destruct (decide (0 < x)) as [Hx|Hx].
  - rewrite pretty_N_go_step by done. apply IH; [apply N.div_lt; lia|].
    cbn [no_underscore]. rewrite Hs, andb_true_r. unfold pretty_N_char.
    by repeat case_match.
  - assert (x = 0) as -> by lia. by rewrite pretty_N_go_0.
Qed.

Lemma no_underscore_pretty (n : N) : no_underscore (pretty n) = true.
Proof.
  unfold pretty, pretty_N. destruct (decide (n = 0)); [done|]. by apply no_underscore_pretty_go.
Qed.

Lemma prefix_underscores p q u :
  no_underscore p = true -> no_underscore q = true ->
  String.prefix (p +:+ "__") (q +:+ "__" +:+ u) = true -> p = q.
Proof.
  revert q. induction p as [|c p IH]; intros [|d q]; [done|..].
  - intros _ Hq. change (String d q +:+ "__" +:+ u) with (String d (q +:+ "__" +:+ u)).
    cbn [no_underscore] in Hq. apply andb_true_iff in Hq as [Hd _].
    change ("" +:+ "__") with (String "_" "_"). cbn [String.prefix].
    destruct (ascii_dec "_" d) as [<-|]; done.
  - intros Hp _. change (String c p +:+ "__") with (String c (p +:+ "__")).
    cbn [no_underscore] in Hp. apply andb_true_iff in Hp as [Hc _].
    change ("" +:+ "__" +:+ u) with (String "_" (String "_" u)). cbn [String.prefix].
    destruct (ascii_dec c "_") as [->|]; done.
  - intros Hp Hq. cbn [no_underscore] in Hp, Hq.
    apply andb_true_iff in Hp as [_ Hp], Hq as [_ Hq].
    change (String c p +:+ "__") with (String c (p +:+ "__")).
    change (String d q +:+ "__" +:+ u) with (String d (q +:+ "__" +:+ u)). cbn [String.prefix].
    destruct (ascii_dec c d) as [->|]; [|done]. intros Hpre. f_equal. by apply IH.
Qed.

(** The prefix test of the local search recognises exactly the checkpoints with the number:
    [1] does not match [11], whatever the UUIDs are. *)
Lemma is_checkpoint_name cp cp' uuid d :
  is_checkpoint cp (mkEntry (checkpoint_name cp' uuid) d) = true <-> cp = cp'.
Proof.
  unfold is_checkpoint, checkpoint_name. cbn [name]. split.
  - intros Hp%prefix_underscores; [|apply no_underscore_pretty..].
    by apply (inj pretty) in Hp.
  - intros ->. rewrite <- string_app_assoc. apply prefix_app_string.
Qed.

(** ** RocksDB, as documented *)

(** [fs'] differs from [fs] only at and below [p]. *)
Definition only_below {FS} `{FileSystemView FS} (p : Path) (fs fs' : FS) : Prop :=
  forall q, strip p q = None -> view fs' q = view fs q.

Class RocksDBLaws (FL : Type) `{FileSystemLaws FL, RocksDB FL} := {
  (** where the files of an open database are *)
  db_home : Db -> Path;
  (** the entries in a directory that [create_checkpoint] wrote, or a copy of one *)
  snapshot : (Path -> option node) -> option Entries;
  snapshot_ext f g : (forall r, f r = g r) -> snapshot f = snapshot g;
  (** opening a directory that holds a database gives its entries *)
  open_spec fs p p' m : fs_wf fs -> get_physical_path (FS := FL) p = Ok p' ->
    view fs p = Some DirNode -> snapshot (fun r => view fs (p ++ r)) = Some m ->
    exists fs' db, open_default p' fs = (fs', Ok db) /\ fs_wf fs' /\ only_below p fs fs' /\
      db_entries db = m /\ db_home db = p;
  put_spec fs db k v : fs_wf fs ->
    exists fs' db', db_put db k v fs = (fs', Ok db') /\ fs_wf fs' /\ only_below (db_home db) fs fs' /\
      db_entries db' = <[k := v]> (db_entries db) /\ db_home db' = db_home db;
  flush_spec fs db : fs_wf fs ->
    exists fs' db', db_flush db fs = (fs', Ok db') /\ fs_wf fs' /\ only_below (db_home db) fs fs' /\
      db_entries db' = db_entries db /\ db_home db' = db_home db;
  (** the checkpoint directory must not exist yet, and its parent must *)
  create_checkpoint_spec fs db p p' : fs_wf fs -> get_physical_path (FS := FL) p = Ok p' ->
    view fs p = None -> dir_at fs (parent p) -> p <> [] -> apart p (db_home db) ->
    exists fs', create_checkpoint db p' fs = (fs', Ok tt) /\ fs_wf fs' /\ only_below p fs fs' /\
      view fs' p = Some DirNode /\ snapshot (fun r => view fs' (p ++ r)) = Some (db_entries db);
  get_spec fs db k : fs_wf fs ->
    exists fs', db_get db k fs = (fs', Ok (db_entries db !! k)) /\ fs_wf fs' /\
      only_below (db_home db) fs fs';
  iterator_spec db : exists l, db_iterator db = Ok <$> l /\ NoDup l.*1 /\
    list_to_map l = db_entries db;
  destroy_spec fs p p' : fs_wf fs -> get_physical_path (FS := FL) p = Ok p' -> p <> [] ->
    exists fs', destroy p' fs = (fs', Ok tt) /\ fs_wf fs' /\ only_below p fs fs';
}.

(** ** A local checkpoint restores the state *)

Section local_restore.
Context {FL FR : Type} `{RocksDBLaws FL} `{FileSystemStorage FR} `{LatestJson} `{Profile}.
Context (physical : forall p, is_Ok (get_physical_path (FS := FL) p)).
Implicit Types self : RocksDBStateBackend (FL := FL).

Abbreviation ckpt_dir self := (be_root self ++ ["checkpoint"]).
Abbreviation work_dir self := (be_root self ++ ["working"]).

(** The state of a backend that was opened: its directories exist, its database lives in its
    working directory, and the local checkpoints have the names the backend gives them. *)
Definition backend_wf self (fs : FL) : Prop :=
  fs_wf fs /\ Forall component (be_root self) /\
  view fs (ckpt_dir self) = Some DirNode /\ view fs (work_dir self) = Some DirNode /\
  working_dir self = db_home (open_db self) /\
  (exists u, working_dir self = work_dir self ++ [u]) /\
  (forall n, is_Some (view fs (ckpt_dir self ++ [n])) ->
     exists c u, n = checkpoint_name c u /\ no_slash u = true).

(** No local checkpoint has the number [cp]. *)
Definition untaken self (fs : FL) (cp : N) : Prop :=
  forall u, view fs (ckpt_dir self ++ [checkpoint_name cp u]) = None.

Fixpoint puts self (kvs : list (Bytes * Bytes)) : act (FL * FR) DataFusionError RocksDBStateBackend :=
  match kvs with
  | [] => mret self
  | (k, v) :: kvs => self ← put self k v; puts self kvs
  end.

Lemma base_paths self :
  base_checkpoint_directory_path (be_root self) = ckpt_dir self /\
  base_working_directory_path (be_root self) = work_dir self.
Proof. done. Qed.

Lemma checkpoint_path_eq self uuid cp :
  no_slash uuid = true ->
  create_checkpoint_directory_path uuid (be_root self) cp =
    ckpt_dir self ++ [checkpoint_name cp uuid].
Proof.
  intros Hu. unfold create_checkpoint_directory_path, join at 1.
  change (pretty cp +:+ "__" +:+ uuid) with (checkpoint_name cp uuid).
  by rewrite to_path_component by by apply checkpoint_name_component.
Qed.

Lemma working_path_eq self uuid :
  component uuid -> create_working_directory_path uuid (be_root self) = work_dir self ++ [uuid].
Proof. intros Hu. unfold create_working_directory_path, join at 1. by rewrite to_path_component. Qed.

Lemma dirs_apart self a b : apart (ckpt_dir self ++ a) (work_dir self ++ b).
Proof.
  apply apart_below. split; intros Hp%prefix_app_inv; apply prefix_cons_inv_1 in Hp; done.
Qed.

Lemma only_below_apart (p q : Path) r (fs fs' : FL) :
  only_below p fs fs' -> apart p q -> view fs' (q ++ r) = view fs (q ++ r).
Proof. intros Ho Ha. apply Ho. by apply apart_not_below. Qed.

Lemma on_fst_Ok {A} (m : act FL DataFusionError A) fs fs' (r : FR) a :
  m fs = (fs', Ok a) -> on_fst m (fs, r) = ((fs', r), Ok a).
Proof. intros Hm. unfold on_fst. cbn. by rewrite Hm. Qed.

Lemma rocks_Ok {A} msg (m : act FL string A) fs fs' (r : FR) a :
  m fs = (fs', Ok a) -> rocks msg m (fs, r) = ((fs', r), Ok a).
Proof. intros Hm. apply on_fst_Ok. by rewrite Hm. Qed.

Lemma physical_Ok p : exists p', get_physical_path (FS := FL) p = Ok p'.
Proof. apply physical. Qed.

(** Every local checkpoint with the number [cp] holds the entries [m]. *)
Definition agrees self (fs : FL) (cp : N) (m : Entries) : Prop := forall u,
  let dir := ckpt_dir self ++ [checkpoint_name cp u] in
  is_Some (view fs dir) -> view fs dir = Some DirNode /\ snapshot (fun r => view fs (dir ++ r)) = Some m.

(** There is such a checkpoint.  There may be several, after a restart from it. *)
Definition saved self (fs : FL) (cp : N) (m : Entries) : Prop :=
  (exists u, is_Some (view fs (ckpt_dir self ++ [checkpoint_name cp u]))) /\ agrees self fs cp m.

Lemma untaken_agrees self fs cp m : untaken self fs cp -> agrees self fs cp m.
Proof. intros Hun u dir. unfold dir. rewrite Hun. by intros [? ?]. Qed.

Lemma ckpt_frame self fs fs' a :
  (exists u, working_dir self = work_dir self ++ [u]) -> only_below (working_dir self) fs fs' ->
  view fs' (ckpt_dir self ++ a) = view fs (ckpt_dir self ++ a).
Proof.
  intros [u Hu] Ho. eapply only_below_apart; [exact Ho|]. rewrite Hu.
  pose proof (dirs_apart self [] [u]) as [Ha1 Ha2]. rewrite app_nil_r in *. by split.
Qed.

(** Checkpoints depend only on the checkpoint directory. *)
Lemma agrees_ext self self' fs fs' cp m :
  be_root self' = be_root self ->
  (forall u a, view fs' (ckpt_dir self ++ checkpoint_name cp u :: a) =
               view fs (ckpt_dir self ++ checkpoint_name cp u :: a)) ->
  agrees self fs cp m -> agrees self' fs' cp m.
Proof.
  intros Hroot Hck Ha u. cbn. rewrite Hroot, Hck. intros Hs. destruct (Ha u Hs) as [Hd Hsn].
  split; [done|]. rewrite <- Hsn. apply snapshot_ext. intros r.
  rewrite <- (assoc_L (++) (ckpt_dir self)). apply Hck.
Qed.

Lemma saved_ext self self' fs fs' cp m :
  be_root self' = be_root self ->
  (forall u a, view fs' (ckpt_dir self ++ checkpoint_name cp u :: a) =
               view fs (ckpt_dir self ++ checkpoint_name cp u :: a)) ->
  saved self fs cp m -> saved self' fs' cp m.
Proof.
  intros Hroot Hck ([u Hu] & Ha). split; [|by eapply agrees_ext].
  exists u. by rewrite Hroot, Hck.
Qed.

(** What only touches the working directory keeps the checkpoints. *)
Lemma backend_wf_frame self db fs fs' :
  backend_wf self fs -> fs_wf fs' -> only_below (working_dir self) fs fs' ->
  db_home db = db_home (open_db self) -> backend_wf (with_db self db) fs'.
Proof.
  intros (Hwf & Hc & Hcd & Hwd & Hh & [u Hu] & Hn) Hwf' Ho Hhome.
  pose proof (fun a => ckpt_frame self fs fs' a (ex_intro _ u Hu) Ho) as Hck.
  split; [done|]. split; [done|]. cbn [be_root working_dir open_db with_db]. split.
  { pose proof (Hck []) as Hk. rewrite !app_nil_r in Hk. by rewrite Hk. }
  split.
  { rewrite Ho; [done|]. apply strip_None. rewrite Hu. intros Hp%prefix_length.
    rewrite length_app in Hp. cbn in Hp. lia. }
  split; [congruence|]. split; [by exists u|].
  intros n Hs. rewrite Hck in Hs. by apply Hn.
Qed.

Lemma saved_frame self db fs fs' cp m :
  backend_wf self fs -> only_below (working_dir self) fs fs' ->
  saved self fs cp m -> saved (with_db self db) fs' cp m.
Proof.
  intros (_ & _ & _ & _ & _ & Hu & _) Ho. apply saved_ext; [done|].
  intros u a. by apply ckpt_frame.
Qed.

(** Creating a checkpoint directory keeps the backend well-formed. *)
Lemma backend_wf_checkpoint self fs fs' cp uuid :
  backend_wf self fs -> fs_wf fs' -> no_slash uuid = true ->
  only_below (ckpt_dir self ++ [checkpoint_name cp uuid]) fs fs' -> backend_wf self fs'.
Proof.
  intros (Hwf & Hc & Hcd & Hwd & Hh & [u Hu] & Hn) Hwf' Huuid Ho.
  split; [done|]. split; [done|]. split; [|split; [|split; [done|split; [by exists u|]]]].
  - rewrite Ho; [done|]. apply strip_None. intros Hp%prefix_length.
    rewrite length_app in Hp. cbn in Hp. lia.
  - pose proof (only_below_apart _ (work_dir self) [] fs fs' Ho) as Hk.
    rewrite app_nil_r in Hk. rewrite Hk; [done|].
    pose proof (dirs_apart self [checkpoint_name cp uuid] []) as Ha. by rewrite app_nil_r in Ha.
  - intros n Hs. destruct (decide (n = checkpoint_name cp uuid)) as [->|Hne]; [by eauto|].
    apply Hn. rewrite Ho in Hs; [done|]. apply strip_None. intros Hp%prefix_app_inv.
    by apply prefix_cons_inv_1 in Hp.
Qed.

Lemma checkpoint_saves self fs (r : FR) uuid cp range :
  backend_wf self fs -> agrees self fs cp (db_entries (open_db self)) -> no_slash uuid = true ->
  view fs (ckpt_dir self ++ [checkpoint_name cp uuid]) = None ->
  exists fs1 self1, checkpoint self uuid cp range (fs, r) = ((fs1, r), Ok self1) /\
    backend_wf self1 fs1 /\ saved self1 fs1 cp (db_entries (open_db self)) /\
    view fs1 (ckpt_dir self ++ [checkpoint_name cp uuid]) = Some DirNode /\
    db_entries (open_db self1) = db_entries (open_db self) /\
    queue self1 = queue self ++ [(pretty cp, range, ckpt_dir self ++ [checkpoint_name cp uuid])] /\
    state_id self1 = state_id self /\ remote self1 = remote self /\
    be_root self1 = be_root self /\ working_dir self1 = working_dir self /\
    (forall q, ~ working_dir self `prefix_of` q ->
       ~ (ckpt_dir self ++ [checkpoint_name cp uuid]) `prefix_of` q -> view fs1 q = view fs q).
Proof.
  intros Hbw Hag Hu Hun. pose proof Hbw as (Hwf & Hc & Hcd & Hwd & Hh & [u Hw] & Hn).
  destruct (flush_spec fs (open_db self) Hwf) as (fs0 & db & Hfl & Hwf0 & Ho0 & Hent & Hhome).
  rewrite <- Hh in Ho0. pose proof (backend_wf_frame self db fs fs0 Hbw Hwf0 Ho0 Hhome) as Hbw0.
  set (dir := ckpt_dir self ++ [checkpoint_name cp uuid]).
  destruct (physical_Ok dir) as [p' Hp'].
  pose proof (fun a => ckpt_frame self fs fs0 a (ex_intro _ u Hw) Ho0) as Hck.
  destruct (create_checkpoint_spec fs0 db dir p' Hwf0 Hp') as (fs1 & Hcr & Hwf1 & Ho1 & Hd1 & Hs1).
  - subst dir. by rewrite Hck.
  - subst dir. unfold parent. rewrite removelast_last. right.
    pose proof (Hck []) as Hk. rewrite !app_nil_r in Hk. by rewrite Hk.
  - subst dir. by destruct (be_root self).
  - rewrite Hhome, <- Hh, Hw. apply dirs_apart.
  - eexists fs1, _. split; [|split; [|split; [|split; [done|split; [|split; [|split; [|split; [|split; [|split]]]]]]]]].
    + unfold checkpoint. erewrite act_bind_Ok by (apply rocks_Ok; exact Hfl).
      cbn [be_root with_db]. rewrite checkpoint_path_eq by done. fold dir.
      unfold create_local_rocksdb_checkpoint. unfold mbind at 1, act_bind at 1.
      unfold mbind at 1, act_bind at 1, lift. rewrite Hp'. cbn [open_db with_db].
      erewrite rocks_Ok by exact Hcr. reflexivity.
    + exact (backend_wf_checkpoint (with_db self db) fs0 fs1 cp uuid Hbw0 Hwf1 Hu Ho1).
    + split; [exists uuid; change (is_Some (view fs1 dir)); by rewrite Hd1|].
      intros v. cbn [be_root]. intros Hv.
      destruct (decide (checkpoint_name cp v = checkpoint_name cp uuid)) as [->|Hne];
        [by rewrite <- Hent|].
      assert (forall a, view fs1 ((ckpt_dir self ++ [checkpoint_name cp v]) ++ a) =
        view fs ((ckpt_dir self ++ [checkpoint_name cp v]) ++ a)) as Hsame.
      { intros a. rewrite <- (assoc_L (++) (ckpt_dir self)), Ho1; [apply Hck|].
        apply strip_None. intros Hp%prefix_app_inv. by apply prefix_cons_inv_1 in Hp. }
      pose proof (Hsame []) as Hs0. rewrite !app_nil_r in Hs0. rewrite Hs0 in Hv |- *.
      destruct (Hag v Hv) as [Hdv Hsv]. split; [done|]. rewrite <- Hsv. by apply snapshot_ext.
    + done.
    + done.
    + done.
    + done.
    + done.
    + done.
    + intros q Hq1 Hq2. rewrite Ho1, Ho0; [done|by apply strip_None..].
Qed.

Lemma puts_keep kvs self fs (r : FR) cp m :
  backend_wf self fs -> saved self fs cp m ->
  exists fs' self', puts self kvs (fs, r) = ((fs', r), Ok self') /\
    backend_wf self' fs' /\ saved self' fs' cp m /\ be_root self' = be_root self /\
    db_entries (open_db self') = foldl (fun m kv => <[kv.1 := kv.2]> m) (db_entries (open_db self)) kvs /\
    (forall q, ~ working_dir self `prefix_of` q -> view fs' q = view fs q).
Proof.
  revert self fs. induction kvs as [|[k v] kvs IH]; intros self fs Hbw Hsv.
  { exists fs, self. split; [done|]. auto. }
  pose proof Hbw as (Hwf & _ & _ & _ & Hh & _).
  destruct (put_spec fs (open_db self) k v Hwf) as (fs1 & db & Hput & Hwf1 & Ho & Hent & Hhome).
  rewrite <- Hh in Ho.
  destruct (IH (with_db self db) fs1) as (fs' & self' & Hputs & Hbw' & Hsv' & Hroot & Hent' & Hkeep).
  { by eapply backend_wf_frame. }
  { by eapply saved_frame. }
  exists fs', self'. split; [|split; [done|split; [done|split; [done|split]]]].
  - cbn [puts]. unfold put. unfold mbind at 1, act_bind at 1.
    erewrite act_bind_Ok by (apply rocks_Ok; exact Hput). exact Hputs.
  - rewrite Hent'. cbn. by rewrite Hent.
  - intros q Hq. rewrite Hkeep by done. apply Ho. by apply strip_None.
Qed.

(** The local search finds a saved checkpoint. *)
Lemma find_checkpoint_local self fs (r : FR) cp m range :
  backend_wf self fs -> saved self fs cp m ->
  exists uuid, no_slash uuid = true /\ is_Some (view fs (ckpt_dir self ++ [checkpoint_name cp uuid])) /\
    find_checkpoint self cp range (fs, r) =
      ((fs, r), Ok (true, [(path_string (ckpt_dir self ++ [checkpoint_name cp uuid]), range)])).
Proof.
  intros (Hwf & Hc & Hcd & Hwd & Hh & _ & Hn) ([u0 Hu0] & Hag).
  destruct (list_files_spec fs (ckpt_dir self) Hwf (or_intror Hcd)) as (l & Hl & _ & Hin).
  assert (exists e, find_first (is_checkpoint cp) l = Some e) as [[n d] Hf].
  { destruct (find_first (is_checkpoint cp) l) as [e|] eqn:Hf; [by exists e|]. exfalso.
    apply find_first_None in Hf. rewrite Forall_forall in Hf. destruct Hu0 as [v Hv].
    assert (mkEntry (checkpoint_name cp u0) (bool_decide (v = DirNode)) ∈ l) as Hel by (apply Hin; by exists v).
    apply Hf in Hel. pose proof (proj2 (is_checkpoint_name cp cp u0 (bool_decide (v = DirNode))) eq_refl). congruence. }
  pose proof Hf as Hf'. apply find_first_Some in Hf' as [Hel Hck]. apply Hin in Hel as (v & Hv & _).
  destruct (Hn n) as (c & u & -> & Hu); [by eexists|]. apply is_checkpoint_name in Hck as <-.
  exists u. split; [done|]. split; [by eexists|].
  unfold find_checkpoint. destruct (base_paths self) as [-> _].
  erewrite act_bind_Ok by (apply on_fst_Ok; exact Hl). by rewrite Hf.
Qed.

(** The new working directory is a copy of [src]; opening it gives the entries saved there. *)
Lemma open_copy self fs (r : FR) src uuid' m :
  fs_wf fs -> view fs src = Some DirNode -> snapshot (fun a => view fs (src ++ a)) = Some m ->
  src <> [] -> apart src (work_dir self ++ [uuid']) -> view fs (work_dir self) = Some DirNode ->
  view fs (work_dir self ++ [uuid']) = None ->
  let dst := work_dir self ++ [uuid'] in
  exists fs' db, (on_fst (copy src dst) ;; open_rocksdb_database dst) (fs, r) = ((fs', r), Ok db) /\
    fs_wf fs' /\ db_entries db = m /\ db_home db = dst /\
    (forall q, ~ dst `prefix_of` q -> view fs' q = view fs q).
Proof.
  intros Hwf Hd Hs Hsrc Hap Hwd Hfresh dst.
  destruct (copy_spec fs src dst Hwf) as (fs1 & Hcp & Hwf1 & Hv1); [by rewrite Hd|done| |done..| |].
  { subst dst. by destruct (be_root self). }
  { subst dst. unfold parent. rewrite removelast_last. by right. }
  destruct (physical_Ok dst) as [p' Hp'].
  destruct (open_spec fs1 dst p' m Hwf1 Hp') as (fs2 & db & Hop & Hwf2 & Ho2 & Hent & Hhome).
  { rewrite Hv1, (proj2 (strip_Some dst dst []) (eq_sym (app_nil_r dst))), app_nil_r. done. }
  { rewrite <- Hs. apply snapshot_ext. intros a.
    by rewrite Hv1, (proj2 (strip_Some dst (dst ++ a) a) eq_refl). }
  exists fs2, db. split; [|repeat split; try done].
  - erewrite act_bind_Ok by (apply on_fst_Ok; exact Hcp).
    unfold open_rocksdb_database. unfold mbind at 1, act_bind at 1, lift. rewrite Hp'.
    by erewrite rocks_Ok by exact Hop.
  - intros q Hq. rewrite Ho2, Hv1 by by apply strip_None. by rewrite (proj2 (strip_None dst q)).
Qed.

Lemma destroy_Ok fs (r : FR) dir : fs_wf fs -> dir <> [] ->
  exists fs', destroy_rocksdb dir (fs, r) = ((fs', r), Ok tt) /\ fs_wf fs' /\ only_below dir fs fs'.
Proof.
  intros Hwf Hne. destruct (physical_Ok dir) as [p' Hp'].
  destruct (destroy_spec fs dir p' Hwf Hp' Hne) as (fs' & Hde & Hwf' & Ho).
  exists fs'. split; [|done]. unfold destroy_rocksdb. unfold mbind, act_bind, lift. rewrite Hp'.
  by erewrite rocks_Ok by exact Hde.
Qed.

(** A checkpoint directory is there, once what was found was downloaded: the backend opens a
    copy of it. *)
Lemma restore_found self fs0 fs (r : FR) fuel uuid' sst cp range is_local src range' m :
  find_checkpoint self cp range (fs0, r) = ((fs0, r), Ok (is_local, [(path_string src, range')])) ->
  (if is_local then fs = fs0 else download fuel src (fs0, r) = ((fs, r), Ok tt)) ->
  Forall component src -> src <> [] -> apart src (work_dir self ++ [uuid']) ->
  fs_wf fs -> view fs src = Some DirNode -> snapshot (fun a => view fs (src ++ a)) = Some m ->
  view fs (work_dir self) = Some DirNode -> (exists u, working_dir self = work_dir self ++ [u]) ->
  component uuid' -> view fs (work_dir self ++ [uuid']) = None ->
  exists fs' self', move_to_checkpoint self fuel uuid' sst cp range (fs0, r) = ((fs', r), self', Ok tt) /\
    db_entries (open_db self') = m /\ working_dir self' = work_dir self ++ [uuid'] /\
    db_home (open_db self') = working_dir self' /\ be_root self' = be_root self /\ fs_wf fs' /\
    (forall q, ~ (work_dir self ++ [uuid']) `prefix_of` q -> ~ working_dir self `prefix_of` q ->
       view fs' q = view fs q).
Proof.
  intros Hfind Hdown Hsrc Hne Hap Hwf Hd Hs Hwd [u0 Hw] Hu' Hfresh.
  destruct (open_copy self fs r src uuid' m) as (fs2 & db & Hop & Hwf2 & Hent & Hhome & Hk2); [done..|].
  destruct (destroy_Ok fs2 r (working_dir self) Hwf2) as (fs3 & Hde & Hwf3 & Ho3).
  { rewrite Hw. by destruct (be_root self). }
  exists fs3, (mkBackend (state_id self) (be_root self) (be_partitions self) (remote self)
    (work_dir self ++ [uuid']) db (queue self)).
  split; [|repeat split; try done].
  2:{ intros q Hq1 Hq2. rewrite Ho3 by by apply strip_None. by apply Hk2. }
  assert ((if negb is_local then
      for_each (fun c : string * PartitionRange => download fuel (to_path (fst c))) [(path_string src, range')]
    else mret tt) (fs0, r) = ((fs, r), Ok tt)) as Hdl.
  { destruct is_local; cbn [negb]; [by subst fs|]. cbn [for_each fst].
    rewrite to_path_path_string by done. by erewrite act_bind_Ok by exact Hdown. }
  unfold move_to_checkpoint, restore_checkpoint.
  erewrite act_bind_Ok by exact Hfind. cbv beta iota. erewrite act_bind_Ok by exact Hdl.
  rewrite working_path_eq by done. rewrite to_path_path_string by done.
  erewrite act_bind_Ok by exact Hop. cbn [mret act_ret]. rewrite Hde. reflexivity.
Qed.

Lemma restore_saved self fs (r : FR) fuel uuid' sst cp range m :
  backend_wf self fs -> saved self fs cp m -> component uuid' ->
  view fs (work_dir self ++ [uuid']) = None ->
  exists fs' self', move_to_checkpoint self fuel uuid' sst cp range (fs, r) = ((fs', r), self', Ok tt) /\
    db_entries (open_db self') = m /\ working_dir self' = work_dir self ++ [uuid'] /\
    db_home (open_db self') = working_dir self' /\ be_root self' = be_root self /\ fs_wf fs' /\
    (forall q, ~ (work_dir self ++ [uuid']) `prefix_of` q -> ~ working_dir self `prefix_of` q ->
       view fs' q = view fs q).
Proof.
  intros Hbw Hsv Hu' Hfresh. pose proof Hbw as (Hwf & Hc & Hcd & Hwd & Hh & Hw & Hn).
  destruct (find_checkpoint_local self fs r cp m range Hbw Hsv) as (uuid & Hu & Hs & Hfind).
  destruct Hsv as [_ Hag]. destruct (Hag uuid Hs) as [Hd Hsn].
  apply (restore_found self fs fs r fuel uuid' sst cp range true
    (ckpt_dir self ++ [checkpoint_name cp uuid]) range m); try done.
  - apply Forall_app. split; [apply Forall_app; split; [done|by repeat constructor]|].
    constructor; [|done]. by apply checkpoint_name_component.
  - by destruct (be_root self).
  - apply dirs_apart.
Qed.

(** C27: a local checkpoint restores the state it was taken of.  From a backend in a
    well-formed state, a checkpoint with a new number succeeds; whatever key-value pairs are
    written afterwards, moving back to the checkpoint succeeds, and the database it opens
    has exactly the entries the state had when the checkpoint was taken. *)
Theorem checkpoint_restores_state self fs (r : FR) uuid uuid' cp range kvs fuel sst :
  backend_wf self fs -> untaken self fs cp -> no_slash uuid = true -> component uuid' ->
  view fs (work_dir self ++ [uuid']) = None -> working_dir self <> work_dir self ++ [uuid'] ->
  exists w1 self1 w2 self2 w3 self3,
    checkpoint self uuid cp range (fs, r) = (w1, Ok self1) /\
    puts self1 kvs w1 = (w2, Ok self2) /\
    move_to_checkpoint self2 fuel uuid' sst cp range w2 = (w3, self3, Ok tt) /\
    db_entries (open_db self3) = db_entries (open_db self).
Proof.
  intros Hbw Hun Hu Hu' Hfresh Hne.
  destruct (checkpoint_saves self fs r uuid cp range Hbw (untaken_agrees _ _ _ _ Hun) Hu (Hun uuid))
    as (fs1 & self1 & Hc & Hbw1 & Hsv1 & _ & _ & _ & _ & _ & Hroot & Hw1 & Hkeep1).
  destruct (puts_keep kvs self1 fs1 r cp _ Hbw1 Hsv1)
    as (fs2 & self2 & Hp & Hbw2 & Hsv2 & Hroot2 & _ & Hkeep2).
  destruct (restore_saved self2 fs2 r fuel uuid' sst cp range _ Hbw2 Hsv2 Hu')
    as (fs3 & self3 & Hm & Hent & _).
  { destruct Hbw as (_ & _ & _ & _ & _ & [u0 Hw] & _).
    assert (~ working_dir self `prefix_of` work_dir self ++ [uuid']) as Hnp.
    { rewrite Hw. intros Hpre%prefix_app_inv. apply prefix_cons_inv_1 in Hpre. congruence. }
    rewrite Hroot2, Hroot, Hkeep2, Hkeep1; [done|done| |by rewrite Hw1].
    by destruct (dirs_apart self [checkpoint_name cp uuid] [uuid']). }
  by exists (fs1, r), self1, (fs2, r), self2, (fs3, r), self3.
Qed.
End local_restore.

(** ** A concrete database, to run the backend

    A database directory holds its entries in one file; it satisfies [RocksDBLaws]. *)
Module FileDb.
Import BitJson PrefixedLocalFileSystemStorage.

Abbreviation tmp := ["tmp"].
#[local] Hint Extern 0 (FileSystemStorage tree) => exact (storage tmp) : typeclass_instances.
#[local] Hint Extern 0 (FileSystemView tree) => exact (fs_view tmp) : typeclass_instances.
#[local] Hint Extern 0 (FileSystemLaws tree) => exact (laws tmp) : typeclass_instances.

Record file_db := mkFileDb { home : Path; entries : Entries }.

Definition parse (n : option node) : option Entries :=
  match n with Some (FileNode b) => decode (unbits (text b)) | _ => None end.
Definition save (m : Entries) : node := FileNode (bits (encode m)).

Lemma parse_save m : parse (Some (save m)) = Some m.
Proof. cbn. by rewrite unbits_bits, decode_encode. Qed.

(** Storage-relative path of a physical one. *)
Definition relative (p : Path) : Path := drop 1 p.

#[export] Instance rocks_db : RocksDB tree := {|
  Db := file_db;
  db_entries := entries;
  open_default p t :=
    match parse (t !! (p ++ ["DATA"])) with
    | Some m => (t, Ok (mkFileDb (relative p) m))
    | None => (mkdirs t p, Ok (mkFileDb (relative p) ∅))
    end;
  db_put db k v t := (t, Ok (mkFileDb (home db) (<[k := v]> (entries db))));
  db_get db k t := (t, Ok (entries db !! k));
  db_iterator db := Ok <$> map_to_list (entries db);
  db_flush db t := (t, Ok db);
  create_checkpoint db p t := (<[p ++ ["DATA"] := save (entries db)]> (mkdirs t p), Ok tt);
  destroy p t := (filter (fun kv => ~ p `prefix_of` kv.1) t, Ok tt);
  std_create_dir_all p := Os.create_dir_all p;
  sst_open p := Os.write p [];
  sst_finish p es t := (<[p := save (list_to_map es)]> t, Ok tt);
  ingest_external_file db ps t :=
    (t, Ok (mkFileDb (home db) (foldl (fun m p => default ∅ (parse (t !! p)) ∪ m) (entries db) ps)));
|}.

Lemma destroy_keeps (t : tree) (p : Path) : wf tmp t -> p <> [] ->
  let t' := filter (fun kv => ~ (tmp ++ p) `prefix_of` kv.1) t in
  wf tmp t' /\ only_below p t t'.
Proof.
  intros [Hc Hd] Hp t'.
  assert (forall q, ~ (tmp ++ p) `prefix_of` q -> t' !! q = t !! q) as Hkeep.
  { intros q Hq. subst t'. destruct (t !! q) eqn:Hl.
    - by apply map_lookup_filter_Some.
    - apply map_lookup_filter_None. by left. }
  split; [split|].
  - intros q n [v Hv]. subst t'. apply map_lookup_filter_Some in Hv as [Hv Hq]. cbn in Hq.
    pose proof (Hc q n (mk_is_Some _ _ Hv)) as [->|Hqd]%is_dir_true; [done|].
    apply is_dir_true. right. rewrite Hkeep; [done|]. intros Hpre. apply Hq.
    etrans; [exact Hpre|]. by eexists.
  - apply is_dir_true in Hd as [?|Hd]; [done|]. apply is_dir_true. right. rewrite Hkeep; [done|].
    intros Hpre%prefix_length. destruct p; [done|]. cbn in Hpre. lia.
  - intros q Hq. cbn [view fs_view]. apply Hkeep. rewrite strip_None in Hq.
    intros Hpre. apply Hq. by apply prefix_app_inv in Hpre.
Qed.

Lemma create_keeps (t : tree) (p : Path) m : wf tmp t -> p <> [] -> view t p = None -> dir_at t (parent p) ->
  let t' := <[(tmp ++ p) ++ ["DATA"] := save m]> (mkdirs t (tmp ++ p)) in
  wf tmp t' /\ only_below p t t' /\ view t' p = Some DirNode /\
  view t' (p ++ ["DATA"]) = Some (save m).
Proof.
  intros Hwf Hp Hnone Hpar t'.
  assert (forall q, q `prefix_of` p -> q <> [] -> q <> p -> view t q = Some DirNode) as Hway.
  { intros q Hq Hq0 Hqp.
    assert (q `prefix_of` parent p) as Hpp.
    { destruct Hq as [k ->]. destruct k as [|x k _] using rev_ind; [by rewrite app_nil_r in Hqp|].
      unfold parent. rewrite (assoc_L (++)), removelast_last. by eexists. }
    assert (is_dir t (tmp ++ q) = true) as Hqq.
    { eapply closed_prefix; [apply Hwf|exact (dir_at_is_dir _ _ _ Hwf Hpar)|]. by apply prefix_app. }
    apply is_dir_dir_at in Hqq; [|done]. by destruct Hqq. }
  destruct (mkdirs_view tmp t p Hwf) as [Hwf1 Hv1].
  { intros q c Hq Hq0 Hf. destruct (decide (q = p)) as [->|Hne]; [congruence|].
    rewrite Hway in Hf by done. congruence. }
  assert (view (mkdirs t (tmp ++ p)) p = Some DirNode) as Hpd by by rewrite Hv1, decide_True.
  assert (view (mkdirs t (tmp ++ p)) (p ++ ["DATA"]) = None) as Hdn.
  { rewrite Hv1, decide_False.
    - apply (not_dir_below tmp t p ["DATA"]); [done|done|congruence|done].
    - intros [_ Hpre%prefix_length]. rewrite length_app in Hpre. cbn in Hpre. lia. }
  assert (forall q, view t' q = if decide (q = p ++ ["DATA"]) then Some (save m)
    else view (mkdirs t (tmp ++ p)) q) as Hv'.
  { intros q. subst t'. cbn [view fs_view]. rewrite <- (assoc_L (++)), lookup_insert.
    apply decide_ext. split; [intros Heq; by apply app_inv_head in Heq|congruence]. }
  split; [split|split; [|split]].
  - apply closed_insert_file; [apply Hwf1|..].
    + apply not_true_iff_false. intros [Hn|Hx]%is_dir_true; [done|].
      rewrite <- (assoc_L (++)) in Hx. cbn [view fs_view] in Hdn. congruence.
    + unfold parent. rewrite removelast_last. apply dir_at_is_dir; [done|by right].
  - destruct Hwf1 as [_ Hd1]. apply is_dir_true in Hd1 as [?|Hd1]; [done|].
    apply is_dir_true. right. subst t'. rewrite lookup_insert_ne; [done|].
    intros [=]. by destruct p.
  - intros q Hq%strip_None. rewrite Hv', decide_False, Hv1.
    + case_decide as Hd; [|done]. symmetry. destruct Hd as [Hq0 Hqp].
      apply Hway; [done..|]. intros ->. by destruct Hq.
    + intros ->. apply Hq. by eexists.
  - rewrite Hv', decide_False; [done|]. intros Heq%(f_equal length).
    rewrite length_app in Heq. cbn in Heq. lia.
  - by rewrite Hv', decide_True.
Qed.

#[export] Instance rocks_db_laws : RocksDBLaws tree.
Proof.
  refine {| db_home := home : @Db tree rocks_db -> Path; snapshot f := parse (f ["DATA"]) |}.
  - intros f g Hfg. by rewrite Hfg.
  - intros t p p' m Hwf [= <-] Hd Hs. exists t, (mkFileDb p m).
    cbn [open_default rocks_db]. unfold prefixed_path. cbn [view fs_view] in Hs.
    rewrite (assoc_L (++)) in Hs. change (tmp ++ p) with ("tmp" :: p) in Hs. by rewrite Hs.
  - intros t db k v Hwf. eexists t, _. done.
  - intros t db Hwf. exists t, db. done.
  - intros t db p p' Hwf [= <-] Hnone Hpar Hp _.
    destruct (create_keeps t p (entries db) Hwf Hp Hnone Hpar) as (Hwf' & Ho & Hd & Hdata).
    eexists. split; [done|]. split; [exact Hwf'|]. split; [exact Ho|]. split; [exact Hd|].
    rewrite <- parse_save. f_equal. exact Hdata.
  - intros t db k Hwf. by exists t.
  - intros db. exists (map_to_list (entries db)). split; [done|].
    split; [apply NoDup_fst_map_to_list|apply list_to_map_to_list].
  - intros t p p' Hwf [= <-] Hp. eexists. split; [done|]. by apply destroy_keeps.
Defined.

(** A backend with the entries [m], in an otherwise empty storage. *)
Definition example_tree : tree :=
  mkdirs (mkdirs {[tmp := DirNode]} ["tmp"; "s"; "checkpoint"]) ["tmp"; "s"; "working"].
Definition example_backend (m : Entries) : RocksDBStateBackend (FL := tree) :=
  mkBackend "s" ["s"] (mkRange 0 1 1) (mkStateStorage []) ["s"; "working"; "w0"]
    (mkFileDb ["s"; "working"; "w0"] m) [].

Definition one_entry : Entries := {[ [1] := [10] ]}.

Lemma example_tree_view :
  wf tmp example_tree /\ forall n, view example_tree (["s"; "checkpoint"] ++ [n]) = None /\
    view example_tree (["s"; "working"] ++ [n]) = None.
Proof.
  assert (forall p q c, q `prefix_of` p -> q <> [] -> view tmp_tree q <> Some (FileNode c)) as Hno.
  { intros p q c _ Hq. cbn. by rewrite tmp_tree_view. }
  destruct (mkdirs_view tmp tmp_tree ["s"; "checkpoint"] tmp_tree_wf) as [Hw1 Hv1]; [by apply Hno|].
  destruct (mkdirs_view tmp _ ["s"; "working"] Hw1) as [Hw2 Hv2].
  { intros q c _ Hq. rewrite Hv1. case_decide; [done|]. cbn. by rewrite tmp_tree_view. }
  split; [exact Hw2|]. intros n.
  unfold example_tree. change (mkdirs _ ["tmp"; "s"; "working"])
    with (mkdirs (mkdirs tmp_tree (tmp ++ ["s"; "checkpoint"])) (tmp ++ ["s"; "working"])).
  split.
  - rewrite Hv2, decide_False, Hv1, decide_False; [by cbn; rewrite tmp_tree_view|..];
      intros [_ Hp%prefix_length]; cbn in Hp; lia.
  - rewrite Hv2, decide_False, Hv1, decide_False; [by cbn; rewrite tmp_tree_view|..];
      intros [_ Hp%prefix_length]; cbn in Hp; lia.
Qed.

Lemma example_wf m : backend_wf (H2 := rocks_db) (example_backend m) example_tree.
Proof.
  destruct example_tree_view as [Hw Hn]. split; [exact Hw|].
  split; [by repeat constructor|]. split; [done|]. split; [done|].
  split; [done|]. split; [by exists "w0"|].
  intros n [v Hv]. exfalso. destruct (Hn n) as [Hn' _]. cbn in *. congruence.
Qed.

#[local] Hint Extern 0 Profile => exact true : typeclass_instances.

(** Checkpoint [1] of the example backend, two later writes, and the way back. *)
Lemma checkpoint_restores_state_witness :
  exists w1 self1 w2 self2 w3 self3,
    checkpoint (FR := tree) (example_backend one_entry) "u1" 1 (mkRange 0 1 1)
      (example_tree, ∅) = (w1, Ok self1) /\
    puts self1 [([1], [11]); ([2], [20])] w1 = (w2, Ok self2) /\
    move_to_checkpoint self2 10 "w1" [] 1 (mkRange 0 1 1) w2 = (w3, self3, Ok tt) /\
    entries (open_db self3) = one_entry.
Proof.
  apply (@checkpoint_restores_state tree tree
    (PrefixedLocalFileSystemStorage.storage ["tmp"]) (PrefixedLocalFileSystemStorage.fs_view ["tmp"])
    (PrefixedLocalFileSystemStorage.laws ["tmp"]) rocks_db rocks_db_laws
    (PrefixedLocalFileSystemStorage.storage ["tmp"]) json true
    ltac:(intros p; eexists; reflexivity) (example_backend one_entry) example_tree ∅ "u1" "w1" 1
    (mkRange 0 1 1) [([1], [11]); ([2], [20])] 10 []).
  - apply example_wf.
  - intros u. apply example_tree_view.
  - done.
  - done.
  - done.
  - done.
Defined.
End FileDb.
