(* ===== verification/RemoteState.v ===== *)
(** * Restoring state on another machine (state/state.rs, state/checkpoint_storage.rs)

    What the pieces of StateBackend and CheckpointStorage do together: the background task
    uploads a checkpoint to the remote storage and completes it in the index; a backend of
    another machine, with the same state id and partitions and without a local checkpoint of
    that number, finds it in the index, downloads it and opens a copy.  A state that several copies of the
    operator saved cannot be moved to.  Paths are relative to src/src/streaming/. *)

From S2P Require Import Prelude Arrow Partitioning Generation FileSystem CheckpointStorage StateBackend.
Import PartitionRangeOps.

(** ** Copying a directory from one storage to another *)

Section copying.
Context {FS FD : Type} `{FileSystemLaws FS} `{FileSystemLaws FD}.
Context (fs : FS) (src dst : Path) (fs_ok : fs_wf fs) (src_dir : view fs src = Some DirNode).
Context (dst_nonempty : dst <> []).

Implicit Types (fd : FD) (r : Path).

Lemma prefix_snoc (q p : Path) n : q `prefix_of` p ++ [n] -> q <> p ++ [n] -> q `prefix_of` p.
Proof.
  intros [k Hk] Hne. destruct k as [|y k _] using rev_ind; [by rewrite app_nil_r in Hk|].
  rewrite (assoc_L (++)) in Hk. apply app_inj_tail in Hk as [-> _]. by eexists.
Qed.

(** What was copied so far: the directory [dst] and the nodes of [done]; the rest of the
    destination is that of [fd0]. *)
Definition copied (fd0 : FD) (done : list Path) (fd : FD) : Prop :=
  fs_wf fd /\ view fd dst = Some DirNode /\
  (forall r, r <> [] -> view fd (dst ++ r) = if decide (r ∈ done) then view fs (src ++ r) else None) /\
  (forall q, ~ dst `prefix_of` q -> view fd q = view fd0 q).

Lemma app_last_nonempty (p : Path) n : p ++ [n] <> [].
Proof. by destruct p. Qed.

Lemma copied_dir fd0 done fd r :
  copied fd0 done fd -> r = [] \/ (r ∈ done /\ view fs (src ++ r) = Some DirNode) ->
  view fd (dst ++ r) = Some DirNode.
Proof.
  intros (_ & Hd & Hv & _) [->|[Hr Hdir]]; [by rewrite app_nil_r|].
  destruct (decide (r = [])) as [->|Hne]; [by rewrite app_nil_r|]. by rewrite Hv, decide_True.
Qed.

(** In a well-formed storage the way to a directory consists of directories. *)
Lemma dir_prefix fd p q :
  fs_wf fd -> view fd p = Some DirNode -> q `prefix_of` p -> q <> [] -> view fd q = Some DirNode.
Proof.
  intros Hwf. revert q. induction p as [|x p IH] using rev_ind; intros q Hp Hq Hne.
  { by rewrite (prefix_nil_inv _ Hq) in Hne. }
  destruct (decide (q = p ++ [x])) as [->|Hqp]; [done|].
  pose proof (prefix_snoc _ _ _ Hq Hqp) as Hq'.
  destruct (view_closed fd p x Hwf) as [->|Hpd]; [by eexists| |by apply IH].
  by rewrite (prefix_nil_inv _ Hq') in Hne.
Qed.

(** One entry of a directory that is there. *)
Lemma copy_entry_copied fd0 done fd next n v :
  copied fd0 done fd -> next = [] \/ (next ∈ done /\ view fs (src ++ next) = Some DirNode) ->
  view fs (src ++ next ++ [n]) = Some v -> next ++ [n] ∉ done ->
  exists fd', copy_entry src dst next (mkEntry n (bool_decide (v = DirNode))) (fs, fd) =
      ((fs, fd'), Ok (if bool_decide (v = DirNode) then [next ++ [n]] else [])) /\
    copied fd0 ((next ++ [n]) :: done) fd'.
Proof.
  intros Hc Hnext Hv Hnew. pose proof (copied_dir _ _ _ _ Hc Hnext) as Hnd.
  pose proof Hc as (Hwf & Hd & Hview & Hframe).
  set (r := next ++ [n]) in *.
  assert (dst ++ r <> []) as Hne by (by destruct dst).
  assert (view fd (dst ++ r) = None) as Hnone.
  { rewrite Hview by apply app_last_nonempty. by rewrite decide_False. }
  assert (forall q, q `prefix_of` dst ++ r -> q <> dst ++ r -> q <> [] -> view fd q = Some DirNode) as Hway.
  { intros q Hq Hqr Hq0. subst r. rewrite (assoc_L (++)) in Hq, Hqr.
    eapply dir_prefix; [done|exact Hnd|by eapply prefix_snoc|done]. }
  assert (forall fd', fs_wf fd' -> (forall q, view fd' q = if decide (q = dst ++ r) then Some v else view fd q) ->
    copied fd0 (r :: done) fd') as Hdone.
  { intros fd' Hwf' Hv'. split; [done|]. split; [|split].
    - rewrite Hv', decide_False; [done|]. intros Heq%(f_equal length). rewrite length_app in Heq.
      subst r. rewrite length_app in Heq. cbn in Heq. lia.
    - intros r' Hr'. rewrite Hv'. destruct (decide (r' = r)) as [->|Hrr].
      + rewrite !decide_True by (done || by left). done.
      + rewrite decide_False by (intros ?%app_inv_head; done). rewrite Hview by done.
        apply decide_ext. rewrite elem_of_cons. tauto.
    - intros q Hq. rewrite Hv', decide_False; [by apply Hframe|]. intros ->. apply Hq. by eexists. }
  unfold copy_entry. rewrite <- !(assoc_L (++)). cbn [name directory]. fold r.
  destruct (decide (v = DirNode)) as [->|Hfile].
  - rewrite bool_decide_eq_true_2 by done.
    destruct (mkdir_all_spec fd (dst ++ r) Hwf) as (fd' & Hmk & Hwf' & Hv').
    { intros q c Hq Hq0 Hqf. destruct (decide (q = dst ++ r)) as [->|Hqr]; [congruence|].
      rewrite (Hway q Hq Hqr Hq0) in Hqf. congruence. }
    exists fd'. split.
    { unfold mbind, act_bind, on_snd. cbn [fst snd]. by rewrite Hmk. }
    apply Hdone; [done|]. intros q. rewrite Hv'. destruct (decide (q = dst ++ r)) as [->|Hqr].
    + by rewrite decide_True.
    + case_decide as Hq; [|done]. destruct Hq as [Hq0 Hq]. symmetry. by apply Hway.
  - rewrite bool_decide_eq_false_2 by done. destruct v as [c|]; [|done].
    assert (read_file (src ++ r) fs = (fs, Ok c)) as Hread.
    { apply read_file_spec; [done| |done]. subst r. intros E%(f_equal length).
      rewrite !length_app in E. cbn in E. lia. }
    destruct (write_file_spec fd (dst ++ r) c Hwf Hne) as (fd' & Hwr & Hwf' & Hv').
    { right. subst r. unfold parent. by rewrite (assoc_L (++)), removelast_last. }
    { congruence. }
    exists fd'. split; [|by apply Hdone].
    unfold mbind, act_bind, on_fst, on_snd. cbn [fst snd]. rewrite Hread. cbn [fst snd]. by rewrite Hwr.
Qed.

Lemma copied_ext fd0 done done' fd :
  (forall r, r ∈ done <-> r ∈ done') -> copied fd0 done fd -> copied fd0 done' fd.
Proof.
  intros Hd (Hwf & Hdst & Hv & Hf). split; [done|]. split; [done|]. split; [|done].
  intros r Hr. rewrite Hv by done. by apply decide_ext.
Qed.

(** The entries that a listing of [next] gives. *)
Definition listing (next : Path) (l : list FileSystemEntry) : Prop :=
  NoDup (name <$> l) /\
  Forall (fun e => exists v, view fs (src ++ next ++ [name e]) = Some v /\ directory e = bool_decide (v = DirNode)) l.

Definition below (next : Path) (l : list FileSystemEntry) : list Path :=
  List.map (fun e => next ++ [name e]) l.

Lemma elem_of_below next l r : r ∈ below next l <-> exists e, e ∈ l /\ r = next ++ [name e].
Proof. unfold below. rewrite list_elem_of_fmap. naive_solver. Qed.

Lemma copy_entries_across fd0 next l done fd queue :
  copied fd0 done fd -> next = [] \/ (next ∈ done /\ view fs (src ++ next) = Some DirNode) ->
  listing next l -> (forall r, r ∈ below next l -> r ∉ done) ->
  exists fd' pushed, copy_entries src dst next l queue (fs, fd) = ((fs, fd'), Ok (pushed ++ queue)) /\
    pushed ≡ₚ below next (List.filter directory l) /\
    copied fd0 (below next l ++ done) fd'.
Proof.
  intros Hc Hnext [Hnd Hl] Hnew. revert done fd queue Hc Hnext Hnd Hnew.
  induction Hl as [|[n d] l (v & Hv & Hd) _ IH]; intros done fd queue Hc Hnext Hnd Hnew.
  { exists fd, []. done. }
  cbn [name directory] in *. subst d. cbn [fmap list_fmap name] in Hnd. apply NoDup_cons in Hnd as [Hn Hnd].
  destruct (copy_entry_copied fd0 done fd next n v Hc Hnext Hv) as (fd1 & He & Hc1).
  { apply Hnew. by left. }
  destruct (IH ((next ++ [n]) :: done) fd1 ((if bool_decide (v = DirNode) then [next ++ [n]] else []) ++ queue))
    as (fd' & pushed & Hrest & Hp & Hc'); [done| |done| |].
  - destruct Hnext as [->|[Hin Hdir]]; [by left|right]. split; [by right|done].
  - intros r Hr [->|Hrd]%elem_of_cons; [|by eapply Hnew; [right|]].
    apply elem_of_below in Hr as (e & Hin & Heq). apply app_inv_head in Heq. injection Heq as Heq.
    apply Hn. rewrite Heq. by apply list_elem_of_fmap_2.
  - exists fd', (pushed ++ if bool_decide (v = DirNode) then [next ++ [n]] else []). split; [|split].
    + cbn [copy_entries]. unfold mbind, act_bind. rewrite He. rewrite <- (assoc_L (++)). exact Hrest.
    + cbn [List.filter directory]. rewrite Hp. case_bool_decide; cbn; [|by rewrite app_nil_r].
      by rewrite Permutation_app_comm.
    + eapply copied_ext; [|exact Hc']. intros r. cbn. set_solver.
Qed.

(** ** The queue of directories *)

(** Every directory of the source is in the list. *)
Context (dirs : list Path) (all_dirs : forall r, view fs (src ++ r) = Some DirNode -> r ∈ dirs).

(** [V] was listed, [Q] is to be listed; the nodes below [V] were copied. *)
Definition copying_queue (fd0 : FD) (V Q done : list Path) (fd : FD) : Prop :=
  copied fd0 done fd /\
  (forall r, r ∈ done <-> exists p n, r = p ++ [n] /\ p ∈ V /\ is_Some (view fs (src ++ r))) /\
  (forall r, r ∈ V ++ Q <-> r = [] \/ (r ∈ done /\ view fs (src ++ r) = Some DirNode)) /\
  NoDup (V ++ Q).

Lemma listed_dir V Q done fd0 fd r :
  copying_queue fd0 V Q done fd -> r ∈ V ++ Q -> view fs (src ++ r) = Some DirNode.
Proof.
  intros (_ & _ & Hq & _) [->|[_ Hr]]%Hq; [by rewrite app_nil_r|done].
Qed.

Lemma copying_bound V Q done fd0 fd :
  copying_queue fd0 V Q done fd -> (length V + length Q <= length dirs)%nat.
Proof.
  intros Hi. rewrite <- length_app. apply submseteq_length, NoDup_submseteq; [apply Hi|].
  intros r Hr. apply all_dirs. by eapply listed_dir.
Qed.

Lemma copying_finished V done fd0 fd :
  copying_queue fd0 V [] done fd ->
  fs_wf fd /\ (forall r, view fd (dst ++ r) = view fs (src ++ r)) /\
  (forall q, ~ dst `prefix_of` q -> view fd q = view fd0 q).
Proof.
  intros ((Hwf & Hdst & Hv & Hf) & Hdone & Hq & _). rewrite app_nil_r in Hq.
  assert (forall r, view fs (src ++ r) = Some DirNode -> r ∈ V) as HV.
  { intros r. induction r as [|n r IH] using rev_ind; intros Hr; apply Hq; [by left|right].
    split; [|done]. apply Hdone. exists r, n. split; [done|]. split; [|by eexists].
    rewrite (assoc_L (++)) in Hr. destruct (view_closed fs (src ++ r) n) as [E|Hd]; [done|by eexists| |by apply IH].
    apply app_eq_nil in E as [_ ->]. apply Hq. by left. }
  split; [done|]. split; [|done]. intros r. destruct r as [|n r _] using rev_ind.
  { by rewrite !app_nil_r, Hdst. }
  rewrite Hv by apply app_last_nonempty. case_decide as Hr; [done|].
  destruct (view fs (src ++ r ++ [n])) as [v|] eqn:Hx; [|done]. exfalso. apply Hr, Hdone.
  exists r, n. split; [done|]. split; [|by eexists].
  destruct (view_closed fs (src ++ r) n) as [E|Hd]; [done|by rewrite <- (assoc_L (++)); eexists| |by apply HV].
  apply app_eq_nil in E as [_ ->]. apply Hq. by left.
Qed.

Lemma copying_next fd0 V next Q done fd queue :
  copying_queue fd0 V (next :: Q) done fd -> queue = Q ->
  exists l fd' pushed, list_files (src ++ next) fs = (fs, Ok l) /\
    copy_entries src dst next l queue (fs, fd) = ((fs, fd'), Ok (pushed ++ Q)) /\
    copying_queue fd0 (next :: V) (pushed ++ Q) (below next l ++ done) fd'.
Proof.
  intros Hi ->. pose proof Hi as (Hc & Hdone & Hq & Hnd).
  assert (view fs (src ++ next) = Some DirNode) as Hdir by (eapply listed_dir; [done|set_solver]).
  destruct (list_files_spec fs (src ++ next) fs_ok (or_intror Hdir)) as (l & Hl & Hln & Hin).
  assert (next ∉ V) as HnV.
  { apply NoDup_app in Hnd as (_ & Hd & _). intros HV. by apply (Hd next HV); left. }
  assert (listing next l) as Hlist.
  { split; [done|]. apply Forall_forall. intros [n d] (v & Hv & Hd)%Hin. exists v. cbn.
    by rewrite (assoc_L (++)). }
  assert (forall r, r ∈ below next l -> r ∉ done) as Hnew.
  { intros r (e & _ & ->)%elem_of_below (p & n & E & Hp & _)%Hdone.
    apply app_inj_tail in E as [-> _]. done. }
  destruct (copy_entries_across fd0 next l done fd Q Hc) as (fd' & pushed & He & Hp & Hc'); [|done|done|].
  { apply Hq. set_solver. }
  exists l, fd', pushed. split; [done|]. split; [done|].
  assert (forall r, r ∈ below next l <-> exists n, r = next ++ [n] /\ is_Some (view fs (src ++ r))) as Hbelow.
  { intros r. rewrite elem_of_below. split.
    - intros ([n d] & (v & Hv & _)%Hin & ->). exists n. split; [done|]. cbn. rewrite (assoc_L (++)). by eexists.
    - intros (n & -> & [v Hv]). rewrite (assoc_L (++)) in Hv. exists (mkEntry n (bool_decide (v = DirNode))).
      split; [|done]. apply Hin. by exists v. }
  assert (forall r, r ∈ pushed <-> r ∈ below next l /\ view fs (src ++ r) = Some DirNode) as Hpushed.
  { intros r. rewrite Hp, !elem_of_below. setoid_rewrite list_elem_of_In. setoid_rewrite filter_In.
    setoid_rewrite <- list_elem_of_In. split.
    - intros ([n d] & [Hel Hd] & ->). cbn in Hd. subst d. split; [by eexists|].
      apply Hin in Hel as (v & Hv & Hd). symmetry in Hd. apply bool_decide_eq_true in Hd as ->.
      cbn. by rewrite (assoc_L (++)).
    - intros [([n d] & Hel & ->) Hr]. exists (mkEntry n d). split; [|done]. split; [done|].
      apply Hin in Hel as (v & Hv & ->). cbn in *. rewrite (assoc_L (++)) in Hr.
      rewrite Hv in Hr. injection Hr as ->. done. }
  split; [done|]. split; [|split].
  - intros r. rewrite elem_of_app, Hbelow, Hdone. split.
    + intros [(n & -> & Hs)|(p & n & -> & HV & Hs)]; [exists next, n|exists p, n]; set_solver.
    + intros (p & n & -> & [->|HV]%elem_of_cons & Hs); [left; by exists n|right; by exists p, n].
  - intros r. specialize (Hq r). rewrite !elem_of_app, elem_of_cons in *. rewrite Hpushed. tauto.
  - assert (NoDup pushed) as Hndp.
    { rewrite Hp. unfold below. apply (NoDup_fmap_2_strong (fun e : FileSystemEntry => next ++ [name e])).
      - intros e e' He1 He2 E. apply app_inv_head in E. injection E as E.
        rewrite list_elem_of_In, filter_In, <- list_elem_of_In in He1, He2.
        destruct He1 as [He1 _], He2 as [He2 _].
        apply list_elem_of_lookup in He1 as [i Hi1], He2 as [j Hj].
        assert (i = j) as -> by (eapply (NoDup_lookup (name <$> l)); [done| |];
          rewrite list_lookup_fmap; [by rewrite Hi1|by rewrite Hj, E]).
        congruence.
      - apply NoDup_ListNoDup, List.NoDup_filter, NoDup_ListNoDup. by eapply NoDup_fmap_1. }
    assert ((next :: V) ++ pushed ++ Q ≡ₚ pushed ++ V ++ next :: Q) as ->.
    { rewrite <- (Permutation_middle V Q next), <- Permutation_middle. cbn. apply Permutation_skip.
      by rewrite !(assoc_L (++)), (Permutation_app_comm V pushed). }
    apply NoDup_app. split; [done|]. split; [|done]. intros r [Hr _]%Hpushed [->|[Hd _]]%Hq.
    + apply elem_of_below in Hr as (e & _ & E). by apply (app_last_nonempty next (name e)).
    + by apply (Hnew r).
Qed.

Lemma copy_queue_copies fuel fd0 V Q done fd :
  copying_queue fd0 V Q done fd -> (length dirs <= fuel + length V)%nat ->
  exists fd', copy_queue fuel src dst Q (fs, fd) = ((fs, fd'), Ok tt) /\ fs_wf fd' /\
    (forall r, view fd' (dst ++ r) = view fs (src ++ r)) /\
    (forall q, ~ dst `prefix_of` q -> view fd' q = view fd0 q).
Proof.
  revert V Q done fd. induction fuel as [|fuel IH]; intros V [|next Q] done fd Hi Hfuel.
  1,3: exists fd; split; [done|]; by eapply copying_finished.
  - apply copying_bound in Hi. cbn in Hi. lia.
  - destruct (copying_next fd0 V next Q done fd Q Hi eq_refl) as (l & fd1 & pushed & Hl & He & Hi').
    destruct (IH _ _ _ _ Hi') as (fd' & Hrest & Hfd'); [cbn; lia|].
    exists fd'. split; [|done]. cbn [copy_queue]. unfold mbind, act_bind, on_fst. cbn [fst snd].
    rewrite Hl. cbn [snd]. by rewrite He.
Qed.

(** [p] and what is below it is unused, and [p] can be created. *)
Definition unused {F} `{FileSystemView F} (p : Path) (f : F) : Prop :=
  (forall q c, q `prefix_of` p -> q <> [] -> view f q <> Some (FileNode c)) /\
  (forall r, r <> [] -> view f (p ++ r) = None).

(** Copying a directory gives the same subtree at the destination, and makes the directories
    on the way to it; fuel for every directory of the source is enough. *)
Lemma copy_dir_copies fuel fd :
  fs_wf fd -> unused dst fd -> (length dirs <= fuel)%nat ->
  exists fd', copy_dir_between_systems fuel src dst (fs, fd) = ((fs, fd'), Ok tt) /\ fs_wf fd' /\
    (forall r, view fd' (dst ++ r) = view fs (src ++ r)) /\
    (forall q, ~ dst `prefix_of` q -> view fd' q =
       if decide (q <> [] /\ q `prefix_of` dst) then Some DirNode else view fd q).
Proof.
  intros Hwf [Hway Hbelow] Hfuel.
  destruct (mkdir_all_spec fd dst Hwf Hway) as (fd1 & Hmk & Hwf1 & Hv1).
  destruct (copy_queue_copies fuel fd1 [] [[]] [] fd1) as (fd' & Hq & Hwf' & Hin & Hout); [|cbn; lia|].
  { split; [|split; [|split; [|by repeat constructor; set_solver]]].
    - split; [done|]. split; [|split; [|done]].
      + rewrite Hv1. by rewrite decide_True.
      + intros r Hr. rewrite Hv1, decide_False; [by rewrite Hbelow|].
        intros [_ Hp%prefix_length]. rewrite length_app in Hp. destruct r; [done|]. cbn in Hp. lia.
    - intros r. split; [set_solver|]. intros (p & n & _ & Hp & _). set_solver.
    - intros r. cbn. set_solver. }
  exists fd'. split; [|split; [done|split; [done|]]].
  - unfold copy_dir_between_systems. unfold mbind, act_bind, on_snd. cbn [fst snd]. by rewrite Hmk.
  - intros q Hq'. by rewrite Hout, Hv1.
Qed.
End copying.

(** ** Uploading a checkpoint *)

Section remote_restore.
Context {FL FR : Type} `{RocksDBLaws FL} `{FileSystemLaws FR} `{LatestJsonLaws} `{Profile}.
Context (physical : forall p, is_Ok (get_physical_path (FS := FL) p)).
Implicit Types self : RocksDBStateBackend (FL := FL).
Implicit Types storage : FileSystemStateStorage.

Lemma below_none {F} `{FileSystemLaws F} (f : F) (p r : Path) :
  fs_wf f -> p <> [] -> view f p = None -> view f (p ++ r) = None.
Proof.
  intros Hwf Hp Hnone. induction r as [|n r IH] using rev_ind; [by rewrite app_nil_r|].
  destruct (view f (p ++ r ++ [n])) eqn:Hv; [|done].
  destruct (view_closed f (p ++ r) n Hwf) as [[-> _]%app_eq_nil|Hd]; [|done|congruence].
  by rewrite <- (assoc_L (++)), Hv.
Qed.

Lemma remote_path_eq storage op uuid :
  component op -> component uuid ->
  get_checkpoint_path storage op uuid = root_dir storage ++ ["operators"; op; "checkpoints"; uuid].
Proof.
  intros Hop Hu. unfold get_checkpoint_path, join. rewrite !to_path_component by done.
  change (to_path "operators") with ["operators"]. change (to_path "checkpoints") with ["checkpoints"].
  by rewrite <- !(assoc_L (++)).
Qed.

(** The index of the operator lies beside the directories of its checkpoints. *)
Lemma latest_path_beside storage op uuid :
  component op -> component uuid ->
  apart (get_checkpoint_path storage op uuid) (get_latest_json_path storage op).
Proof.
  intros Hop Hu. rewrite remote_path_eq, latest_path_eq by done.
  split; intros Hp%prefix_app_inv; apply prefix_cons_inv_2, prefix_cons_inv_2, prefix_cons_inv_1 in Hp; done.
Qed.

Lemma index_way storage op uuid q :
  component op -> component uuid -> q `prefix_of` parent (get_latest_json_path storage op) ->
  q `prefix_of` get_checkpoint_path storage op uuid /\
  ~ get_checkpoint_path storage op uuid `prefix_of` q.
Proof.
  intros Hop Hu. rewrite latest_path_parent, remote_path_eq by done. intros Hq. split.
  - etrans; [exact Hq|]. exists ["checkpoints"; uuid]. by rewrite <- (assoc_L (++)).
  - intros Hp. pose proof (prefix_length _ _ (transitivity Hp Hq)) as Hl.
    rewrite !length_app in Hl. cbn in Hl. lia.
Qed.

Lemma start_checkpoint_unused storage (r : FR) op uuid :
  let path := get_checkpoint_path storage op uuid in
  fs_wf r -> component op -> component uuid -> unused path r ->
  exists r', start_checkpoint storage uuid op r = (r', Ok path) /\ fs_wf r' /\ unused path r' /\
    (forall q, ~ q `prefix_of` path -> view r' q = view r q).
Proof.
  intros path Hwf Hop Hu [Hway Hbelow].
  destruct (mkdir_all_spec r path Hwf Hway) as (r' & Hmk & Hwf' & Hv).
  exists r'. split; [unfold start_checkpoint; by erewrite act_bind_Ok by exact Hmk|]. split; [done|].
  split; [split|].
  - intros q c Hq Hne. by rewrite Hv, decide_True.
  - intros a Ha. rewrite Hv, decide_False; [by apply Hbelow|].
    intros [_ Hp%prefix_length]. rewrite length_app in Hp. destruct a; [done|]. cbn in Hp. lia.
  - intros q Hq. rewrite Hv, decide_False; [done|]. tauto.
Qed.

(** The upload puts the same subtree into a new directory of the remote storage, and adds the
    checkpoint to the index. *)
Lemma upload_spec storage (fs : FL) (r : FR) fuel uuid now op id range src dirs l :
  let path := get_checkpoint_path storage op uuid in
  fs_wf fs -> fs_wf r -> component op -> component uuid ->
  view fs src = Some DirNode -> (forall a, view fs (src ++ a) = Some DirNode -> a ∈ dirs) ->
  (length dirs <= fuel)%nat -> unused path r ->
  view r (get_latest_json_path storage op) <> Some DirNode -> stored storage r op l ->
  exists r', upload_checkpoint fuel uuid (Ok now) op storage (id, range, src) (fs, r) = ((fs, r'), Ok tt) /\
    fs_wf r' /\ (forall a, view r' (path ++ a) = view fs (src ++ a)) /\
    stored storage r' op (add_partition id (mkPartitionInfo range (now mod u64_modulus) (path_string path)) l).
Proof.
  intros path Hwf Hwr Hop Hu Hsrc Hdirs Hfuel Hfree Hlatest Hst.
  pose proof (latest_path_beside storage op uuid Hop Hu) as [Hap1 Hap2]. fold path in Hap1, Hap2.
  destruct (start_checkpoint_unused storage r op uuid Hwr Hop Hu Hfree) as (r1 & Hstart & Hwf1 & Hfree1 & Hk1).
  fold path in Hstart, Hfree1, Hk1.
  assert (path <> []) as Hpne.
  { subst path. rewrite remote_path_eq by done. by destruct (root_dir storage). }
  destruct (copy_dir_copies fs src path Hwf Hsrc Hpne dirs Hdirs fuel r1 Hwf1 Hfree1 Hfuel)
    as (r2 & Hcopy & Hwf2 & Hin & Hout).
  assert (view r2 (get_latest_json_path storage op) = view r (get_latest_json_path storage op)) as Hlp.
  { rewrite Hout, decide_False by (done || tauto). by apply Hk1. }
  destruct (complete_checkpoint_stored storage r2 op l now id path range Hwf2 Hop) as (r3 & Hc & Hwf3 & _ & Hst3 & Hk3).
  { split; [|by rewrite Hlp]. intros q c Hq Hne.
    destruct (index_way storage op uuid q Hop Hu Hq) as [Hqp Hpq]. fold path in Hqp, Hpq.
    by rewrite Hout, decide_True. }
  { unfold stored in *. by rewrite Hlp. }
  exists r3. split; [|split; [done|split; [|done]]].
  - unfold upload_checkpoint, mbind, act_bind, on_snd. cbn [fst snd].
    rewrite Hstart. cbn [fst snd]. rewrite Hcopy. cbn [fst snd]. by rewrite Hc.
  - intros a. rewrite Hk3, Hin; [done|]. intros Hp. apply Hap1. etrans; [|exact Hp]. by eexists.
Qed.

(** ** Finding and downloading it *)

(** Without a local checkpoint of that number, the backend asks the index. *)
Lemma find_checkpoint_remote self (fs : FL) (r : FR) cp range now dir l :
  backend_wf self fs -> untaken self fs cp -> fs_wf r -> component (state_id self) ->
  Forall (fun e => entry_id e <> pretty cp) l ->
  stored (remote self) r (state_id self)
    (add_partition (pretty cp) (mkPartitionInfo (be_partitions self) now dir) l) ->
  uniform (partitions (be_partitions self)) (be_partitions self) ->
  start (be_partitions self) < end_ (be_partitions self) -> 0 < partitions (be_partitions self) ->
  find_checkpoint self cp range (fs, r) = ((fs, r), Ok (false, [(dir, be_partitions self)])).
Proof.
  intros (Hwf & _ & Hcd & _ & _ & _ & Hn) Hun Hwr Hop Hid Hst Hu Hlt Hp.
  destruct (list_files_spec fs (be_root self ++ ["checkpoint"]) Hwf (or_intror Hcd)) as (ls & Hl & _ & Hin).
  unfold find_checkpoint. destruct (base_paths self) as [-> _].
  erewrite act_bind_Ok by (apply on_fst_Ok; exact Hl).
  destruct (find_first (is_checkpoint cp) ls) as [[n d]|] eqn:Hf.
  { exfalso. apply find_first_Some in Hf as [Hel Hck]. apply Hin in Hel as (v & Hv & _).
    destruct (Hn n) as (c & u & -> & _); [by eexists|]. apply is_checkpoint_name in Hck as <-.
    rewrite Hun in Hv. done. }
  unfold get_operator_checkpoints, mbind, act_bind, on_snd. cbn [fst snd].
  rewrite (read_latest_stored _ r _ _ Hwr Hop Hst). cbn [completed_checkpoints].
  pose proof (add_partition_index l (pretty cp) [] (mkPartitionInfo (be_partitions self) now dir) Hid) as Hadd.
  cbn [index_with app] in Hadd. rewrite Hadd.
  pose proof (filter_index l (pretty cp) [mkPartitionInfo (be_partitions self) now dir] Hid ltac:(done)) as Hfl.
  cbn [index_with] in Hfl. rewrite Hfl.
  erewrite find_map_entries_first by (by apply entry_checkpoints_single). done.
Qed.

Lemma download_copies (fs : FL) (r : FR) fuel p dirs :
  fs_wf fs -> fs_wf r -> p <> [] -> view r p = Some DirNode ->
  (forall a, view r (p ++ a) = Some DirNode -> a ∈ dirs) -> (length dirs <= fuel)%nat -> unused p fs ->
  exists fs', download fuel p (fs, r) = ((fs', r), Ok tt) /\ fs_wf fs' /\
    (forall a, view fs' (p ++ a) = view r (p ++ a)) /\
    (forall q, apart p q -> view fs' q = view fs q).
Proof.
  intros Hwf Hwr Hp Hd Hdirs Hfuel Hfree.
  destruct (copy_dir_copies r p p Hwr Hd Hp dirs Hdirs fuel fs Hwf Hfree Hfuel)
    as (fs' & Hcopy & Hwf' & Hin & Hout).
  exists fs'. split; [|split; [done|split; [done|]]].
  - unfold download. cbn [fst snd]. by rewrite Hcopy.
  - intros q [H1' H2']. rewrite Hout, decide_False; [done|tauto|done].
Qed.

(** C28: a checkpoint restores the state on another machine.  Backend [a] takes a checkpoint
    with a new number, and its background task uploads it and completes it in the index.
    Backend [b], which has the same state id, partitions and remote storage but other local
    files, and no local checkpoint of that number, then moves to the checkpoint: it downloads
    the files and opens a database with exactly the entries that [a] had at the checkpoint.
    All steps succeed, with fuel for the directories of the checkpoint. *)
Theorem remote_checkpoint_restores_state a fsa b fsb (r : FR) uuid upload_uuid uuid' cp now sst range l :
  let path := get_checkpoint_path (remote a) (state_id a) upload_uuid in
  backend_wf a fsa -> untaken a fsa cp -> queue a = [] -> no_slash uuid = true ->
  backend_wf b fsb -> untaken b fsb cp -> component uuid' ->
  view fsb (be_root b ++ ["working"; uuid']) = None ->
  state_id b = state_id a -> be_partitions b = be_partitions a -> remote b = remote a ->
  component (state_id a) -> component upload_uuid -> Forall component (root_dir (remote a)) ->
  0 < partitions (be_partitions a) -> uniform (partitions (be_partitions a)) (be_partitions a) ->
  start (be_partitions a) < end_ (be_partitions a) ->
  fs_wf r -> unused path r -> unused path fsb -> apart path (be_root b ++ ["working"]) ->
  view r (get_latest_json_path (remote a) (state_id a)) <> Some DirNode ->
  stored (remote a) r (state_id a) l -> Forall (fun e => entry_id e <> pretty cp) l ->
  exists fsa1 a1 n, checkpoint a uuid cp (be_partitions a) (fsa, r) = ((fsa1, r), Ok a1) /\
    forall fuel, (n <= fuel)%nat -> exists r1 a2 fsb1 b1,
      background_step fuel upload_uuid (Ok now) a1 (fsa1, r) = ((fsa1, r1), Ok a2) /\ queue a2 = [] /\
      move_to_checkpoint b fuel uuid' sst cp range (fsb, r1) = ((fsb1, r1), b1, Ok tt) /\
      db_entries (open_db b1) = db_entries (open_db a).
Proof.
  intros path Hbw Hun Hq Huuid Hbwb Hunb Hu' Hfresh Hsid Hparts Hrem Hop Hup Hroot Hp Hu Hlt Hwr Hfree
    Hfreeb Hap Hlatest Hst Hid.
  destruct (checkpoint_saves physical a fsa r uuid cp (be_partitions a) Hbw
    (untaken_agrees _ _ _ _ Hun) Huuid (Hun uuid))
    as (fsa1 & a1 & Hck & Hbw1 & [_ Hag] & Hd & _ & Hq1 & Hsid1 & Hrem1 & Hroot1 & _).
  rewrite Hq in Hq1. cbn [app] in Hq1.
  assert (snapshot (fun s => view fsa1 (((be_root a ++ ["checkpoint"]) ++ [checkpoint_name cp uuid]) ++ s))
    = Some (db_entries (open_db a))) as Hs.
  { rewrite <- Hroot1. apply Hag. rewrite Hroot1. by eexists. }
  set (src := (be_root a ++ ["checkpoint"]) ++ [checkpoint_name cp uuid]) in *.
  pose proof (proj1 Hbw1) as Hwfa.
  destruct (view_finite fsa1 Hwfa) as [ps Hps].
  set (dirs := drop (length src) <$> ps).
  assert (forall s, view fsa1 (src ++ s) = Some DirNode -> s ∈ dirs) as Hdirs.
  { intros s Hv. apply list_elem_of_fmap. exists (src ++ s). split; [by rewrite drop_app_length|].
    apply Hps. by eexists. }
  exists fsa1, a1, (length dirs). split; [exact Hck|]. intros fuel Hfuel.
  destruct (upload_spec (remote a) fsa1 r fuel upload_uuid now (state_id a) (pretty cp) (be_partitions a)
    src dirs l) as (r1 & Hupl & Hwr1 & Hin & Hst1); [done..|].
  fold path in Hin, Hst1.
  assert (path <> []) as Hpne.
  { subst path. rewrite remote_path_eq by done. by destruct (root_dir (remote a)). }
  assert (view r1 path = Some DirNode) as Hrd by (rewrite <- (app_nil_r path), Hin, app_nil_r; done).
  destruct (download_copies fsb r1 fuel path dirs) as (fsb0 & Hdl & Hwb0 & Hinb & Houtb); try done.
  { apply Hbwb. }
  { intros s. rewrite Hin. apply Hdirs. }
  pose proof Hbwb as (_ & _ & _ & Hwd & _ & Hw & _).
  assert (apart path ((be_root b ++ ["working"]) ++ [uuid'])) as Hap'.
  { pose proof (apart_below _ _ [] [uuid'] Hap) as Ha. by rewrite app_nil_r in Ha. }
  destruct (restore_found physical b fsb fsb0 r1 fuel uuid' sst cp range false path (be_partitions b)
    (db_entries (open_db a))) as (fsb1 & b1 & Hmove & Hent & _); try done.
  - apply (find_checkpoint_remote b fsb r1 cp range (now mod u64_modulus) (path_string path) l);
      rewrite ?Hsid, ?Hrem, ?Hparts; done.
  - subst path. rewrite remote_path_eq by done. apply Forall_app. split; [done|].
    by rewrite !Forall_cons, Forall_nil.
  - by rewrite <- (app_nil_r path), Hinb, app_nil_r.
  - rewrite <- Hs. apply snapshot_ext. intros s. by rewrite Hinb, Hin.
  - by rewrite Houtb.
  - rewrite Houtb by done. by rewrite <- (assoc_L (++)).
  - eexists r1, _, fsb1, b1. split; [|split; [|done]].
    + unfold background_step. rewrite Hq1, Hsid1, Hrem1, Hupl. done.
    + done.
Qed.

(** ** More than one partial checkpoint

    [move_to_checkpoint] makes the path of each SST file a directory and then opens that path
    for writing.  Opening a directory as a file fails, and the [unwrap] turns that into a panic:
    a state that was saved by several copies of the operator cannot be restored. *)
Section partial.
Context (open_directory_fails : forall fs fs' p,
  std_create_dir_all p fs = (fs', Ok tt) -> exists fs'' e, sst_open p fs' = (fs'', Err e)).

Lemma write_sst_fails sst c (w : FL * FR) : ~ is_Ok (snd (write_sst sst c w)).
Proof.
  unfold write_sst, mbind, act_bind, or_err, or_panic, on_fst.
  destruct (std_create_dir_all _ (fst w)) as [fs1 [[]|e|why]] eqn:Hmk; cbn; [|by intros [? ?]..].
  destruct (open_directory_fails _ _ _ Hmk) as (fs2 & e & Hopen). rewrite Hopen. cbn.
  by intros [? ?].
Qed.

Theorem partial_checkpoints_not_restored self fuel uuid' sst cp range (w w0 : FL * FR) is_local c1 c2 cs :
  find_checkpoint self cp range w = (w0, Ok (is_local, c1 :: c2 :: cs)) ->
  exists w' failed, move_to_checkpoint self fuel uuid' sst cp range w = (w', self, failed) /\
    ~ is_Ok failed.
Proof.
  intros Hfind. assert (~ is_Ok (snd (restore_checkpoint self fuel uuid' sst cp range w))) as Hfail.
  { unfold restore_checkpoint. erewrite act_bind_Ok by exact Hfind. cbv beta iota.
    unfold mbind at 1, act_bind at 1. match goal with |- context [if negb is_local then ?x else ?y] =>
      destruct ((if negb is_local then x else y) w0) as [w1 [?|?|?]] end; [|by intros [? ?]..]. cbn [fmap list_fmap write_ssts]. destruct c1 as [path1 r1].
    pose proof (write_sst_fails sst path1 w1) as Hsst. unfold mbind, act_bind. cbn [fst].
    destruct (write_sst sst path1 w1) as [w2 [?|?|?]]; [by destruct Hsst; eexists|by intros [? ?]..]. }
  unfold move_to_checkpoint. destruct (restore_checkpoint self fuel uuid' sst cp range w) as [w1 [?|e|why]].
  - by destruct Hfail; eexists.
  - by eexists w1, (Err e); split; [|intros [? ?]].
  - by eexists w1, (Panic why); split; [|intros [? ?]].
Qed.
End partial.
End remote_restore.

(** ** Two machines with file databases *)

Import BitJson PrefixedLocalFileSystemStorage FileDb.

Lemma example_tree_operators q : view (FileSystemView := fs_view tmp) example_tree ("operators" :: q) = None.
Proof.
  destruct (mkdirs_view tmp tmp_tree ["s"; "checkpoint"] tmp_tree_wf) as [Hw1 Hv1].
  { intros p c _ Hp. cbn. by rewrite tmp_tree_view. }
  destruct (mkdirs_view tmp _ ["s"; "working"] Hw1) as [_ Hv2].
  { intros p c _ Hp. rewrite Hv1. case_decide; [done|]. cbn. by rewrite tmp_tree_view. }
  unfold example_tree. change (mkdirs _ ["tmp"; "s"; "working"])
    with (mkdirs (mkdirs tmp_tree (tmp ++ ["s"; "checkpoint"])) (tmp ++ ["s"; "working"])).
  rewrite Hv2, decide_False, Hv1, decide_False.
  - cbn. by rewrite tmp_tree_view.
  - by intros [_ Hp%prefix_cons_inv_1].
  - by intros [_ Hp%prefix_cons_inv_1].
Qed.

Lemma example_unused (t : tree) :
  (forall q, view (FileSystemView := fs_view tmp) t ("operators" :: q) = None) ->
  @unused tree (fs_view tmp) ["operators"; "s"; "checkpoints"; "up"] t.
Proof.
  intros Hn. split; [|intros r _; apply Hn].
  intros q c Hq Hne. destruct q as [|x q]; [done|]. apply prefix_cons_inv_1 in Hq as ->.
  by rewrite Hn.
Qed.

(** In the file databases, opening a directory as a file fails. *)
Lemma example_open_directory_fails (t t' : tree) p :
  std_create_dir_all (RocksDB := rocks_db) p t = (t', Ok tt) ->
  exists t'' e, sst_open (RocksDB := rocks_db) p t' = (t'', Err e).
Proof.
  cbn. unfold Os.create_dir_all. destruct (existsb (is_file t) (prefixes p)) eqn:Hf; [done|]. intros [= <-].
  assert (is_dir (mkdirs t p) p = true) as Hd.
  { apply is_dir_true. destruct (decide (p = [])) as [->|Hne]; [by left|]. right.
    rewrite mkdirs_lookup. destruct (t !! p) as [[c|]|] eqn:Hl; [|done|by rewrite decide_True].
    assert (existsb (is_file t) (prefixes p) = true); [|congruence].
    apply existsb_exists. exists p. split; [apply list_elem_of_In; by apply elem_of_prefixes|].
    unfold is_file. by rewrite Hl. }
  unfold Os.write. rewrite Hd. by eexists _, _.
Qed.

(** Machine [a] has one entry, machine [b] an empty database. *)
Lemma remote_checkpoint_restores_state_witness :
  let storage := PrefixedLocalFileSystemStorage.storage ["tmp"] in
  let move := move_to_checkpoint (FL := tree) (FR := tree) (H := storage) (H0 := storage)
    (H1 := rocks_db) (H2 := json) (H3 := true) in
  exists fsa1 a1 fuel r1 a2 fsb1 b1,
    checkpoint (FR := tree) (H := storage) (example_backend one_entry) "u1" 1 (mkRange 0 1 1)
      (example_tree, tmp_tree) = ((fsa1, tmp_tree), Ok a1) /\
    background_step (H := storage) (H0 := storage) (H2 := json) fuel "up" (Ok 5) a1
      (fsa1, tmp_tree) = ((fsa1, r1), Ok a2) /\
    move (example_backend ∅) fuel "w1" [] 1 (mkRange 0 1 1) (example_tree, r1) =
      ((fsb1, r1), b1, Ok tt) /\
    entries (open_db b1) = one_entry.
Proof.
  destruct example_tree_view as [_ Hnone].
  destruct (@remote_checkpoint_restores_state tree tree
    (PrefixedLocalFileSystemStorage.storage ["tmp"]) (PrefixedLocalFileSystemStorage.fs_view ["tmp"])
    (PrefixedLocalFileSystemStorage.laws ["tmp"]) rocks_db rocks_db_laws
    (PrefixedLocalFileSystemStorage.storage ["tmp"]) (PrefixedLocalFileSystemStorage.fs_view ["tmp"])
    (PrefixedLocalFileSystemStorage.laws ["tmp"]) json json_laws true
    ltac:(intros p; eexists; reflexivity) (example_backend one_entry) example_tree (example_backend ∅)
    example_tree tmp_tree "u1" "up" "w1" 1 5 [] (mkRange 0 1 1) [])
    as (fsa1 & a1 & n & Hck & Hrest).
  - apply example_wf.
  - intros u. apply Hnone.
  - done.
  - done.
  - apply example_wf.
  - intros u. apply Hnone.
  - done.
  - apply (Hnone "w1").
  - done.
  - done.
  - done.
  - done.
  - done.
  - constructor.
  - done.
  - repeat split.
  - done.
  - exact tmp_tree_wf.
  - apply example_unused. intros q. by apply (tmp_tree_view ("operators" :: q)).
  - apply example_unused. intros q. apply example_tree_operators.
  - split; intros Hp%prefix_cons_inv_1; done.
  - done.
  - left. done.
  - constructor.
  - destruct (Hrest n (le_n n)) as (r1 & a2 & fsb1 & b1 & Hbg & _ & Hmove & Hent).
    exists fsa1, a1, n, r1, a2, fsb1, b1.
    split; [exact Hck|]. split; [exact Hbg|]. split; [exact Hmove|exact Hent].
Defined.
