(* ===== verification/KeyedState.v ===== *)
(** * What an operator may rely on of its state backend

    [KeyedState] is the interface the stateful operators use of a state backend, and
    [KeyedStateLaws] its contract: reads see the last write, a checkpoint records the entries
    under its number, and moving to a recorded checkpoint gives exactly those entries back.
    [RocksDBStateBackend] is shown to satisfy the contract. *)

From S2P Require Import Prelude Arrow Partitioning Generation FileSystem CheckpointStorage StateBackend.

Class KeyedState (S : Type) := {
  ks_put : Bytes -> Bytes -> act S DataFusionError ();
  ks_get : Bytes -> act S DataFusionError (option Bytes);
  ks_iterate : S -> list (res DataFusionError (Bytes * Bytes));
  ks_checkpoint : N -> PartitionRange -> act S DataFusionError ();
  ks_move_to_checkpoint : N -> PartitionRange -> act S DataFusionError ();
}.

(** The states of a backend, as its users see them. *)
Class KeyedStateView (S : Type) := {
  ks_inv : S -> Prop;
  ks_entries : S -> Entries;
  ks_saved : S -> N -> Entries -> Prop;
}.

(** [s'] has every checkpoint that [s] has. *)
Definition keeps_saved {S} `{KeyedStateView S} (s s' : S) : Prop :=
  forall c m, ks_saved s c m -> ks_saved s' c m.

Class KeyedStateLaws (S : Type) `{KeyedState S, KeyedStateView S} : Prop := {
  ks_put_spec s k v : ks_inv s -> exists s', ks_put k v s = (s', Ok tt) /\ ks_inv s' /\
    ks_entries s' = <[k := v]> (ks_entries s) /\ keeps_saved s s' /\ keeps_saved s' s;
  ks_get_spec s k : ks_inv s -> exists s', ks_get k s = (s', Ok (ks_entries s !! k)) /\ ks_inv s' /\
    ks_entries s' = ks_entries s /\ keeps_saved s s' /\ keeps_saved s' s;
  ks_iterate_spec s : ks_inv s -> exists l, ks_iterate s = Ok <$> l /\ NoDup l.*1 /\
    list_to_map l = ks_entries s;
  ks_checkpoint_spec s c r : ks_inv s -> (forall m, ks_saved s c m -> m = ks_entries s) ->
    exists s', ks_checkpoint c r s = (s', Ok tt) /\ ks_inv s' /\ ks_entries s' = ks_entries s /\
      ks_saved s' c (ks_entries s) /\ keeps_saved s s' /\
      (forall c' m, c' <> c -> ks_saved s' c' m -> ks_saved s c' m);
  ks_move_spec s c r m : ks_inv s -> ks_saved s c m ->
    exists s', ks_move_to_checkpoint c r s = (s', Ok tt) /\ ks_inv s' /\ ks_entries s' = m /\
      keeps_saved s s' /\ keeps_saved s' s;
  ks_saved_inj s c m m' : ks_saved s c m -> ks_saved s c m' -> m = m';
}.

(** ** RocksDBStateBackend satisfies the contract *)

Module RocksDBState.
Section instance.
Context {FL FR : Type} `{RocksDBLaws FL} `{FileSystemStorage FR} `{LatestJson} `{Profile}.
Context (physical : forall p, is_Ok (get_physical_path (FS := FL) p)).

(** The UUIDs, in the order in which they are drawn: distinct names of files. *)
Context (uuid : nat -> string) `{!Inj (=) (=) uuid}.
Context (uuid_component : forall n, component (uuid n)).

(** The fuel and the scratch directory of [move_to_checkpoint]. *)
Context (fuel : nat) (sst : Path).

Record t := mk { world : FL * FR; self : RocksDBStateBackend (FL := FL); next : nat }.

Definition with_backend (s : t) (m : act (FL * FR) DataFusionError (RocksDBStateBackend (FL := FL)))
    (next : nat) : t * res DataFusionError () :=
  match m (world s) with
  | (w, Ok b) => (mk w b next, Ok tt)
  | (w, Err e) => (mk w (self s) next, Err e)
  | (w, Panic why) => (mk w (self s) next, Panic why)
  end.

#[export] Instance keyed_state : KeyedState t := {|
  ks_put k v s := with_backend s (put (self s) k v) (next s);
  ks_get k s := let '(w, r) := get (self s) k (world s) in (mk w (self s) (next s), r);
  ks_iterate s := iterate (self s);
  ks_checkpoint c r s := with_backend s (checkpoint (self s) (uuid (next s)) c r) (S (next s));
  ks_move_to_checkpoint c r s :=
    let '(w, b, res) := move_to_checkpoint (self s) fuel (uuid (next s)) sst c r (world s) in
    (mk w b (S (next s)), res);
|}.

Abbreviation ckpt_dir b := (be_root b ++ ["checkpoint"]).
Abbreviation work_dir b := (be_root b ++ ["working"]).
Abbreviation fs_of s := (fst (world s)).

#[export] Instance keyed_view : KeyedStateView t := {|
  ks_inv s :=
    backend_wf (self s) (fs_of s) /\
    (forall n, (next s <= n)%nat -> view (fs_of s) (work_dir (self s) ++ [uuid n]) = None /\
       working_dir (self s) <> work_dir (self s) ++ [uuid n] /\
       forall c, view (fs_of s) (ckpt_dir (self s) ++ [checkpoint_name c (uuid n)]) = None) /\
    (forall c, untaken (self s) (fs_of s) c \/ exists m, saved (self s) (fs_of s) c m);
  ks_entries s := db_entries (open_db (self s));
  ks_saved s c m := saved (self s) (fs_of s) c m;
|}.

(** Two states with the same checkpoint directory have the same checkpoints. *)
Definition same_ckpt (s s' : t) : Prop :=
  be_root (self s') = be_root (self s) /\
  forall a, view (fs_of s') (ckpt_dir (self s) ++ a) = view (fs_of s) (ckpt_dir (self s) ++ a).

Lemma same_ckpt_sym s s' : same_ckpt s s' -> same_ckpt s' s.
Proof. intros [Hr Hv]. split; [done|]. intros a. by rewrite Hr, Hv. Qed.

Lemma same_ckpt_keeps s s' : same_ckpt s s' -> keeps_saved s s'.
Proof. intros [Hr Hv] c m Hs. eapply saved_ext; [exact Hr| |exact Hs]. intros. apply Hv. Qed.

Lemma same_ckpt_untaken s s' : same_ckpt s s' ->
  (forall c, untaken (self s) (fs_of s) c \/ exists m, saved (self s) (fs_of s) c m) ->
  forall c, untaken (self s') (fs_of s') c \/ exists m, saved (self s') (fs_of s') c m.
Proof.
  intros Hsame Hall c. pose proof Hsame as [Hr Hv]. destruct (Hall c) as [Hun|[m Hs]].
  - left. intros u. rewrite Hr, Hv. apply Hun.
  - right. exists m. by apply (same_ckpt_keeps _ _ Hsame c m).
Qed.

(** A database operation that only touches the working directory keeps the contract. *)
Lemma db_step s db fs' :
  ks_inv s -> fs_wf fs' -> only_below (working_dir (self s)) (fs_of s) fs' ->
  db_home db = db_home (open_db (self s)) ->
  let s' := mk (fs', snd (world s)) (with_db (self s) db) (next s) in
  ks_inv s' /\ keeps_saved s s' /\ keeps_saved s' s.
Proof.
  intros (Hbw & Hfresh & Htaken) Hwf' Ho Hhome s'.
  pose proof Hbw as (_ & _ & _ & _ & _ & Hw & _).
  assert (same_ckpt s s') as Hsame by (split; [done|]; intros a; by apply ckpt_frame).
  split; [|split; [by apply same_ckpt_keeps|by apply same_ckpt_keeps, same_ckpt_sym]].
  split; [by eapply backend_wf_frame|]. split; [|by eapply same_ckpt_untaken].
  intros n Hn. destruct (Hfresh n Hn) as (Hv & Hne & Hc). split; [|split; [done|]].
  - cbn. rewrite Ho; [done|]. apply strip_None. destruct Hw as [u Hu]. rewrite Hu.
    intros Hp%prefix_app_inv. apply prefix_cons_inv_1 in Hp. congruence.
  - intros c. destruct Hsame as [_ Hk]. cbn in Hk |- *. by rewrite Hk.
Qed.

Lemma with_db_self b : with_db b (open_db (FL := FL) b) = b.
Proof. by destruct b. Qed.

Lemma checkpoint_name_inj c u c' u' :
  checkpoint_name c u = checkpoint_name c' u' -> c = c'.
Proof.
  intros Heq. apply (proj1 (is_checkpoint_name c c' u' false)). rewrite <- Heq.
  by apply is_checkpoint_name.
Qed.

Lemma checkpoint_name_uuid c n c' n' :
  checkpoint_name c (uuid n) = checkpoint_name c' (uuid n') -> n = n'.
Proof.
  intros Heq. pose proof (checkpoint_name_inj _ _ _ _ Heq) as <-. unfold checkpoint_name in Heq.
  by apply (inj (String.app _)), (inj (String.app _)), (inj uuid) in Heq.
Qed.

Lemma uuid_no_slash n : no_slash (uuid n) = true.
Proof. by destruct (uuid_component n) as (_ & _ & ?). Qed.

(** A checkpoint adds its own directory and nothing else to the checkpoints. *)
Lemma checkpoint_step s c r :
  ks_inv s -> agrees (self s) (fs_of s) c (ks_entries s) ->
  exists s', ks_checkpoint c r s = (s', Ok tt) /\ ks_inv s' /\ ks_entries s' = ks_entries s /\
    ks_saved s' c (ks_entries s) /\
    (forall c' m, c' <> c -> ks_saved s c' m <-> ks_saved s' c' m).
Proof.
  destruct s as [[fs fr] b nx]. intros (Hbw & Hfresh & Htaken) Hag. cbn in *.
  pose proof (uuid_no_slash nx) as Hu.
  destruct (Hfresh nx ltac:(lia)) as (_ & _ & Hnew).
  destruct (checkpoint_saves physical b fs fr (uuid nx) c r Hbw Hag Hu (Hnew c))
    as (fs1 & b1 & Hc & Hbw1 & Hsv & _ & Hent & _ & _ & _ & Hroot & Hw1 & Hkeep).
  pose proof Hbw as (_ & _ & _ & _ & _ & [w Hw] & _).
  assert (forall c' u a, checkpoint_name c' u <> checkpoint_name c (uuid nx) ->
    view fs1 (ckpt_dir b ++ checkpoint_name c' u :: a) =
    view fs (ckpt_dir b ++ checkpoint_name c' u :: a)) as Hother.
  { intros c' u a Hne. apply Hkeep.
    - rewrite Hw. pose proof (dirs_apart b (checkpoint_name c' u :: a) [w]) as [_ Ha]. exact Ha.
    - intros Hp%prefix_app_inv. by apply prefix_cons_inv_1 in Hp. }
  exists (mk (fs1, fr) b1 (S nx)). split; [unfold with_backend; cbn; by rewrite Hc|].
  assert (forall c' m, c' <> c -> saved b fs c' m <-> saved b1 fs1 c' m) as Hiff.
  { intros c' m Hne. split; apply saved_ext; try done.
    - intros u' a. apply Hother. by intros ?%checkpoint_name_inj.
    - intros u' a. rewrite Hroot. symmetry. apply Hother. by intros ?%checkpoint_name_inj. }
  split; [split; [done|split]|done].
  - intros n Hn. cbn in Hn |- *. destruct (Hfresh n ltac:(lia)) as (Hv & Hne & Hcn). rewrite Hroot, Hw1.
    split; [|split; [done|]].
    + rewrite Hkeep; [done|..].
      * rewrite Hw. intros Hp%prefix_app_inv. apply prefix_cons_inv_1 in Hp. congruence.
      * by destruct (dirs_apart b [checkpoint_name c (uuid nx)] [uuid n]).
    + intros c'. rewrite Hother; [done|]. intros ?%checkpoint_name_uuid. lia.
  - intros c'. cbn. destruct (decide (c' = c)) as [->|Hne]; [right; by eauto|].
    destruct (Htaken c') as [Hun'|[m Hs]].
    + left. intros u. rewrite Hroot, Hother; [apply Hun'|]. by intros ?%checkpoint_name_inj.
    + right. exists m. by apply Hiff.
Qed.

#[export] Instance keyed_state_laws : KeyedStateLaws t.
Proof.
  split.
  - intros [[fs fr] b nx] k v Hinv. pose proof Hinv as ((Hwf & _ & _ & _ & Hh & _) & _). cbn in Hwf, Hh.
    destruct (put_spec fs (open_db b) k v Hwf) as (fs' & db & Hp & Hwf' & Ho & Hent & Hhome).
    rewrite <- Hh in Ho.
    destruct (db_step (mk (fs, fr) b nx) db fs' Hinv Hwf' Ho Hhome) as (Hi & Hk & Hk').
    exists (mk (fs', fr) (with_db b db) nx). split; [|done].
    cbn. unfold with_backend, put. cbn. erewrite act_bind_Ok by (apply rocks_Ok; exact Hp). done.
  - intros [[fs fr] b nx] k Hinv. pose proof Hinv as ((Hwf & _ & _ & _ & Hh & _) & _). cbn in Hwf, Hh.
    destruct (get_spec fs (open_db b) k Hwf) as (fs' & Hg & Hwf' & Ho). rewrite <- Hh in Ho.
    destruct (db_step (mk (fs, fr) b nx) (open_db b) fs' Hinv Hwf' Ho eq_refl) as (Hi & Hk & Hk').
    cbn [self] in *. rewrite with_db_self in *.
    exists (mk (fs', fr) b nx). split; [|done].
    cbn. unfold get. by erewrite rocks_Ok by exact Hg.
  - intros s _. destruct (iterator_spec (open_db (self s))) as (l & Hl & Hnd & Hm).
    exists l. split; [|done]. cbn. unfold iterate. rewrite Hl, <- list_fmap_compose. done.
  - intros s c r Hinv Hsame. pose proof Hinv as (_ & _ & Htaken).
    destruct (checkpoint_step s c r Hinv) as (s' & Hc & Hi & He & Hs & Hiff).
    { destruct (Htaken c) as [Hun|[m Hs]]; [by apply untaken_agrees|].
      rewrite <- (Hsame m Hs). apply Hs. }
    exists s'. split; [done|]. split; [done|]. split; [done|]. split; [done|]. split.
    + intros c' m Hm. destruct (decide (c' = c)) as [->|Hne]; [by rewrite (Hsame m Hm)|].
      by apply Hiff.
    + intros c' m Hne Hm. by apply Hiff in Hm.
  - intros [[fs fr] b nx] c r m Hinv Hs. pose proof Hinv as (Hbw & Hfresh & Htaken).
    cbn in *. destruct (Hfresh nx ltac:(lia)) as (Hv & Hne & _).
    destruct (restore_saved physical b fs fr fuel (uuid nx) sst c r m Hbw Hs
      (uuid_component nx) Hv) as (fs' & b' & Hm & Hent & Hw & Hh & Hroot & Hwf' & Hkeep).
    pose proof Hbw as (Hwf & Hc & Hcd & Hwd & Hhome & [w Hw0] & Hn).
    assert (forall a, view fs' (ckpt_dir b ++ a) = view fs (ckpt_dir b ++ a)) as Hck.
    { intros a. apply Hkeep.
      - by destruct (dirs_apart b a [uuid nx]).
      - rewrite Hw0. by destruct (dirs_apart b a [w]). }
    assert (same_ckpt (mk (fs, fr) b nx) (mk (fs', fr) b' (S nx))) as Hsame by (split; done).
    exists (mk (fs', fr) b' (S nx)). split; [by rewrite Hm|].
    split; [|split; [done|split; [by apply same_ckpt_keeps|by apply same_ckpt_keeps, same_ckpt_sym]]].
    split; [|split; [|exact (same_ckpt_untaken _ _ Hsame Htaken)]].
    + split; [done|]. cbn. rewrite Hroot. split; [done|].
      split; [pose proof (Hck []) as Hk; rewrite !app_nil_r in Hk; by rewrite Hk|].
      split.
      { rewrite Hkeep; [done|..].
        - intros Hp%prefix_length. rewrite length_app in Hp. cbn in Hp. lia.
        - rewrite Hw0. intros Hp%prefix_length. rewrite length_app in Hp. cbn in Hp. lia. }
      split; [by rewrite Hh|]. split; [by exists (uuid nx)|].
      intros n. rewrite Hck. apply Hn.
    + intros n Hle. cbn in Hle |- *. rewrite Hroot, Hw. destruct (Hfresh n ltac:(lia)) as (Hvn & Hnn & Hcn).
      assert (uuid nx <> uuid n) as Hun by (intros Heq%(inj uuid); lia). split; [|split].
      * rewrite Hkeep; [done|..].
        -- intros Hp%prefix_app_inv. by apply prefix_cons_inv_1 in Hp.
        -- rewrite Hw0. intros Hp%prefix_app_inv. apply prefix_cons_inv_1 in Hp. congruence.
      * intros Heq%app_inv_head. congruence.
      * intros c'. by rewrite Hck.
  - intros s c m m' ([u Hu] & Hm) [_ Hm']. destruct (Hm u Hu) as [_ Hs], (Hm' u Hu) as [_ Hs'].
    congruence.
Qed.
End instance.

(** *** The example backend, with UUIDs x0, x1, ... *)

Definition example_uuid (n : nat) : string := "x" +:+ pretty (N.of_nat n).

#[export] Instance example_uuid_inj : Inj (=) (=) example_uuid.
Proof.
  intros n m [= Heq]. change (pretty (N.of_nat n) = pretty (N.of_nat m)) in Heq.
  apply (inj (pretty (A := N))) in Heq. lia.
Qed.

Lemma example_uuid_component n : component (example_uuid n).
Proof.
  unfold component, example_uuid. split; [done|]. split; [intros [=]|].
  by rewrite no_slash_app, no_slash_pretty.
Qed.

Lemma example_physical p :
  is_Ok (get_physical_path (FS := tree)
    (FileSystemStorage := PrefixedLocalFileSystemStorage.storage ["tmp"]) p).
Proof. by eexists. Qed.

Definition example_state (m : Entries) : t (FL := tree) (FR := tree) :=
  mk (FileDb.example_tree, ∅) (FileDb.example_backend m) 0.

(** The instance for the example, with 10 steps for copying a directory. *)
Definition example_keyed : KeyedState (t (FL := tree) (FR := tree)) :=
  @keyed_state tree tree (PrefixedLocalFileSystemStorage.storage ["tmp"]) FileDb.rocks_db
    (PrefixedLocalFileSystemStorage.storage ["tmp"]) BitJson.json true example_uuid 10 [].

Definition example_view : KeyedStateView (t (FL := tree) (FR := tree)) :=
  @keyed_view tree tree _ (PrefixedLocalFileSystemStorage.fs_view ["tmp"])
    (PrefixedLocalFileSystemStorage.laws ["tmp"]) FileDb.rocks_db FileDb.rocks_db_laws example_uuid.

Lemma example_laws : @KeyedStateLaws _ example_keyed example_view.
Proof. apply keyed_state_laws; [apply example_physical|apply _|apply example_uuid_component]. Qed.

Lemma example_state_inv e :
  @ks_inv _ example_view (example_state e) /\
  (forall c m, ~ @ks_saved _ example_view (example_state e) c m) /\
  @ks_entries _ example_view (example_state e) = e.
Proof.
  destruct FileDb.example_tree_view as [_ Hv]. split; [split; [exact (FileDb.example_wf e)|split]|split].
  - intros n _. split; [exact (proj2 (Hv (example_uuid n)))|]. split.
    + cbn. unfold example_uuid. intros [=].
    + intros c. exact (proj1 (Hv _)).
  - intros c. left. intros u. exact (proj1 (Hv _)).
  - intros c m ([u [? Hd]] & _). pose proof (proj1 (Hv (checkpoint_name c u))) as Hn.
    cbn in *. congruence.
  - done.
Qed.
End RocksDBState.
