(* ===== verification/FiberStream.v ===== *)
(** * Fiber streams (src/streaming/operators/utils/fiber_stream.rs)

    A fiber stream hands out groups of streams (fibers), one group per [pull]; [combined] reads
    the fibers of a group in whatever order they become ready and goes on with the next group.
    The order is chosen by the class [SelectAll], of which only the documented behaviour of
    [futures::stream::select_all] is assumed: every item of every fiber is delivered once, and
    the items of one fiber in their order. *)

From S2P Require Import Prelude.

Section merges.
Context {A : Type}.

(** [merges fs out]: [out] is an interleaving of the fibers [fs]. *)
Inductive merges : list (list A) -> list A -> Prop :=
  | merges_done fs : Forall (fun f => f = []) fs -> merges fs []
  | merges_take fs i x f out :
      fs !! i = Some (x :: f) -> merges (<[i := f]> fs) out -> merges fs (x :: out).

Lemma merges_single f out : merges [f] out -> out = f.
Proof.
  intros Hm. remember [f] as fs eqn:Hfs. revert f Hfs.
  induction Hm as [fs Hall|fs i x f0 out Hi _ IH]; intros f ->.
  - by apply Forall_cons_1 in Hall as [-> _].
  - destruct i as [|i]; [|by rewrite lookup_cons, lookup_nil in Hi]. cbn in Hi. injection Hi as ->.
    by rewrite (IH f0 eq_refl).
Qed.

Lemma merges_concat fs : merges fs (concat fs).
Proof.
  remember (length (concat fs)) as n eqn:Hn. revert fs Hn.
  induction n as [|n IH]; intros fs Hn.
  - assert (concat fs = []) as -> by (by apply nil_length_inv).
    constructor. induction fs as [|[|x f] fs IHfs]; [constructor| |done].
    constructor; [done|]. apply IHfs. exact Hn.
  - assert (exists i x f, fs !! i = Some (x :: f) /\ concat fs = x :: concat (<[i := f]> fs))
      as (i & x & f & Hi & Hc).
    { clear IH. induction fs as [|[|x f] fs IHfs]; [done| |].
      - destruct IHfs as (i & x & f & Hi & Hc); [done|]. exists (S i), x, f. by rewrite lookup_cons.
      - by exists 0%nat, x, f. }
    rewrite Hc. apply (merges_take fs i x f); [done|]. apply IH.
    rewrite Hc in Hn. cbn in Hn. lia.
Qed.

Lemma merges_Permutation fs out : merges fs out -> out ≡ₚ concat fs.
Proof.
  induction 1 as [fs Hall|fs i x f out Hi _ IH].
  - induction Hall as [|f fs -> _ IH]; [done|]. exact IH.
  - rewrite IH. clear IH out. revert i Hi.
    induction fs as [|g fs IH]; intros [|i] Hi; cbn in *; try done.
    + by injection Hi as ->.
    + rewrite Permutation_middle. by f_equiv; apply IH.
Qed.

Lemma merges_sublist fs out i f : merges fs out -> fs !! i = Some f -> sublist f out.
Proof.
  intros Hm. revert f. induction Hm as [fs Hall|fs j x g out Hj _ IH]; intros f Hf.
  - by rewrite (Forall_lookup_1 _ _ _ _ Hall Hf).
  - destruct (decide (i = j)) as [->|Hne].
    + rewrite Hj in Hf. injection Hf as <-. constructor. apply IH.
      apply list_lookup_insert_eq. by apply lookup_lt_Some in Hj.
    + constructor. apply IH. by rewrite list_lookup_insert_ne.
Qed.
End merges.

Class SelectAll := select_all : forall A : Type, list (list A) -> list A.
#[global] Arguments select_all {_ A} _.

Class SelectAllLaws `{SelectAll} : Prop :=
  select_all_merges : forall (A : Type) (fs : list (list A)), merges fs (select_all fs).

(** Reading the fibers one after the other is a possible order. *)
Definition in_order : SelectAll := fun A fs => concat fs.

Lemma in_order_laws : SelectAllLaws (H := in_order).
Proof. intros A fs. apply merges_concat. Qed.

Section fibers.
Context `{SelectAll} {X : Type}.

Abbreviation item := (res DataFusionError X).

(** A fiber stream, as the results of its successive calls of [pull]; after the last one of the
    list, [pull] gives no more fibers. *)
Definition FiberStream : Type := list (res DataFusionError (list (list item))).

(** [FiberStream::combined]; [pull().await.unwrap()] panics on an error of [pull]. *)
Fixpoint combined (self : FiberStream) : list item :=
  match self with
  | [] => []
  | Err _ :: _ => [Panic "called `Result::unwrap()` on an `Err` value"]
  | Panic w :: _ => [Panic w]
  | Ok [] :: _ => []
  | Ok fibers :: self => select_all fibers ++ combined self
  end.

(** [SingleFiberStream] *)
Record SingleFiberStream := mkSingle { sf_stream : option (list item) }.

Definition single_new (s : list item) : SingleFiberStream := mkSingle (Some s).

Definition single_pull (self : SingleFiberStream)
    : SingleFiberStream * res DataFusionError (list (list item)) :=
  (mkSingle None, Ok match sf_stream self with Some s => [s] | None => [] end).

(** The results of [n] pulls. *)
Fixpoint single_pulls (n : nat) (self : SingleFiberStream) : FiberStream :=
  match n with
  | O => []
  | S n => let '(self, r) := single_pull self in r :: single_pulls n self
  end.

(** A single fiber stream, as the value an operator returns for an output. *)
Definition single (s : list item) : FiberStream := single_pulls 2 (single_new s).

Lemma single_pulls_none n : combined (single_pulls n (mkSingle None)) = [].
Proof. by destruct n. Qed.

(** The fibers of a stream, up to its first empty group. *)
Fixpoint all_fibers (self : FiberStream) : option (list (list item)) :=
  match self with
  | [] | Ok [] :: _ => Some []
  | Ok fs :: self => app fs <$> all_fibers self
  | _ => None
  end.

Context `{!SelectAllLaws}.

Lemma combined_single s n : combined (single_pulls (S n) (single_new s)) = s.
Proof.
  cbn. rewrite single_pulls_none, app_nil_r. apply merges_single, select_all_merges.
Qed.

(** A fiber stream none of whose pulls fails is read completely, each item once, with the items
    of every fiber in their order. *)
Lemma combined_complete self fs :
  all_fibers self = Some fs ->
  combined self ≡ₚ concat fs /\ Forall (fun f => sublist f (combined self)) fs.
Proof.
  revert fs. induction self as [|[gs|e|w] self IH]; intros fs; cbn; [by intros [= <-]| |done|done].
  destruct gs as [|g gs]; [by intros [= <-]|].
  intros (ks & Hk & ->)%fmap_Some. destruct (IH ks Hk) as [Hp Hs].
  pose proof (select_all_merges _ (g :: gs)) as Hm. split.
  - change (select_all (g :: gs) ++ combined self ≡ₚ concat ((g :: gs) ++ ks)). rewrite concat_app, Hp.
    by rewrite (merges_Permutation _ _ Hm).
  - apply Forall_app. split.
    + apply Forall_lookup. intros i f Hi. apply sublist_inserts_r. by eapply merges_sublist.
    + eapply Forall_impl; [exact Hs|]. intros f Hf. by apply sublist_inserts_l.
Qed.
End fibers.

#[global] Arguments FiberStream X : clear implicits.
