(* ===== verification/Source.v ===== *)
(** * The in-memory source operator (src/streaming/operators/source.rs)

    A source replays a list of batches and markers a number of times and renumbers the markers
    of every repetition; [load] moves it to the position of a checkpoint.  The file proves that
    a run produces the expected sequence with increasing markers, that a restart from a
    checkpoint of the first repetition continues the same sequence, and that a restart from a
    later one does not. *)

From S2P Require Import Prelude Stream.

Section source.
Context {B : Type} `{Profile}.

Record SourceOperator := mkSource {
  src_items : list (StreamItem B);
  src_num_iterations : N;
}.

(** [delay_between_iterations] only postpones the items. *)
Definition new_with_iterations (items : list (StreamItem B)) (n : N) : SourceOperator :=
  mkSource items n.
Definition new_with_markers (items : list (StreamItem B)) : SourceOperator := mkSource items 1.
Definition source_new (data : list B) : SourceOperator := new_with_markers (SIRecordBatch <$> data).

Record SourceOperatorFunction := mkSourceFn {
  items : list (StreamItem B);
  offset : nat;
  current_iteration : N;
  num_iterations : N;
}.

Definition create_operator_function (op : SourceOperator) : SourceOperatorFunction :=
  mkSourceFn (src_items op) 0 0 (src_num_iterations op).

Definition marker_of (i : StreamItem B) : option N :=
  match i with SIMarker m => Some (checkpoint_number m) | SIRecordBatch _ => None end.

Definition no_markers : DataFusionError := Internal "No markers found in source operator items".

Definition max_marker (l : list (StreamItem B)) : option N := max_opt (omap marker_of l).

(** The index of the first marker with the number. *)
Fixpoint find_marker (n : N) (l : list (StreamItem B)) : option nat :=
  match l with
  | [] => None
  | i :: l => if bool_decide (marker_of i = Some n) then Some 0%nat else S <$> find_marker n l
  end.

Definition load (self : SourceOperatorFunction) (checkpoint : N)
    : res DataFusionError SourceOperatorFunction :=
  if 0 <? checkpoint then
    max_marker ← ok_or no_markers (max_marker (items self));
    r ← urem (checkpoint - 1) max_marker;
    search_marker ← uadd 1 r;
    index ← ok_or (Execution ("No marker found for checkpoint " +:+ pretty checkpoint))
              (find_marker search_marker (items self));
    iteration ← udiv (checkpoint - 1) max_marker;
    Ok (mkSourceFn (items self) index iteration (num_iterations self))
  else Ok (mkSourceFn (items self) 0 0 (num_iterations self)).

(** The items of a repetition after the first one. *)
Definition renumber (max_marker iteration : N) (i : StreamItem B) : res DataFusionError (StreamItem B) :=
  match i with
  | SIMarker m =>
      a ← umul iteration max_marker;
      n ← uadd a (checkpoint_number m);
      Ok (SIMarker (mkMarker n))
  | SIRecordBatch b => Ok (SIRecordBatch b)
  end.

(** The repetitions [iteration, iteration + count) as stream items; a panic ends the stream. *)
Fixpoint iterations (l : list (StreamItem B)) (max_marker iteration : N) (count : nat)
    : list (res DataFusionError (SItem B)) :=
  match count with
  | O => []
  | S count =>
      match try_collect (renumber max_marker iteration) l with
      | Ok chunk =>
          (Ok ∘ sitem_of_stream_item <$> chunk) ++
          match uadd iteration 1 with
          | Ok next => iterations l max_marker next count
          | Err e => [Err e]
          | Panic w => [Panic w]
          end
      | Err e => [Err e]
      | Panic w => [Panic w]
      end
  end.

(** [run] with the number of its inputs; the result is the stream it returns. *)
Definition run (self : SourceOperatorFunction) (inputs : nat)
    : res DataFusionError (list (res DataFusionError (SItem B))) :=
  if (inputs =? 0)%nat then
    max_marker ← ok_or no_markers (max_marker (items self));
    first ← (if (offset self <=? length (items self))%nat then Ok (drop (offset self) (items self))
             else Panic "range start index out of range");
    next ← uadd (current_iteration self) 1;
    Ok ((Ok ∘ sitem_of_stream_item <$> first) ++
        iterations (items self) max_marker next (N.to_nat (num_iterations self - next)))
  else Panic "Source operator should not have any inputs".

(** *** What a source is expected to produce *)

(** Add [k] to the markers of an item. *)
Definition shift (k : N) (i : StreamItem B) : StreamItem B :=
  match i with SIMarker m => SIMarker (mkMarker (k + checkpoint_number m)) | _ => i end.

(** [n] repetitions, the markers of the [i]th one moved by [i * mx]. *)
Definition repetitions (l : list (StreamItem B)) (mx : N) (from n : nat) : list (StreamItem B) :=
  concat ((fun i => shift (N.of_nat i * mx) <$> l) <$> seq from n).

Definition emitted (l : list (StreamItem B)) : list (res DataFusionError (SItem B)) :=
  Ok ∘ sitem_of_stream_item <$> l.

(** The markers of the items are [1, 2, ..., mx]. *)
Definition numbered (l : list (StreamItem B)) (mx : nat) : Prop :=
  omap marker_of l = N.of_nat <$> seq 1 mx.

Lemma shift_0 i : shift 0 i = i.
Proof. by destruct i as [[n]|]. Qed.

Lemma fmap_shift_0 (l : list (StreamItem B)) : shift 0 <$> l = l.
Proof. induction l as [|x l IH]; cbn; [done|]. by rewrite shift_0, IH. Qed.

Lemma max_marker_numbered l mx :
  (0 < mx)%nat -> numbered l mx -> max_marker l = Some (N.of_nat mx).
Proof.
  unfold numbered, max_marker. intros Hmx ->.
  destruct (max_opt_is_Some (N.of_nat <$> seq 1 mx)) as [m Hm].
  { destruct mx; [lia|done]. }
  rewrite Hm. f_equal. apply max_opt_Some in Hm as [Hin Hall].
  apply list_elem_of_fmap in Hin as (k & -> & Hk%elem_of_seq).
  rewrite Forall_fmap, Forall_forall in Hall.
  specialize (Hall mx). cbn in Hall. rewrite elem_of_seq in Hall. lia.
Qed.

Lemma renumber_all l mx it :
  Forall (fun n => n <= mx) (omap marker_of l) -> fits (it * mx + mx) ->
  try_collect (renumber mx it) l = Ok (shift (it * mx) <$> l).
Proof.
  intros Hall Hfit. unfold fits in Hfit. apply try_collect_Ok.
  induction l as [|[[n]|b] l IH]; cbn in *.
  - constructor.
  - apply Forall_cons in Hall as [Hn Hall]. constructor; [|by apply IH].
    cbn in Hn |- *. by usimp.
  - constructor; [done|by apply IH].
Qed.

Lemma iterations_repetitions l mx it count :
  Forall (fun n => n <= mx) (omap marker_of l) ->
  fits ((N.of_nat (it + count)) * (mx + 1)) ->
  iterations l mx (N.of_nat it) count = emitted (repetitions l mx it count).
Proof.
  intros Hall. revert it. induction count as [|count IH]; intros it Hfit; [done|].
  unfold fits in Hfit. cbn [iterations]. rewrite renumber_all by (done || (unfold fits; nia)).
  rewrite uadd_fits by (unfold fits; nia).
  replace (N.of_nat it + 1) with (N.of_nat (S it)) by lia.
  rewrite IH by (unfold fits; replace (S it + count)%nat with (it + S count)%nat by lia; done).
  unfold emitted, repetitions. cbn [seq fmap list_fmap concat].
  by rewrite fmap_app.
Qed.

(** The markers of [n] repetitions are [1, 2, ..., n * mx]. *)
Lemma omap_shift k (l : list (StreamItem B)) :
  omap marker_of (shift k <$> l) = N.add k <$> omap marker_of l.
Proof. induction l as [|[[m]|b] l IH]; cbn; [done| |done]. by f_equal. Qed.

Lemma repetitions_markers l mx from n :
  numbered l mx ->
  omap marker_of (repetitions l (N.of_nat mx) from n) = N.of_nat <$> seq (1 + from * mx) (n * mx).
Proof.
  intros Hn. unfold repetitions. revert from.
  induction n as [|n IH]; intros from; [done|].
  cbn [seq fmap list_fmap concat]. rewrite omap_app, omap_shift, Hn.
  change (concat (list_fmap _ _ _ (seq (S from) n)))
    with (concat ((fun i => shift (N.of_nat i * N.of_nat mx) <$> l) <$> seq (S from) n)).
  rewrite IH. replace (S n * mx)%nat with (mx + n * mx)%nat by lia.
  rewrite seq_app, fmap_app. f_equal.
  - rewrite <- list_fmap_compose. replace (1 + from * mx)%nat with (from * mx + 1)%nat by lia.
    rewrite <- fmap_add_seq, <- list_fmap_compose. apply list_fmap_ext. intros i k _. cbn. lia.
  - do 2 f_equal. lia.
Qed.

Lemma numbered_le l mx :
  numbered l mx -> Forall (fun n => n <= N.of_nat mx) (omap marker_of l).
Proof.
  intros ->. apply Forall_fmap, Forall_forall. intros k Hk%elem_of_seq. cbn. lia.
Qed.

Lemma run_from l mx off it iters :
  (0 < mx)%nat -> numbered l mx -> (off <= length l)%nat -> (it < iters)%nat ->
  fits (N.of_nat iters * (N.of_nat mx + 1)) ->
  run (mkSourceFn l off (N.of_nat it) (N.of_nat iters)) 0 =
    Ok (emitted (drop off l ++ repetitions l (N.of_nat mx) (S it) (iters - S it))).
Proof.
  intros Hmx Hn Hoff Hit Hfit. unfold run. cbn [Nat.eqb items offset current_iteration num_iterations].
  rewrite (max_marker_numbered l mx) by done. cbn.
  rewrite (proj2 (Nat.leb_le _ _) Hoff). cbn.
  unfold fits in Hfit. rewrite uadd_fits by (unfold fits; nia). cbn.
  replace (N.of_nat it + 1) with (N.of_nat (S it)) by lia.
  replace (N.to_nat (N.of_nat iters - N.of_nat (S it))) with (iters - S it)%nat by lia.
  rewrite iterations_repetitions.
  - unfold emitted. by rewrite fmap_app.
  - by apply numbered_le.
  - unfold fits. by replace (S it + (iters - S it))%nat with iters by lia.
Qed.

Lemma run_repetitions l mx iters :
  (0 < mx)%nat -> numbered l mx -> (0 < iters)%nat ->
  fits (N.of_nat iters * (N.of_nat mx + 1)) ->
  run (create_operator_function (new_with_iterations l (N.of_nat iters))) 0 =
    Ok (emitted (repetitions l (N.of_nat mx) 0 iters)).
Proof.
  intros Hmx Hn Hit Hfit. destruct iters as [|iters]; [lia|].
  change (create_operator_function _) with (mkSourceFn l 0 (N.of_nat 0) (N.of_nat (S iters))).
  rewrite (run_from l mx) by (done || lia). do 2 f_equal.
  unfold repetitions. cbn [seq fmap list_fmap concat].
  replace (S iters - 1)%nat with iters by lia.
  change (N.of_nat 0 * N.of_nat mx) with 0. by rewrite fmap_shift_0.
Qed.

(** A source whose markers are [1..mx] produces, over [iters] repetitions, the items in
    order, repetition after repetition, and the markers it emits are exactly
    [1, 2, ..., iters * mx]. *)
Theorem source_run_sequence l mx iters :
  (0 < mx)%nat -> numbered l mx -> (0 < iters)%nat ->
  fits (N.of_nat iters * (N.of_nat mx + 1)) ->
  run (create_operator_function (new_with_iterations l (N.of_nat iters))) 0 =
    Ok (emitted (repetitions l (N.of_nat mx) 0 iters)) /\
  omap marker_of (repetitions l (N.of_nat mx) 0 iters) = N.of_nat <$> seq 1 (iters * mx).
Proof.
  intros Hmx Hn Hit Hfit. split; [by apply run_repetitions|by rewrite repetitions_markers].
Qed.

Lemma find_marker_spec n l i :
  find_marker n l = Some i ->
  exists l1 l2, l = l1 ++ SIMarker (mkMarker n) :: l2 /\ length l1 = i /\
    n ∉ omap marker_of l1.
Proof.
  revert i. induction l as [|x l IH]; intros i; cbn; [done|]. case_bool_decide as Hx.
  - intros [= <-]. exists [], l. destruct x as [[m]|]; cbn in Hx; [|done].
    injection Hx as ->. split; [done|]. split; [done|]. cbn. set_solver.
  - destruct (find_marker n l) as [j|] eqn:Hj; cbn; [|done]. intros [= <-].
    destruct (IH j eq_refl) as (l1 & l2 & -> & <- & Hnot). exists (x :: l1), l2.
    split; [done|]. split; [done|]. destruct x as [[m]|]; cbn in *; set_solver.
Qed.

Lemma find_marker_in n l : n ∈ omap marker_of l -> is_Some (find_marker n l).
Proof.
  induction l as [|x l IH]; cbn; [set_solver|]. case_bool_decide as Hx; [by eexists|].
  intros Hin. assert (n ∈ omap marker_of l) as Hl.
  { destruct (marker_of x) eqn:Hm; [|done]. set_solver. }
  destruct (IH Hl) as [i ->]. by eexists.
Qed.

(** Loading the checkpoint of the [r]th marker of the repetition [it]: the run goes on at that
    marker, and the rest of the repetition has the markers of the first one. *)
Lemma load_at l mx iters it r :
  (0 < mx)%nat -> numbered l mx -> (it < iters)%nat ->
  fits (N.of_nat iters * (N.of_nat mx + 1)) -> (1 <= r <= mx)%nat ->
  exists self' before after,
    load (create_operator_function (new_with_iterations l (N.of_nat iters))) (N.of_nat (it * mx + r)) = Ok self' /\
    l = before ++ SIMarker (mkMarker (N.of_nat r)) :: after /\
    N.of_nat r ∉ omap marker_of before /\
    run self' 0 = Ok (emitted (SIMarker (mkMarker (N.of_nat r)) :: after ++
      repetitions l (N.of_nat mx) (S it) (iters - S it))).
Proof.
  intros Hmx Hn Hit Hfit Hr.
  destruct (find_marker_in (N.of_nat r) l) as [i Hi].
  { rewrite Hn. apply list_elem_of_fmap. exists r. rewrite elem_of_seq. lia. }
  destruct (find_marker_spec _ _ _ Hi) as (l1 & l2 & Hl & Hlen & Hnot).
  exists (mkSourceFn l i (N.of_nat it) (N.of_nat iters)), l1, l2.
  split; [|split; [done|split; [done|]]].
  - unfold load. cbn [items create_operator_function src_items new_with_iterations].
    rewrite (proj2 (N.ltb_lt 0 (N.of_nat (it * mx + r))) ltac:(lia)), (max_marker_numbered l mx) by done. cbn.
    replace (N.of_nat (it * mx + r) - 1) with (N.of_nat (r - 1) + N.of_nat it * N.of_nat mx) by lia.
    rewrite urem_pos, N.Div0.mod_add, N.mod_small by lia. cbn. unfold fits, u64_modulus in Hfit.
    rewrite uadd_fits by (unfold fits, u64_modulus; nia). cbn.
    replace (1 + N.of_nat (r - 1)) with (N.of_nat r) by lia. rewrite Hi. cbn.
    by rewrite udiv_pos, N.div_add, N.div_small by lia.
  - rewrite (run_from l mx); [|done|done| |done|done].
    + rewrite Hl at 1. rewrite drop_app_ge by lia. by rewrite Hlen, Nat.sub_diag.
    + rewrite Hl, length_app. cbn. lia.
Qed.

(** Loading a checkpoint of the first repetition. *)
Lemma load_resumes l mx iters c :
  (0 < mx)%nat -> numbered l mx -> (0 < iters)%nat ->
  fits (N.of_nat iters * (N.of_nat mx + 1)) -> (1 <= c <= mx)%nat ->
  exists self' before after,
    load (create_operator_function (new_with_iterations l (N.of_nat iters))) (N.of_nat c) = Ok self' /\
    repetitions l (N.of_nat mx) 0 iters = before ++ SIMarker (mkMarker (N.of_nat c)) :: after /\
    N.of_nat c ∉ omap marker_of before /\
    run self' 0 = Ok (emitted (SIMarker (mkMarker (N.of_nat c)) :: after)).
Proof.
  intros Hmx Hn Hit Hfit Hc. destruct (load_at l mx iters 0 c) as (self' & l1 & l2 & Hload & Hl & Hnot & Hrun); [done..|].
  exists self', l1, (l2 ++ repetitions l (N.of_nat mx) 1 (iters - 1)). split; [done|]. split; [|done].
  destruct iters as [|iters]; [lia|]. unfold repetitions. cbn [seq fmap list_fmap concat].
  change (N.of_nat 0 * N.of_nat mx) with 0. rewrite fmap_shift_0, Hl at 1.
  rewrite <- (assoc_L (++)). by replace (S iters - 1)%nat with iters by lia.
Qed.

(** Recovery from a checkpoint of the first repetition.  After [load c] with
    [1 <= c <= mx], the run is exactly the part of the uninterrupted run that starts at the
    marker [c]: nothing after the checkpoint is lost or repeated. *)
Theorem source_load_resumes l mx iters c :
  (0 < mx)%nat -> numbered l mx -> (0 < iters)%nat ->
  fits (N.of_nat iters * (N.of_nat mx + 1)) -> (1 <= c <= mx)%nat ->
  exists self' before after,
    load (create_operator_function (new_with_iterations l (N.of_nat iters))) (N.of_nat c) = Ok self' /\
    repetitions l (N.of_nat mx) 0 iters = before ++ SIMarker (mkMarker (N.of_nat c)) :: after /\
    N.of_nat c ∉ omap marker_of before /\
    run self' 0 = Ok (emitted (SIMarker (mkMarker (N.of_nat c)) :: after)).
Proof. apply load_resumes. Qed.

(** A source built from plain batches cannot run: without a marker among its items, [run]
    fails, whatever the batches are, and so does [load] of any checkpoint. *)
Theorem source_without_markers_fails (data : list B) c :
  run (create_operator_function (source_new data)) 0 = Err no_markers /\
  (0 < c -> load (create_operator_function (source_new data)) c = Err no_markers).
Proof.
  assert (max_marker (SIRecordBatch <$> data) = None) as Hm.
  { unfold max_marker. induction data; cbn; done. }
  split.
  - unfold run. cbn [Nat.eqb items create_operator_function source_new new_with_markers src_items].
    by rewrite Hm.
  - intros Hc%N.ltb_lt. unfold load.
    cbn [items create_operator_function source_new new_with_markers src_items].
    by rewrite Hc, Hm.
Qed.
End source.

Lemma source_run_sequence_witness :
  run (H := true) (create_operator_function (new_with_iterations
    [SIRecordBatch 7; SIMarker (mkMarker 1)] 2)) 0 =
  Ok [Ok (SRecordBatch 7); Ok (SMarker (mkMarker 1)); Ok (SRecordBatch 7); Ok (SMarker (mkMarker 2))].
Proof.
  apply (@source_run_sequence N true [SIRecordBatch 7; SIMarker (mkMarker 1)] 1 2).
  - lia.
  - reflexivity.
  - lia.
  - reflexivity.
Defined.

Lemma source_load_resumes_witness :
  exists self' before after,
    load (H := true) (create_operator_function (new_with_iterations
      [SIRecordBatch 7; SIMarker (mkMarker 1); SIRecordBatch 8; SIMarker (mkMarker 2)] 2)) 2 = Ok self' /\
    repetitions [SIRecordBatch 7; SIMarker (mkMarker 1); SIRecordBatch 8; SIMarker (mkMarker 2)] 2 0 2
      = before ++ SIMarker (mkMarker 2) :: after /\
    run (H := true) self' 0 = Ok (emitted (SIMarker (mkMarker 2) :: after)).
Proof.
  destruct (@source_load_resumes N true
    [SIRecordBatch 7; SIMarker (mkMarker 1); SIRecordBatch 8; SIMarker (mkMarker 2)] 2 2 2)
    as (self' & before & after & Hl & Hr & _ & Hrun).
  - lia.
  - reflexivity.
  - lia.
  - reflexivity.
  - lia.
  - exists self', before, after. done.
Defined.

Lemma source_without_markers_fails_witness :
  load (H := true) (create_operator_function (source_new [7])) 1 = Err no_markers.
Proof. apply (proj2 (@source_without_markers_fails N true [7] 1)). lia. Defined.

(** Recovery from a checkpoint of a later repetition repeats old markers (the general fact is
    [load_at]).  Two repetitions
    of one batch and one marker emit the markers 1 and 2; after [load 2] the run starts with
    marker 1 again, because the items of the repetition it starts in are not renumbered. *)
Theorem source_load_later_repeats (P : Profile) (b : N) :
  let op := new_with_iterations [SIRecordBatch b; SIMarker (mkMarker 1)] 2 in
  run (create_operator_function op) 0 =
    Ok [Ok (SRecordBatch b); Ok (SMarker (mkMarker 1)); Ok (SRecordBatch b); Ok (SMarker (mkMarker 2))] /\
  exists self', load (create_operator_function op) 2 = Ok self' /\
    run self' 0 = Ok [Ok (SMarker (mkMarker 1))].
Proof. destruct P; split; [reflexivity|eexists; split; reflexivity|reflexivity|eexists; split; reflexivity]. Qed.
