(* ===== verification/Count.v ===== *)
(** * What the counting operators share

    The big-endian encoding of counts in the state backend, and the way a stateful operator is
    run over its input (src/streaming/operators/count_star.rs, count_by_key.rs). *)

From S2P Require Import Prelude Arrow Partitioning Stream Generation FileSystem CheckpointStorage StateBackend FiberStream.

(** ** [u64::to_be_bytes] and [u64::from_be_bytes] *)

Definition to_be_bytes (n : N) : Bytes := (fun i => n / 256 ^ N.of_nat (7 - i) mod 256) <$> seq 0 8.

Definition from_be_bytes (b : Bytes) : option N :=
  if (length b =? 8)%nat then Some (foldl (fun acc x => acc * 256 + x) 0 b) else None.

Lemma be_bytes_roundtrip n : fits n -> from_be_bytes (to_be_bytes n) = Some n.
Proof.
  intros Hn. unfold from_be_bytes, to_be_bytes. cbn [seq fmap list_fmap length Nat.eqb foldl].
  f_equal. unfold fits, u64_modulus in Hn.
  change (256 ^ N.of_nat (7 - 0)) with (256 * 256 * 256 * 256 * 256 * 256 * 256).
  change (256 ^ N.of_nat (7 - 1)) with (256 * 256 * 256 * 256 * 256 * 256).
  change (256 ^ N.of_nat (7 - 2)) with (256 * 256 * 256 * 256 * 256).
  change (256 ^ N.of_nat (7 - 3)) with (256 * 256 * 256 * 256).
  change (256 ^ N.of_nat (7 - 4)) with (256 * 256 * 256).
  change (256 ^ N.of_nat (7 - 5)) with (256 * 256).
  change (256 ^ N.of_nat (7 - 6)) with 256.
  change (256 ^ N.of_nat (7 - 7)) with 1.
  rewrite <- !N.Div0.div_div, N.div_1_r.
  assert (forall k, k = k / 256 * 256 + k mod 256) as Hstep.
  { intros k. rewrite N.mul_comm. apply N.div_mod. lia. }
  assert (n / 256 / 256 / 256 / 256 / 256 / 256 / 256 < 256) as Htop.
  { rewrite !N.Div0.div_div. apply N.Div0.div_lt_upper_bound. lia. }
  rewrite N.mul_0_l, N.add_0_l, (N.mod_small _ _ Htop), <- !Hstep. done.
Qed.

Lemma to_be_bytes_inj n m : fits n -> fits m -> to_be_bytes n = to_be_bytes m -> n = m.
Proof.
  intros Hn Hm Heq. apply (f_equal from_be_bytes) in Heq.
  rewrite !be_bytes_roundtrip in Heq by done. congruence.
Qed.

(** ** Running an operator over its input *)

Section stateful.
Context {F B : Type}.

(** [try_filter_map]: an error of the input or of the closure is an item of the output, and the
    stream goes on; a panic ends it.  [None] is the end-of-stream item that the operators chain
    to their input. *)
Fixpoint feed (f : option (SItem B) -> act F DataFusionError (option (SItem B)))
    (input : list (res DataFusionError (option (SItem B)))) (self : F)
    : F * list (res DataFusionError (SItem B)) :=
  match input with
  | [] => (self, [])
  | Err e :: input => let '(self, outs) := feed f input self in (self, Err e :: outs)
  | Panic w :: _ => (self, [Panic w])
  | Ok item :: input =>
      match f item self with
      | (self, Ok None) => feed f input self
      | (self, Ok (Some out)) => let '(self, outs) := feed f input self in (self, Ok out :: outs)
      | (self, Err e) => let '(self, outs) := feed f input self in (self, Err e :: outs)
      | (self, Panic w) => (self, [Panic w])
      end
  end.

(** [stream.map_ok(Some).chain([Ok(None)])] *)
Definition with_end (input : list (res DataFusionError (SItem B)))
    : list (res DataFusionError (option (SItem B))) := ((fun r : res DataFusionError (SItem B) => Some <$> r) <$> input) ++ [Ok None].

Definition no_panic {A} (r : res DataFusionError A) : Prop := forall w, r <> Panic w.

Lemma feed_app f l k self self1 outs1 :
  feed f l self = (self1, outs1) -> Forall no_panic outs1 ->
  feed f (l ++ k) self = let '(self2, outs2) := feed f k self1 in (self2, outs1 ++ outs2).
Proof.
  revert self outs1. induction l as [|[item|e|w] l IH]; intros self outs1; cbn.
  - intros [= <- <-] _. by destruct (feed f k self).
  - destruct (f item self) as [self' [[out|]|e|w]].
    + destruct (feed f l self') as [s o] eqn:Hl. intros [= <- <-] [_ Hok]%Forall_cons.
      rewrite (IH self' o Hl Hok). by destruct (feed f k s).
    + intros Hl Hok. by apply IH.
    + destruct (feed f l self') as [s o] eqn:Hl. intros [= <- <-] [_ Hok]%Forall_cons.
      rewrite (IH self' o Hl Hok). by destruct (feed f k s).
    + intros [= <- <-] [Hw _]%Forall_cons. by destruct (Hw w).
  - destruct (feed f l self) as [s o] eqn:Hl. intros [= <- <-] [_ Hok]%Forall_cons.
    rewrite (IH self o Hl Hok). by destruct (feed f k s).
  - intros [= <- <-] [Hw _]%Forall_cons. by destruct (Hw w).
Qed.
End stateful.

(** Batches, as the closure of an operator sees them. *)
Definition batches {B} (bs : list B) : list (res DataFusionError (option (SItem B))) :=
  (fun b => Ok (Some (SRecordBatch b))) <$> bs.

(** The input stream that has these batches and ends. *)
Lemma with_end_batches {B} `{SelectAllLaws} (bs : list B) :
  with_end (combined (single ((fun b => Ok (SRecordBatch b)) <$> bs))) = batches bs ++ [Ok None].
Proof. unfold single, with_end. by rewrite combined_single, <- list_fmap_compose. Qed.

(** The first generation of the scheduling details, as [init] of both operators reads it. *)
Definition initial_generation (generations : option (list GenerationSpec))
    : res DataFusionError GenerationSpec :=
  gens ← ok_or (Execution "No generation provided") generations;
  ok_or (Execution "No initial generation provided") (head gens).
