(* ===== verification/CountStar.v ===== *)
(** * COUNT star (src/streaming/operators/count_star.rs)

    The operator keeps the number of rows it has read, writes it to its state backend at every
    checkpoint marker, passes the marker on, and emits the count at the end of the stream.  It is
    modelled over the interface [KeyedState]; the theorem shows that a restart from a checkpoint
    continues with the count of that checkpoint. *)

From S2P Require Import Prelude Arrow Partitioning Stream Generation FileSystem CheckpointStorage StateBackend KeyedState FiberStream Count.

Section count_star.
Context {S B : Type} `{KeyedState S} `{Profile} `{SelectAll}.

(** [num_rows] of a batch, and [record_batch!] of one count *)
Context (num_rows : B -> N) (count_batch : N -> res DataFusionError B).

Record CountStarFunction := mkCount {
  state : option S;
  local_count : N;
  current_partition_range : option PartitionRange;
}.

Definition new : CountStarFunction := mkCount None 0 None.

(** [open_new] is [RocksDBStateBackend::open_new] on the file systems of the runtime. *)
Definition init (open_new : string -> PartitionRange -> res DataFusionError S)
    (self : CountStarFunction) (generations : option (list GenerationSpec)) (state_id : string)
    : res DataFusionError CountStarFunction :=
  generation ← initial_generation generations;
  st ← open_new (state_id +:+ "-count-star") (gen_partitions generation);
  Ok (mkCount (Some st) (local_count self) (Some (gen_partitions generation))).

Definition count_key : Bytes := [99; 111; 117; 110; 116].

Definition not_initialized : DataFusionError := Internal "State backend not initialized".
Definition range_not_set : DataFusionError := Internal "Current partition range not set".

(** The value of a state entry as a count. *)
Definition parse_count (v : option Bytes) : res DataFusionError N :=
  match v with
  | None => Ok 0
  | Some bytes => ok_or (Internal "State value for 'count' is not a valid u64") (from_be_bytes bytes)
  end.

Definition load (self : CountStarFunction) (checkpoint : N)
    : CountStarFunction * res DataFusionError () :=
  if 0 <? checkpoint then
    match state self, current_partition_range self with
    | None, _ => (self, Err not_initialized)
    | Some _, None => (self, Err range_not_set)
    | Some st, Some range =>
        let upd st n := mkCount (Some st) n (current_partition_range self) in
        match ks_move_to_checkpoint checkpoint range st with
        | (st, Ok _) =>
            match ks_get count_key st with
            | (st, Ok v) =>
                match parse_count v with
                | Ok n => (upd st n, Ok tt)
                | Err e => (upd st (local_count self), Err e)
                | Panic w => (upd st (local_count self), Panic w)
                end
            | (st, Err e) => (upd st (local_count self), Err e)
            | (st, Panic w) => (upd st (local_count self), Panic w)
            end
        | (st, Err e) => (upd st (local_count self), Err e)
        | (st, Panic w) => (upd st (local_count self), Panic w)
        end
    end
  else (self, Ok tt).

Inductive CountStreamAction :=
  | ARecordBatch
  | AMarker (marker : Marker) (count : N) (range : PartitionRange)
  | AEndOfStream (count : N).

(** The synchronous part of the closure. *)
Definition action (item : option (SItem B)) : act CountStarFunction DataFusionError CountStreamAction :=
  fun self =>
    match item with
    | Some (SGeneration _) =>
        (self, Err (Internal "CountStarOperator does not support generation items"))
    | Some (SRecordBatch b) =>
        match uadd (local_count self) (num_rows b) with
        | Ok n => (mkCount (state self) n (current_partition_range self), Ok ARecordBatch)
        | Err e => (self, Err e)
        | Panic w => (self, Panic w)
        end
    | Some (SMarker marker) =>
        (self, range ← ok_or range_not_set (current_partition_range self);
               Ok (AMarker marker (local_count self) range))
    | None => (self, Ok (AEndOfStream (local_count self)))
    end.

(** The asynchronous part, which uses the state backend. *)
Definition perform (a : CountStreamAction) : act CountStarFunction DataFusionError (option (SItem B)) :=
  fun self =>
    match a with
    | ARecordBatch => (self, Ok None)
    | AMarker marker count range =>
        match state self with
        | None => (self, Err not_initialized)
        | Some st =>
            let '(st, r) := (ks_put count_key (to_be_bytes count) ;;
              ks_checkpoint (checkpoint_number marker) range) st in
            (mkCount (Some st) (local_count self) (current_partition_range self),
             _ ← r; Ok (Some (SMarker marker)))
        end
    | AEndOfStream count => (self, b ← count_batch count; Ok (Some (SRecordBatch b)))
    end.

Definition process (item : option (SItem B)) : act CountStarFunction DataFusionError (option (SItem B)) :=
  a ← action item; perform a.

(** [run]: the last input is consumed, whatever its ordinal; the output has ordinal 0. *)
Definition run (self : CountStarFunction) (inputs : list (N * FiberStream (SItem B)))
    : res DataFusionError (CountStarFunction * list (N * FiberStream (SItem B))) :=
  '(_, fiber_stream) ← ok_or (Internal "CountStarOperator expects exactly one input stream") (last inputs);
  _ ← ok_or not_initialized (state self);
  let '(self, outs) := feed process (with_end (combined fiber_stream)) self in
  Ok (self, [(0, single outs)]).

(** ** The operator counts, and recovers *)

Context `{KeyedStateView S, !KeyedStateLaws S, !SelectAllLaws}.

(** An operator between two items: its state backend is usable and its range is known. *)
Definition ready (self : CountStarFunction) (st : S) (range : PartitionRange) : Prop :=
  state self = Some st /\ current_partition_range self = Some range /\ ks_inv st.

Definition total_rows (bs : list B) : N := sumN (num_rows <$> bs).

Lemma feed_batches bs self :
  fits (local_count self + total_rows bs) ->
  feed process (batches bs) self =
    (mkCount (state self) (local_count self + total_rows bs) (current_partition_range self), []).
Proof.
  revert self. induction bs as [|b bs IH]; intros self Hfit; cbn.
  - unfold total_rows. cbn. rewrite N.add_0_r. by destruct self.
  - unfold total_rows in *. cbn in Hfit |- *. fold (sumN (num_rows <$> bs)) in *.
    unfold fits in *. unfold process at 1, mbind, act_bind, action.
    rewrite uadd_fits by (unfold fits; lia). cbn.
    change (list_fmap B (res DataFusionError (option (SItem B))) (fun b => Ok (Some (SRecordBatch b))) bs)
      with (batches bs).
    rewrite IH by (cbn; unfold fits, total_rows; lia). cbn. unfold total_rows. do 2 f_equal. lia.
Qed.

(** A marker is passed on, and the count is saved under it; checkpoints that have the number
    already must hold the same count. *)
Lemma process_marker self st range c :
  ready self st range ->
  (forall m, ks_saved st c m -> m = <[count_key := to_be_bytes (local_count self)]> (ks_entries st)) ->
  fits (local_count self) ->
  exists st' m, process (Some (SMarker (mkMarker c))) self =
    (mkCount (Some st') (local_count self) (Some range), Ok (Some (SMarker (mkMarker c)))) /\
    ks_inv st' /\ ks_saved st' c m /\ m !! count_key = Some (to_be_bytes (local_count self)) /\
    keeps_saved st st' /\ (forall c' m', c' <> c -> ks_saved st' c' m' -> ks_saved st c' m').
Proof.
  intros (Hst & Hr & Hinv) Hno Hfit.
  destruct (ks_put_spec st count_key (to_be_bytes (local_count self)) Hinv)
    as (st1 & Hp & Hi1 & He1 & Hk1 & Hk1').
  destruct (ks_checkpoint_spec st1 c range Hi1) as (st2 & Hc & Hi2 & _ & Hs2 & Hk2 & Hk2').
  { intros m Hm. rewrite He1. by apply Hno, Hk1'. }
  exists st2, (ks_entries st1). split; [|split; [done|split; [done|split]]].
  - unfold process, mbind at 1, act_bind at 1, action. rewrite Hr. cbn. unfold perform. rewrite Hst.
    cbn. erewrite act_bind_Ok by exact Hp. by rewrite Hc, Hr.
  - rewrite He1. apply lookup_insert_eq.
  - split.
    + intros c' m' Hm. by apply Hk2, Hk1.
    + intros c' m' Hne Hm. by apply Hk1', (Hk2' c').
Qed.

Lemma load_saved self st range c m n :
  ready self st range -> 0 < c -> ks_saved st c m -> m !! count_key = Some (to_be_bytes n) -> fits n ->
  exists st', load self c = (mkCount (Some st') n (Some range), Ok tt) /\ ks_inv st' /\
    keeps_saved st st'.
Proof.
  intros (Hst & Hr & Hinv) Hc Hs Hm Hn. apply N.ltb_lt in Hc.
  destruct (ks_move_spec st c range m Hinv Hs) as (st1 & Hmv & Hi1 & He1 & Hk1 & _).
  destruct (ks_get_spec st1 count_key Hi1) as (st2 & Hg & Hi2 & _ & Hk2 & _).
  exists st2. split; [|split; [done|]].
  - unfold load. rewrite Hc, Hst, Hr, Hmv, Hg, He1, Hm. cbn [parse_count].
    by rewrite be_bytes_roundtrip.
  - intros c' m' Hm'. by apply Hk2, Hk1.
Qed.

(** Batches up to the end of the stream: the total is the output. *)
Lemma run_batches self bs :
  state self <> None -> fits (local_count self + total_rows bs) ->
  run self [(0, single ((fun b => Ok (SRecordBatch b)) <$> bs))] =
    Ok (mkCount (state self) (local_count self + total_rows bs) (current_partition_range self),
      [(0, single [SRecordBatch <$> count_batch (local_count self + total_rows bs)])]).
Proof.
  intros Hst Hfit. destruct self as [[st|] n range]; [|done]. unfold run. cbn [last ok_or mbind res_bind state].
  rewrite with_end_batches. erewrite feed_app; [|by apply feed_batches|constructor].
  cbn. unfold process, mbind, act_bind, action, perform. cbn. by destruct (count_batch (n + total_rows bs)).
Qed.

(** C29: counting is exactly-once across a failure.  A counting operator reads [before], then
    the marker of checkpoint [c] (passing it on), then any [lost] batches, and fails.  After
    [load c], reading [after] ends the stream with the count of [before] and [after] only:
    each batch before the checkpoint is counted once, and what was read after it and replayed
    is not counted twice. *)
Theorem count_star_exactly_once self st range c before lost after :
  ready self st range -> 0 < c -> (forall m, ~ ks_saved st c m) ->
  fits (local_count self + total_rows before + total_rows lost) ->
  fits (local_count self + total_rows before + total_rows after) ->
  exists self1 self2 self3 self4,
    feed process (batches before ++ [Ok (Some (SMarker (mkMarker c)))]) self =
      (self1, [Ok (SMarker (mkMarker c))]) /\
    feed process (batches lost) self1 = (self2, []) /\
    load self2 c = (self3, Ok tt) /\
    run self3 [(0, single ((fun b => Ok (SRecordBatch b)) <$> after))] =
      Ok (self4, [(0, single [SRecordBatch <$>
        count_batch (local_count self + total_rows before + total_rows after)])]).
Proof.
  intros (Hst & Hr & Hinv) Hc Hno Hlost Hafter. unfold fits in *.
  set (n := local_count self + total_rows before) in *.
  set (self0 := mkCount (state self) n (current_partition_range self)).
  destruct (process_marker self0 st range c) as (st1 & m & Hp & Hi1 & Hs1 & Hm & _);
    [done|by intros m [] %Hno|unfold fits; cbn; lia|].
  set (self1 := mkCount (Some st1) n (Some range)) in *.
  set (self2 := mkCount (Some st1) (n + total_rows lost) (Some range)).
  destruct (load_saved self2 st1 range c m n) as (st3 & Hl & Hi3 & _); [done|done|done|done|unfold fits; lia|].
  exists self1, self2, (mkCount (Some st3) n (Some range)),
    (mkCount (Some st3) (n + total_rows after) (Some range)).
  split; [|split; [|split; [done|]]].
  - erewrite feed_app; [|by apply feed_batches; unfold fits; lia|constructor].
    cbn [feed]. fold n. fold self0. by rewrite Hp.
  - by rewrite feed_batches by (unfold fits; cbn; lia).
  - apply run_batches; [done|]. unfold fits. cbn. lia.
Qed.
End count_star.

(** Three rows, a checkpoint, two rows that are lost, a restart and one more row: four. *)
Lemma count_star_exactly_once_witness :
  let self := mkCount (Some (RocksDBState.example_state ∅)) 0 (Some (mkRange 0 1 1)) in
  let num_rows b := N.of_nat (length b) in
  let count_batch n := Ok [n] in
  let process := @process _ (list N) RocksDBState.example_keyed true num_rows count_batch in
  exists self1 self2 self3 self4,
    feed process (batches [[1; 2]; [3]] ++ [Ok (Some (SMarker (mkMarker 1)))]) self =
      (self1, [Ok (SMarker (mkMarker 1))]) /\
    feed process (batches [[4; 5]]) self1 = (self2, []) /\
    @load _ RocksDBState.example_keyed self2 1 = (self3, Ok tt) /\
    @run _ _ RocksDBState.example_keyed true in_order num_rows count_batch self3
      [(0, single ((fun b => Ok (SRecordBatch b)) <$> [[6]]))] =
      Ok (self4, [(0, single [SRecordBatch <$> count_batch 4])]).
Proof.
  destruct (RocksDBState.example_state_inv ∅) as (Hinv & Hno & _).
  apply (@count_star_exactly_once _ _ RocksDBState.example_keyed true in_order
    (fun b => N.of_nat (length b)) (fun n => Ok [n]) RocksDBState.example_view
    RocksDBState.example_laws in_order_laws
    (mkCount (Some (RocksDBState.example_state ∅)) 0 (Some (mkRange 0 1 1)))
    (RocksDBState.example_state ∅) (mkRange 0 1 1) 1
    [[1; 2]; [3]] [[4; 5]] [[6]]).
  - done.
  - done.
  - exact (Hno 1).
  - reflexivity.
  - reflexivity.
Defined.
