(* ===== verification/CountByKey.v ===== *)
(** * COUNT by key (src/streaming/operators/count_by_key.rs)

    As COUNT star, with one count per value of a key column of type u64.  At a marker every count
    is written under the bytes of its key; [load] reads all entries back. *)

From S2P Require Import Prelude Arrow Partitioning Stream Generation FileSystem CheckpointStorage StateBackend KeyedState FiberStream Count.

(** What a key expression evaluates to: an array of any type, with its buffer of values and the
    validity of each slot, or a scalar.  The buffer has a value in null slots too. *)
Inductive ColumnarValue :=
  | ArrayUInt64 (values : list N) (valid : list bool)
  | ScalarUInt64 (value : option N)
  | OtherType.

Definition is_uint64 (v : ColumnarValue) : bool :=
  match v with OtherType => false | _ => true end.

Section count_by_key.
Context {S B : Type} `{KeyedState S} `{Profile} `{SelectAll}.

(** [col(key, schema)?.evaluate(batch)], and [record_batch!] of the keys and their counts *)
Context (evaluate : string -> B -> res DataFusionError ColumnarValue).
Context (counts_batch : list N -> list N -> res DataFusionError B).

(** The order in which a [HashMap] is iterated. *)
Context (iter : gmap N N -> list (N * N)).

Record CountByKeyFunction := mkCount {
  key_col : string;
  state : option S;
  local_counts : gmap N N;
  current_partition_range : option PartitionRange;
}.

Definition new (key_col : string) : CountByKeyFunction := mkCount key_col None ∅ None.

Definition with_counts (self : CountByKeyFunction) (counts : gmap N N) : CountByKeyFunction :=
  mkCount (key_col self) (state self) counts (current_partition_range self).

Definition with_state (self : CountByKeyFunction) (st : S) : CountByKeyFunction :=
  mkCount (key_col self) (Some st) (local_counts self) (current_partition_range self).

Inductive CountStreamAction :=
  | ARecordBatch
  | AMarker (marker : Marker) (counts : gmap N N) (range : PartitionRange)
  | AEndOfStream (counts : gmap N N).

(** [entry(key).or_insert(0)] and [*count += 1]: the entry exists before the addition. *)
Definition count_value (value : N) : act (gmap N N) DataFusionError () := fun counts =>
  let count := default 0 (counts !! value) in
  match uadd count 1 with
  | Ok n => (<[value := n]> counts, Ok tt)
  | Err e => (<[value := count]> counts, Err e)
  | Panic w => (<[value := count]> counts, Panic w)
  end.

(** [and_modify(|count| *count += 1).or_insert(1)] *)
Definition count_scalar (value : N) : act (gmap N N) DataFusionError () := fun counts =>
  match counts !! value with
  | Some count =>
      match uadd count 1 with
      | Ok n => (<[value := n]> counts, Ok tt)
      | Err e => (counts, Err e)
      | Panic w => (counts, Panic w)
      end
  | None => (<[value := 1]> counts, Ok tt)
  end.

Definition update_local_counts (batch : B)
    : act CountByKeyFunction DataFusionError CountStreamAction := fun self =>
  match evaluate (key_col self) batch with
  | Err e => (self, Err e)
  | Panic w => (self, Panic w)
  | Ok result =>
      if is_uint64 result then
        match result with
        | ArrayUInt64 values _ =>
            let '(counts, r) := for_each count_value values (local_counts self) in
            (with_counts self counts, _ ← r; Ok ARecordBatch)
        | ScalarUInt64 (Some value) =>
            let '(counts, r) := count_scalar value (local_counts self) in
            (with_counts self counts, _ ← r; Ok ARecordBatch)
        | _ => (self, Err (Internal "Unsupported columnar value"))
        end
      else (self, Err (Internal "Key column must be of type UInt64"))
  end.

Definition init (open_new : string -> PartitionRange -> res DataFusionError S)
    (self : CountByKeyFunction) (generations : option (list GenerationSpec)) (state_id : string)
    : res DataFusionError CountByKeyFunction :=
  generation ← initial_generation generations;
  st ← open_new (state_id +:+ "-count-star") (gen_partitions generation);
  Ok (mkCount (key_col self) (Some st) (local_counts self) (Some (gen_partitions generation))).

Definition not_initialized : DataFusionError := Internal "State backend not initialized".
Definition range_not_set : DataFusionError := Internal "Current partition range not set".

(** One entry of the state, as a key and its count. *)
Definition parse_entry (entry : res DataFusionError (Bytes * Bytes)) : res DataFusionError (N * N) :=
  '(key, value) ← entry;
  key ← ok_or (Internal "State key is not a valid u64") (from_be_bytes key);
  value ← ok_or (Internal "State value is not a valid u64") (from_be_bytes value);
  Ok (key, value).

(** The loop of [load]: the entries before a bad one stay loaded. *)
Definition load_entry (entry : res DataFusionError (Bytes * Bytes)) : act (gmap N N) DataFusionError () :=
  fun counts =>
    match parse_entry entry with
    | Ok (key, value) => (<[key := value]> counts, Ok tt)
    | Err e => (counts, Err e)
    | Panic w => (counts, Panic w)
    end.

Definition load (self : CountByKeyFunction) (checkpoint : N)
    : CountByKeyFunction * res DataFusionError () :=
  if 0 <? checkpoint then
    match state self, current_partition_range self with
    | None, _ => (self, Err not_initialized)
    | Some _, None => (self, Err range_not_set)
    | Some st, Some range =>
        match ks_move_to_checkpoint checkpoint range st with
        | (st, Ok _) =>
            let '(counts, r) := for_each load_entry (ks_iterate st) ∅ in
            (with_counts (with_state self st) counts, r)
        | (st, r) => (with_state self st, r)
        end
    end
  else (self, Ok tt).

(** The synchronous part of the closure. *)
Definition action (item : option (SItem B)) : act CountByKeyFunction DataFusionError CountStreamAction :=
  match item with
  | Some (SGeneration _) =>
      lift (Err (Internal "CountStarOperator does not support generation items"))
  | Some (SRecordBatch b) => update_local_counts b
  | Some (SMarker marker) => fun self =>
      (self, range ← ok_or range_not_set (current_partition_range self);
             Ok (AMarker marker (local_counts self) range))
  | None => fun self => (self, Ok (AEndOfStream (local_counts self)))
  end.

(** The asynchronous part, which uses the state backend. *)
Definition perform (a : CountStreamAction) : act CountByKeyFunction DataFusionError (option (SItem B)) :=
  fun self =>
    match a with
    | ARecordBatch => (self, Ok None)
    | AMarker marker counts range =>
        match state self with
        | None => (self, Err not_initialized)
        | Some st =>
            let '(st, r) := (for_each (fun '(key, count) =>
                ks_put (to_be_bytes key) (to_be_bytes count)) (iter counts) ;;
              ks_checkpoint (checkpoint_number marker) range) st in
            (with_state self st, _ ← r; Ok (Some (SMarker marker)))
        end
    | AEndOfStream counts =>
        (self, b ← counts_batch (iter counts).*1 (iter counts).*2; Ok (Some (SRecordBatch b)))
    end.

Definition process (item : option (SItem B)) : act CountByKeyFunction DataFusionError (option (SItem B)) :=
  a ← action item; perform a.

Definition run (self : CountByKeyFunction) (inputs : list (N * FiberStream (SItem B)))
    : res DataFusionError (CountByKeyFunction * list (N * FiberStream (SItem B))) :=
  '(_, fiber_stream) ← ok_or (Internal "CountStarOperator expects exactly one input stream") (last inputs);
  _ ← ok_or not_initialized (state self);
  let '(self, outs) := feed process (with_end (combined fiber_stream)) self in
  Ok (self, [(0, single outs)]).

(** ** The operator counts every key, and recovers *)

(** The number of times [k] occurs in [l]. *)
Definition occurrences (k : N) (l : list N) : N := N.of_nat (length (filter (fun x => x = k) l)).

Definition tally (counts : gmap N N) (l : list N) : gmap N N :=
  foldl (fun m v => <[v := default 0 (m !! v) + 1]> m) counts l.

Lemma occurrences_app k l l' : occurrences k (l ++ l') = occurrences k l + occurrences k l'.
Proof. unfold occurrences. rewrite filter_app, length_app. lia. Qed.

Lemma occurrences_one v : occurrences v [v] = 1.
Proof. unfold occurrences. by rewrite filter_cons_True. Qed.

Lemma tally_lookup m l k : default 0 (tally m l !! k) = default 0 (m !! k) + occurrences k l.
Proof.
  revert m. induction l as [|v l IH]; intros m; cbn; [unfold occurrences; cbn; lia|].
  fold (tally (<[v := default 0 (m !! v) + 1]> m) l). rewrite IH. unfold occurrences. rewrite filter_cons.
  destruct (decide (v = k)) as [->|Hne]; [rewrite lookup_insert_eq|rewrite lookup_insert_ne by done];
    cbn; lia.
Qed.

Lemma tally_app m l l' : tally m (l ++ l') = tally (tally m l) l'.
Proof. apply foldl_app. Qed.

(** Counting does not remove a key. *)
Lemma tally_dom m l : dom m ⊆ dom (tally m l).
Proof.
  revert m. induction l as [|v l IH]; intros m; cbn; [done|].
  etrans; [|apply IH]. rewrite dom_insert. apply union_subseteq_r.
Qed.

(** The keys and the counts are u64 values. *)
Definition u64_map (m : gmap N N) : Prop := map_Forall (fun k n => fits k /\ fits n) m.

(** Keys of [l] can be counted without overflow. *)
Definition countable (m : gmap N N) (l : list N) : Prop :=
  Forall fits l /\ forall k, fits (default 0 (m !! k) + occurrences k l).

Lemma countable_app m l l' : countable m (l ++ l') -> countable m l /\ countable (tally m l) l'.
Proof.
  intros [Hl Hf]. apply Forall_app in Hl as [Hl Hl']. unfold countable, fits in *.
  split; (split; [done|]); intros k; specialize (Hf k); rewrite occurrences_app in Hf;
    rewrite ?tally_lookup; lia.
Qed.

(** A few small keys can be counted from zero. *)
Lemma small_countable l : forallb (fun k => k <? u64_modulus) l = true ->
  N.of_nat (length l) < u64_modulus -> countable ∅ l.
Proof.
  intros Hl Hn. split.
  - apply Forall_forall. intros k Hk. rewrite forallb_forall in Hl. apply N.ltb_lt, Hl.
    by apply list_elem_of_In.
  - intros k. rewrite lookup_empty. unfold occurrences, fits. cbn.
    pose proof (length_filter (fun x => x = k) l). lia.
Qed.

Lemma count_value_fits m v : countable m [v] -> count_value v m = (tally m [v], Ok tt).
Proof.
  intros [_ Hf]. specialize (Hf v). unfold count_value.
  rewrite occurrences_one in Hf. by rewrite uadd_fits.
Qed.

Lemma count_scalar_fits m v : countable m [v] -> count_scalar v m = (tally m [v], Ok tt).
Proof.
  intros Hc. rewrite <- (count_value_fits m v Hc). destruct Hc as [_ Hf]. specialize (Hf v).
  rewrite occurrences_one in Hf. unfold count_value, count_scalar.
  destruct (m !! v) as [n|]; cbn in *; [|done]. by rewrite uadd_fits.
Qed.

Lemma count_values_fit m l : countable m l -> for_each count_value l m = (tally m l, Ok tt).
Proof.
  revert m. induction l as [|v l IH]; intros m Hc; [done|]. cbn [for_each].
  apply (countable_app m [v] l) in Hc as [Hv Hl].
  erewrite act_bind_Ok by (by apply count_value_fits). rewrite IH by done.
  by rewrite <- (tally_app m [v] l).
Qed.

Lemma tally_u64 m l : u64_map m -> countable m l -> u64_map (tally m l).
Proof.
  revert m. induction l as [|v l IH]; intros m Hm Hc; [done|].
  apply (countable_app m [v] l) in Hc as [Hv Hl]. apply (IH (tally m [v])); [|done].
  destruct Hv as [Hfv Hf]. apply Forall_cons in Hfv as [Hfv _]. specialize (Hf v).
  rewrite occurrences_one in Hf. by apply map_Forall_insert_2.
Qed.

(** The keys of a batch whose key column is an array or a scalar of u64. *)
Definition keys (key : string) (b : B) : list N :=
  match evaluate key b with
  | Ok (ArrayUInt64 values _) => values
  | Ok (ScalarUInt64 (Some v)) => [v]
  | _ => []
  end.

Definition well_typed (key : string) (b : B) : Prop :=
  match evaluate key b with
  | Ok (ArrayUInt64 _ _) | Ok (ScalarUInt64 (Some _)) => True
  | _ => False
  end.

Lemma update_counts self b :
  well_typed (key_col self) b -> countable (local_counts self) (keys (key_col self) b) ->
  update_local_counts b self =
    (with_counts self (tally (local_counts self) (keys (key_col self) b)), Ok ARecordBatch).
Proof.
  unfold well_typed, keys, update_local_counts.
  destruct (evaluate (key_col self) b) as [[vs valid|[v|]|]|e|w]; try done; intros _ Hc; cbn.
  - by rewrite count_values_fit.
  - by rewrite count_scalar_fits.
Qed.

Definition all_keys (key : string) (bs : list B) : list N := concat (keys key <$> bs).

Lemma key_feed_batches bs self :
  Forall (well_typed (key_col self)) bs ->
  countable (local_counts self) (all_keys (key_col self) bs) ->
  feed process (batches bs) self =
    (with_counts self (tally (local_counts self) (all_keys (key_col self) bs)), []).
Proof.
  revert self. induction bs as [|b bs IH]; intros self Hty Hc; cbn; [by destruct self|].
  apply Forall_cons in Hty as [Hb Hty]. apply countable_app in Hc as [Hc1 Hc2].
  unfold process at 1. erewrite act_bind_Ok by (by apply update_counts). cbn.
  change (list_fmap B (res DataFusionError (option (SItem B))) (fun b => Ok (Some (SRecordBatch b))) bs)
    with (batches bs).
  rewrite IH by done. cbn. by rewrite <- tally_app.
Qed.

(** The entries that hold a map of counts. *)
Definition enc (e : N * N) : Bytes * Bytes := (to_be_bytes e.1, to_be_bytes e.2).

Definition encode (m : gmap N N) : Entries := list_to_map (enc <$> map_to_list m).

Lemma enc_NoDup m l : u64_map m -> l ≡ₚ map_to_list m -> NoDup (enc <$> l).*1.
Proof.
  intros Hm Hl. rewrite Hl. clear Hl l. pose proof (NoDup_fst_map_to_list m) as Hnd.
  assert (Forall (fun e : N * N => fits e.1) (map_to_list m)) as Hf.
  { apply Forall_forall. intros [k n] Hin%elem_of_map_to_list. by destruct (Hm k n Hin). }
  revert Hnd Hf. generalize (map_to_list m). clear Hm.
  induction l as [|[k n] l IH]; cbn; [intros; constructor|].
  intros [Hk Hnd]%NoDup_cons [Hfk Hf]%Forall_cons. constructor; [|by apply IH].
  rewrite <- list_fmap_compose, list_elem_of_fmap. intros ([k' n'] & Heq & Hin).
  rewrite Forall_forall in Hf. specialize (Hf _ Hin).
  apply to_be_bytes_inj in Heq; [|done|done]. cbn in Heq. subst k'. apply Hk.
  apply list_elem_of_fmap. by exists (k, n').
Qed.

Lemma encode_dom m kb : kb ∈ dom (encode m) <-> exists k, k ∈ dom m /\ kb = to_be_bytes k.
Proof.
  unfold encode. rewrite dom_list_to_map, elem_of_list_to_set, list_elem_of_fmap.
  setoid_rewrite list_elem_of_fmap. setoid_rewrite elem_of_dom. split.
  - intros (? & -> & [k n] & -> & Hin%elem_of_map_to_list). exists k. eauto.
  - intros (k & [n Hk] & ->). exists (enc (k, n)). split; [done|]. exists (k, n).
    by rewrite elem_of_map_to_list.
Qed.

Lemma encode_tally_dom m l : dom (encode m) ⊆ dom (encode (tally m l)).
Proof.
  intros kb (k & Hk & ->)%encode_dom. apply encode_dom. exists k. split; [|done]. by apply tally_dom.
Qed.

Context `{KeyedStateView S, !KeyedStateLaws S, !SelectAllLaws}.
Context (iter_entries : forall m, iter m ≡ₚ map_to_list m).

Lemma puts_spec st l :
  ks_inv st -> exists st', for_each (fun '(key, count) => ks_put (to_be_bytes key) (to_be_bytes count)) l st =
    (st', Ok tt) /\ ks_inv st' /\ keeps_saved st st' /\ keeps_saved st' st /\
    ks_entries st' = foldl (fun m '(k, v) => <[k := v]> m) (ks_entries st) (enc <$> l).
Proof.
  revert st. induction l as [|[k n] l IH]; intros st Hinv; cbn [for_each].
  - exists st. repeat split; try done; by intros ??.
  - destruct (ks_put_spec st (to_be_bytes k) (to_be_bytes n) Hinv) as (st1 & Hp & Hi & He & Hk & Hk').
    destruct (IH st1 Hi) as (st2 & Hf & Hi2 & Hk2 & Hk2' & He2). exists st2.
    split; [by erewrite act_bind_Ok by exact Hp|]. split; [done|].
    split; [by intros ???; apply Hk2, Hk|]. split; [by intros ???; apply Hk', Hk2'|].
    by rewrite He2, He.
Qed.

(** An operator between two items: its state holds no key that it does not know. *)
Definition ready (self : CountByKeyFunction) (st : S) (range : PartitionRange) : Prop :=
  state self = Some st /\ current_partition_range self = Some range /\ ks_inv st /\
  u64_map (local_counts self) /\ dom (ks_entries st) ⊆ dom (encode (local_counts self)).

(** A marker saves exactly the counts; checkpoints that have its number already must hold them too. *)
Lemma key_process_marker self st range c :
  ready self st range -> (forall m, ks_saved st c m -> m = encode (local_counts self)) ->
  exists st', process (Some (SMarker (mkMarker c))) self =
    (with_state self st', Ok (Some (SMarker (mkMarker c)))) /\
    ks_inv st' /\ ks_entries st' = encode (local_counts self) /\
    ks_saved st' c (encode (local_counts self)) /\ keeps_saved st st' /\
    (forall c' m, c' <> c -> ks_saved st' c' m -> ks_saved st c' m).
Proof.
  intros (Hst & Hr & Hinv & Hu & Hdom) Hno.
  destruct (puts_spec st (iter (local_counts self)) Hinv) as (st1 & Hp & Hi1 & Hk1 & Hk1' & He1).
  rewrite foldl_insert in He1 by (by apply (enc_NoDup (local_counts self))).
  rewrite (list_to_map_proper _ (enc <$> map_to_list (local_counts self))) in He1;
    [|by apply (enc_NoDup (local_counts self))|by rewrite iter_entries].
  change (list_to_map _) with (encode (local_counts self)) in He1.
  assert (encode (local_counts self) ∪ ks_entries st = encode (local_counts self)) as Hun.
  { apply map_eq. intros kb. rewrite lookup_union.
    destruct (ks_entries st !! kb) as [v|] eqn:Hv; [|by destruct (encode _ !! kb)].
    apply elem_of_dom_2, Hdom, elem_of_dom in Hv as [v' ->]. done. }
  rewrite Hun in He1.
  destruct (ks_checkpoint_spec st1 c range Hi1) as (st2 & Hc & Hi2 & He2 & Hs2 & Hk2 & Hk2').
  { intros m Hm. rewrite He1. by apply Hno, Hk1'. }
  exists st2. rewrite He1 in Hs2, He2. split; [|split; [done|split; [done|split; [done|split]]]];
    [|by intros ???; apply Hk2, Hk1|by intros ????; apply Hk1', (Hk2' c')].
  unfold process, mbind at 1, act_bind at 1, action. rewrite Hr. cbn. unfold perform. rewrite Hst.
  cbn. erewrite act_bind_Ok by exact Hp. by rewrite Hc.
Qed.

Lemma load_entries l acc :
  Forall (fun e : N * N => fits e.1 /\ fits e.2) l -> NoDup l.*1 ->
  for_each load_entry (Ok <$> (enc <$> l)) acc = (list_to_map l ∪ acc, Ok tt).
Proof.
  intros Hl Hnd. rewrite <- foldl_insert by done. revert acc. clear Hnd.
  induction Hl as [|[k n] l [Hk Hn] _ IH]; intros acc; [done|]. cbn [fmap list_fmap for_each].
  erewrite act_bind_Ok; [by apply IH|]. unfold load_entry, parse_entry, enc.
  by rewrite bind_Ok, !be_bytes_roundtrip.
Qed.

Lemma key_load_saved self st range c m :
  state self = Some st -> current_partition_range self = Some range -> ks_inv st ->
  0 < c -> u64_map m -> ks_saved st c (encode m) ->
  exists st', load self c = (with_counts (with_state self st') m, Ok tt) /\ ks_inv st' /\
    ks_entries st' = encode m /\ keeps_saved st st' /\ keeps_saved st' st.
Proof.
  intros Hst Hr Hinv Hc Hu Hs. apply N.ltb_lt in Hc.
  destruct (ks_move_spec st c range (encode m) Hinv Hs) as (st1 & Hmv & Hi1 & He1 & Hk1 & Hk1').
  destruct (ks_iterate_spec st1 Hi1) as (l & Hl & Hnd & Hm). rewrite He1 in Hm. unfold encode in Hm.
  apply list_to_map_inj in Hm; [|done|by eapply enc_NoDup].
  apply Permutation_map_inv in Hm as (l0 & -> & Hp).
  exists st1. split; [|done]. unfold load. rewrite Hc, Hst, Hr, Hmv, Hl.
  change (map enc l0) with (enc <$> l0). rewrite load_entries.
  - rewrite (right_id_L ∅ (∪)). rewrite <- (list_to_map_proper (map_to_list m)); [|apply NoDup_fst_map_to_list|done].
    by rewrite list_to_map_to_list.
  - rewrite <- Hp. apply Forall_forall. intros [k n] Hin%elem_of_map_to_list. exact (Hu k n Hin).
  - rewrite <- Hp. apply NoDup_fst_map_to_list.
Qed.

(** C30: counting by key is exactly-once across a failure.  The operator reads [before], the
    marker of checkpoint [c] and then [lost] batches, fails, and is loaded from [c]; reading
    [after] to its end emits, for every key, its occurrences in [before] and [after] (on top of
    the count at the start), and nothing of [lost]. *)
Theorem count_by_key_exactly_once self st range c before lost after :
  let key := key_col self in
  ready self st range -> 0 < c -> (forall m, ~ ks_saved st c m) ->
  Forall (well_typed key) (before ++ lost ++ after) ->
  countable (local_counts self) (all_keys key before ++ all_keys key lost) ->
  countable (local_counts self) (all_keys key before ++ all_keys key after) ->
  exists self1 self2 self3 self4 final,
    feed process (batches before ++ [Ok (Some (SMarker (mkMarker c)))]) self =
      (self1, [Ok (SMarker (mkMarker c))]) /\
    feed process (batches lost) self1 = (self2, []) /\
    load self2 c = (self3, Ok tt) /\
    run self3 [(0, single ((fun b => Ok (SRecordBatch b)) <$> after))] =
      Ok (self4, [(0, single [SRecordBatch <$> counts_batch (iter final).*1 (iter final).*2])]) /\
    forall k, default 0 (final !! k) =
      default 0 (local_counts self !! k) + occurrences k (all_keys key before ++ all_keys key after).
Proof.
  intros key (Hst & Hr & Hinv & Hu & Hdom) Hc Hno Hty Hlost Hafter.
  apply Forall_app in Hty as [Htb Hty]. apply Forall_app in Hty as [Htl Hta].
  apply countable_app in Hlost as [Hcb Hcl]. apply countable_app in Hafter as [_ Hca].
  set (m := tally (local_counts self) (all_keys key before)) in *.
  pose proof (tally_u64 _ _ Hu Hcb) as Hum. fold m in Hum.
  set (self0 := with_counts self m).
  destruct (key_process_marker self0 st range c) as (st1 & Hp & Hi1 & _ & Hs1 & _); [|by intros ? [] %Hno|].
  { split; [done|]. split; [done|]. split; [done|]. split; [done|].
    etrans; [exact Hdom|]. apply encode_tally_dom. }
  set (self1 := with_state self0 st1) in *.
  set (self2 := with_counts self1 (tally m (all_keys key lost))).
  destruct (key_load_saved self2 st1 range c m) as (st3 & Hl & Hi3 & _); [done..|].
  set (self3 := with_counts (with_state self2 st3) m) in *.
  exists self1, self2, self3, (with_counts self3 (tally m (all_keys key after))),
    (tally m (all_keys key after)).
  split; [|split; [|split; [done|split]]].
  - erewrite feed_app; [|by apply key_feed_batches|constructor]. cbn [feed].
    fold key m self0. by rewrite Hp.
  - by apply (key_feed_batches lost self1).
  - unfold run. cbn [last ok_or mbind res_bind state self3 with_counts with_state].
    rewrite with_end_batches.
    erewrite feed_app; [|by apply (key_feed_batches after self3)|constructor].
    cbn. unfold process, mbind, act_bind, action, perform. cbn.
    by destruct (counts_batch _ _).
  - intros k. unfold m. by rewrite <- tally_app, tally_lookup.
Qed.
End count_by_key.

(** Keys 7, 8, 7 before the checkpoint, 9 lost, 7 after the restart: three times 7. *)
Lemma count_by_key_exactly_once_witness :
  let self := mkCount "k" (Some (RocksDBState.example_state ∅)) ∅ (Some (mkRange 0 1 1)) in
  let evaluate (_ : string) (b : list N) := Ok (ArrayUInt64 b ((fun _ => true) <$> b)) in
  let counts_batch ks ns := Ok (ks ++ ns) in
  let process := @process _ _ RocksDBState.example_keyed true evaluate counts_batch map_to_list in
  exists self1 self2 self3 self4 final,
    feed process (batches [[7; 8]; [7]] ++ [Ok (Some (SMarker (mkMarker 1)))]) self =
      (self1, [Ok (SMarker (mkMarker 1))]) /\
    feed process (batches [[9]]) self1 = (self2, []) /\
    @load _ RocksDBState.example_keyed self2 1 = (self3, Ok tt) /\
    @run _ _ RocksDBState.example_keyed true in_order evaluate counts_batch map_to_list self3
      [(0, single ((fun b => Ok (SRecordBatch b)) <$> [[7]]))] =
      Ok (self4, [(0, single [SRecordBatch <$> counts_batch (map_to_list final).*1 (map_to_list final).*2])]) /\
    forall k, default 0 (final !! k) = default 0 ((∅ : gmap N N) !! k) + occurrences k ([7; 8; 7] ++ [7]).
Proof.
  destruct (RocksDBState.example_state_inv ∅) as (Hinv & Hno & He).
  apply (@count_by_key_exactly_once _ _ RocksDBState.example_keyed true in_order
    (fun _ b => Ok (ArrayUInt64 b ((fun _ => true) <$> b))) (fun ks ns => Ok (ks ++ ns)) map_to_list
    RocksDBState.example_view RocksDBState.example_laws in_order_laws ltac:(done)
    (mkCount "k" (Some (RocksDBState.example_state ∅)) ∅ (Some (mkRange 0 1 1)))
    (RocksDBState.example_state ∅) (mkRange 0 1 1) 1 [[7; 8]; [7]] [[9]] [[7]]).
  - split; [done|]. split; [done|]. split; [done|]. split; [by intros ?|]. cbn [ks_entries]. rewrite He. done.
  - done.
  - exact (Hno 1).
  - by repeat constructor.
  - by apply small_countable.
  - by apply small_countable.
Defined.
