(* ===== verification/Operators.v ===== *)
(** * Operator functions (src/streaming/operators/task_function.rs, operator.rs, identity.rs)

    The interface of an operator, as a class over its state, the instances for the operators of
    the other files, and the dispatch on [OperatorSpec] that creates them. *)

From S2P Require Import Prelude Arrow Partitioning Stream Generation FileSystem CheckpointStorage StateBackend KeyedState FiberStream Source Count CountStar CountByKey.

(** Named inputs and outputs of an operator: an ordinal and a stream of fibers. *)
Abbreviation streams B := (list (N * FiberStream (SItem B))).

(** [OperatorFunction2]: [init] is given the generations of the scheduling details and the
    state id; [run] the input streams. *)
Class OperatorFunction2 (F B : Type) := {
  op_init : option (list GenerationSpec) -> string -> act F DataFusionError ();
  op_load : N -> act F DataFusionError ();
  op_run : streams B -> act F DataFusionError (streams B);
}.

(** An operation that returns the new state only when it succeeds. *)
Definition keep {F A} (self : F) (r : res DataFusionError (F * A)) : F * res DataFusionError A :=
  match r with
  | Ok (self, a) => (self, Ok a)
  | Err e => (self, Err e)
  | Panic w => (self, Panic w)
  end.

(** ** Identity *)

Inductive IdentityOperatorFunction := mkIdentity.

#[export] Instance identity_function {B} : OperatorFunction2 IdentityOperatorFunction B := {|
  op_init _ _ self := (self, Ok tt);
  op_load _ self := (self, Ok tt);
  op_run inputs self := (self, Ok inputs);
|}.

Section instances.
Context {S B : Type} `{KeyedState S} `{Profile} `{SelectAll}.
Context (open_new : string -> PartitionRange -> res DataFusionError S).
Context (num_rows : B -> N) (count_batch : N -> res DataFusionError B).
Context (evaluate : string -> B -> res DataFusionError ColumnarValue).
Context (counts_batch : list N -> list N -> res DataFusionError B).
Context (iter : gmap N N -> list (N * N)).

#[export] Instance source_function : OperatorFunction2 (SourceOperatorFunction (B := B)) B := {|
  op_init _ _ self := (self, Ok tt);
  op_load checkpoint self := keep self ((fun s => (s, tt)) <$> Source.load self checkpoint);
  op_run inputs self :=
    (self, outs ← Source.run self (length inputs); Ok [(0, single outs)]);
|}.

#[export] Instance count_star_function : OperatorFunction2 (CountStarFunction (S := S)) B := {|
  op_init generations state_id self :=
    keep self ((fun s => (s, tt)) <$> CountStar.init open_new self generations state_id);
  op_load checkpoint self := CountStar.load self checkpoint;
  op_run inputs self := keep self (CountStar.run num_rows count_batch self inputs);
|}.

#[export] Instance count_by_key_function : OperatorFunction2 (CountByKeyFunction (S := S)) B := {|
  op_init generations state_id self :=
    keep self ((fun s => (s, tt)) <$> CountByKey.init open_new self generations state_id);
  op_load checkpoint self := CountByKey.load self checkpoint;
  op_run inputs self := keep self (CountByKey.run evaluate counts_batch iter self inputs);
|}.
End instances.

(** ** Operator definitions (operator.rs) *)

Record OperatorInput := mkOpInput { in_stream_id : string; in_ordinal : N }.
Record OperatorOutput := mkOpOutput { out_stream_id : string; out_ordinal : N }.

Record OperatorDefinition (Spec : Type) := mkOpDef {
  def_id : string;
  def_state_id : string;
  def_spec : Spec;
  def_inputs : list OperatorInput;
  def_outputs : list OperatorOutput;
}.
Arguments mkOpDef {Spec} _ _ _ _ _.
Arguments def_id {Spec} _.
Arguments def_state_id {Spec} _.
Arguments def_spec {Spec} _.
Arguments def_inputs {Spec} _.
Arguments def_outputs {Spec} _.

(** [OperatorSpec]; [Out] and [In] are the specifications of the two exchange operators. *)
Inductive OperatorSpec (B Out In : Type) :=
  | SpecIdentity
  | SpecSource (op : SourceOperator (B := B))
  | SpecCountStar
  | SpecCountByKey (key_col : string)
  | SpecNested (inputs : list (N * string)) (operators : list (OperatorDefinition (OperatorSpec B Out In)))
      (outputs : list (N * string))
  | SpecRemoteExchangeOutput (op : Out)
  | SpecRemoteExchangeInput (op : In).
Arguments SpecIdentity {B Out In}.
Arguments SpecSource {B Out In} _.
Arguments SpecCountStar {B Out In}.
Arguments SpecCountByKey {B Out In} _.
Arguments SpecNested {B Out In} _ _ _.
Arguments SpecRemoteExchangeOutput {B Out In} _.
Arguments SpecRemoteExchangeInput {B Out In} _.

(** The boxed operator functions; [FOut] and [FIn] are those of the exchange operators. *)
Inductive OperatorFn (S B Out In FOut FIn : Type) :=
  | FIdentity (f : IdentityOperatorFunction)
  | FSource (f : SourceOperatorFunction (B := B))
  | FCountStar (f : CountStarFunction (S := S))
  | FCountByKey (f : CountByKeyFunction (S := S))
  | FNested (input_stream_ids : list (N * string))
      (operator_functions :
        list (OperatorDefinition (OperatorSpec B Out In) * OperatorFn S B Out In FOut FIn))
      (output_stream_ids : list (N * string))
  | FRemoteOutput (f : FOut)
  | FRemoteInput (f : FIn).
Arguments FIdentity {S B Out In FOut FIn} _.
Arguments FSource {S B Out In FOut FIn} _.
Arguments FCountStar {S B Out In FOut FIn} _.
Arguments FCountByKey {S B Out In FOut FIn} _.
Arguments FNested {S B Out In FOut FIn} _ _ _.
Arguments FRemoteOutput {S B Out In FOut FIn} _.
Arguments FRemoteInput {S B Out In FOut FIn} _.

(** [impl CreateOperatorFunction2 for OperatorSpec], with that of [NestedOperator]. *)
Fixpoint spec_create {S B Out In FOut FIn} (create_out : Out -> FOut) (create_in : In -> FIn)
    (spec : OperatorSpec B Out In) : OperatorFn S B Out In FOut FIn :=
  match spec with
  | SpecIdentity => FIdentity mkIdentity
  | SpecSource op => FSource (create_operator_function op)
  | SpecCountStar => FCountStar CountStar.new
  | SpecCountByKey key_col => FCountByKey (CountByKey.new key_col)
  | SpecNested inputs operators outputs =>
      FNested inputs ((fun op => (op, spec_create create_out create_in (def_spec op))) <$> operators) outputs
  | SpecRemoteExchangeOutput op => FRemoteOutput (create_out op)
  | SpecRemoteExchangeInput op => FRemoteInput (create_in op)
  end.

(** [last_checkpoint]: no operator keeps track of it, and a nested operator has a [todo!()]. *)
Definition fn_last_checkpoint {S B Out In FOut FIn} (f : OperatorFn S B Out In FOut FIn) : res DataFusionError N :=
  match f with
  | FNested _ _ _ => Panic "not yet implemented"
  | _ => Ok 0
  end.
