(* ===== verification/LazyStreams.v ===== *)
(** * Lazily constructed streams (src/streaming/operators/utils/lazy_operator.rs)

    [lazily_evaluate_constructor] hands out streams before they exist.  Every stream shares the
    constructor through an [Arc] and owns a one-shot receiver; the stream that gives up the last
    handle of the [Arc] runs the constructor and sends each stream to its receiver.  Starting a
    stream, the end of the constructor, receiving and dropping are the atomic steps, and the
    streams may be polled or dropped in any order by any thread. *)

From stdpp Require Import relations.
From S2P Require Import Prelude.

Section lazy.
Context {T : Type}.

(** A one-shot channel: its sender is there, has sent, or is gone. *)
Inductive channel := Empty | Sent (s : T) | Closed.

(** A stream that was handed out: not polled yet (it holds a handle of the [Arc]), running the
    constructor, waiting for its receiver, or flattened to the stream it received. *)
Inductive fiber := Idle | Constructing | Waiting | Received (s : T) | Panicked | Dropped.

Record Lazy := mkLazy {
  arcs : nat;
  calls : nat;
  channels : list channel;
  fibers : list fiber;
}.

(** The channels of each ordinal, numbered through. *)
Fixpoint groups (from : nat) (sizes : list (N * nat)) : list (N * list nat) :=
  match sizes with
  | [] => []
  | (ordinal, count) :: sizes => (ordinal, seq from count) :: groups (from + count) sizes
  end.

Definition total (sizes : list (N * nat)) : nat := sum_list sizes.*2.

(** Every stream gets one clone of the [Arc]; the result is the numbers of the streams. *)
Definition lazily_evaluate_constructor (sizes : list (N * nat)) : Lazy * list (N * list nat) :=
  (mkLazy (total sizes) 0 (replicate (total sizes) Empty) (replicate (total sizes) Idle),
   groups 0 sizes).

(** Dropping the senders that have not sent. *)
Definition close (c : channel) : channel := match c with Empty => Closed | _ => c end.
Definition drop_senders (cs : list channel) : list channel := close <$> cs.

(** Whether the receiver of a channel is still there. *)
Definition alive (fs : list fiber) (k : nat) : bool :=
  match fs !! k with Some Dropped | None => false | _ => true end.

(** [channels.into_iter().zip(streams)]: [send] fails when the receiver was dropped. *)
Fixpoint send_all (fs : list fiber) (l : list (nat * T)) (cs : list channel) : list channel * bool :=
  match l with
  | [] => (cs, true)
  | (k, s) :: l => if alive fs k then send_all fs l (<[k := Sent s]> cs) else (cs, false)
  end.

(** The loop over what the constructor made; [false] when an [unwrap] panics. *)
Fixpoint deliver (fs : list fiber) (sender_map : gmap N (list nat)) (made : list (N * list T))
    (cs : list channel) : list channel * bool :=
  match made with
  | [] => (cs, true)
  | (ordinal, streams) :: made =>
      match sender_map !! ordinal with
      | None => (cs, false)
      | Some ks =>
          match send_all fs (zip ks streams) cs with
          | (cs, true) => deliver fs (delete ordinal sender_map) made cs
          | (cs, false) => (cs, false)
          end
      end
  end.

Inductive event := Start (k : nat) | Construct (k : nat) | Receive (k : nat) | Drop (k : nat).

Definition with_fiber (st : Lazy) (k : nat) (f : fiber) : Lazy :=
  mkLazy (arcs st) (calls st) (channels st) (<[k := f]> (fibers st)).

(** [sizes] and what the constructor makes; [None] when it panics. *)
Context (sizes : list (N * nat)) (made : option (list (N * list T))).

(** The first poll: [Arc::into_inner] gives the closure to the last one. *)
Definition start (k : nat) (st : Lazy) : option Lazy :=
  match fibers st !! k with
  | Some Idle =>
      let n := (arcs st - 1)%nat in
      Some (if (n =? 0)%nat
            then mkLazy n (calls st + 1) (channels st) (<[k := Constructing]> (fibers st))
            else mkLazy n (calls st) (channels st) (<[k := Waiting]> (fibers st)))
  | _ => None
  end.

(** [constructor().await] has returned: deliver, and drop the senders that are left. *)
Definition construct (k : nat) (st : Lazy) : option Lazy :=
  match fibers st !! k with
  | Some Constructing =>
      let '(cs, ok) := match made with
        | Some made => deliver (fibers st) (collect_map (groups 0 sizes)) made (channels st)
        | None => (channels st, false)
        end in
      Some (mkLazy (arcs st) (calls st) (drop_senders cs)
        (<[k := if ok then Waiting else Panicked]> (fibers st)))
  | _ => None
  end.

(** [receiver.await.unwrap()] *)
Definition receive (k : nat) (st : Lazy) : option Lazy :=
  match fibers st !! k, channels st !! k with
  | Some Waiting, Some (Sent s) => Some (with_fiber st k (Received s))
  | Some Waiting, Some Closed => Some (with_fiber st k Panicked)
  | _, _ => None
  end.

(** Dropping a stream; the last handle of the [Arc] takes the closure and its senders along. *)
Definition drop_stream (k : nat) (st : Lazy) : option Lazy :=
  match fibers st !! k with
  | Some Idle =>
      let n := (arcs st - 1)%nat in
      Some (mkLazy n (calls st) (if (n =? 0)%nat then drop_senders (channels st) else channels st)
        (<[k := Dropped]> (fibers st)))
  | Some Constructing =>
      Some (mkLazy (arcs st) (calls st) (drop_senders (channels st)) (<[k := Dropped]> (fibers st)))
  | Some Dropped | None => None
  | Some _ => Some (with_fiber st k Dropped)
  end.

Definition do_event (e : event) : Lazy -> option Lazy :=
  match e with
  | Start k => start k
  | Construct k => construct k
  | Receive k => receive k
  | Drop k => drop_stream k
  end.

Definition run_events (es : list event) (st : Lazy) : option Lazy :=
  foldl (fun st e => st ≫= do_event e) (Some st) es.

Definition step (st st' : Lazy) : Prop := exists e, do_event e st = Some st'.
Definition initial : Lazy := fst (lazily_evaluate_constructor sizes).
Definition reachable (st : Lazy) : Prop := rtc step initial st.

(** ** The invariant *)

(** The stream that the constructor makes for the [k]th channel. *)
Definition made_for (k : nat) (s : T) : Prop :=
  exists made' ordinal ks streams i, made = Some made' /\ (ordinal, streams) ∈ made' /\
    (ordinal, ks) ∈ groups 0 sizes /\ ks !! i = Some k /\ streams !! i = Some s.

Definition is_idle (f : fiber) : bool := match f with Idle => true | _ => false end.
Definition idle (fs : list fiber) : nat := length (List.filter is_idle fs).

Record lazy_inv (st : Lazy) : Prop := mkInv {
  inv_channels : length (channels st) = total sizes;
  inv_fibers : length (fibers st) = total sizes;
  inv_arcs : arcs st = idle (fibers st);
  inv_once : (calls st <= 1)%nat /\ (calls st <> 0%nat -> arcs st = 0%nat);
  inv_empty : arcs st <> 0%nat -> Forall (fun c => c = Empty) (channels st);
  inv_constructing : forall k, fibers st !! k = Some Constructing ->
    calls st = 1%nat /\ Forall (fun c => c = Empty) (channels st) /\
    forall j, fibers st !! j = Some Constructing -> j = k;
  inv_sent : forall k s, channels st !! k = Some (Sent s) -> made_for k s;
  inv_received : forall k s, fibers st !! k = Some (Received s) -> made_for k s;
}.

Lemma idle_insert fs k f g :
  fs !! k = Some f ->
  (idle (<[k := g]> fs) + (if is_idle f then 1 else 0) = idle fs + (if is_idle g then 1 else 0))%nat.
Proof.
  unfold idle. revert k. induction fs as [|h fs IH]; intros [|k] Hk; simpl in *; [done..| |].
  - injection Hk as ->. destruct (is_idle f), (is_idle g); simpl; lia.
  - specialize (IH k Hk). destruct (is_idle h); simpl; lia.
Qed.

Lemma idle_zero fs k : idle fs = 0%nat -> fs !! k <> Some Idle.
Proof.
  unfold idle. revert k. induction fs as [|f fs IH]; intros [|k]; cbn; [done..| |].
  - intros Hn [= ->]. done.
  - destruct f; try done; apply IH.
Qed.

Lemma idle_lookup fs k : fs !! k = Some Idle -> idle fs <> 0%nat.
Proof. intros Hk Hn. by apply (idle_zero fs k). Qed.

Lemma drop_senders_Sent cs k s : drop_senders cs !! k = Some (Sent s) <-> cs !! k = Some (Sent s).
Proof.
  unfold drop_senders. rewrite list_lookup_fmap. destruct (cs !! k) as [[| |]|]; cbn; naive_solver.
Qed.

(** What [deliver] sends comes from what was made. *)
Lemma send_all_spec fs l cs cs' ok :
  send_all fs l cs = (cs', ok) ->
  length cs' = length cs /\
  forall k s, cs' !! k = Some (Sent s) -> cs !! k = Some (Sent s) \/ (k, s) ∈ l.
Proof.
  revert cs. induction l as [|[k0 s0] l IH]; intros cs; cbn; [intros [= <- _]; auto|].
  destruct (alive fs k0); [|intros [= <- _]; auto].
  intros [Hl Hs]%IH. split; [by rewrite Hl, length_insert|]. intros k s Hk.
  destruct (Hs k s Hk) as [Hin|Hin]; [|set_solver].
  destruct (decide (k = k0)) as [->|Hne].
  - apply list_lookup_insert_Some in Hin as [(_ & [= ->] & _)|[? _]]; [set_solver|done].
  - rewrite list_lookup_insert_ne in Hin by done. by left.
Qed.

Lemma deliver_spec fs senders l cs cs' ok :
  deliver fs senders l cs = (cs', ok) ->
  length cs' = length cs /\
  forall k s, cs' !! k = Some (Sent s) -> cs !! k = Some (Sent s) \/
    exists ordinal ks streams i, (ordinal, streams) ∈ l /\ senders !! ordinal = Some ks /\
      ks !! i = Some k /\ streams !! i = Some s.
Proof.
  revert senders cs. induction l as [|[o streams] l IH]; intros senders cs; cbn; [intros [= <- _]; auto|].
  destruct (senders !! o) as [ks|] eqn:Ho; [|intros [= <- _]; auto].
  destruct (send_all fs (zip ks streams) cs) as [cs1 ok1] eqn:Hs.
  apply send_all_spec in Hs as [Hl1 Hs1].
  assert (forall k s, (k, s) ∈ zip ks streams -> exists ordinal ks' streams' i,
    (ordinal, streams') ∈ (o, streams) :: l /\ senders !! ordinal = Some ks' /\
    ks' !! i = Some k /\ streams' !! i = Some s) as Hhere.
  { intros k s [i Hi]%list_elem_of_lookup. apply lookup_zip_with_Some in Hi as (k' & s' & [= -> ->] & Hk & Hst).
    exists o, ks, streams, i. split; [left|done]. }
  destruct ok1.
  - intros [Hl2 Hs2]%IH. split; [congruence|]. intros k s Hk.
    destruct (Hs2 k s Hk) as [Hin|(o' & ks' & st' & i & Hin & Hd & Hrest)].
    + destruct (Hs1 k s Hin) as [|Hz]; [by left|right; by apply Hhere].
    + right. apply lookup_delete_Some in Hd as [_ Hd]. exists o', ks', st', i. set_solver.
  - intros [= <- _]. split; [done|]. intros k s Hk.
    destruct (Hs1 k s Hk) as [|Hz]; [by left|right; by apply Hhere].
Qed.

Lemma collect_map_Some {A} (l : list (N * A)) k v : collect_map l !! k = Some v -> (k, v) ∈ l.
Proof.
  unfold collect_map. assert (forall m : gmap N A, foldl (fun m '(k, v) => <[k := v]> m) m l !! k = Some v ->
    m !! k = Some v \/ (k, v) ∈ l) as Hgen; [|intros [Hm|Hm]%Hgen; [by rewrite lookup_empty in Hm|done]].
  induction l as [|[k' v'] l IH]; intros m Hm; cbn in Hm; [by left|].
  destruct (IH _ Hm) as [Hi|Hi]; [|set_solver].
  apply lookup_insert_Some in Hi as [[-> ->]|[_ Hi]]; [right; set_solver|by left].
Qed.

Lemma not_idle_arcs st k f g :
  lazy_inv st -> fibers st !! k = Some f -> is_idle f = false -> is_idle g = false ->
  arcs st = idle (<[k := g]> (fibers st)).
Proof.
  intros Hi Hk Hf Hg. pose proof (idle_insert (fibers st) k f g Hk) as H. rewrite Hf, Hg in H.
  rewrite (inv_arcs st Hi). lia.
Qed.

Lemma initial_inv : lazy_inv initial.
Proof.
  unfold initial, lazily_evaluate_constructor. cbn [fst].
  split; cbn [channels fibers arcs calls].
  - apply length_replicate.
  - apply length_replicate.
  - unfold idle. induction (total sizes) as [|n IH]; [done|]. simpl. by rewrite <- IH.
  - split; [lia|done].
  - intros _. by apply Forall_replicate.
  - by intros k [? _]%lookup_replicate.
  - by intros k s [? _]%lookup_replicate.
  - by intros k s [? _]%lookup_replicate.
Qed.

Lemma all_empty_Sent (cs : list channel) k s :
  Forall (fun c => c = Empty) cs -> cs !! k <> Some (Sent s).
Proof. intros Hall Hk. by apply (Forall_lookup_1 _ _ _ _ Hall) in Hk. Qed.

(** While a handle of the [Arc] is left, nothing has happened. *)
Lemma inv_before st k :
  lazy_inv st -> fibers st !! k = Some Idle ->
  arcs st <> 0%nat /\ calls st = 0%nat /\ Forall (fun c => c = Empty) (channels st) /\
  (forall j, fibers st !! j <> Some Constructing) /\
  (forall f, is_idle f = false -> idle (<[k := f]> (fibers st)) = (arcs st - 1)%nat).
Proof.
  intros Hi Hk. pose proof (idle_lookup _ _ Hk) as Hn. rewrite <- (inv_arcs st Hi) in Hn.
  pose proof (inv_once st Hi) as [Hc1 Hc2].
  split; [done|]. split; [destruct (calls st); [done|]; by destruct Hn; apply Hc2|].
  split; [by apply inv_empty|]. split.
  - intros j Hj. apply (inv_constructing st Hi) in Hj as (Hc & _ & _). apply Hn, Hc2. lia.
  - intros f Hf. pose proof (idle_insert (fibers st) k Idle f Hk) as H. rewrite Hf in H. cbn in H.
    rewrite (inv_arcs st Hi). lia.
Qed.

Lemma start_inv k st st' : lazy_inv st -> start k st = Some st' -> lazy_inv st'.
Proof.
  intros Hi. unfold start. destruct (fibers st !! k) as [[| | | | |]|] eqn:Hk; try done.
  destruct (inv_before st k Hi Hk) as (Hn & Hc & He & Hno & Hidle).
  assert (forall g j f, is_idle g = false -> <[k := g]> (fibers st) !! j = Some f -> f <> g -> fibers st !! j = Some f)
    as Hother.
  { intros g j f _ Hj Hf. apply list_lookup_insert_Some in Hj as [(-> & -> & _)|[_ Hj]]; done. }
  destruct (Nat.eqb_spec (arcs st - 1) 0) as [Hz|Hz]; intros [= <-]; split; cbn [channels fibers arcs calls];
    rewrite ?length_insert; try (by apply Hi); try (by rewrite Hidle).
  - rewrite Hz. lia.
  - done.
  - intros j Hj. rewrite Hc. split; [done|]. split; [done|]. intros i Hii.
    apply list_lookup_insert_Some in Hj as [(-> & _)|[_ Hj]]; [|by destruct (Hno j)].
    apply list_lookup_insert_Some in Hii as [(-> & _)|[_ Hii]]; [done|by destruct (Hno i)].
  - intros j s Hj. apply Hother in Hj; [|done..]. by eapply inv_received.
  - rewrite Hc. lia.
  - done.
  - intros j Hj. apply Hother in Hj; [by destruct (Hno j)|done..].
  - intros j s Hj. apply Hother in Hj; [|done..]. by eapply inv_received.
Qed.

Lemma construct_inv k st st' : lazy_inv st -> construct k st = Some st' -> lazy_inv st'.
Proof.
  intros Hi. unfold construct. destruct (fibers st !! k) as [[| | | | |]|] eqn:Hk; try done.
  destruct (inv_constructing st Hi k Hk) as (Hc & He & Huniq). pose proof (inv_once st Hi) as [_ Ha].
  set (d := match made with Some _ => _ | None => _ end). destruct d as [cs ok] eqn:Hd.
  assert (length cs = length (channels st) /\ forall j s, cs !! j = Some (Sent s) -> made_for j s) as [Hlen Hsent].
  { subst d. destruct made as [made'|] eqn:Hm.
    - apply deliver_spec in Hd as [Hl Hs]. split; [done|]. intros j s Hj.
      destruct (Hs j s Hj) as [Hin|(o & ks & streams & i & Hin & Hks & Hrest)].
      + by apply all_empty_Sent in Hin.
      + apply collect_map_Some in Hks. exists made', o, ks, streams, i. done.
    - injection Hd as <- _. split; [done|]. intros j s Hj. by apply all_empty_Sent in Hj. }
  intros [= <-]. assert (is_idle (if ok then Waiting else Panicked) = false) as Hg by (by destruct ok).
  split; cbn [channels fibers arcs calls].
  - unfold drop_senders. rewrite length_fmap, Hlen. apply Hi.
  - rewrite length_insert. apply Hi.
  - by apply (not_idle_arcs st k Constructing).
  - apply Hi.
  - rewrite Ha by lia. done.
  - intros j Hj. apply list_lookup_insert_Some in Hj as [(_ & Hj & _)|[Hne Hj]]; [by destruct ok|].
    by rewrite (Huniq j Hj) in Hne.
  - intros j s Hj. by apply Hsent, drop_senders_Sent.
  - intros j s Hj. apply list_lookup_insert_Some in Hj as [(_ & Hj & _)|[Hne Hj]]; [by destruct ok|].
    by eapply inv_received.
Qed.

(** Steps that change one stream that holds no handle, and possibly drop the senders. *)
Lemma change_inv st k f g cs :
  lazy_inv st -> fibers st !! k = Some f -> is_idle f = false -> is_idle g = false -> g <> Constructing ->
  (forall s, g = Received s -> made_for k s) ->
  cs = channels st \/ (cs = drop_senders (channels st) /\ f = Constructing) ->
  lazy_inv (mkLazy (arcs st) (calls st) cs (<[k := g]> (fibers st))).
Proof.
  intros Hi Hk Hf Hg Hgc Hgr Hcs.
  assert (length cs = length (channels st)) as Hl.
  { destruct Hcs as [->|[-> _]]; [done|]. unfold drop_senders. by rewrite length_fmap. }
  assert (forall j, <[k := g]> (fibers st) !! j = Some Constructing -> fibers st !! j = Some Constructing /\ j <> k) as Hj.
  { intros j Hj. apply list_lookup_insert_Some in Hj as [(_ & Hj & _)|[Hne Hj]]; [done|]. done. }
  split; cbn [channels fibers arcs calls].
  - rewrite Hl. apply Hi.
  - rewrite length_insert. apply Hi.
  - by apply (not_idle_arcs st k f).
  - apply Hi.
  - intros Ha. destruct Hcs as [->|[_ ->]]; [by apply inv_empty|].
    destruct (inv_constructing st Hi k Hk) as (Hc & _). destruct Ha. apply (inv_once st Hi). lia.
  - intros j [Hjc Hne]%Hj. destruct (inv_constructing st Hi j Hjc) as (Hc & He & Huniq).
    destruct Hcs as [->|[_ ->]]; [|by destruct Hne; symmetry; apply Huniq].
    split; [done|]. split; [done|]. intros i [Hii _]%Hj. by apply Huniq.
  - intros j s Hjs. apply (inv_sent st Hi). destruct Hcs as [->|[-> _]]; [done|]. by apply drop_senders_Sent.
  - intros j s Hjs. apply list_lookup_insert_Some in Hjs as [(<- & Hjs & _)|[_ Hjs]]; [by apply Hgr|].
    by eapply inv_received.
Qed.

Lemma receive_inv k st st' : lazy_inv st -> receive k st = Some st' -> lazy_inv st'.
Proof.
  intros Hi. unfold receive. destruct (fibers st !! k) as [[| | | | |]|] eqn:Hk; try done.
  destruct (channels st !! k) as [[|s|]|] eqn:Hc; try done; intros [= <-].
  - eapply change_inv; try done; [|by left]. intros s' [= <-]. by eapply inv_sent.
  - eapply change_inv; try done. by left.
Qed.

Lemma drop_inv k st st' : lazy_inv st -> drop_stream k st = Some st' -> lazy_inv st'.
Proof.
  intros Hi. unfold drop_stream. destruct (fibers st !! k) as [f|] eqn:Hk; [|done].
  destruct f; try done; try (intros [= <-]; eapply change_inv; try done; by (left + right)).
  destruct (inv_before st k Hi Hk) as (Hn & Hc & He & Hno & Hidle). intros [= <-].
  split; cbn [channels fibers arcs calls].
  - destruct (_ =? 0)%nat; unfold drop_senders; rewrite ?length_fmap; apply Hi.
  - rewrite length_insert. apply Hi.
  - by rewrite Hidle.
  - rewrite Hc. lia.
  - intros Hz. by rewrite (proj2 (Nat.eqb_neq _ _) Hz).
  - intros j Hj. apply list_lookup_insert_Some in Hj as [(_ & Hj & _)|[_ Hj]]; [done|by destruct (Hno j)].
  - intros j s Hj. destruct (_ =? 0)%nat; [apply (proj1 (drop_senders_Sent _ _ _)) in Hj|];
      by apply all_empty_Sent in Hj.
  - intros j s Hj. apply list_lookup_insert_Some in Hj as [(_ & Hj & _)|[_ Hj]]; [done|]. by eapply inv_received.
Qed.

Lemma step_inv st st' : lazy_inv st -> step st st' -> lazy_inv st'.
Proof.
  intros Hi [[k|k|k|k] Hs]; [by eapply start_inv|by eapply construct_inv|by eapply receive_inv|by eapply drop_inv].
Qed.

Lemma reachable_lazy_inv st : reachable st -> lazy_inv st.
Proof.
  unfold reachable. intros Hr. remember initial as st0 eqn:H0. assert (lazy_inv st0) as Hi by (subst; apply initial_inv).
  clear H0. induction Hr as [|st0 st1 st2 Hs _ IH]; [done|]. apply IH. by eapply step_inv.
Qed.


(** ** Every stream is received *)

Definition is_sent (cs : list channel) (k : nat) : Prop := exists s, cs !! k = Some (Sent s).

Lemma send_all_ok fs l cs :
  Forall (fun k => alive fs k = true /\ (k < length cs)%nat) l.*1 ->
  exists cs', send_all fs l cs = (cs', true) /\ length cs' = length cs /\
    (forall k, is_sent cs k -> is_sent cs' k) /\ Forall (is_sent cs') l.*1.
Proof.
  revert cs. induction l as [|[k s] l IH]; intros cs Hall; [by exists cs|].
  cbn in Hall. apply Forall_cons in Hall as [[Ha Hk] Hall].
  destruct (IH (<[k := Sent s]> cs)) as (cs' & Hs & Hl & Hmono & Hsent).
  { eapply Forall_impl; [exact Hall|]. intros j. by rewrite length_insert. }
  assert (is_sent (<[k := Sent s]> cs) k) as Hk1 by (exists s; by apply list_lookup_insert_eq).
  exists cs'. cbn. rewrite Ha. split; [done|]. split; [by rewrite Hl, length_insert|].
  split; [|by constructor; [apply Hmono|]]. intros j [s' Hj]. apply Hmono.
  destruct (decide (j = k)) as [->|Hne]; [done|]. exists s'. by rewrite list_lookup_insert_ne.
Qed.

Lemma deliver_ok fs senders l cs :
  NoDup l.*1 ->
  (forall o streams, (o, streams) ∈ l -> exists ks, senders !! o = Some ks /\ length ks = length streams /\
     Forall (fun k => alive fs k = true /\ (k < length cs)%nat) ks) ->
  exists cs', deliver fs senders l cs = (cs', true) /\ length cs' = length cs /\
    (forall k, is_sent cs k -> is_sent cs' k) /\
    (forall o streams ks, (o, streams) ∈ l -> senders !! o = Some ks -> Forall (is_sent cs') ks).
Proof.
  revert senders cs. induction l as [|[o streams] l IH]; intros senders cs Hnd Hs.
  { exists cs. split; [done|]. split; [done|]. split; [done|]. by intros o streams ks Hin%not_elem_of_nil. }
  cbn in Hnd. apply NoDup_cons in Hnd as [Ho Hnd].
  destruct (Hs o streams) as (ks & Hks & Hl & Hall); [left|].
  destruct (send_all_ok fs (zip ks streams) cs) as (cs1 & Hsend & Hl1 & Hm1 & Hs1).
  { by rewrite fst_zip by lia. }
  rewrite fst_zip in Hs1 by lia.
  destruct (IH (delete o senders) cs1 Hnd) as (cs2 & Hd & Hl2 & Hm2 & Hs2).
  { intros o' st' Hin. destruct (Hs o' st') as (ks' & Hks' & Hrest); [by right|]. exists ks'.
    rewrite Hl1. split; [|done]. rewrite lookup_delete_ne; [done|]. intros <-. apply Ho.
    apply list_elem_of_fmap. by exists (o, st'). }
  exists cs2. cbn. rewrite Hks, Hsend. split; [done|]. split; [congruence|]. split; [by auto|].
  intros o' st' ks' [[= -> ->]|Hin]%elem_of_cons Hk'.
  - rewrite Hks in Hk'. injection Hk' as <-. by eapply Forall_impl.
  - apply (Hs2 o' st'); [done|]. rewrite lookup_delete_ne; [done|]. intros <-. apply Ho.
    apply list_elem_of_fmap. by exists (o, st').
Qed.

Lemma groups_keys from l : (groups from l).*1 = l.*1.
Proof. revert from. induction l as [|[o c] l IH]; intros from; [done|]. cbn. by rewrite IH. Qed.

Lemma groups_seq from l o ks :
  (o, ks) ∈ groups from l -> exists f c, ks = seq f c /\ (o, c) ∈ l /\ (from <= f)%nat /\ (f + c <= from + total l)%nat.
Proof.
  revert from. induction l as [|[o' c] l IH]; intros from; cbn; [by intros ?%not_elem_of_nil|].
  intros [[= -> ->]|Hin]%elem_of_cons.
  - exists from, c. unfold total. cbn. split; [done|]. split; [left|]. lia.
  - destruct (IH _ Hin) as (f & c' & -> & Hc & Hf1 & Hf2). exists f, c'. unfold total in *. cbn.
    split; [done|]. split; [by right|]. lia.
Qed.

Lemma groups_cover from l k :
  (from <= k < from + total l)%nat -> exists o ks, (o, ks) ∈ groups from l /\ k ∈ ks.
Proof.
  revert from. induction l as [|[o c] l IH]; intros from; unfold total; cbn; [lia|]. intros Hk.
  destruct (decide (k < from + c)%nat) as [Hlt|Hge].
  - exists o, (seq from c). split; [left|]. apply elem_of_seq. lia.
  - destruct (IH (from + c)%nat) as (o' & ks & Hin & Hk'); [unfold total; lia|]. exists o', ks. split; [by right|done].
Qed.

Lemma collect_map_NoDup {A} (l : list (N * A)) k v : NoDup l.*1 -> (k, v) ∈ l -> collect_map l !! k = Some v.
Proof.
  intros Hnd Hin. unfold collect_map. rewrite foldl_insert, (right_id_L ∅ (∪)) by done.
  by apply elem_of_list_to_map.
Qed.

(** The constructor makes as many streams of every ordinal as were announced. *)
Definition fitting : Prop :=
  NoDup sizes.*1 /\ exists made', made = Some made' /\
    (fun '(o, streams) => (o, length streams)) <$> made' ≡ₚ sizes.

Lemma fitting_delivers fs cs :
  fitting -> length cs = total sizes -> (forall k, (k < total sizes)%nat -> alive fs k = true) ->
  exists made' cs', made = Some made' /\ deliver fs (collect_map (groups 0 sizes)) made' cs = (cs', true) /\
    length cs' = length cs /\ forall k, (k < total sizes)%nat -> is_sent cs' k.
Proof.
  intros (Hnd & made' & Hm & Hp) Hlen Halive.
  assert (forall o ks, (o, ks) ∈ groups 0 sizes -> collect_map (groups 0 sizes) !! o = Some ks) as Hget.
  { intros o ks. apply collect_map_NoDup. by rewrite groups_keys. }
  assert (made'.*1 ≡ₚ sizes.*1) as Hkeys.
  { rewrite <- Hp, <- list_fmap_compose. erewrite list_fmap_ext; [done|]. by intros i [o streams] _. }
  destruct (deliver_ok fs (collect_map (groups 0 sizes)) made' cs) as (cs' & Hd & Hl & _ & Hs).
  { by rewrite Hkeys. }
  { intros o streams Hin. assert ((o, length streams) ∈ sizes) as Hc.
    { rewrite <- Hp. apply list_elem_of_fmap. by exists (o, streams). }
    assert (o ∈ (groups 0 sizes).*1) as Ho.
    { rewrite groups_keys. apply list_elem_of_fmap. by exists (o, length streams). }
    apply list_elem_of_fmap in Ho as ([o' ks] & -> & Hin'). cbn [fst] in *. exists ks. split; [by apply Hget|].
    destruct (groups_seq _ _ _ _ Hin') as (f & c & -> & Hc' & _ & Hf). cbn in Hf. rewrite length_seq.
    split.
    - apply (elem_of_list_to_map_1 (M := gmap N) _ _ _ Hnd) in Hc, Hc'. congruence.
    - apply Forall_forall. intros k Hk%elem_of_seq. split; [apply Halive|]; lia. }
  exists made', cs'. split; [done|]. split; [done|]. split; [done|]. intros k Hk.
  destruct (groups_cover 0 sizes k) as (o & ks & Hin & Hk'); [lia|].
  assert (o ∈ made'.*1) as Ho.
  { rewrite Hkeys, <- (groups_keys 0). apply list_elem_of_fmap. by exists (o, ks). }
  apply list_elem_of_fmap in Ho as ([o' streams] & -> & Hin'). cbn [fst] in *.
  specialize (Hs _ _ _ Hin' (Hget _ _ Hin)). rewrite Forall_forall in Hs. by apply Hs.
Qed.

(** No stream was dropped. *)
Record live_inv (st : Lazy) : Prop := mkLive {
  live_lazy : lazy_inv st;
  live_fibers : forall k f, fibers st !! k = Some f -> f <> Panicked /\ f <> Dropped;
  live_calls : (0 < total sizes)%nat -> arcs st = 0%nat -> calls st = 1%nat;
  live_open : forall k, channels st !! k <> Some Closed;
  live_sent : calls st = 1%nat -> (forall k, fibers st !! k <> Some Constructing) ->
    forall k, (k < total sizes)%nat -> is_sent (channels st) k;
}.

Definition live_step (st st' : Lazy) : Prop :=
  exists e, (forall k, e <> Drop k) /\ do_event e st = Some st'.

Lemma live_initial : live_inv initial.
Proof.
  split; [apply initial_inv|..]; unfold initial, lazily_evaluate_constructor; cbn.
  - by intros k f [-> _]%lookup_replicate.
  - lia.
  - by intros k [? _]%lookup_replicate.
  - done.
Qed.

Lemma insert_fibers (fs : list fiber) k g (P : fiber -> Prop) :
  (forall j f, fs !! j = Some f -> P f) -> P g -> forall j f, <[k := g]> fs !! j = Some f -> P f.
Proof. intros Hfs Hg j f [(_ & <- & _)|[_ Hj]]%list_lookup_insert_Some; [done|by eapply Hfs]. Qed.

Lemma live_alive st k : live_inv st -> (k < total sizes)%nat -> alive (fibers st) k = true.
Proof.
  intros Hl Hk. unfold alive. rewrite <- (inv_fibers st (live_lazy st Hl)) in Hk.
  apply lookup_lt_is_Some in Hk as [f Hf]. rewrite Hf. destruct (live_fibers st Hl k f Hf) as [_ Hd].
  by destruct f.
Qed.

Lemma live_start k st st' : live_inv st -> start k st = Some st' -> live_inv st'.
Proof.
  intros Hl Hs. pose proof (start_inv k st st' (live_lazy st Hl) Hs) as Hi. revert Hs. unfold start.
  destruct (fibers st !! k) as [f|] eqn:Hk; [|done]. destruct f; try done.
  destruct (inv_before st k (live_lazy st Hl) Hk) as (Hn & Hc & He & Hno & _).
  destruct (Nat.eqb_spec (arcs st - 1) 0) as [Hz|Hz]; intros [= <-].
  - split; [done|..]; cbn; [by apply insert_fibers; [apply Hl|]|lia|apply Hl|].
    intros _ Hc'. destruct (Hc' k). apply list_lookup_insert_eq. by eapply lookup_lt_Some.
  - split; [done|..]; cbn; [by apply insert_fibers; [apply Hl|]|lia|apply Hl|lia].
Qed.

Lemma live_construct k st st' : fitting -> live_inv st -> construct k st = Some st' -> live_inv st'.
Proof.
  intros Hfit Hl Hs. pose proof (construct_inv k st st' (live_lazy st Hl) Hs) as Hi. revert Hs. unfold construct.
  destruct (fibers st !! k) as [f|] eqn:Hk; [|done]. destruct f; try done.
  destruct (inv_constructing st (live_lazy st Hl) k Hk) as (Hc & _ & Huniq).
  destruct (fitting_delivers (fibers st) (channels st) Hfit) as (made' & cs & Hm & Hd & Hlen & Hsent).
  { apply Hl. }
  { intros j. by apply live_alive. }
  rewrite Hm, Hd. intros [= <-].
  assert (forall j, (j < total sizes)%nat -> is_sent (drop_senders cs) j) as Hall.
  { intros j Hj. destruct (Hsent j Hj) as [s Hs]. exists s. by apply drop_senders_Sent. }
  split; [done|..]; cbn; [by apply insert_fibers; [apply Hl|]|done| |done].
  intros j Hj. assert (j < total sizes)%nat as Hlt.
  { apply lookup_lt_Some in Hj. unfold drop_senders in Hj. rewrite length_fmap, Hlen in Hj.
    by rewrite (inv_channels st (live_lazy st Hl)) in Hj. }
  destruct (Hall j Hlt) as [s Hs]. congruence.
Qed.

Lemma live_receive k st st' : live_inv st -> receive k st = Some st' -> live_inv st'.
Proof.
  intros Hl Hs. pose proof (receive_inv k st st' (live_lazy st Hl) Hs) as Hi. revert Hs. unfold receive.
  destruct (fibers st !! k) as [f|] eqn:Hk; [|done]. destruct f; try done.
  destruct (channels st !! k) as [[|s|]|] eqn:Hc; try done; intros [= <-]; [|by destruct (live_open st Hl k)].
  split; [done|..]; cbn; [by apply insert_fibers; [apply Hl|]|apply Hl|apply Hl|].
  intros Hc1 Hno. apply (live_sent st Hl Hc1). intros j Hj. apply (Hno j).
  rewrite list_lookup_insert_ne; [done|]. intros <-. congruence.
Qed.

Lemma live_reachable st : fitting -> rtc live_step initial st -> live_inv st.
Proof.
  intros Hfit Hr. remember initial as st0 eqn:H0. assert (live_inv st0) as Hi by (subst; apply live_initial).
  clear H0. induction Hr as [|st0 st1 st2 [e [Hnd He]] _ IH]; [done|]. apply IH. destruct e as [k|k|k|k]; cbn in He.
  - by eapply live_start.
  - by eapply live_construct.
  - by eapply live_receive.
  - by destruct (Hnd k).
Qed.

(** Every step moves a stream forward. *)
Definition weight (f : fiber) : nat :=
  match f with Idle => 4 | Constructing => 3 | Waiting => 2 | Received _ | Panicked => 1 | Dropped => 0 end.
Definition to_do (st : Lazy) : nat := sum_list (weight <$> fibers st).

Lemma to_do_insert fs k f g :
  fs !! k = Some f -> (weight g < weight f)%nat ->
  (sum_list (weight <$> <[k := g]> fs) < sum_list (weight <$> fs))%nat.
Proof.
  revert k. induction fs as [|h fs IH]; intros [|k] Hk Hw; simpl in *; try done.
  - injection Hk as ->. lia.
  - apply Nat.add_lt_mono_l. exact (IH k Hk Hw).
Qed.

Lemma step_to_do st st' : step st st' -> (to_do st' < to_do st)%nat.
Proof.
  intros [e He]. unfold to_do. destruct e as [k|k|k|k]; cbn in He.
  - unfold start in He. destruct (fibers st !! k) as [[| | | | |]|] eqn:Hk; try done.
    destruct (_ =? 0)%nat; injection He as <-; eapply to_do_insert; try exact Hk; cbn; lia.
  - unfold construct in He. destruct (fibers st !! k) as [[| | | | |]|] eqn:Hk; try done.
    destruct (match made with Some _ => _ | None => _ end) as [cs ok].
    injection He as <-. eapply to_do_insert; [exact Hk|]. destruct ok; cbn; lia.
  - unfold receive in He. destruct (fibers st !! k) as [[| | | | |]|] eqn:Hk; try done.
    destruct (channels st !! k) as [[| |]|]; try done; injection He as <-; eapply to_do_insert; try exact Hk; cbn; lia.
  - unfold drop_stream in He. destruct (fibers st !! k) as [[| | | | |]|] eqn:Hk; try done; injection He as <-;
      eapply to_do_insert; try exact Hk; cbn; lia.
Qed.

Lemma steps_to_do n st st' : nsteps step n st st' -> (n + to_do st' <= to_do st)%nat.
Proof. induction 1 as [|n st st1 st' Hs%step_to_do _ IH]; lia. Qed.

Lemma to_do_initial : to_do initial = (4 * total sizes)%nat.
Proof.
  unfold to_do, initial, lazily_evaluate_constructor. cbn [fst fibers].
  rewrite fmap_replicate, sum_list_replicate. cbn [weight]. lia.
Qed.

(** Every stream is received.  When the constructor makes as many streams of every ordinal
    as were announced and no stream is dropped, then, in whatever order the streams are polled,
    as long as a stream has not received its stream some step is possible, no stream panics,
    and after at most four steps per stream all have received the stream that was made for
    them. *)
Theorem lazy_streams_received :
  fitting ->
  (forall n st, nsteps step n initial st -> (n <= 4 * total sizes)%nat) /\
  (forall st, rtc live_step initial st ->
     (forall k, fibers st !! k <> Some Panicked) /\
     ((forall st', ~ live_step st st') ->
      forall k, (k < total sizes)%nat -> exists s, fibers st !! k = Some (Received s) /\ made_for k s)).
Proof.
  intros Hfit. split.
  { intros n st Hn%steps_to_do. rewrite to_do_initial in Hn. lia. }
  intros st Hl%(live_reachable st Hfit). split.
  { intros k Hk. by destruct (live_fibers st Hl k _ Hk). }
  intros Hstuck k Hk. pose proof (live_lazy st Hl) as Hi.
  assert (forall e, (forall j, e <> Drop j) -> do_event e st = None) as Hno.
  { intros e He. destruct (do_event e st) as [st'|] eqn:Hd; [|done]. destruct (Hstuck st'). by exists e. }
  assert (forall j, fibers st !! j <> Some Idle) as Hidle.
  { intros j Hj. specialize (Hno (Start j) ltac:(done)). cbn in Hno. unfold start in Hno. by rewrite Hj in Hno. }
  assert (forall j, fibers st !! j <> Some Constructing) as Hcons.
  { intros j Hj. specialize (Hno (Construct j) ltac:(done)). cbn in Hno. unfold construct in Hno. rewrite Hj in Hno.
    by destruct (match made with Some _ => _ | None => _ end). }
  assert (idle (fibers st) = 0%nat) as Hz.
  { unfold idle. destruct (List.filter is_idle (fibers st)) as [|f l] eqn:Hf; [done|]. exfalso.
    assert (f ∈ List.filter is_idle (fibers st)) as Hin by (rewrite Hf; left).
    apply list_elem_of_In, filter_In in Hin as [Hin Hff]. apply list_elem_of_In, list_elem_of_lookup in Hin as [j Hj].
    destruct f; try done. by destruct (Hidle j). }
  assert (is_sent (channels st) k) as [s Hs].
  { apply (live_sent st Hl); [|done..]. apply (live_calls st Hl); [lia|]. by rewrite (inv_arcs st Hi). }
  rewrite <- (inv_fibers st Hi) in Hk. apply lookup_lt_is_Some in Hk as [f Hf].
  destruct (live_fibers st Hl k f Hf) as [Hp Hd].
  destruct f as [| | |s'| |]; try done; [by destruct (Hidle k)|by destruct (Hcons k)| |].
  - specialize (Hno (Receive k) ltac:(done)). cbn in Hno. unfold receive in Hno. by rewrite Hf, Hs in Hno.
  - exists s'. split; [done|]. by eapply inv_received.
Qed.

(** A stream that is dropped before it is polled can take the constructor along: if it held the
    last handle, every stream that waits for its receiver panics. *)
Theorem unpolled_drop_fails_the_others st k :
  reachable st -> fibers st !! k = Some Idle -> arcs st = 1%nat ->
  exists st', drop_stream k st = Some st' /\ calls st' = 0%nat /\
    forall j, fibers st' !! j = Some Waiting -> receive j st' = Some (with_fiber st' j Panicked).
Proof.
  intros Hi%reachable_lazy_inv Hk Ha. destruct (inv_before st k Hi Hk) as (_ & Hc & He & _).
  eexists. split; [unfold drop_stream; by rewrite Hk|]. split; [done|].
  intros j Hj. unfold receive. rewrite Hj. cbn [channels]. rewrite Ha. cbn [Nat.sub Nat.eqb].
  assert (j < length (channels st))%nat as Hlt.
  { apply lookup_lt_Some in Hj. cbn in Hj. rewrite length_insert in Hj.
    by rewrite (inv_channels st Hi), <- (inv_fibers st Hi). }
  apply lookup_lt_is_Some in Hlt as [c Hcj]. unfold drop_senders. rewrite list_lookup_fmap, Hcj. cbn.
  by rewrite (Forall_lookup_1 _ _ _ _ He Hcj).
Qed.

Lemma run_events_steps es st st' :
  run_events es st = Some st' -> rtc step st st' /\
  (Forall (fun e => forall k, e <> Drop k) es -> rtc live_step st st').
Proof.
  revert st. induction es as [|e es IH]; intros st; cbn; [intros [= <-]; split; intros; apply rtc_refl|].
  destruct (do_event e st) as [st1|] eqn:He; cbn.
  - intros [Hr Hl]%IH. split; [eapply rtc_l; [by exists e|done]|].
    intros [Hd Hes]%Forall_cons. eapply rtc_l; [by exists e|]. by apply Hl.
  - intros Hn. exfalso. clear -Hn. induction es as [|e' es IH]; [done|]. by apply IH.
Qed.
End lazy.

(** ** The streams of the test of lazy_operator.rs *)

Definition example_sizes : list (N * nat) := [(0, 2%nat); (1, 1%nat)].
Definition example_made : option (list (N * list (list N))) := Some [(0, [[1]; [2]]); (1, [[3]])].

(** The second stream is polled first, the third one last. *)
Definition example_events : list event :=
  [Start 1; Start 0; Start 2; Construct 2; Receive 0; Receive 2; Receive 1].


Lemma lazy_streams_received_witness :
  (forall n st, nsteps (step example_sizes example_made) n (initial example_sizes) st -> (n <= 12)%nat) /\
  forall st, rtc (live_step example_sizes example_made) (initial example_sizes) st ->
    forall k, fibers st !! k <> Some Panicked.
Proof.
  destruct (lazy_streams_received example_sizes example_made) as [Hn Hr].
  - split; [apply (bool_decide_eq_true_1 _); vm_compute; reflexivity|]. eexists. split; [reflexivity|]. reflexivity.
  - split; [exact Hn|]. intros st Hst. apply (Hr st Hst).
Defined.

(** Two of the streams wait when the third one is dropped unpolled: both panic. *)
Lemma unpolled_drop_fails_the_others_witness :
  exists st st', run_events example_sizes example_made [Start 0; Start 2] (initial example_sizes) = Some st /\
    drop_stream 1 st = Some st' /\ receive 0 st' = Some (with_fiber st' 0 Panicked).
Proof.
  eexists. destruct (unpolled_drop_fails_the_others example_sizes example_made
    (mkLazy 1 0 [Empty; Empty; Empty] [Waiting; Idle; Waiting]) 1) as (st' & Hd & _ & Hp).
  - apply (run_events_steps example_sizes example_made [Start 0; Start 2]). reflexivity.
  - reflexivity.
  - reflexivity.
  - exists st'. split; [reflexivity|]. split; [exact Hd|]. apply Hp. injection Hd as <-. reflexivity.
Defined.
