(* ===== verification/Nested.v ===== *)
(** * Nested operators (src/streaming/operators/nested.rs, utils/example_ref_storage.rs)

    A nested operator runs a graph of operators inside one task.  The operators find each
    other's streams in a [Store]: an operator takes its inputs from it, runs, and inserts its
    outputs.  The operators are futures of a [FuturesUnordered], which are first polled in the
    order of insertion, that is, in the order in which the operators are listed.

    A take of a stream that is not there yet leaves a [Waiting] entry in the store, and
    [insert] refuses every occupied entry, a waiting one too: the sender half is never used, so
    a take that has to wait is never answered.  A nested operator therefore works exactly when
    every operator is listed after the operators it reads from; for such lists it computes the
    dataflow semantics of the graph. *)

From S2P Require Import Prelude Arrow Partitioning Stream Generation FileSystem CheckpointStorage StateBackend KeyedState FiberStream Source Count CountStar CountByKey Operators.

(** ** The store (utils/example_ref_storage.rs) *)

(** [Waiting] holds the sender half of the channel on which the taker waits. *)
Inductive StoreItem (T : Type) := Waiting | Stored (value : option T).
Arguments Waiting {T}.
Arguments Stored {T} _.

Abbreviation Store T := (gmap string (StoreItem T)).

Section store.
Context {T : Type}.

Definition store_new : Store T := ∅.

Definition already_taken : DataFusionError := Internal "Spot in store already taken".

Definition store_insert (key : string) (value : T) : act (Store T) DataFusionError () := fun st =>
  match st !! key with
  | Some _ => (st, Err already_taken)
  | None => (<[key := Stored (Some value)]> st, Ok tt)
  end.

(** One poll of [take]: [Pending] when it waits for the channel it has just put into the map. *)
Definition store_take (key : string) : act (Store T) DataFusionError (Poll T) := fun st =>
  match st !! key with
  | Some (Stored (Some value)) => (<[key := Stored None]> st, Ok (Ready value))
  | Some (Stored None) =>
      (<[key := Stored None]> st, Err (Internal ("Another operator already took this value " +:+ key)))
  | Some Waiting =>
      (st, Err (Internal ("Another operator was already waiting for item " +:+ key)))
  | None => (<[key := Waiting]> st, Ok Pending)
  end.
End store.

(** ** Running the operators *)

Definition unwrap_err : string := "called `Result::unwrap()` on an `Err` value".

Section tasks.
Context {Spec F T : Type}.

(** An operator to run: its definition, its function, and what running it does. *)
Record task := mkTask {
  t_def : OperatorDefinition Spec;
  t_self : F;
  t_run : list (N * T) -> F * Poll (res DataFusionError (list (N * T)));
}.

Definition no_stream_id (ordinal : N) : DataFusionError :=
  Internal ("No stream id found for ordinal " +:+ pretty ordinal).

(** The takes of all the inputs, polled in order; [None] when one of them has to wait. *)
Fixpoint take_all (ids : list (N * string)) : act (Store T) DataFusionError (option (list (N * T))) :=
  match ids with
  | [] => mret (Some [])
  | (ordinal, id) :: ids => fun st =>
      match store_take id st with
      | (st, Ok (Ready v)) => (rest ← take_all ids; mret (cons (ordinal, v) <$> rest)) st
      | (st, Ok Pending) => (_ ← take_all ids; mret None) st
      | (st, Err _) => (st, Panic unwrap_err)
      | (st, Panic w) => (st, Panic w)
      end
  end.

Definition input_ids (d : OperatorDefinition Spec) : list (N * string) :=
  (fun i => (in_ordinal i, in_stream_id i)) <$> def_inputs d.
Definition output_ids (d : OperatorDefinition Spec) : gmap N string :=
  collect_map ((fun o => (out_ordinal o, out_stream_id o)) <$> def_outputs d).

(** The loop of [temp] that stores the outputs. *)
Definition register (lookup : gmap N string) : list (N * T) -> act (Store T) DataFusionError () :=
  for_each (fun '(ordinal, s) =>
    id ← lift (ok_or (no_stream_id ordinal) (lookup !! ordinal)); store_insert id s).

(** [temp] *)
Definition temp (t : task) (input_streams : list (N * T)) (st : Store T)
    : Store T * (F * Poll (res DataFusionError ())) :=
  match t_run t input_streams with
  | (self, Ready (Ok outputs)) =>
      let '(st, r) := register (output_ids (t_def t)) outputs st in (st, (self, Ready r))
  | (self, Ready (Err e)) => (st, (self, Ready (Err e)))
  | (self, Ready (Panic w)) => (st, (self, Ready (Panic w)))
  | (self, Pending) => (st, (self, Pending))
  end.

(** [run_operator] *)
Definition run_operator (t : task) (st : Store T) : Store T * (F * Poll (res DataFusionError ())) :=
  match take_all (input_ids (t_def t)) st with
  | (st, Ok (Some input_streams)) => temp t input_streams st
  | (st, Ok None) => (st, (t_self t, Pending))
  | (st, Err e) => (st, (t_self t, Ready (Err e)))
  | (st, Panic w) => (st, (t_self t, Ready (Panic w)))
  end.

(** [try_collect] over the operators: an error stops it, waiting operators keep it waiting. *)
Fixpoint poll_operators (ts : list task) (st : Store T)
    : Store T * (list F * Poll (res DataFusionError ())) :=
  match ts with
  | [] => (st, ([], Ready (Ok tt)))
  | t :: ts =>
      match run_operator t st with
      | (st, (self, Ready (Ok _))) =>
          let '(st, (selves, r)) := poll_operators ts st in (st, (self :: selves, r))
      | (st, (self, Pending)) =>
          let '(st, (selves, r)) := poll_operators ts st in
          (st, (self :: selves, match r with Ready (Ok _) => Pending | r => r end))
      | (st, (self, Ready r)) => (st, (self :: (t_self <$> ts), Ready r))
      end
  end.

(** The external inputs go into the store under the ids of their ordinals; [unwrap] panics. *)
Definition add_inputs (lookup : gmap N string) : list (N * T) -> act (Store T) DataFusionError () :=
  for_each (fun '(ordinal, s) =>
    id ← lift (match lookup !! ordinal with Some id => Ok id | None => Panic unwrap_err end);
    store_insert id s).

Definition run_all_operators (external_input_streams : list (N * T)) (input_stream_ids : list (N * string))
    (operators : list task) (output_stream_ids : list (N * string))
    : list F * Poll (res DataFusionError (list (N * T))) :=
  let unchanged := t_self <$> operators in
  match add_inputs (collect_map input_stream_ids) external_input_streams store_new with
  | (st, Ok _) =>
      match poll_operators operators st with
      | (st, (selves, Ready (Ok _))) =>
          match take_all output_stream_ids st with
          | (_, Ok (Some outs)) => (selves, Ready (Ok outs))
          | (_, Ok None) => (selves, Pending)
          | (_, Err e) => (selves, Ready (Err e))
          | (_, Panic w) => (selves, Ready (Panic w))
          end
      | (_, (selves, Ready (Err e))) => (selves, Ready (Err e))
      | (_, (selves, Ready (Panic w))) => (selves, Ready (Panic w))
      | (_, (selves, Pending)) => (selves, Pending)
      end
  | (_, Err e) => (unchanged, Ready (Err e))
  | (_, Panic w) => (unchanged, Ready (Panic w))
  end.
End tasks.

(** ** The dispatch of the operator functions *)

Section functions.
Context {S B Out In FOut FIn : Type} `{KeyedState S} `{Profile} `{SelectAll}.
Context `{OperatorFunction2 FOut B, OperatorFunction2 FIn B}.
Context (open_new : string -> PartitionRange -> res DataFusionError S).
Context (num_rows : B -> N) (count_batch : N -> res DataFusionError B).
Context (evaluate : string -> B -> res DataFusionError ColumnarValue).
Context (counts_batch : list N -> list N -> res DataFusionError B).
Context (iter : gmap N N -> list (N * N)).

Abbreviation Fn := (OperatorFn S B Out In FOut FIn).

#[local] Existing Instance source_function.
#[local] Hint Extern 0 (OperatorFunction2 (CountStarFunction) _) =>
  exact (count_star_function open_new num_rows count_batch) : typeclass_instances.
#[local] Hint Extern 0 (OperatorFunction2 (CountByKeyFunction) _) =>
  exact (count_by_key_function open_new evaluate counts_batch iter) : typeclass_instances.

Definition wrap_fn {F A} (c : F -> Fn) (r : F * A) : Fn * A := (c r.1, r.2).

(** [try_collect::<()>] over futures that complete when polled: an error stops it. *)
Fixpoint try_each {D F} (fs : list (D * F * (F * res DataFusionError ())))
    : list (D * F) * res DataFusionError () :=
  match fs with
  | [] => ([], Ok tt)
  | (d, _, (self, Ok _)) :: fs => let '(rest, r) := try_each fs in ((d, self) :: rest, r)
  | (d, _, (self, r)) :: fs => ((d, self) :: (fst <$> fs), r)
  end.

Fixpoint fn_init (generations : option (list GenerationSpec)) (state_id : string) (f : Fn)
    : Fn * res DataFusionError () :=
  match f with
  | FIdentity f => wrap_fn FIdentity (op_init (B := B) generations state_id f)
  | FSource f => wrap_fn FSource (op_init generations state_id f)
  | FCountStar f => wrap_fn FCountStar (op_init (B := B) generations state_id f)
  | FCountByKey f => wrap_fn FCountByKey (op_init (B := B) generations state_id f)
  | FNested ins fs outs =>
      let '(fs, r) := try_each
        ((fun '(d, f) => (d, f, fn_init generations (def_state_id d) f)) <$> fs) in
      (FNested ins fs outs, r)
  | FRemoteOutput f => wrap_fn FRemoteOutput (op_init generations state_id f)
  | FRemoteInput f => wrap_fn FRemoteInput (op_init generations state_id f)
  end.

Fixpoint fn_load (checkpoint : N) (f : Fn) : Fn * res DataFusionError () :=
  match f with
  | FIdentity f => wrap_fn FIdentity (op_load (B := B) checkpoint f)
  | FSource f => wrap_fn FSource (op_load checkpoint f)
  | FCountStar f => wrap_fn FCountStar (op_load (B := B) checkpoint f)
  | FCountByKey f => wrap_fn FCountByKey (op_load (B := B) checkpoint f)
  | FNested ins fs outs =>
      let '(fs, r) := try_each ((fun '(d, f) => (d, f, fn_load checkpoint f)) <$> fs) in
      (FNested ins fs outs, r)
  | FRemoteOutput f => wrap_fn FRemoteOutput (op_load checkpoint f)
  | FRemoteInput f => wrap_fn FRemoteInput (op_load checkpoint f)
  end.

Definition ready_run {F} `{OperatorFunction2 F B} (c : F -> Fn) (f : F) (inputs : streams B)
    : Fn * Poll (res DataFusionError (streams B)) :=
  let '(f, r) := op_run inputs f in (c f, Ready r).

Fixpoint fn_run (f : Fn) (inputs : streams B) : Fn * Poll (res DataFusionError (streams B)) :=
  match f with
  | FIdentity f => ready_run FIdentity f inputs
  | FSource f => ready_run FSource f inputs
  | FCountStar f => ready_run FCountStar f inputs
  | FCountByKey f => ready_run FCountByKey f inputs
  | FNested ins fs outs =>
      let tasks := (fun '(d, f) => mkTask d f (fn_run f)) <$> fs in
      let '(selves, r) := run_all_operators inputs ins tasks outs in
      (FNested ins (zip_with (fun '(d, _) self => (d, self)) fs selves) outs, r)
  | FRemoteOutput f => ready_run FRemoteOutput f inputs
  | FRemoteInput f => ready_run FRemoteInput f inputs
  end.
End functions.

(** ** The dataflow of a graph of operators *)

Section dataflow.
Context {Spec F T : Type}.

Abbreviation tsk := (task (Spec := Spec) (F := F) (T := T)).

(** Naming the outputs of an operator: an unknown ordinal or a name in use is an error. *)
Fixpoint publish (lookup : gmap N string) (outs : list (N * T)) (env : gmap string T)
    : res DataFusionError (gmap string T) :=
  match outs with
  | [] => Ok env
  | (ordinal, s) :: outs =>
      id ← ok_or (no_stream_id ordinal) (lookup !! ordinal);
      match env !! id with
      | Some _ => Err already_taken
      | None => publish lookup outs (<[id := s]> env)
      end
  end.

Definition gather (env : gmap string T) (ids : list (N * string)) : option (list (N * T)) :=
  mapM (fun '(ordinal, id) => pair ordinal <$> env !! id) ids.

(** Each operator is applied to the streams of the operators before it.  [None]: an operator
    reads a stream that no operator before it makes, or does not return. *)
Fixpoint dataflow (env : gmap string T) (ts : list tsk) : option (res DataFusionError (gmap string T)) :=
  match ts with
  | [] => Some (Ok env)
  | t :: ts =>
      ins ← gather env (input_ids (t_def t));
      match snd (t_run t ins) with
      | Ready (Ok outs) =>
          match publish (output_ids (t_def t)) outs env with
          | Ok env => dataflow env ts
          | Err e => Some (Err e)
          | Panic w => Some (Panic w)
          end
      | Ready (Err e) => Some (Err e)
      | Ready (Panic w) => Some (Panic w)
      | Pending => None
      end
  end.

(** The streams read by the operators. *)
Definition consumed (ts : list tsk) : list string := concat ((fun t => (input_ids (t_def t)).*2) <$> ts).

(** The store holds the streams of [env], less those in [C], which were taken. *)
Definition represents (st : Store T) (env : gmap string T) (C : gset string) : Prop :=
  C ⊆ dom env /\
  forall id, st !! id = (fun v => Stored (if decide (id ∈ C) then None else Some v)) <$> env !! id.

Lemma take_represents st env C id v :
  represents st env C -> id ∉ C -> env !! id = Some v ->
  exists st', store_take id st = (st', Ok (Ready v)) /\ represents st' env ({[id]} ∪ C).
Proof.
  intros [HC Hst] Hid Hv. exists (<[id := Stored None]> st). unfold store_take. rewrite Hst, Hv. cbn.
  rewrite decide_False by done. split; [done|]. split.
  - apply elem_of_dom_2 in Hv. set_solver.
  - intros id'. destruct (decide (id' = id)) as [->|Hne].
    + rewrite lookup_insert_eq, Hv. cbn. by rewrite decide_True by set_solver.
    + rewrite lookup_insert_ne, Hst by done.
      destruct (env !! id') as [v'|]; cbn; [|done]. do 2 f_equal.
      apply decide_ext. set_solver.
Qed.

Lemma take_all_represents ids st env C l :
  represents st env C -> NoDup ids.*2 -> (forall id, id ∈ ids.*2 -> id ∉ C) ->
  gather env ids = Some l ->
  exists st', take_all ids st = (st', Ok (Some l)) /\ represents st' env (list_to_set ids.*2 ∪ C).
Proof.
  revert st C l. induction ids as [|[o id] ids IH]; intros st C l Hr Hnd HC Hg; cbn in *.
  - injection Hg as <-. exists st. split; [done|]. by rewrite (left_id_L ∅ (∪)).
  - apply NoDup_cons in Hnd as [Hid Hnd].
    apply bind_Some in Hg as (? & (v & Hv & ->)%fmap_Some & Hg).
    apply bind_Some in Hg as (l' & Hg & [= <-]).
    destruct (take_represents st env C id v Hr) as (st1 & Ht & Hr1); [apply HC; set_solver|done|].
    destruct (IH st1 ({[id]} ∪ C) l' Hr1 Hnd) as (st2 & Ha & Hr2); [set_solver|done|].
    exists st2. rewrite Ht. erewrite act_bind_Ok by exact Ha. split; [done|].
    replace ({[id]} ∪ list_to_set ids.*2 ∪ C) with (list_to_set ids.*2 ∪ ({[id]} ∪ C) : gset string)
      by set_solver. done.
Qed.

(** A stream that is not in the store cannot be taken. *)
Definition no_value (st : Store T) (id : string) : Prop := forall v, st !! id <> Some (Stored (Some v)).

Lemma take_no_value st st' id id' r :
  no_value st id -> store_take id' st = (st', r) -> no_value st' id /\ (id' = id -> forall v, r <> Ok (Ready v)).
Proof.
  intros Hn Ht. unfold store_take in Ht. destruct (decide (id' = id)) as [->|Hne].
  - destruct (st !! id) as [[|[v|]]|] eqn:Hs; simplify_eq; try (by destruct (Hn v)).
    + done.
    + split; [|done]. intros v. by rewrite lookup_insert_eq.
    + split; [|done]. intros v. by rewrite lookup_insert_eq.
  - split; [|done]. intros v.
    destruct (st !! id') as [[|[v'|]]|]; simplify_eq; try apply Hn; rewrite lookup_insert_ne by done; apply Hn.
Qed.

Lemma take_all_no_value ids st st' id :
  no_value st id -> id ∈ ids.*2 -> forall l, take_all ids st <> (st', Ok (Some l)).
Proof.
  revert st st'. induction ids as [|[o id'] ids IH]; intros st st' Hn Hin l; cbn; [by apply not_elem_of_nil in Hin|].
  destruct (store_take id' st) as [st1 r] eqn:Ht.
  destruct (take_no_value st st1 id id' r Hn Ht) as [Hn1 Hr].
  destruct r as [[v|]|e|w]; [| |done|done].
  - assert (id ∈ ids.*2) as Hin'.
    { apply elem_of_cons in Hin as [->|]; [by destruct (Hr eq_refl v)|done]. }
    intros (st2 & rest & Ha & Hm)%act_bind_inv.
    destruct rest as [l'|]; [by destruct (IH st1 st2 Hn1 Hin' l')|]. by inversion Hm.
  - intros (st2 & rest & _ & Hm)%act_bind_inv. by inversion Hm.
Qed.

Lemma gather_None env ids : gather env ids = None -> exists id, id ∈ ids.*2 /\ env !! id = None.
Proof.
  induction ids as [|[o id] ids IH]; cbn; [done|]. destruct (env !! id) as [v|] eqn:Hv; cbn.
  - unfold gather in IH. destruct (mapM _ ids); cbn; [done|]. intros _.
    destruct (IH eq_refl) as (id' & Hin & He). exists id'. set_solver.
  - intros _. exists id. set_solver.
Qed.

(** Storing the outputs of an operator is [publish]. *)
Lemma register_represents lookup outs st env C :
  represents st env C ->
  exists st', register lookup outs st =
    (st', match publish lookup outs env with Ok _ => Ok tt | Err e => Err e | Panic w => Panic w end) /\
    forall env', publish lookup outs env = Ok env' -> represents st' env' C.
Proof.
  revert st env. induction outs as [|[o s] outs IH]; intros st env Hr; cbn.
  - exists st. split; [done|]. by intros ? [= <-].
  - unfold mbind, act_bind, lift. destruct (lookup !! o) as [id|]; cbn; [|by exists st].
    pose proof Hr as [HC Hst]. unfold store_insert. rewrite Hst.
    destruct (env !! id) as [v|] eqn:Hv; cbn; [by exists st|]. apply IH. split.
    + rewrite dom_insert. set_solver.
    + assert (id ∉ C) as Hid by (intros Hin; apply HC, elem_of_dom in Hin as [? ?]; congruence).
      intros id'. destruct (decide (id' = id)) as [->|Hne].
      * rewrite !lookup_insert_eq. cbn. by rewrite decide_False.
      * rewrite !lookup_insert_ne by done. apply Hst.
Qed.

(** One operator in a store that represents [env]. *)
Lemma run_operator_represents (t : tsk) st env C ins :
  represents st env C -> NoDup (input_ids (t_def t)).*2 ->
  (forall id, id ∈ (input_ids (t_def t)).*2 -> id ∉ C) -> gather env (input_ids (t_def t)) = Some ins ->
  exists st' self, run_operator t st = (st', (self,
    match snd (t_run t ins) with
    | Ready (Ok outs) =>
        match publish (output_ids (t_def t)) outs env with
        | Ok _ => Ready (Ok tt) | Err e => Ready (Err e) | Panic w => Ready (Panic w)
        end
    | Ready (Err e) => Ready (Err e) | Ready (Panic w) => Ready (Panic w) | Pending => Pending
    end)) /\
    forall outs env', snd (t_run t ins) = Ready (Ok outs) ->
      publish (output_ids (t_def t)) outs env = Ok env' ->
      represents st' env' (list_to_set (input_ids (t_def t)).*2 ∪ C).
Proof.
  intros Hr Hnd HC Hg.
  destruct (take_all_represents _ _ _ _ _ Hr Hnd HC Hg) as (st1 & Ht & Hr1).
  unfold run_operator. rewrite Ht. unfold temp.
  destruct (t_run t ins) as [self [[outs|e|w]|]]; cbn; [|by exists st1, self..].
  destruct (register_represents (output_ids (t_def t)) outs st1 env _ Hr1) as (st2 & Hreg & Hr2).
  rewrite Hreg. exists st2, self.
  split; [by destruct (publish _ outs env)|]. intros outs' env' [= <-]. apply Hr2.
Qed.

Lemma run_operator_missing (t : tsk) st env C :
  represents st env C -> gather env (input_ids (t_def t)) = None ->
  forall st' self u, run_operator t st <> (st', (self, Ready (Ok u))).
Proof.
  intros [_ Hst] Hg st' self u. apply gather_None in Hg as (id & Hin & He).
  assert (no_value st id) as Hn by (intros v; by rewrite Hst, He).
  unfold run_operator. destruct (take_all (input_ids (t_def t)) st) as [st1 [[l|]|e|w]] eqn:Ht; [|done..].
  by destruct (take_all_no_value _ _ st1 id Hn Hin l).
Qed.

Definition follows (r : Poll (res DataFusionError ())) (st : Store T) (C : gset string)
    (flow : option (res DataFusionError (gmap string T))) : Prop :=
  match flow with
  | Some (Ok env) => r = Ready (Ok tt) /\ represents st env C
  | Some (Err e) => r = Ready (Err e)
  | Some (Panic w) => r = Ready (Panic w)
  | None => forall u, r <> Ready (Ok u)
  end.

(** Polling the operators in order follows the dataflow. *)
Lemma poll_operators_follows ts st env C :
  represents st env C -> NoDup (consumed ts) -> (forall id, id ∈ consumed ts -> id ∉ C) ->
  exists st' selves r, poll_operators ts st = (st', (selves, r)) /\
    follows r st' (list_to_set (consumed ts) ∪ C) (dataflow env ts).
Proof.
  revert st env C. induction ts as [|t ts IH]; intros st env C Hr Hnd HC; cbn -[consumed].
  { exists st, [], (Ready (Ok tt)). split; [done|]. split; [done|].
    by replace (list_to_set (consumed []) ∪ C) with C by set_solver. }
  change (consumed (t :: ts)) with ((input_ids (t_def t)).*2 ++ consumed ts) in *.
  apply NoDup_app in Hnd as (Hnd1 & Hdis & Hnd2).
  destruct (gather env (input_ids (t_def t))) as [ins|] eqn:Hg; cbn [mbind option_bind].
  - destruct (run_operator_represents t st env C ins Hr Hnd1) as (st1 & self & Hrun & Hrep);
      [by intros id Hid; apply HC, elem_of_app; left|done|].
    rewrite Hrun. destruct (snd (t_run t ins)) as [[outs|e|w]|]; [|by eexists _, _, _..|].
    + destruct (publish _ outs env) as [env1|e|w] eqn:Hp; [|by eexists _, _, _..].
      destruct (IH st1 env1 _ (Hrep _ _ eq_refl Hp) Hnd2) as (st2 & selves & r & Hpoll & Hf).
      { intros id Hid [Hin%elem_of_list_to_set|Hin]%elem_of_union; [by apply (Hdis id)|].
        apply (HC id); [apply elem_of_app; by right|done]. }
      rewrite Hpoll. eexists _, _, _. split; [done|].
      replace (list_to_set (consumed ts) ∪ (list_to_set (input_ids (t_def t)).*2 ∪ C))
        with (list_to_set ((input_ids (t_def t)).*2 ++ consumed ts) ∪ C : gset string) in Hf by set_solver.
      exact Hf.
    + destruct (poll_operators ts st1) as [st2 [selves r]]. eexists _, _, _. split; [done|].
      intros u. by destruct r as [[]|].
  - pose proof (run_operator_missing t st env C Hr Hg) as Hno.
    destruct (run_operator t st) as [st1 [self [[u|e|w]|]]]; [by destruct (Hno st1 self u)|by eexists _, _, _..|].
    destruct (poll_operators ts st1) as [st2 [selves r]]. eexists _, _, _. split; [done|].
    intros u. by destruct r as [[]|].
Qed.

(** The external inputs, by name. *)
Fixpoint external_env (lookup : gmap N string) (ins : list (N * T)) (env : gmap string T) : option (gmap string T) :=
  match ins with
  | [] => Some env
  | (o, s) :: ins =>
      id ← lookup !! o;
      match env !! id with Some _ => None | None => external_env lookup ins (<[id := s]> env) end
  end.

Lemma add_inputs_represents lookup ins st env env' :
  represents st env ∅ -> external_env lookup ins env = Some env' ->
  exists st', add_inputs lookup ins st = (st', Ok tt) /\ represents st' env' ∅.
Proof.
  revert st env. induction ins as [|[o s] ins IH]; intros st env Hr; cbn; [intros [= <-]; by exists st|].
  unfold mbind at 2 3, act_bind, lift. destruct (lookup !! o) as [id|]; cbn; [|done].
  pose proof Hr as [_ Hst]. unfold store_insert. rewrite Hst.
  destruct (env !! id) as [v|] eqn:Hv; cbn; [done|]. apply IH. split; [done|].
  intros id'. destruct (decide (id' = id)) as [->|Hne].
  - by rewrite !lookup_insert_eq.
  - by rewrite !lookup_insert_ne.
Qed.

(** C31: a nested operator computes the dataflow of its graph.  When every stream is read at
    most once, running the operators in the order in which they are listed applies each of them
    to the streams of the operators before it and hands out the streams named as outputs; an
    error of an operator, a clash of stream names and a missing output are reported; and when
    an operator is listed before one that it reads from, the run never succeeds. *)
Theorem nested_run_dataflow ext input_stream_ids (ts : list tsk) output_stream_ids env :
  external_env (collect_map input_stream_ids) ext ∅ = Some env ->
  NoDup (consumed ts ++ output_stream_ids.*2) ->
  let result := snd (run_all_operators ext input_stream_ids ts output_stream_ids) in
  match dataflow env ts with
  | Some (Ok env') =>
      match gather env' output_stream_ids with
      | Some outs => result = Ready (Ok outs)
      | None => forall outs, result <> Ready (Ok outs)
      end
  | Some (Err e) => result = Ready (Err e)
  | Some (Panic w) => result = Ready (Panic w)
  | None => forall outs, result <> Ready (Ok outs)
  end.
Proof.
  intros Hext Hnd result. apply NoDup_app in Hnd as (Hnd1 & Hdis & Hnd2).
  destruct (add_inputs_represents (collect_map input_stream_ids) ext store_new ∅ env)
    as (st0 & Hadd & Hr0); [by split|done|].
  destruct (poll_operators_follows ts st0 env ∅ Hr0 Hnd1) as (st1 & selves & r & Hpoll & Hf); [set_solver|].
  subst result. unfold run_all_operators. rewrite Hadd, Hpoll.
  destruct (dataflow env ts) as [[env'|e|w]|]; cbn in Hf; [|by subst r..|].
  - destruct Hf as [-> Hr]. destruct (gather env' output_stream_ids) as [outs|] eqn:Hg.
    + destruct (take_all_represents output_stream_ids st1 env' _ outs Hr Hnd2) as (st2 & -> & _); [|done|done].
      intros id Hid [Hin%elem_of_list_to_set|Hin]%elem_of_union; [by apply (Hdis id)|set_solver].
    + intros outs. apply gather_None in Hg as (id & Hin & He). destruct Hr as [_ Hst].
      assert (no_value st1 id) as Hn by (intros v; by rewrite Hst, He).
      destruct (take_all output_stream_ids st1) as [st2 [[l|]|e|w]] eqn:Ht; [|done..].
      by destruct (take_all_no_value _ _ st2 id Hn Hin l).
  - intros outs. destruct r as [[u|e|w]|]; [|done..]. by destruct (Hf u).
Qed.
End dataflow.

(** ** Examples *)

Section examples.
Context (T : Type).

(** An identity operator from one named stream to another. *)
Definition identity_task (from to : string) : task (Spec := unit) (F := IdentityOperatorFunction) (T := T) :=
  mkTask (mkOpDef to "state" tt [mkOpInput from 0] [mkOpOutput to 0]) mkIdentity
    (fun ins => (mkIdentity, Ready (Ok ins))).

(** The order in which the operators of a nested operator are listed matters.  Two
    identities listed upstream first pass their stream through; listed downstream first, the
    take of the second one occupies the entry in which the first one stores its output, and the
    same graph fails. *)
Theorem nested_listing_order_matters (s : T) :
  let run ts := snd (run_all_operators [(0, s)] [(0, "a")] ts [(0, "c")]) in
  run [identity_task "a" "b"; identity_task "b" "c"] = Ready (Ok [(0, s)]) /\
  run [identity_task "b" "c"; identity_task "a" "b"] = Ready (Err already_taken).
Proof. split; vm_compute; reflexivity. Qed.
End examples.

(** Three identities in a row, as in the test of nested.rs. *)
Lemma nested_run_dataflow_witness :
  let ts := [identity_task nat "1" "2"; identity_task nat "2" "3"; identity_task nat "3" "4"] in
  external_env (collect_map [(0, "1")]) [(0, 5%nat)] ∅ = Some {[ "1" := 5%nat ]} /\
  snd (run_all_operators [(0, 5%nat)] [(0, "1")] ts [(0, "4")]) = Ready (Ok [(0, 5%nat)]).
Proof.
  split; [reflexivity|].
  pose proof (nested_run_dataflow [(0, 5%nat)] [(0, "1")]
    [identity_task nat "1" "2"; identity_task nat "2" "3"; identity_task nat "3" "4"] [(0, "4")]
    {[ "1" := 5%nat ]} eq_refl ltac:(by apply (bool_decide_eq_true_1 _); vm_compute)) as Hrun.
  exact Hrun.
Defined.
