(* ===== verification/Barrier.v ===== *)
(** * Barriers that share a result
    (src/streaming/operators/remote_source/barrier_with_result.rs)

    A barrier has a number of participants.  Each of them arrives with a computation; the last
    one to arrive runs the computation of the first and shares its result with the others.  A
    participant that is finished leaves the barrier instead.  Every operation runs under one
    asynchronous mutex (the computation too), so an operation is one atomic step on the pair of
    the barrier and the state [W] that the computations use; only receivers wait outside. *)

From S2P Require Import Prelude Stream.

Section barrier.
Context {W T : Type}.

Abbreviation computation := (act W DataFusionError T).

(** An entry of the synchronisation queue, with the one-shot channel it belongs to. *)
Inductive slot := SendSlot (ch : nat) | RecvSlot (ch : nat).

(** A one-shot channel: the handles of its shared receiver, and what its sender did. *)
Inductive outcome := Open | Sent (result : res string T) | SenderDropped.
Record channel := mkChannel { receivers : nat; chan_outcome : outcome }.

(** [InnerQueueState], with the channels that its queue refers to. *)
Record InnerQueueState := mkQueue {
  count : N;
  computation_function : option computation;
  synchronisation_queue : option (list slot);
  channels : gmap nat channel;
  next_channel : nat;
}.

Definition with_function (b : InnerQueueState) (f : option computation) : InnerQueueState :=
  mkQueue (count b) f (synchronisation_queue b) (channels b) (next_channel b).
Definition with_queue (b : InnerQueueState) (q : option (list slot)) : InnerQueueState :=
  mkQueue (count b) (computation_function b) q (channels b) (next_channel b).
Definition with_channel (b : InnerQueueState) (ch : nat) (f : channel -> channel) : InnerQueueState :=
  mkQueue (count b) (computation_function b) (synchronisation_queue b) (alter f ch (channels b)) (next_channel b).

(** [create_state_queue]: the sender first, so that it is popped last. *)
Definition create_state_queue (b : InnerQueueState) (n : N) : InnerQueueState :=
  if n <=? 1 then with_queue b None
  else
    let ch := next_channel b in
    mkQueue (count b) (computation_function b)
      (Some (SendSlot ch :: replicate (N.to_nat n - 1) (RecvSlot ch)))
      (<[ch := mkChannel (N.to_nat n - 1) Open]> (channels b)) (S ch).

Definition new (n : N) : InnerQueueState := create_state_queue (mkQueue n None None ∅ 0) n.

(** The answer of the queue: a result, or a receiver to wait for. *)
Inductive popped := Immediate (r : res DataFusionError T) | Wait (ch : nat).

Definition all_finished : DataFusionError :=
  Internal "All users of the barrier have finished, there is no result to share".
Definition receiver_dropped : DataFusionError :=
  Internal "Barrier receiver was dropped before the result was sent.".
Definition sender_dropped : DataFusionError :=
  Internal "Barrier sender was dropped before the result was received.".

(** [format!("Error computing result: {}", e)] *)
Context (display : DataFusionError -> string).

Definition sendable (r : res DataFusionError T) : res string T :=
  match r with
  | Ok v => Ok v
  | Err e => Err ("Error computing result: " +:+ display e)
  | Panic w => Panic w
  end.

(** [match self.computation_function.take()] *)
Definition take_and_run (s : InnerQueueState * W) : (InnerQueueState * W) * res DataFusionError T :=
  let '(b, w) := s in
  match computation_function b with
  | Some f => let '(w, r) := f w in ((with_function b None, w), r)
  | None => ((b, w), Err all_finished)
  end.

Definition drop_sender_of (ch : nat) (b : InnerQueueState) : InnerQueueState :=
  with_channel b ch (fun c => mkChannel (receivers c) SenderDropped).

Definition pop_queue_inner : act (InnerQueueState * W) DataFusionError popped := fun '(b, w) =>
  match synchronisation_queue b with
  | None =>
      match take_and_run (b, w) with
      | (s, Panic why) => (s, Panic why)
      | (s, r) => (s, Ok (Immediate r))
      end
  | Some queue =>
      match last queue with
      | None => ((b, w), Panic "Barrier ran out of states. Are there more consumers than expected?")
      | Some (RecvSlot ch) => ((with_queue b (Some (removelast queue)), w), Ok (Wait ch))
      | Some (SendSlot ch) =>
          match take_and_run (with_queue b (Some (removelast queue)), w) with
          | ((b, w), Panic why) => ((drop_sender_of ch b, w), Panic why)
          | ((b, w), r) =>
              let b := create_state_queue b (count b) in
              if (default 0 (receivers <$> channels b !! ch) =? 0)%nat then
                ((drop_sender_of ch b, w), Ok (Immediate (Err receiver_dropped)))
              else
                ((with_channel b ch (fun c => mkChannel (receivers c) (Sent (sendable r))), w),
                 Ok (Immediate r))
          end
      end
  end.

(** [InnerQueueState::compute_result]: the first computation of a round stays. *)
Definition compute_result (f : computation) : act (InnerQueueState * W) DataFusionError popped :=
  fun '(b, w) =>
    pop_queue_inner (with_function b (Some (default f (computation_function b))), w).

(** [remove_participant]: a receiver that is popped is dropped. *)
Definition remove_participant : act (InnerQueueState * W) DataFusionError () := fun '(b, w) =>
  let b := mkQueue (count b - 1) (computation_function b) (synchronisation_queue b) (channels b) (next_channel b) in
  match pop_queue_inner (b, w) with
  | ((b, w), Ok (Wait ch)) =>
      ((with_channel b ch (fun c => mkChannel (receivers c - 1) (chan_outcome c)), w), Ok tt)
  | (s, Ok (Immediate _)) => (s, Ok tt)
  | (s, Err e) => (s, Err e)
  | (s, Panic w) => (s, Panic w)
  end.

(** Awaiting the receiver, in [BarrierWithResult::compute_result]. *)
Definition await (ch : nat) (b : InnerQueueState) : Poll (res DataFusionError T) :=
  match chan_outcome <$> channels b !! ch with
  | Some (Sent (Ok v)) => Ready (Ok v)
  | Some (Sent (Err message)) => Ready (Err (Internal message))
  | Some (Sent (Panic w)) => Ready (Panic w)
  | Some SenderDropped => Ready (Err sender_dropped)
  | Some Open | None => Pending
  end.

(** ** One round of a barrier *)

(** What a participant does in a round: arrive with a computation, or leave. *)
Inductive call := Compute (f : computation) | Remove.

Definition do_call (c : call) : act (InnerQueueState * W) DataFusionError (option popped) :=
  match c with
  | Compute f => p ← compute_result f; mret (Some p)
  | Remove => remove_participant ;; mret None
  end.

Fixpoint do_calls (cs : list call) : act (InnerQueueState * W) DataFusionError (list (option popped)) :=
  match cs with
  | [] => mret []
  | c :: cs => p ← do_call c; ps ← do_calls cs; mret (p :: ps)
  end.

Definition leaves (c : call) : bool := match c with Remove => true | Compute _ => false end.
Definition leaving (cs : list call) : nat := length (List.filter leaves cs).
Definition arriving (cs : list call) : nat := length (List.filter (fun c => negb (leaves c)) cs).

(** The computation of the first participant that arrives. *)
Definition first_computation (fn : option computation) (cs : list call) : option computation :=
  match fn with
  | Some f => Some f
  | None => find_map (fun c => match c with Compute f => Some f | Remove => None end) cs
  end.

Definition waits (ch : nat) (cs : list call) : list (option popped) :=
  (fun c => match c with Compute _ => Some (Wait ch) | Remove => None end) <$> cs.

Lemma arriving_leaving cs : (arriving cs + leaving cs = length cs)%nat.
Proof. unfold arriving, leaving. induction cs as [|[f|] cs IH]; cbn; lia. Qed.

(** Round [ch] of a barrier with [n] participants, [j] of which were there and [k] of these left. *)
Definition in_round (n ch j k : nat) (fn : option computation) (b : InnerQueueState) : Prop :=
  count b = N.of_nat (n - k) /\ computation_function b = fn /\
  synchronisation_queue b = Some (SendSlot ch :: replicate (n - 1 - j) (RecvSlot ch)) /\
  channels b !! ch = Some (mkChannel (n - 1 - k) Open) /\ (ch < next_channel b)%nat.

(** A barrier with [n] participants between two rounds. *)
Definition fresh (n : nat) (b : InnerQueueState) : Prop :=
  if (n <=? 1)%nat then
    count b = N.of_nat n /\ computation_function b = None /\ synchronisation_queue b = None
  else exists ch, in_round n ch 0 0 None b.

Lemma create_fresh n b :
  count b = N.of_nat n -> computation_function b = None -> fresh n (create_state_queue b (N.of_nat n)).
Proof.
  intros Hc Hf. unfold fresh, create_state_queue. destruct (Nat.leb_spec n 1) as [Hn|Hn].
  - rewrite (proj2 (N.leb_le _ _)) by lia. done.
  - rewrite (proj2 (N.leb_gt _ _)) by lia. exists (next_channel b).
    rewrite Nat2N.id. split; [cbn; rewrite Hc; f_equal; lia|]. split; [done|].
    split; [cbn; by rewrite Nat.sub_0_r|]. split; [cbn; rewrite lookup_insert_eq; by rewrite Nat.sub_0_r|].
    cbn. lia.
Qed.

Lemma new_fresh n : fresh n (new (N.of_nat n)).
Proof. by apply create_fresh. Qed.

Lemma queue_end (s r : slot) m :
  last (s :: replicate (S m) r) = Some r /\ removelast (s :: replicate (S m) r) = s :: replicate m r.
Proof.
  rewrite replicate_S_end, app_comm_cons, last_snoc, removelast_last. done.
Qed.

(** The participants before the last one wait, or leave. *)
Lemma do_call_waits n ch j k fn b w c :
  in_round n ch j k fn b -> (S j < n)%nat ->
  exists b', do_call c (b, w) = ((b', w), Ok (match c with Compute _ => Some (Wait ch) | Remove => None end)) /\
    in_round n ch (S j) (k + leaving [c]) (first_computation fn [c]) b'.
Proof.
  intros (Hc & Hf & Hq & Hch & Hn) Hj.
  destruct (queue_end (SendSlot ch) (RecvSlot ch) (n - 1 - S j)) as [Hlast Hrem].
  replace (S (n - 1 - S j)) with (n - 1 - j)%nat in Hlast, Hrem by lia.
  destruct c as [f|]; cbn [do_call].
  - eexists. split.
    + erewrite act_bind_Ok; [done|]. unfold compute_result, pop_queue_inner. cbn. rewrite Hq, Hlast, Hrem. done.
    + unfold in_round. cbn. rewrite Hf, Nat.add_0_r. split; [done|]. split; [by destruct fn|]. done.
  - eexists. split.
    + erewrite act_bind_Ok; [done|]. unfold remove_participant, pop_queue_inner. cbn. rewrite Hq, Hlast, Hrem. done.
    + unfold in_round. cbn. rewrite Hc. split; [lia|]. split; [by rewrite Hf; destruct fn|].
      split; [done|]. split; [|done]. rewrite lookup_alter_eq, Hch. cbn. do 2 f_equal. lia.
Qed.

Lemma first_computation_app fn cs cs' :
  first_computation fn (cs ++ cs') = first_computation (first_computation fn cs) cs'.
Proof.
  unfold first_computation. destruct fn; [done|]. induction cs as [|[f|] cs IH]; cbn; done.
Qed.

Lemma leaving_app cs cs' : leaving (cs ++ cs') = (leaving cs + leaving cs')%nat.
Proof. unfold leaving. by rewrite List.filter_app, length_app. Qed.

Lemma do_calls_wait cs n ch j k fn b w :
  in_round n ch j k fn b -> (j + length cs < n)%nat ->
  exists b', do_calls cs (b, w) = ((b', w), Ok (waits ch cs)) /\
    in_round n ch (j + length cs) (k + leaving cs) (first_computation fn cs) b'.
Proof.
  revert j k fn b. induction cs as [|c cs IH]; intros j k fn b Hr Hj; cbn [length] in *.
  - exists b. split; [done|]. rewrite !Nat.add_0_r. by destruct fn.
  - destruct (do_call_waits n ch j k fn b w c Hr) as (b1 & Hc & Hr1); [lia|].
    destruct (IH (S j) _ _ b1 Hr1) as (b2 & Hcs & Hr2); [lia|]. exists b2. split.
    + cbn [do_calls]. erewrite act_bind_Ok by exact Hc. erewrite act_bind_Ok by exact Hcs. done.
    + replace (j + S (length cs))%nat with (S j + length cs)%nat by lia.
      change (c :: cs) with ([c] ++ cs). rewrite leaving_app, first_computation_app, Nat.add_assoc. done.
Qed.

(** Running the stored computation, if there is one. *)
Definition computed (fn : option computation) (w : W) : W * res DataFusionError T :=
  match fn with Some f => f w | None => (w, Err all_finished) end.

(** What a participant that waited gets of the result. *)
Definition shared (r : res DataFusionError T) : res DataFusionError T :=
  match sendable r with Ok v => Ok v | Err message => Err (Internal message) | Panic why => Panic why end.

Lemma create_state_queue_channel b n ch :
  (ch < next_channel b)%nat -> channels (create_state_queue b n) !! ch = channels b !! ch.
Proof.
  intros Hn. unfold create_state_queue. destruct (n <=? 1); [done|]. cbn.
  rewrite lookup_insert_ne; [done|lia].
Qed.

Lemma fresh_with_channel n b ch f :
  fresh n b -> (forall ch', synchronisation_queue b = Some (SendSlot ch' :: replicate (n - 1) (RecvSlot ch')) -> ch' <> ch) ->
  fresh n (with_channel b ch f).
Proof.
  unfold fresh. intros Hf Hne. destruct (n <=? 1)%nat; [done|].
  destruct Hf as (ch' & Hc & Hfn & Hq & Hch & Hn). rewrite Nat.sub_0_r in Hq.
  exists ch'. split; [done|]. split; [done|]. split; [cbn; by rewrite Nat.sub_0_r|]. split; [|done].
  cbn. rewrite lookup_alter_ne; [done|]. by apply not_eq_sym, Hne.
Qed.

(** The last participant runs the computation and starts the next round; the result cannot be
    sent when all receivers were dropped. *)
Lemma pop_last b w ch m p :
  synchronisation_queue b = Some [SendSlot ch] -> channels b !! ch = Some (mkChannel m Open) ->
  (ch < next_channel b)%nat -> count b = N.of_nat p ->
  (forall why, snd (computed (computation_function b) w) <> Panic why) ->
  exists b', pop_queue_inner (b, w) =
    ((b', fst (computed (computation_function b) w)),
     Ok (Immediate (if (m =? 0)%nat then Err receiver_dropped else snd (computed (computation_function b) w)))) /\
    fresh p b' /\
    (m <> 0%nat -> await ch b' = Ready (shared (snd (computed (computation_function b) w)))).
Proof.
  intros Hq Hch Hn Hc Hp.
  set (b1 := mkQueue (count b) None (Some []) (channels b) (next_channel b)).
  assert (take_and_run (with_queue b (Some []), w) =
    ((b1, fst (computed (computation_function b) w)), snd (computed (computation_function b) w))) as Htake.
  { unfold take_and_run, computed, b1. cbn. destruct (computation_function b) as [f|] eqn:Hf; [|unfold with_queue; by rewrite Hf].
    by destruct (f w). }
  assert (fresh p (create_state_queue b1 (count b))) as Hfresh by (rewrite Hc; by apply create_fresh).
  assert (forall ch', synchronisation_queue (create_state_queue b1 (count b)) =
    Some (SendSlot ch' :: replicate (p - 1) (RecvSlot ch')) -> ch' <> ch) as Hnew.
  { intros ch'. unfold create_state_queue, b1. destruct (count b <=? 1); cbn; [done|].
    intros [= <- _]. lia. }
  pose proof (create_state_queue_channel b1 (count b) ch Hn) as Hold. change (channels b1) with (channels b) in Hold.
  rewrite Hch in Hold.
  unfold pop_queue_inner. rewrite Hq. cbn [last removelast]. rewrite Htake.
  change (count b1) with (count b). cbn [fst]. rewrite Hold. cbn [fmap option_fmap option_map default receivers].
  change (id m) with m.
  set (r := snd (computed (computation_function b) w)) in *.
  destruct (Nat.eqb_spec m 0) as [->|Hm].
  - exists (drop_sender_of ch (create_state_queue b1 (count b))).
    split; [by destruct r as [v|e|why]; [| |destruct (Hp why)]|]. split; [by apply fresh_with_channel|]. lia.
  - exists (with_channel (create_state_queue b1 (count b)) ch (fun c => mkChannel (receivers c) (Sent (sendable r)))).
    split; [by destruct r as [v|e|why]; [| |destruct (Hp why)]|]. split; [by apply fresh_with_channel|].
    intros _. unfold await, shared. cbn. rewrite lookup_alter_eq, Hold. cbn. by destruct (sendable r).
Qed.

(** The last participant of a round. *)
Lemma do_call_last n ch k fn b w c :
  in_round n ch (n - 1) k fn b -> (1 < n)%nat -> (k < n)%nat ->
  let r := computed (first_computation fn [c]) w in
  (forall why, snd r <> Panic why) ->
  exists b', do_call c (b, w) =
    ((b', fst r), Ok (match c with
      | Compute _ => Some (Immediate (if (n - 1 - k =? 0)%nat then Err receiver_dropped else snd r))
      | Remove => None
      end)) /\
    fresh (n - (k + leaving [c])) b' /\ ((n - 1 - k <> 0)%nat -> await ch b' = Ready (shared (snd r))).
Proof.
  intros (Hc & Hf & Hq & Hch & Hn) Hn1 Hk r Hp. rewrite Nat.sub_diag in Hq. cbn [replicate] in Hq.
  destruct c as [f|]; cbn [do_call].
  - destruct (pop_last (with_function b (Some (default f (computation_function b)))) w ch (n - 1 - k) (n - k))
      as (b' & Hpop & Hfr & Haw); [done..| |].
    + cbn [with_function computation_function]. rewrite Hf. revert Hp. unfold r. by destruct fn.
    + exists b'. rewrite Nat.add_0_r. cbn [with_function computation_function] in Hpop, Haw. rewrite Hf in Hpop, Haw.
      replace (Some (default f fn)) with (first_computation fn [Compute f]) in Hpop, Haw by (by destruct fn).
      split; [|done]. erewrite act_bind_Ok; [done|]. unfold compute_result. rewrite Hf.
      replace (Some (default f fn)) with (first_computation fn [Compute f]) by (by destruct fn). exact Hpop.
  - destruct (pop_last (mkQueue (count b - 1) (computation_function b) (synchronisation_queue b)
      (channels b) (next_channel b)) w ch (n - 1 - k) (n - (k + 1))) as (b' & Hpop & Hfr & Haw); [done..| | |].
    + cbn. rewrite Hc. lia.
    + cbn [computation_function]. rewrite Hf. revert Hp. unfold r. by destruct fn.
    + exists b'. cbn [computation_function] in Hpop, Haw. rewrite Hf in Hpop, Haw.
      replace fn with (first_computation fn [Remove]) in Hpop, Haw by (by destruct fn).
      split; [|done]. erewrite act_bind_Ok; [done|]. unfold remove_participant. rewrite Hf.
      replace fn with (first_computation fn [Remove]) by (by destruct fn). by rewrite Hpop.
Qed.

(** C32: one round of a barrier.  Of [n] participants, all but the last one to act wait for a
    channel or leave.  The last one runs the computation of the first participant that arrived,
    on the state as it is then; all who waited get its result, and the barrier is ready for a
    round of those who did not leave.  The last participant gets the result itself, unless all
    the others left: their receivers are dropped, and it gets an error instead. *)
Theorem barrier_round n b w cs c :
  (1 < n)%nat -> fresh n b -> length cs = (n - 1)%nat ->
  let r := computed (first_computation None (cs ++ [c])) w in
  (forall why, snd r <> Panic why) ->
  exists ch b1 b2,
    do_calls cs (b, w) = ((b1, w), Ok (waits ch cs)) /\ await ch b1 = Pending /\
    do_call c (b1, w) = ((b2, fst r), Ok (match c with
      | Compute _ => Some (Immediate (if (arriving cs =? 0)%nat then Err receiver_dropped else snd r))
      | Remove => None
      end)) /\
    fresh (n - leaving (cs ++ [c])) b2 /\
    (arriving cs <> 0%nat -> await ch b2 = Ready (shared (snd r))).
Proof.
  intros Hn Hfr Hlen r Hp. unfold fresh in Hfr. destruct (Nat.leb_spec n 1) as [|_]; [lia|].
  destruct Hfr as (ch & Hr). pose proof (arriving_leaving cs) as Hal.
  destruct (do_calls_wait cs n ch 0 0 None b w Hr) as (b1 & Hcs & Hr1); [lia|].
  cbn [Nat.add] in Hr1. rewrite Hlen in Hr1. unfold r in *. rewrite first_computation_app in Hp |- *.
  destruct (do_call_last n ch (leaving cs) (first_computation None cs) b1 w c Hr1)
    as (b2 & Hc & Hf2 & Haw); [lia..|done|].
  replace (n - 1 - leaving cs)%nat with (arriving cs) in Hc, Haw by lia.
  exists ch, b1, b2. rewrite leaving_app. split; [done|]. split; [|done].
  destruct Hr1 as (_ & _ & _ & Hch & _). unfold await. by rewrite Hch.
Qed.

(** A barrier with one participant runs every computation at once. *)
Lemma barrier_alone b w f :
  fresh 1 b -> (forall why, snd (f w) <> Panic why) ->
  exists b', do_call (Compute f) (b, w) = ((b', fst (f w)), Ok (Some (Immediate (snd (f w))))) /\ fresh 1 b'.
Proof.
  intros (Hc & Hf & Hq) Hp. cbn [do_call].
  exists (with_function (with_function b (Some f)) None). split; [|done].
  erewrite act_bind_Ok; [done|]. unfold compute_result, pop_queue_inner, take_and_run. cbn. rewrite Hf, Hq. cbn.
  destruct (f w) as [w' r]. cbn in *. destruct r as [v|e|why]; [done|done|by destruct (Hp why)].
Qed.
End barrier.
#[global] Arguments call W T : clear implicits.
#[global] Arguments InnerQueueState W T : clear implicits.

(** Three participants: one waits, one leaves, the last one computes. *)
Lemma barrier_round_witness :
  exists ch b1 b2,
    do_calls (fun _ => "e") [Compute (fun w : N => (w + 1, Ok w)); Remove] (new (T := N) 3, 5) =
      ((b1, 5), Ok [Some (Wait ch); None]) /\ await ch b1 = Pending /\
    do_call (fun _ => "e") (Compute (fun w : N => (w + 7, Ok 9))) (b1, 5) =
      ((b2, 6), Ok (Some (Immediate (Ok 5)))) /\
    fresh 2 b2 /\ (1%nat <> 0%nat -> await ch b2 = Ready (Ok 5)).
Proof.
  apply (barrier_round (fun _ => "e") 3 (new 3) 5 [Compute (fun w : N => (w + 1, Ok w)); Remove]
    (Compute (fun w : N => (w + 7, Ok 9)))).
  - lia.
  - apply new_fresh.
  - reflexivity.
  - intros why. discriminate.
Defined.
