(* ===== verification/RemoteSource.v ===== *)
(** * Reading remote streams (src/streaming/operators/remote_source/, src/streaming/utils/)

    A remote source finds the addresses that serve its partitions at its checkpoint, opens one
    remote stream (fiber) per address and reads them side by side.  After each marker a fiber
    polls the state that it shares with the others: they all continue or pause together, which
    a [BarrierWithResult] decides once per marker. *)

From S2P Require Import Prelude Arrow Partitioning Stream Generation Channels FiberStream Barrier.

(** ** Retrying (utils/retry.rs) *)

(** [retry_future]: up to [retries] more attempts after a failure; the state is that of the
    world in which the attempts run.  The pause between two attempts is not modelled. *)
Fixpoint retry_future {S E A} (retries : nat) (f : act S E A) : act S E A := fun s =>
  match f s with
  | (s, Err e) => match retries with O => (s, Err e) | Datatypes.S retries => retry_future retries f s end
  | (s, r) => (s, r)
  end.

(** ** Opening a remote stream (utils/create_remote_stream.rs) *)

Record StreamingFlightTicketData := mkTicket {
  ticket_partitions : PartitionRange;
  ticket_stream_id : string;
  ticket_checkpoint : N;
}.

Section remote_stream.
Context {Net B Client : Type}.

(** [DataClientManager::get_client], the Flight call, and [decode_flight_to_stream] of its
    answer (the items that the stream will give) *)
Context (get_client : string -> act Net DataFusionError Client).
Context (do_get : Client -> StreamingFlightTicketData -> act Net string (list (res DataFusionError (StreamItem B)))).

(** The closure mapped over the stream. *)
Definition into_sitem (r : res DataFusionError (StreamItem B)) : res DataFusionError (SItem B) :=
  match r with
  | Ok item => Ok (sitem_of_stream_item item)
  | Err e => Err e
  | Panic w => Panic w
  end.

(** A ticket never carries a checkpoint: its number is always 0. *)
Definition create_remote_stream (stream_id address : string) (range : PartitionRange)
    : act Net DataFusionError (list (res DataFusionError (SItem B))) :=
  let ticket_data := mkTicket range stream_id 0 in
  act_bind _ _ (fun client net =>
    let '(net, r) := do_get client ticket_data net in
    (net, match r with
          | Ok flight_data_stream => Ok (List.map into_sitem flight_data_stream)
          | Err e => Err (Internal ("Error getting flight stream: " +:+ e))
          | Panic w => Panic w
          end)) (get_client address).
End remote_stream.

(** ** The state shared by the fibers (shared_fibre_state.rs) *)

Inductive FiberState := Continue | Pause.

#[global] Instance FiberState_eq_dec : EqDecision FiberState.
Proof. solve_decision. Defined.

(** What the fibers and the coordinator of the task share, and change. *)
Record Shared := mkShared {
  last_completed_marker : N;
  currently_waiting_on_marker : option N;
  scheduling_details : option (list GenerationSpec) * option (list GenerationInputDetail);
}.

Abbreviation FiberBarrier := (InnerQueueState Shared FiberState).

(** The rest of [SharedFiberState], which does not change. *)
Record SharedFiberState := mkSharedFiberState {
  stream_ids : list string;
  current_generation_id : string;
  current_partitions : PartitionRange;
  current_addresses : list (string * string * PartitionRange);
}.

Definition shared_fiber_state_new (ids : list string) (generation_id : string)
    (parts : PartitionRange) (addresses : list (string * string * PartitionRange))
    : SharedFiberState * FiberBarrier :=
  (mkSharedFiberState ids generation_id parts addresses, Barrier.new (N.of_nat (length addresses))).

(** Comparing two lists as [HashSet]s. *)
Definition same_set (l k : list (string * string * PartitionRange)) : bool :=
  bool_decide (Forall (fun x => x ∈ k) l) && bool_decide (Forall (fun x => x ∈ l) k).

Lemma same_set_spec l k : same_set l k = true <-> forall x, x ∈ l <-> x ∈ k.
Proof.
  unfold same_set. rewrite andb_true_iff, !bool_decide_eq_true, !Forall_forall.
  split; [intros [Hl Hk] x; split; [apply Hl|apply Hk]|]. intros Hx. split; intros x; apply Hx.
Qed.

Section shared_state.
Context `{Profile} (display : DataFusionError -> string).

Definition check_generation_and_addresses (scheduling : option (list GenerationSpec) * option (list GenerationInputDetail))
    (self : SharedFiberState) (marker : N) : res DataFusionError FiberState :=
  generations ← ok_or (Internal "No initial generations were provided") scheduling.1;
  input_details ← ok_or (Internal "No initial input_details were provided") scheduling.2;
  current_generation ← find_current_generation (stream_ids self) generations marker;
  if negb (bool_decide (gen_id current_generation = current_generation_id self)) then Ok Pause
  else
    new_addresses ← get_addresses (gen_partitions current_generation) marker (stream_ids self) input_details;
    if negb (same_set new_addresses (current_addresses self)) then Ok Pause
    else Ok Continue.

(** The computation that the last fiber runs. *)
Definition marker_computation (self : SharedFiberState) (marker : N) : act Shared DataFusionError FiberState :=
  fun w => (mkShared marker None (scheduling_details w),
            check_generation_and_addresses (scheduling_details w) self marker).

Definition other_marker (existing marker : N) : DataFusionError :=
  Internal ("Already waiting on a different marker: " +:+ pretty existing +:+ ". Current marker: " +:+ pretty marker).

Definition poll_fiber_state (self : SharedFiberState) (marker : N)
    : act (FiberBarrier * Shared) DataFusionError (popped (T := FiberState)) := fun '(b, w) =>
  match currently_waiting_on_marker w with
  | Some existing =>
      if negb (existing =? marker) then ((b, w), Err (other_marker existing marker))
      else compute_result display (marker_computation self marker) (b, w)
  | None =>
      compute_result display (marker_computation self marker)
        (b, mkShared (last_completed_marker w) (Some marker) (scheduling_details w))
  end.

Definition report_finished : act (FiberBarrier * Shared) DataFusionError () := remove_participant display.

(** *** One marker *)

(** A fiber reaches a marker, or its stream ends. *)
Inductive event := EPoll | EFinish.

Definition do_event (self : SharedFiberState) (marker : N) (e : event)
    : act (FiberBarrier * Shared) DataFusionError (option (popped (T := FiberState))) :=
  match e with
  | EPoll => p ← poll_fiber_state self marker; mret (Some p)
  | EFinish => report_finished ;; mret None
  end.

Fixpoint do_events (self : SharedFiberState) (marker : N) (es : list event)
    : act (FiberBarrier * Shared) DataFusionError (list (option (popped (T := FiberState)))) :=
  match es with
  | [] => mret []
  | e :: es => p ← do_event self marker e; ps ← do_events self marker es; mret (p :: ps)
  end.

(** The call of the barrier that an event makes. *)
Definition event_call (self : SharedFiberState) (marker : N) (e : event) : call Shared FiberState :=
  match e with EPoll => Compute (marker_computation self marker) | EFinish => Remove end.

Definition waiting_for (marker : N) (w : Shared) : Shared :=
  mkShared (last_completed_marker w) (Some marker) (scheduling_details w).

Definition after_event (marker : N) (e : event) (w : Shared) : Shared :=
  match e with EPoll => waiting_for marker w | EFinish => w end.

(** Nobody waits for another marker. *)
Definition only (marker : N) (w : Shared) : Prop :=
  currently_waiting_on_marker w = None \/ currently_waiting_on_marker w = Some marker.

Lemma do_event_call self marker e b w :
  only marker w ->
  do_event self marker e (b, w) = do_call display (event_call self marker e) (b, after_event marker e w).
Proof.
  intros Hw. destruct e; [|done]. cbn [do_event event_call do_call after_event].
  unfold mbind, act_bind. replace (poll_fiber_state self marker (b, w))
    with (compute_result display (marker_computation self marker) (b, waiting_for marker w)); [done|].
  unfold poll_fiber_state. destruct Hw as [Hw|Hw]; rewrite Hw; [done|]. rewrite N.eqb_refl. cbn.
  unfold waiting_for. destruct w; cbn in *. by subst.
Qed.

Lemma after_event_only marker e w : only marker w -> only marker (after_event marker e w).
Proof. intros Hw. destruct e; [by right|done]. Qed.

Lemma do_events_wait es self marker n ch j k fn b w :
  in_round n ch j k fn b -> (j + length es < n)%nat -> only marker w ->
  let cs := event_call self marker <$> es in
  exists b' w', do_events self marker es (b, w) = ((b', w'), Ok (waits ch cs)) /\ only marker w' /\
    scheduling_details w' = scheduling_details w /\
    in_round n ch (j + length es) (k + leaving cs) (first_computation fn cs) b'.
Proof.
  revert j k fn b w. induction es as [|e es IH]; intros j k fn b w Hr Hj Hw cs; cbn [length] in *.
  - exists b, w. rewrite !Nat.add_0_r. by destruct fn.
  - destruct (do_call_waits display n ch j k fn b (after_event marker e w) (event_call self marker e) Hr)
      as (b1 & Hc & Hr1); [lia|].
    rewrite <- do_event_call in Hc by done.
    destruct (IH (S j) _ _ b1 (after_event marker e w) Hr1) as (b2 & w2 & Hes & Hw2 & Hs2 & Hr2);
      [lia|by apply after_event_only|].
    exists b2, w2. split; [|split; [done|split]].
    + cbn [do_events]. erewrite act_bind_Ok by exact Hc. erewrite act_bind_Ok by exact Hes. subst cs.
      by destruct e.
    + rewrite Hs2. by destruct e.
    + subst cs. rewrite fmap_cons. change (event_call self marker e :: ?l) with ([event_call self marker e] ++ l).
      rewrite leaving_app, first_computation_app, Nat.add_assoc.
      by replace (j + S (length es))%nat with (S j + length es)%nat by lia.
Qed.

Lemma first_event_computation self marker es :
  EPoll ∈ es -> first_computation None (event_call self marker <$> es) = Some (marker_computation self marker).
Proof.
  induction es as [|[|] es IH]; intros Hin; [by apply not_elem_of_nil in Hin|done|].
  apply IH. by apply elem_of_cons in Hin as [|].
Qed.

(** The fibers agree at every marker.  When each of [n] fibers reaches the marker or ends,
    in any order, every fiber that waited at the marker gets the same answer (continue, pause
    or the error of the check, by the scheduling details at that time), the marker is recorded
    as completed and the barrier is ready for the next marker of the remaining fibers.  The
    fiber that arrives last gets the answer too, unless all other fibers have ended: then it
    gets the error of the dropped receivers. *)
Theorem marker_round_agrees self marker n b w es e :
  (1 < n)%nat -> fresh n b -> currently_waiting_on_marker w = None ->
  length es = (n - 1)%nat -> EPoll ∈ es ++ [e] ->
  let r := check_generation_and_addresses (scheduling_details w) self marker in
  (forall why, r <> Panic why) ->
  let polls := length (List.filter (fun e => match e with EPoll => true | EFinish => false end) es) in
  let finished := (length (List.filter (fun e => match e with EFinish => true | EPoll => false end) (es ++ [e]))) in
  exists ch b1 w1 b2,
    do_events self marker es (b, w) = ((b1, w1), Ok (waits ch (event_call self marker <$> es))) /\
    do_event self marker e (b1, w1) = ((b2, mkShared marker None (scheduling_details w)), Ok (match e with
      | EPoll => Some (Immediate (if (polls =? 0)%nat then Err receiver_dropped else r))
      | EFinish => None
      end)) /\
    fresh (n - finished) b2 /\ (polls <> 0%nat -> await ch b2 = Ready (shared display r)).
Proof.
  intros Hn Hfr Hw Hlen Hin r Hp polls finished.
  unfold fresh in Hfr. destruct (Nat.leb_spec n 1) as [|_]; [lia|]. destruct Hfr as (ch & Hr).
  set (cs := event_call self marker <$> es).
  destruct (do_events_wait es self marker n ch 0 0 None b w Hr) as (b1 & w1 & Hes & Hw1 & Hs1 & Hr1); [lia|by left|].
  fold cs in Hes, Hr1. cbn [Nat.add] in Hr1. rewrite Hlen in Hr1.
  assert (arriving cs = polls) as Hpolls.
  { unfold arriving, polls, cs. clear. induction es as [|[|] es IH]; cbn; [done| |done]. f_equal. exact IH. }
  assert (leaving (cs ++ [event_call self marker e]) = finished) as Hfin.
  { unfold finished, cs. change [event_call self marker e] with (event_call self marker <$> [e]).
    rewrite <- fmap_app. generalize (es ++ [e]). clear. unfold leaving.
    induction l as [|[|] l IH]; cbn; [done|done|]. f_equal. exact IH. }
  assert (length cs = (n - 1)%nat) as Hcs by (unfold cs; by rewrite length_fmap).
  pose proof (arriving_leaving cs) as Hal.
  assert (computed (first_computation (first_computation None cs) [event_call self marker e]) (after_event marker e w1)
    = (mkShared marker None (scheduling_details w), r)) as Hcomp.
  { rewrite <- first_computation_app. unfold cs. change [event_call self marker e] with (event_call self marker <$> [e]).
    rewrite <- fmap_app, first_event_computation by done. cbn. unfold marker_computation, r.
    by destruct e; cbn; rewrite Hs1. }
  destruct (do_call_last display n ch (leaving cs) (first_computation None cs) b1 (after_event marker e w1)
    (event_call self marker e) Hr1) as (b2 & Hc & Hf2 & Haw); [lia..| |].
  { intros why. rewrite Hcomp. apply Hp. }
  rewrite Hcomp in Hc, Haw. rewrite <- do_event_call in Hc by done.
  replace (n - 1 - leaving cs)%nat with polls in Hc, Haw by lia.
  exists ch, b1, w1, b2. split; [done|]. rewrite <- leaving_app, Hfin in Hf2. split; [|done].
  rewrite Hc. by destruct e.
Qed.
End shared_state.

(** ** Fibers (fibres.rs) *)

Section fibers.
Context `{Profile} (display : DataFusionError -> string).
Context {Net B : Type}.

Abbreviation item := (res DataFusionError (SItem B)).
Abbreviation key := (string * string)%type.

(** Opening a remote stream: [create_remote_stream] with the clients of the runtime. *)
Context (open_stream : string -> string -> PartitionRange -> act Net DataFusionError (list item)).

Record RunningFiber := mkFiber {
  fib_stream_id : string;
  fib_address : string;
  fib_partitions : PartitionRange;
  remote_stream : option (list item);
}.

Definition fiber_new (sid addr : string) (range : PartitionRange) : RunningFiber :=
  mkFiber sid addr range None.

(** [RunningFiber::load]: another range needs another remote stream. *)
Definition fiber_load (self : RunningFiber) (range : PartitionRange) : RunningFiber :=
  if bool_decide (fib_partitions self = range) then self
  else mkFiber (fib_stream_id self) (fib_address self) range None.

Definition fiber_key (f : RunningFiber) : key := (fib_stream_id f, fib_address f).

(** The loop of [intersect_addresses_and_fibers]. *)
Fixpoint intersect_addresses_and_fibers (addresses : list (string * string * PartitionRange))
    (fibers : gmap key RunningFiber)
    : list (string * RunningFiber * PartitionRange) * list (string * string * PartitionRange) :=
  match addresses with
  | [] => ([], [])
  | (sid, addr, range) :: addresses =>
      let '(existing, fresh) := intersect_addresses_and_fibers addresses (delete (sid, addr) fibers) in
      match fibers !! (sid, addr) with
      | None => (existing, (sid, addr, range) :: fresh)
      | Some fiber => ((sid, fiber, range) :: existing, fresh)
      end
  end.

Definition make_fibers_for_all_addresses (stored_existing_fibers : option (gmap key RunningFiber))
    (addresses : list (string * string * PartitionRange)) : gmap key RunningFiber :=
  let '(existing_fibers, new_addresses) :=
    match stored_existing_fibers with
    | Some existing_fibers => intersect_addresses_and_fibers addresses existing_fibers
    | None => ([], addresses)
    end in
  let existing_fibers := existing_fibers ++
    ((fun '(sid, addr, range) => (sid, fiber_new sid addr range, range)) <$> new_addresses) in
  foldl (fun m '(k, f) => <[k := f]> m) ∅
    ((fun '(sid, fiber, range) => let fiber := fiber_load fiber range in
       ((sid, fib_address fiber), fiber)) <$> existing_fibers).

(** [RunningFiberCheckMarker] *)
Inductive RunningFiberCheckMarker :=
  | IItem (i : item)
  | ICheck (m : Marker)
  | IFinished.

(** The closure of [insert_stream_instructions], and its stream. *)
Definition instructions_of (i : item) : list RunningFiberCheckMarker :=
  match i with
  | Ok (SMarker marker) => [IItem (Ok (SMarker marker)); ICheck marker]
  | other => [IItem other]
  end.

Definition insert_stream_instructions (stream : list item) : list RunningFiberCheckMarker :=
  (stream ≫= instructions_of) ++ [IFinished].

Definition strip_stream_instructions (stream : list RunningFiberCheckMarker) : list item :=
  omap (fun i => match i with IItem inner_result => Some inner_result | _ => None end) stream.

(** [RunningFiber::run] up to the reading: the remote stream is opened when there is none. *)
Definition fiber_run (self : RunningFiber) : act Net DataFusionError (RunningFiber * list RunningFiberCheckMarker) :=
  match remote_stream self with
  | Some stream => mret (self, insert_stream_instructions stream)
  | None =>
      stream ← retry_future 10 (open_stream (fib_stream_id self) (fib_address self) (fib_partitions self));
      mret (mkFiber (fib_stream_id self) (fib_address self) (fib_partitions self) (Some stream),
            insert_stream_instructions stream)
  end.

(** *** Reading a fiber: [stream_until_shared_state_interrupts] *)

(** The state of the [try_take_while] over the instructions of a fiber. *)
Inductive Reading :=
  | Running (instructions : list RunningFiberCheckMarker)
  | WaitingFor (ch : nat) (instructions : list RunningFiberCheckMarker)
  | Stopped.

(** The decision for a check: an error is an item of the stream, which goes on after it. *)
Definition decide_check (r : res DataFusionError FiberState) (rest : list RunningFiberCheckMarker)
    : Reading * list item :=
  match r with
  | Ok Continue => (Running rest, [])
  | Ok Pause => (Stopped, [])
  | Err e => (Running rest, [Err e])
  | Panic w => (Stopped, [Panic w])
  end.

(** One poll of a fiber; a fiber whose barrier has no result yet stays as it is. *)
Definition poll_fiber (shared : SharedFiberState) (r : Reading) (s : FiberBarrier * Shared)
    : (FiberBarrier * Shared) * (Reading * list item) :=
  match r with
  | Stopped | Running [] => (s, (Stopped, []))
  | Running (IItem i :: rest) => (s, (Running rest, [i]))
  | Running (ICheck marker :: rest) =>
      match poll_fiber_state display shared (checkpoint_number marker) s with
      | (s, Ok (Immediate r)) => (s, decide_check r rest)
      | (s, Ok (Wait ch)) => (s, (WaitingFor ch rest, []))
      | (s, Err e) => (s, decide_check (Err e) rest)
      | (s, Panic w) => (s, decide_check (Panic w) rest)
      end
  | Running (IFinished :: rest) =>
      match report_finished display s with
      | (s, Panic w) => (s, (Stopped, [Panic w]))
      | (s, _) => (s, (Stopped, []))
      end
  | WaitingFor ch rest =>
      match await ch (fst s) with
      | Ready r => (s, decide_check r rest)
      | Pending => (s, (WaitingFor ch rest, []))
      end
  end.

(** Polling the fibers in the order of a schedule; the items with the number of their fiber. *)
Fixpoint poll_fibers (shared : SharedFiberState) (schedule : list nat) (fibers : list Reading)
    (s : FiberBarrier * Shared) : (FiberBarrier * Shared) * (list Reading * list (nat * item)) :=
  match schedule with
  | [] => (s, (fibers, []))
  | i :: schedule =>
      match fibers !! i with
      | None => poll_fibers shared schedule fibers s
      | Some r =>
          let '(s, (r, out)) := poll_fiber shared r s in
          let '(s, (fibers, outs)) := poll_fibers shared schedule (<[i := r]> fibers) s in
          (s, (fibers, (pair i <$> out) ++ outs))
      end
  end.

Lemma poll_fibers_step shared i schedule fibers s r s' r' out :
  fibers !! i = Some r -> poll_fiber shared r s = (s', (r', out)) ->
  snd (snd (poll_fibers shared (i :: schedule) fibers s)) =
    (pair i <$> out) ++ snd (snd (poll_fibers shared schedule (<[i := r']> fibers) s')).
Proof.
  intros Hi Hp. cbn [poll_fibers]. rewrite Hi, Hp.
  by destruct (poll_fibers shared schedule (<[i := r']> fibers) s') as [? [? ?]].
Qed.

(** A fiber whose round is not complete does nothing. *)
Lemma poll_waiting shared n ch rest s :
  await ch (fst s) = Pending -> snd (snd (poll_fibers shared (replicate n 0%nat) [WaitingFor ch rest] s)) = [].
Proof.
  intros Ha. induction n as [|n IH]; [done|]. cbn [replicate].
  erewrite poll_fibers_step; [|done|cbn [poll_fiber]; by rewrite Ha]. exact IH.
Qed.

(** *** [RunningStream] *)

(** The marker of the stream is the [last_completed_marker] that it shares with its fibers. *)
Record RunningStream := mkRunningStream {
  rs_stream_ids : list string;
  existing_fibers : option (gmap key RunningFiber);
  pull_called : bool;
}.

Definition running_stream_new (ids : list string) : RunningStream := mkRunningStream ids None false.

(** Starting the fibers: each opens its remote stream if it has none; the first error ends it. *)
Fixpoint run_fibers (fibers : list (key * RunningFiber)) (all : gmap key RunningFiber)
    : Net -> Net * (gmap key RunningFiber * res DataFusionError (list (list RunningFiberCheckMarker))) :=
  fun net =>
    match fibers with
    | [] => (net, (all, Ok []))
    | (k, fiber) :: fibers =>
        match fiber_run fiber net with
        | (net, Ok (fiber, instructions)) =>
            let '(net, (all, r)) := run_fibers fibers (<[k := fiber]> all) net in
            (net, (all, cons instructions <$> r))
        | (net, Err e) => (net, (all, Err e))
        | (net, Panic w) => (net, (all, Panic w))
        end
    end.

(** What [pull] finds out before it starts the fibers. *)
Definition pull_addresses (self : RunningStream) (w : Shared)
    : res DataFusionError (GenerationSpec * list (string * string * PartitionRange)) :=
  generations ← ok_or (Internal "No initial generations were provided") (scheduling_details w).1;
  input_details ← ok_or (Internal "No initial input_details were provided") (scheduling_details w).2;
  let current_marker := last_completed_marker w in
  current_generation ← find_current_generation (rs_stream_ids self) generations current_marker;
  addresses ← get_addresses (gen_partitions current_generation) current_marker (rs_stream_ids self) input_details;
  Ok (current_generation, addresses).

(** [pull]: the state that the fibers share and their instructions; nothing on a second call. *)
Definition pull (self : RunningStream) (w : Shared)
    : Net -> Net * (RunningStream * res DataFusionError
        (option (SharedFiberState * FiberBarrier) * list (list RunningFiberCheckMarker))) := fun net =>
  if pull_called self then (net, (self, Ok (None, [])))
  else
    let called fibers := mkRunningStream (rs_stream_ids self) fibers true in
    match pull_addresses self w with
    | Ok (current_generation, addresses) =>
        let fibers := make_fibers_for_all_addresses (existing_fibers self) addresses in
        let shared_state := shared_fiber_state_new (rs_stream_ids self) (gen_id current_generation)
          (gen_partitions current_generation) addresses in
        let '(net, (fibers, r)) := run_fibers (map_to_list fibers) fibers net in
        (net, (called (Some fibers), pair (Some shared_state) <$> r))
    | Err e => (net, (called (existing_fibers self), Err e))
    | Panic w => (net, (called (existing_fibers self), Panic w))
    end.

(** *** The operator (remote_source.rs) *)

Record RemoteSourceOperatorFunction := mkRemoteSource {
  src_stream_ids : list string;
  initialized : bool;
  loaded_checkpoint : N;
}.

Definition remote_source_new (ids : list string) : RemoteSourceOperatorFunction := mkRemoteSource ids false 0.

(** [init] keeps the runtime and the scheduling details, which the model passes to [pull]. *)
Definition remote_source_init (self : RemoteSourceOperatorFunction) : RemoteSourceOperatorFunction :=
  mkRemoteSource (src_stream_ids self) true (loaded_checkpoint self).

Definition remote_source_load (self : RemoteSourceOperatorFunction) (checkpoint : N) : RemoteSourceOperatorFunction :=
  mkRemoteSource (src_stream_ids self) (initialized self) checkpoint.

(** [run]: the stream to pull, and the marker it starts from. *)
Definition remote_source_run (self : RemoteSourceOperatorFunction) (inputs : nat)
    : res DataFusionError (list (N * (RunningStream * N))) :=
  if negb (inputs =? 0)%nat then Panic "assertion `left == right` failed"
  else if initialized self then
    Ok [(0, (running_stream_new (src_stream_ids self), loaded_checkpoint self))]
  else Err (Internal "Scheduling details state not initialized. Did you call init()?").

(** *** Fibers are reused *)

(** Every fiber is kept under its own stream and address. *)
Definition keyed (fibers : gmap key RunningFiber) : Prop :=
  map_Forall (fun k f => fiber_key f = k) fibers.

Lemma fiber_load_key f range : fiber_key (fiber_load f range) = fiber_key f.
Proof. unfold fiber_load. by destruct (bool_decide _). Qed.

Abbreviation addr_key := (fun a : string * string * PartitionRange => fst a).

(** The fiber that serves an address, given the fibers of before. *)
Definition fiber_for (fibers : gmap key RunningFiber) (a : string * string * PartitionRange) : key * RunningFiber :=
  let '(sid, addr, range) := a in
  ((sid, addr), match fibers !! (sid, addr) with
                | Some f => fiber_load f range
                | None => fiber_new sid addr range
                end).

Definition loaded (e : string * RunningFiber * PartitionRange) : key * RunningFiber :=
  let '(sid, fiber, range) := e in ((sid, fib_address (fiber_load fiber range)), fiber_load fiber range).
Definition created (a : string * string * PartitionRange) : string * RunningFiber * PartitionRange :=
  let '(sid, addr, range) := a in (sid, fiber_new sid addr range, range).

Lemma loaded_created a : loaded (created a) = fiber_for ∅ a.
Proof.
  destruct a as [[sid addr] range]. unfold loaded, created, fiber_for, fiber_load. cbn.
  by rewrite bool_decide_eq_true_2, lookup_empty.
Qed.

Lemma intersect_spec addresses fibers :
  keyed fibers -> NoDup (addr_key <$> addresses) ->
  let r := intersect_addresses_and_fibers addresses fibers in
  loaded <$> (r.1 ++ (created <$> r.2)) ≡ₚ fiber_for fibers <$> addresses.
Proof.
  revert fibers. induction addresses as [|[[sid addr] range] addresses IH]; intros fibers Hk Hnd; [done|].
  apply NoDup_cons in Hnd as [Hin Hnd]. cbn [fst] in Hin.
  assert (fiber_for (delete (sid, addr) fibers) <$> addresses = fiber_for fibers <$> addresses) as Heq.
  { apply list_fmap_ext. intros i [[sid' addr'] range'] Hi. unfold fiber_for.
    rewrite lookup_delete_ne; [done|]. intros [= -> ->]. apply Hin.
    apply list_elem_of_fmap. exists (sid', addr', range'). split; [done|]. by eapply list_elem_of_lookup_2. }
  specialize (IH (delete (sid, addr) fibers)). rewrite Heq in IH. cbn [intersect_addresses_and_fibers].
  destruct (intersect_addresses_and_fibers addresses (delete (sid, addr) fibers)) as [existing new] eqn:Hi.
  cbn [fst snd] in IH. rewrite fmap_app in IH.
  assert (keyed (delete (sid, addr) fibers)) as Hk' by (by apply map_Forall_delete).
  rewrite fmap_cons. unfold fiber_for at 1. destruct (fibers !! (sid, addr)) as [f|] eqn:Hf.
  - cbn [fst snd]. change (((sid, f, range) :: existing) ++ ?l) with ((sid, f, range) :: existing ++ l).
    rewrite fmap_cons, fmap_app. f_equiv; [|by apply IH].
    pose proof (fiber_load_key f range) as Hl. specialize (Hk _ _ Hf). cbn in Hk. rewrite Hk in Hl.
    unfold fiber_key in Hl. unfold loaded. congruence.
  - cbn [fst snd]. rewrite fmap_cons, fmap_app, fmap_cons, <- Permutation_middle.
    f_equiv; [|by apply IH]. rewrite loaded_created. unfold fiber_for. by rewrite lookup_empty.
Qed.

(** C33: after a change of the addresses there is exactly one fiber per address.  A fiber that
    served the same stream and address before is kept, and keeps its open remote stream when
    its range is the same; with another range, and for a new address, the remote stream will be
    opened anew.  Fibers whose address is gone are dropped. *)
Theorem fibers_follow_addresses stored addresses :
  let before := default ∅ stored in
  let after := make_fibers_for_all_addresses stored addresses in
  keyed before -> NoDup (addr_key <$> addresses) ->
  keyed after /\ dom after = list_to_set (addr_key <$> addresses) /\
  forall sid addr range, (sid, addr, range) ∈ addresses ->
    exists f, after !! (sid, addr) = Some f /\ fib_partitions f = range /\
      remote_stream f = match before !! (sid, addr) with
                        | Some old => if bool_decide (fib_partitions old = range) then remote_stream old else None
                        | None => None
                        end.
Proof.
  intros before after Hk Hnd.
  assert (exists l, l ≡ₚ fiber_for before <$> addresses /\
    after = foldl (fun m '(k, f) => <[k := f]> m) ∅ l) as (l & Hl & Hafter).
  { unfold after, make_fibers_for_all_addresses, before in *. destruct stored as [fibers|]; cbn in Hk |- *.
    - pose proof (intersect_spec addresses fibers Hk Hnd) as Hi.
      destruct (intersect_addresses_and_fibers addresses fibers) as [existing new]. eexists. split; [exact Hi|done].
    - exists (loaded <$> (created <$> addresses)). split; [|done].
      rewrite <- list_fmap_compose. erewrite list_fmap_ext; [done|]. intros i a _. apply loaded_created. }
  assert ((fiber_for before <$> addresses).*1 = addr_key <$> addresses) as Hkeys.
  { rewrite <- list_fmap_compose. apply list_fmap_ext. by intros i [[sid addr] range] _. }
  assert (NoDup l.*1) as Hndl by (rewrite Hl, Hkeys; done).
  rewrite foldl_insert, (right_id_L ∅ (∪)) in Hafter by done.
  assert (forall k f, after !! k = Some f <-> exists a, a ∈ addresses /\ fiber_for before a = (k, f)) as Hlook.
  { intros k f. rewrite Hafter, <- elem_of_list_to_map, Hl, list_elem_of_fmap by done. naive_solver. }
  split; [|split].
  - intros k f ([[sid addr] range] & _ & Ha)%Hlook. unfold fiber_for in Ha. injection Ha as <- <-.
    destruct (before !! (sid, addr)) as [old|] eqn:Ho; [|done]. rewrite fiber_load_key. exact (Hk _ _ Ho).
  - rewrite Hafter, dom_list_to_map_L, Hl, Hkeys. done.
  - intros sid addr range Ha. eexists. split; [apply Hlook; exists (sid, addr, range); split; [done|reflexivity]|].
    destruct (before !! (sid, addr)) as [old|]; [|done]. unfold fiber_load.
    case_bool_decide; done.
Qed.
End fibers.

(** ** Examples *)

Section examples.
Context (P : Profile) (display : DataFusionError -> string).

Definition example_generation : GenerationSpec := mkGenerationSpec "g" (mkRange 0 2 2) [].

(** One worker holds both halves of the stream, as two locations. *)
Definition example_details : list GenerationInputDetail :=
  [mkInputDetail "s" [mkLocation "h" (0, 10) (mkRange 0 1 2); mkLocation "h" (0, 10) (mkRange 1 2 2)]].

Definition example_shared : Shared := mkShared 0 None (Some [example_generation], Some example_details).

(** A remote stream with a batch, a marker and another batch. *)
Definition example_open (sid addr : string) (range : PartitionRange)
    : act () DataFusionError (list (res DataFusionError (SItem N))) :=
  mret [Ok (SRecordBatch 1); Ok (SMarker (mkMarker 1)); Ok (SRecordBatch 2)].

(** Two locations of a stream at one address stop it at its first marker.  The fibers are
    kept by stream and address, so there is one fiber, which reads only the second range; the
    barrier is made for two, so the fiber waits at the marker for ever. *)
Theorem two_ranges_at_one_address_block (n : nat) :
  exists shared barrier fiber,
    snd (pull example_open (running_stream_new ["s"]) example_shared tt) =
      (mkRunningStream ["s"] (Some {[ ("s", "h") := fiber ]}) true,
       Ok (Some (shared, barrier), [insert_stream_instructions
         [Ok (SRecordBatch 1); Ok (SMarker (mkMarker 1)); Ok (SRecordBatch 2)]])) /\
    fib_partitions fiber = mkRange 1 2 2 /\
    snd (snd (poll_fibers display shared (replicate n 0%nat) [Running (insert_stream_instructions
      [Ok (SRecordBatch 1); Ok (SMarker (mkMarker 1)); Ok (SRecordBatch 2)])] (barrier, example_shared))) =
      take n [(0%nat, Ok (SRecordBatch 1)); (0%nat, Ok (SMarker (mkMarker 1)))].
Proof.
  eexists (mkSharedFiberState ["s"] "g" (mkRange 0 2 2) [("s", "h", mkRange 0 1 2); ("s", "h", mkRange 1 2 2)]),
    (Barrier.new 2), (mkFiber "s" "h" (mkRange 1 2 2) (Some
      [Ok (SRecordBatch 1); Ok (SMarker (mkMarker 1)); Ok (SRecordBatch 2)])).
  split; [destruct P; vm_compute; reflexivity|]. split; [done|].
  destruct n as [|[|[|n]]]; [done..|]. cbn [replicate].
  erewrite poll_fibers_step by reflexivity. cbn [snd fst app fmap list_fmap].
  erewrite poll_fibers_step by reflexivity. cbn [snd fst app fmap list_fmap].
  erewrite poll_fibers_step by (destruct P; reflexivity). cbn [snd fst app fmap list_fmap].
  cbn [take]. do 2 f_equal.
  refine (poll_waiting display _ n 0 [IItem (Ok (SRecordBatch 2)); IFinished] _ _). reflexivity.
Qed.

(** Two fibers at different addresses; the first one has no marker and ends. *)
Definition example_state_of_two : SharedFiberState * FiberBarrier :=
  shared_fiber_state_new ["s"] "g" (mkRange 0 2 2) [("s", "h1", mkRange 0 1 2); ("s", "h2", mkRange 1 2 2)].

(** A stream that ends fails the other one.  Of two fibers, the first has ended when the
    second reaches a marker: its check cannot send its result to the dropped receiver and
    reports an error, which the fiber passes on as an item of its stream. *)
Theorem ended_stream_fails_the_other :
  let fibers := [Running (insert_stream_instructions [Ok (SRecordBatch 1)]);
                 Running (insert_stream_instructions [Ok (SMarker (mkMarker 1)); Ok (SRecordBatch 2)])] in
  snd (snd (poll_fibers display (fst example_state_of_two) [0; 0; 1; 1; 1; 1]%nat fibers
    (snd example_state_of_two, example_shared))) =
  [(0%nat, Ok (SRecordBatch 1)); (1%nat, Ok (SMarker (mkMarker 1)));
   (1%nat, Err receiver_dropped); (1%nat, Ok (SRecordBatch 2))].
Proof. destruct P; vm_compute; reflexivity. Qed.
End examples.

(** Two fibers at marker 1: the second one computes, and both pause. *)
Lemma marker_round_agrees_witness :
  exists ch b1 w1 b2,
    do_events (H := true) (fun _ => "e") (fst example_state_of_two) 1 [EPoll] (snd example_state_of_two, example_shared) =
      ((b1, w1), Ok [Some (Wait ch)]) /\
    do_event (H := true) (fun _ => "e") (fst example_state_of_two) 1 EPoll (b1, w1) =
      ((b2, mkShared 1 None (scheduling_details example_shared)), Ok (Some (Immediate (Ok Pause)))) /\
    fresh 2 b2 /\ (1%nat <> 0%nat -> await ch b2 = Ready (Ok Pause)).
Proof.
  apply (marker_round_agrees (H := true) (fun _ => "e") (fst example_state_of_two) 1 2
    (snd example_state_of_two) example_shared [EPoll] EPoll).
  - lia.
  - exact (Barrier.new_fresh 2).
  - done.
  - done.
  - by left.
  - intros why. vm_compute. discriminate.
Defined.

(** One fiber keeps its stream, one gets another range, one is new and one is dropped. *)
Lemma fibers_follow_addresses_witness :
  let before : gmap (string * string) (RunningFiber (B := N)) :=
    {[ ("s", "a") := mkFiber "s" "a" (mkRange 0 1 4) (Some []);
       ("s", "b") := mkFiber "s" "b" (mkRange 1 2 4) (Some []);
       ("s", "c") := mkFiber "s" "c" (mkRange 2 3 4) (Some []) ]} in
  let addresses := [("s", "a", mkRange 0 1 4); ("s", "b", mkRange 1 3 4); ("s", "d", mkRange 3 4 4)] in
  let after := make_fibers_for_all_addresses (Some before) addresses in
  keyed after /\ dom after = {[ ("s", "a"); ("s", "b"); ("s", "d") ]} /\
  exists f, after !! ("s", "a") = Some f /\ fib_partitions f = mkRange 0 1 4 /\ remote_stream f = Some [].
Proof.
  intros before addresses after.
  destruct (fibers_follow_addresses (Some before) addresses) as (Hk & Hd & Hf).
  - change (keyed before). repeat apply map_Forall_insert_2; [done..|]. apply map_Forall_empty.
  - apply (bool_decide_eq_true_1 _). vm_compute. reflexivity.
  - split; [exact Hk|]. split; [etrans; [exact Hd|vm_compute; reflexivity]|].
    exact (Hf "s" "a" (mkRange 0 1 4) ltac:(by left)).
Defined.
