(* ===== verification/FiberRuns.v ===== *)
(** * Fibers under every schedule (operators/remote_source/)

    RemoteSource.v has the fibers of a remote source and one round of their barrier.  Here any
    number of fibers is polled by any schedule: no fiber goes past a marker before all have
    reached it, and a fair schedule reads all streams up to the marker at which the fibers
    pause.  Paths are relative to src/src/streaming/. *)

From S2P Require Import Prelude Arrow Partitioning Stream Generation Channels FiberStream Barrier RemoteSource.

(** ** The channels of a barrier *)

Section frame.
Context {W T : Type} (display : DataFusionError -> string).
Abbreviation Queue := (InnerQueueState W T).

(** The channels that were made are below the next one. *)
Definition bounded (b : Queue) : Prop := forall c, is_Some (channels b !! c) -> (c < next_channel b)%nat.

(** What the waiting fibers of the rounds before have been given. *)
Definition keeps (b b' : Queue) : Prop := bounded b' /\ forall c r, await c b = Ready r -> await c b' = Ready r.

Lemma keeps_trans b b1 b2 : keeps b b1 -> keeps b1 b2 -> keeps b b2.
Proof. intros [_ H1] [Hb H2]. split; [done|]. eauto. Qed.

Lemma await_channels (b b' : Queue) c : channels b' !! c = channels b !! c -> await c b' = await c b.
Proof. intros E. unfold await. by rewrite E. Qed.

Lemma await_known (b : Queue) c r : await c b = Ready r -> is_Some (channels b !! c).
Proof. unfold await. destruct (channels b !! c); [by eexists|done]. Qed.

Lemma keeps_same (b b' : Queue) : bounded b -> channels b' = channels b -> next_channel b' = next_channel b -> keeps b b'.
Proof.
  intros Hb Ec En. split; [intros c; rewrite Ec, En; apply Hb|]. intros c r Hr. by rewrite <- Hr; apply await_channels; rewrite Ec.
Qed.

(** A channel whose sender has not acted may be changed. *)
Lemma keeps_alter (b : Queue) ch f : bounded b -> await ch b = Pending -> keeps b (with_channel b ch f).
Proof.
  intros Hb Hp. split.
  - intros c. cbn. destruct (decide (c = ch)) as [->|Hc].
    + rewrite lookup_alter_eq, fmap_is_Some. apply Hb.
    + rewrite lookup_alter_ne by done. apply Hb.
  - intros c r Hr. rewrite <- Hr. apply await_channels. cbn. apply lookup_alter_ne. intros ->. by rewrite Hp in Hr.
Qed.

Lemma keeps_create (b : Queue) n : bounded b -> keeps b (create_state_queue b n).
Proof.
  intros Hb. unfold create_state_queue. destruct (n <=? 1); [by apply keeps_same|]. split.
  - intros c. cbn. destruct (decide (c = next_channel b)) as [->|Hc]; [lia|].
    rewrite lookup_insert_ne by done. intros Hs%Hb. lia.
  - intros c r Hr. rewrite <- Hr. apply await_channels. cbn. apply lookup_insert_ne.
    apply await_known, Hb in Hr. lia.
Qed.

Lemma new_bounded n : bounded (Barrier.new n : Queue).
Proof. apply keeps_create. intros c [x Hx]. cbn in Hx. by rewrite lookup_empty in Hx. Qed.

Lemma create_keeps_channel (b : Queue) n ch : bounded b -> is_Some (channels b !! ch) ->
  await ch (create_state_queue b n) = await ch b.
Proof. intros Hb Hs. apply await_channels, create_state_queue_channel, Hb, Hs. Qed.

(** A round changes only its own channel, and makes that of the next round. *)
Lemma pop_keeps (b : Queue) w ch m b' w' x : bounded b ->
  synchronisation_queue b = Some (SendSlot ch :: replicate m (RecvSlot ch)) ->
  is_Some (channels b !! ch) -> await ch b = Pending ->
  pop_queue_inner display (b, w) = ((b', w'), x) -> keeps b b'.
Proof.
  intros Hb Hq Hs Hp. unfold pop_queue_inner. rewrite Hq. destruct m as [|m].
  - cbn [last removelast replicate].
    assert (forall b1 : Queue, channels b1 = channels b -> next_channel b1 = next_channel b ->
      (forall f, keeps b (with_channel b1 ch f)) /\ forall n f, keeps b (with_channel (create_state_queue b1 n) ch f)) as Hk.
    { intros b1 Ec En. assert (keeps b b1) as H1 by by apply keeps_same.
      assert (await ch b1 = Pending) as Hp1 by (rewrite <- Hp; apply await_channels; by rewrite Ec).
      split; intros; (eapply keeps_trans; [|apply keeps_alter]); try done; [apply H1|eapply keeps_trans; [exact H1|apply keeps_create, H1]
        |apply keeps_create, H1|rewrite create_keeps_channel; [done|apply H1|by rewrite Ec]]. }
    assert (exists b1 w1 r, take_and_run (with_queue b (Some []), w) = ((b1, w1), r) /\
      channels b1 = channels b /\ next_channel b1 = next_channel b) as (b1 & w1 & r & -> & Ec & En).
    { unfold take_and_run. cbn [with_queue computation_function]. destruct (computation_function b) as [f|]; [|by eexists _, _, _].
      destruct (f w) as [w1 r]. by eexists _, _, _. }
    destruct (Hk b1 Ec En) as [Hk1 Hk2].
    destruct r as [v|e|why]; [..|intros [= <- _ _]; by apply Hk1];
      (destruct (_ =? 0)%nat; intros [= <- _ _]; by apply Hk2).
  - destruct (queue_end (SendSlot ch) (RecvSlot ch) m) as [-> ->]. intros [= <- _ _]. by apply keeps_same.
Qed.

Lemma do_call_keeps n ch j k fn (b : Queue) w c b' w' x : in_round n ch j k fn b -> bounded b ->
  do_call display c (b, w) = ((b', w'), x) -> keeps b b'.
Proof.
  intros (_ & _ & Hq & Hch & _) Hb.
  assert (await ch b = Pending) as Hp by (unfold await; by rewrite Hch).
  assert (forall b1 : Queue, channels b1 = channels b -> next_channel b1 = next_channel b ->
    synchronisation_queue b1 = synchronisation_queue b -> forall b2 w2 r,
    pop_queue_inner display (b1, w) = ((b2, w2), r) -> keeps b b2) as Hpop.
  { intros b1 Ec En Es b2 w2 r E. eapply keeps_trans; [by apply keeps_same|].
    eapply pop_keeps; [|by rewrite Es|by rewrite Ec, Hch; eexists|by rewrite <- Hp; apply await_channels; rewrite Ec|exact E].
    by apply (keeps_same b b1). }
  assert (forall b2, keeps b b2 -> forall c, await ch b2 = Pending -> keeps b (with_channel b2 ch c)) as Halter.
  { intros b2 H2 f Hp2. eapply keeps_trans; [exact H2|]. apply keeps_alter; [apply H2|done]. }
  destruct c as [f|]; cbn [do_call]; unfold mbind, act_bind.
  - unfold compute_result. destruct (pop_queue_inner _ _) as [[b2 w2] r] eqn:E.
    pose proof (Hpop (with_function b _) eq_refl eq_refl eq_refl _ _ _ E) as Hk. destruct r; by intros [= <- _ _].
  - unfold remove_participant. destruct (pop_queue_inner _ _) as [[b2 w2] r] eqn:E.
    pose proof (Hpop (mkQueue (Barrier.count b - 1) (computation_function b) (synchronisation_queue b) (channels b) (next_channel b))
      eq_refl eq_refl eq_refl _ _ _ E) as Hk. destruct r as [[r|c]|e|why]; try by intros [= <- _ _].
    assert (c = ch /\ channels b2 = channels b) as [-> Ec].
    { unfold pop_queue_inner in E. cbn [synchronisation_queue] in E. rewrite Hq in E. revert E. generalize (n - 1 - j)%nat as m. intros [|m].
      - cbn [last replicate]. destruct (take_and_run _) as [[b3 w3] [v|e|why]]; [..|done]; by destruct (_ =? 0)%nat.
      - destruct (queue_end (SendSlot ch) (RecvSlot ch) m) as [-> ->]. by intros [= <- _ <-]. }
    intros [= <- _ _]. apply Halter; [done|]. rewrite <- Hp. apply await_channels. by rewrite Ec.
Qed.
End frame.

(** ** Fibers between two markers *)

Section runs.
Context `{Profile} (display : DataFusionError -> string) {B : Type}.
Abbreviation item := (res DataFusionError (SItem B)).

Abbreviation reading := (Reading (B := B)).
Abbreviation instructions := (list (RunningFiberCheckMarker (B := B))).

Context (shared : SharedFiberState) (details : option (list GenerationSpec) * option (list GenerationInputDetail)).
(** What the check decides at a marker. *)
Context (verdict : Marker -> FiberState).

Definition checks (m : Marker) : Prop :=
  check_generation_and_addresses details shared (checkpoint_number m) = Ok (verdict m).

(** An item that is no marker. *)
Definition data (i : item) : bool := match i with Ok (SMarker _) => false | _ => true end.

(** A stream: items, a marker, items, and so on; every fiber has the same markers. *)
Fixpoint stream_of (ms : list Marker) (cur : list item) (segs : list (list item)) : list item :=
  match ms, segs with
  | m :: ms, s :: segs => cur ++ Ok (SMarker m) :: stream_of ms s segs
  | _, _ => cur
  end.

(** What is delivered of it: all up to the first marker at which the fibers pause. *)
Fixpoint delivered (ms : list Marker) (cur : list item) (segs : list (list item)) : list item :=
  match ms, segs with
  | m :: ms, s :: segs =>
      cur ++ Ok (SMarker m) :: match verdict m with Continue => delivered ms s segs | Pause => [] end
  | _, _ => cur
  end.
Definition after (m : Marker) (ms : list Marker) (s : list item) (segs : list (list item)) : list item :=
  match verdict m with Continue => delivered ms s segs | Pause => [] end.

(** Its instructions. *)
Fixpoint body (ms : list Marker) (cur : list item) (segs : list (list item)) : instructions :=
  match ms, segs with
  | m :: ms, s :: segs => List.map IItem cur ++ IItem (Ok (SMarker m)) :: ICheck m :: body ms s segs
  | _, _ => List.map IItem cur ++ [IFinished]
  end.

Lemma data_instructions cur rest : forallb data cur = true ->
  (cur ++ rest) ≫= instructions_of = List.map IItem cur ++ (rest ≫= instructions_of).
Proof.
  induction cur as [|i cur IH]; [done|]. cbn [forallb]. intros [Hi Hc]%andb_true_iff. cbn [app List.map].
  rewrite bind_cons, IH by done. by destruct i as [[| |]|e|w].
Qed.

Lemma instructions_body ms cur segs : forallb data cur = true -> Forall (fun s => forallb data s = true) segs ->
  insert_stream_instructions (stream_of ms cur segs) = body ms cur segs.
Proof.
  unfold insert_stream_instructions. revert cur segs. induction ms as [|m ms IH]; intros cur segs Hc Hs.
  - cbn. rewrite <- (app_nil_r cur) at 1. rewrite data_instructions by done. by rewrite app_nil_r.
  - destruct Hs as [|s segs Hs Hsegs].
    + cbn. rewrite <- (app_nil_r cur) at 1. rewrite data_instructions by done. by rewrite app_nil_r.
    + cbn [stream_of body]. rewrite data_instructions by done. rewrite bind_cons. cbn [instructions_of].
      rewrite <- !app_assoc. cbn. by rewrite IH.
Qed.

Definition clean (cur : list item) (segs : list (list item)) : Prop :=
  forallb data cur = true /\ Forall (fun s => forallb data s = true) segs.

(** [r] is about to run the instructions, at once or when it reads the answer it was given. *)
Definition ready_to (b : FiberBarrier) (l : instructions) (r : reading) : Prop :=
  r = Running l \/ exists c, r = WaitingFor c l /\ await c b = Ready (Ok Continue).

(** The state of a fiber while round [ch] of the barrier is on, after [e] markers and before the
    markers [ms]: with what it will still deliver and how many markers it has delivered. *)
Inductive fiber_ok (b : FiberBarrier) (ch e : nat) : list Marker -> reading -> list item * nat -> Prop :=
  | ok_active ms cur segs r : length segs = length ms -> clean cur segs -> ready_to b (body ms cur segs) r ->
      fiber_ok b ch e ms r (delivered ms cur segs, e)
  | ok_check m ms s segs : length segs = length ms -> clean s segs ->
      fiber_ok b ch e (m :: ms) (Running (ICheck m :: body ms s segs)) (after m ms s segs, S e)
  | ok_waiting m ms s segs : length segs = length ms -> clean s segs ->
      fiber_ok b ch e (m :: ms) (WaitingFor ch (body ms s segs)) (after m ms s segs, S e)
  | ok_left : fiber_ok b ch e [] Stopped ([], e).

(** A fiber that delivers nothing more. *)
Definition over (b : FiberBarrier) (r : reading) (g : list item * nat) : Prop :=
  g.1 = [] /\ (r = Stopped \/ exists c l, r = WaitingFor c l /\ await c b = Ready (Ok Pause)).

Definition is_waiting (ch : nat) (r : reading) : bool :=
  match r with WaitingFor c _ => (c =? ch)%nat | _ => false end.
Definition is_stopped (r : reading) : bool := match r with Stopped => true | _ => false end.
Definition how_many {A} (p : A -> bool) (l : list A) : nat := length (List.filter p l).

Definition arrived (j : nat) {A} (a : A) : option A := if (j =? 0)%nat then None else Some a.

(** All fibers are before or at marker [m], and [j] of them wait there. *)
Record at_marker (fibers : list reading) (gs : list (list item * nat)) (b : FiberBarrier) (w : Shared)
    (e ch : nat) (m : Marker) (ms : list Marker) (j : nat) : Prop := AtMarker {
  am_all : Forall2 (fiber_ok b ch e (m :: ms)) fibers gs;
  am_checks : Forall checks (m :: ms);
  am_count : j = how_many (is_waiting ch) fibers;
  am_some : (j < length fibers)%nat;
  am_round : in_round (length fibers) ch j 0 (arrived j (marker_computation shared (checkpoint_number m))) b;
  am_marker : currently_waiting_on_marker w = arrived j (checkpoint_number m);
  am_details : scheduling_details w = details;
  am_two : (1 < length fibers)%nat;
}.

(** All fibers are after the last marker, and [k] of them have ended. *)
Record at_end (fibers : list reading) (gs : list (list item * nat)) (b : FiberBarrier) (e ch k : nat) : Prop := AtEnd {
  ae_all : Forall2 (fiber_ok b ch e []) fibers gs;
  ae_count : k = how_many is_stopped fibers;
  ae_some : (k < length fibers)%nat;
  ae_round : in_round (length fibers) ch k k None b;
  ae_two : (1 < length fibers)%nat;
}.

(** A fiber that is alone never waits. *)
Inductive alone_ok (e : nat) : list Marker -> reading -> list item * nat -> Prop :=
  | alone_active ms cur segs : length segs = length ms -> clean cur segs ->
      alone_ok e ms (Running (body ms cur segs)) (delivered ms cur segs, e)
  | alone_check m ms s segs : length segs = length ms -> clean s segs ->
      alone_ok e (m :: ms) (Running (ICheck m :: body ms s segs)) (after m ms s segs, S e).
Record alone (r : reading) (g : list item * nat) (b : FiberBarrier) (w : Shared) (e : nat) (ms : list Marker) : Prop := Alone {
  al_ok : alone_ok e ms r g;
  al_checks : Forall checks ms;
  al_fresh : fresh 1 b;
  al_marker : currently_waiting_on_marker w = None;
  al_details : scheduling_details w = details;
}.

Inductive inv (fibers : list reading) (gs : list (list item * nat)) (b : FiberBarrier) (w : Shared) : Prop :=
  | inv_marker e ch m ms j : at_marker fibers gs b w e ch m ms j -> inv fibers gs b w
  | inv_end e ch k : at_end fibers gs b e ch k -> inv fibers gs b w
  | inv_alone r g e ms : fibers = [r] -> gs = [g] -> alone r g b w e ms -> inv fibers gs b w
  | inv_over : Forall2 (over b) fibers gs -> inv fibers gs b w.

(** *** Counting *)

Lemma how_many_insert {A} (p : A -> bool) l i x y : l !! i = Some x ->
  (how_many p (<[i := y]> l) + Nat.b2n (p x) = how_many p l + Nat.b2n (p y))%nat.
Proof.
  unfold how_many. revert i. induction l as [|a l IH]; intros [|i] Hi; try done; cbn in *.
  - injection Hi as ->. destruct (p x), (p y); cbn; lia.
  - specialize (IH i Hi). destruct (p a); cbn [length Nat.add]; [f_equal|]; exact IH.
Qed.

Lemma how_many_same {A} (p : A -> bool) l i x y : l !! i = Some x -> p x = p y ->
  how_many p (<[i := y]> l) = how_many p l.
Proof. intros Hi Hp. pose proof (how_many_insert p l i x y Hi). rewrite Hp in H0. lia. Qed.

Lemma how_many_all {A} (p : A -> bool) l : (how_many p l <= length l)%nat /\
  (how_many p l = length l -> forall k y, l !! k = Some y -> p y = true).
Proof.
  unfold how_many. induction l as [|a l [IH1 IH2]]; [done|]. cbn. destruct (p a) eqn:E; cbn; split; try lia.
  intros Hl [|k] y; cbn; [by intros [= <-]|]. apply IH2. lia.
Qed.

Lemma how_many_none {A} (p : A -> bool) l : (forall k y, l !! k = Some y -> p y = false) -> how_many p l = 0%nat.
Proof.
  unfold how_many. induction l as [|a l IH]; intros Hp; [done|]. cbn. rewrite (Hp 0%nat a eq_refl).
  apply IH. intros k y Hk. by apply (Hp (S k)).
Qed.

Lemma how_many_some {A} (p : A -> bool) l : (how_many p l < length l)%nat -> exists i x, l !! i = Some x /\ p x = false.
Proof.
  unfold how_many. induction l as [|a l IH]; cbn; [lia|]. destruct (p a) eqn:E; [|intros _; by exists 0%nat, a].
  cbn. intros (i & x & Hi & Hx)%Nat.succ_lt_mono%IH. by exists (S i), x.
Qed.

(** The others, when all but one are counted. *)
Lemma how_many_others {A} (p : A -> bool) l i x : l !! i = Some x -> p x = false -> (length l <= S (how_many p l))%nat ->
  forall k y, k <> i -> l !! k = Some y -> p y = true.
Proof.
  intros Hi Hx Hl k y Hk Hy. destruct (p y) eqn:Ey; [done|].
  (* with both counted there would be too many *)
  revert i k Hi Hk Hy Hl. unfold how_many. induction l as [|a l IH]; intros [|i] [|k] Hi Hk Hy Hl; try done; cbn in *.
  - injection Hi as ->. rewrite Hx in Hl. exfalso. destruct (how_many_all p l) as [Hle Hall]. unfold how_many in *.
    specialize (Hall ltac:(lia) _ _ Hy). congruence.
  - injection Hy as ->. rewrite Ey in Hl. exfalso. destruct (how_many_all p l) as [Hle Hall]. unfold how_many in *.
    specialize (Hall ltac:(lia) _ _ Hi). congruence.
  - destruct (p a); cbn in Hl; eapply (IH i k); eauto; lia.
Qed.

Lemma Forall2_others {A C} (P Q : A -> C -> Prop) l k i x y : Forall2 P l k -> Q x y ->
  (forall j a c, j <> i -> l !! j = Some a -> k !! j = Some c -> P a c -> Q a c) ->
  Forall2 Q (<[i := x]> l) (<[i := y]> k).
Proof.
  intros HP Hxy Hothers. revert i Hothers. induction HP as [|a c l k Hac HP IH]; intros i Hothers; [constructor|].
  destruct i as [|i]; cbn.
  - constructor; [done|]. apply Forall2_same_length_lookup. split; [by eapply Forall2_length|].
    intros j a' c' Ha Hc. eapply (Hothers (S j)); [done..|]. by eapply Forall2_lookup_lr.
  - constructor; [by apply (Hothers 0%nat)|]. apply IH. intros j a' c' Hj. apply (Hothers (S j)). lia.
Qed.

(** *** What stays when others are polled *)

Lemma ready_to_keeps b b' l r : keeps b b' -> ready_to b l r -> ready_to b' l r.
Proof. intros [_ Hk] [->|(c & -> & Hc)]; [by left|]. right. exists c. split; [done|]. by apply Hk. Qed.

Lemma fiber_ok_keeps b b' ch e ms r g : keeps b b' -> fiber_ok b ch e ms r g -> fiber_ok b' ch e ms r g.
Proof. intros Hk [?????|?????|?????|]; constructor; try done. by eapply ready_to_keeps. Qed.

Lemma over_keeps b b' r g : keeps b b' -> over b r g -> over b' r g.
Proof. intros [_ Hk] [Hg [->|(c & l & -> & Hc)]]; split; [done|by left|done|]. right. exists c, l. split; [done|]. by apply Hk. Qed.

Lemma fiber_ok_count b ch e ms r g : fiber_ok b ch e ms r g -> (e <= g.2)%nat.
Proof. intros []; cbn; lia. Qed.

(** *** One poll *)

Definition is_marker (i : item) : bool := negb (data i).

(** What a poll must establish: the next invariant, where fiber [i] delivers [out] first. *)
Definition polled (fibers : list reading) (gs : list (list item * nat)) (b : FiberBarrier) (i : nat)
    (left : list item) (d : nat) (b' : FiberBarrier) (w' : Shared) (r' : reading) (out : list item) : Prop :=
  exists left', inv (<[i := r']> fibers) (<[i := (left', (d + how_many is_marker out)%nat)]> gs) b' w' /\
    left = out ++ left' /\ keeps b b' /\ (out <> [] -> Forall (fun g => d <= g.2)%nat gs).

Lemma keeps_refl (b : FiberBarrier) : bounded b -> keeps b b.
Proof. intros Hb. by apply keeps_same. Qed.

Lemma in_round_pending n ch j k fn (b : FiberBarrier) : in_round n ch j k fn b -> await ch b = Pending.
Proof. intros (_ & _ & _ & Hch & _). unfold await. by rewrite Hch. Qed.

(** A fiber that leaves the barrier alone. *)
Lemma local_step fibers gs b w i r left d e ch m ms j r' out left' :
  at_marker fibers gs b w e ch m ms j -> bounded b ->
  fibers !! i = Some r -> is_waiting ch r = is_waiting ch r' ->
  fiber_ok b ch e (m :: ms) r' (left', (d + how_many is_marker out)%nat) ->
  left = out ++ left' -> d = e \/ out = [] ->
  polled fibers gs b i left d b w r' out.
Proof.
  intros Hat Hb Hi Hsame Hok Hleft He. pose proof Hat as [Hall Hchecks Hj Hlt Hround Hw Hd Htwo].
  exists left'. split_and!; [|done|by apply keeps_refl|].
  - apply (inv_marker _ _ _ _ e ch m ms j). constructor; rewrite ?length_insert; try done.
    + by apply Forall2_insert.
    + by rewrite (how_many_same _ _ _ _ _ Hi Hsame).
  - intros Hne. destruct He as [-> |]; [|done]. apply Forall_forall. intros g (k & Hk)%list_elem_of_lookup.
    destruct (Forall2_lookup_r _ _ _ _ _ Hall Hk) as (r0 & _ & H0). by eapply fiber_ok_count.
Qed.

Lemma poll_state_calls mk b w s p : only mk w ->
  do_call display (Compute (marker_computation shared mk)) (b, waiting_for mk w) = (s, Ok (Some p)) ->
  poll_fiber_state display shared mk (b, w) = (s, Ok p).
Proof.
  intros Hw Hc. pose proof (do_event_call display shared mk EPoll b w Hw) as He.
  cbn [event_call after_event] in He. rewrite Hc in He. cbn [do_event] in He.
  apply act_bind_inv in He as (s1 & p1 & Hp & [= -> ->]). exact Hp.
Qed.

Lemma only_arrived j mk w : currently_waiting_on_marker w = arrived j mk -> only mk w.
Proof. intros Hw. unfold only. rewrite Hw. unfold arrived. destruct (j =? 0)%nat; [by left|by right]. Qed.

(** A fiber arrives at the marker, and is not the last one. *)
Lemma check_waits fibers gs b w i left d e ch m ms j s segs :
  at_marker fibers gs b w e ch m ms j -> bounded b ->
  fibers !! i = Some (Running (ICheck m :: body ms s segs)) -> length segs = length ms -> clean s segs ->
  left = after m ms s segs -> d = S e -> (S j < length fibers)%nat ->
  exists b' w', poll_fiber display shared (Running (ICheck m :: body ms s segs)) (b, w) =
      ((b', w'), (WaitingFor ch (body ms s segs), [])) /\
    polled fibers gs b i left d b' w' (WaitingFor ch (body ms s segs)) [].
Proof.
  intros Hat Hb Hi Hlen Hclean -> -> Hmore. pose proof Hat as [Hall Hchecks Hj Hlt Hround Hw Hd Htwo].
  set (mk := checkpoint_number m) in *. set (f := marker_computation shared mk) in *.
  destruct (do_call_waits display _ _ _ _ _ b (waiting_for mk w) (Compute f) Hround Hmore) as (b' & Hc & Hround').
  exists b', (waiting_for mk w). split.
  { cbn [poll_fiber]. fold mk. by rewrite (poll_state_calls _ _ _ _ _ (only_arrived _ _ _ Hw) Hc). }
  pose proof (do_call_keeps display _ _ _ _ _ _ _ _ _ _ _ Hround Hb Hc) as Hk.
  exists (after m ms s segs). split_and!; [|done|done|done].
  apply (inv_marker _ _ _ _ e ch m ms (S j)). constructor; rewrite ?length_insert; try done.
  - rewrite Nat.add_0_r. apply Forall2_insert; [|by constructor].
    eapply Forall2_impl; [exact Hall|]. intros r g. by apply fiber_ok_keeps.
  - pose proof (how_many_insert (is_waiting ch) fibers i _ (WaitingFor ch (body ms s segs)) Hi) as Hn.
    cbn in Hn. rewrite Nat.eqb_refl in Hn. cbn in Hn. lia.
  - rewrite Nat.add_0_r in Hround'. unfold first_computation in Hround'. unfold arrived. cbn [Nat.eqb].
    unfold arrived in Hround'. by destruct (j =? 0)%nat.
Qed.

(** All fibers have delivered the last marker that was checked, and are given its answer. *)
Lemma next_round b e ms ch' fibers gs w :
  Forall checks ms ->
  (1 < length fibers)%nat -> (forall k r, fibers !! k = Some r -> is_waiting ch' r = false /\ is_stopped r = false) ->
  in_round (length fibers) ch' 0 0 None b -> currently_waiting_on_marker w = None -> scheduling_details w = details ->
  Forall2 (fiber_ok b ch' e ms) fibers gs -> inv fibers gs b w.
Proof.
  intros Hchecks Hpos Hnone Hround Hw Hd Hall. destruct ms as [|m ms].
  - apply (inv_end _ _ _ _ e ch' 0). constructor; try done; [|lia]. symmetry. apply how_many_none. intros k r Hr. by apply (Hnone k).
  - apply (inv_marker _ _ _ _ e ch' m ms 0). constructor; try done; [|lia]. symmetry. apply how_many_none. intros k r Hr. by apply (Hnone k).
Qed.

(** The last fiber arrives: all go on, or all pause. *)
Lemma check_last fibers gs b w i left d e ch m ms j s segs :
  at_marker fibers gs b w e ch m ms j -> bounded b ->
  fibers !! i = Some (Running (ICheck m :: body ms s segs)) -> length segs = length ms -> clean s segs ->
  left = after m ms s segs -> d = S e -> (S j = length fibers)%nat ->
  exists b' w' r', poll_fiber display shared (Running (ICheck m :: body ms s segs)) (b, w) = ((b', w'), (r', [])) /\
    polled fibers gs b i left d b' w' r' [].
Proof.
  intros Hat Hb Hi Hlen Hclean -> -> Hn. pose proof Hat as [Hall Hchecks Hj Hlt Hround Hw Hd Htwo].
  set (mk := checkpoint_number m) in *. set (f := marker_computation shared mk) in *.
  apply Forall_cons in Hchecks as [Hm Hchecks].
  assert (computed (first_computation (arrived j f) [Compute f]) (waiting_for mk w) = (mkShared mk None details, Ok (verdict m))) as Hcomp.
  { replace (first_computation (arrived j f) [Compute f]) with (Some f) by (unfold arrived; by destruct (j =? 0)%nat).
    unfold computed, f, marker_computation, waiting_for. cbn. rewrite Hd. unfold checks in Hm. fold mk in Hm. by rewrite Hm. }
  assert (in_round (length fibers) ch (length fibers - 1) 0 (arrived j f) b) as Hround'.
  { by replace (length fibers - 1)%nat with j by lia. }
  destruct (do_call_last display _ ch 0 _ b (waiting_for mk w) (Compute f) Hround') as (b' & Hc & Hfresh & Haw);
    [lia|lia|by rewrite Hcomp|].
  rewrite Hcomp in Hc, Haw. cbn [snd fst] in Hc, Haw. rewrite (proj2 (Nat.eqb_neq _ _)) in Hc by lia. cbn [fst snd] in Hc.
  specialize (Haw ltac:(lia)). cbn in Haw.
  pose proof (do_call_keeps display _ _ _ _ _ _ _ _ _ _ _ Hround Hb Hc) as Hk.
  exists b', (mkShared mk None details), (fst (decide_check (B := B) (Ok (verdict m)) (body ms s segs))). split.
  { cbn [poll_fiber]. fold mk. rewrite (poll_state_calls _ _ _ _ _ (only_arrived _ _ _ Hw) Hc).
    by destruct (verdict m). }
  exists (after m ms s segs). split_and!; [|done|done|done].
  (* all the others wait *)
  assert (forall k r, k <> i -> fibers !! k = Some r -> is_waiting ch r = true) as Hwait.
  { apply (how_many_others (is_waiting ch) fibers i _ Hi); [done|lia]. }
  assert (forall r g, is_waiting ch r = true -> fiber_ok b ch e (m :: ms) r g ->
    exists s segs, length segs = length ms /\ clean s segs /\ r = WaitingFor ch (body ms s segs) /\ g = (after m ms s segs, S e)) as Hothers.
  { clear -Hround. intros r g Hwait Hok.
    inversion Hok as [ms0 cur segs0 r0 Hl0 Hc0 Hready| |m0 ms0 s0 segs0 Hl0 Hc0|]; subst; try done.
    - destruct Hready as [->|(c & -> & Hready)]; [done|]. apply Nat.eqb_eq in Hwait as ->.
      by rewrite (in_round_pending _ _ _ _ _ _ Hround) in Hready.
    - by exists s0, segs0. }
  rewrite Nat.add_0_r in Hfresh |- *. unfold leaving in Hfresh. cbn in Hfresh. rewrite Nat.sub_0_r in Hfresh.
  unfold after in *. destruct (verdict m) eqn:Hv; cbn [decide_check fst].
  - unfold fresh in Hfresh. rewrite (proj2 (Nat.leb_gt _ _)) in Hfresh by lia. destruct Hfresh as (ch' & Hround2).
    assert (ch' <> ch) as Hne.
    { intros ->. by rewrite (in_round_pending _ _ _ _ _ _ Hround2) in Haw. }
    assert (forall k r, <[i := Running (body ms s segs)]> fibers !! k = Some r ->
      is_waiting ch' r = false /\ is_stopped r = false) as Hnone.
    { intros k r. destruct (decide (k = i)) as [->|Hki].
      - rewrite list_lookup_insert_eq by (by eapply lookup_lt_Some). by intros [= <-].
      - rewrite list_lookup_insert_ne by done. intros Hr. pose proof (Hwait _ _ Hki Hr) as Hrw.
        destruct r as [|c l|]; [done| |done]. apply Nat.eqb_eq in Hrw as ->. by split; [apply Nat.eqb_neq|]. }
    eapply (next_round _ (S e) ms ch'); rewrite ?length_insert; try done.
    eapply Forall2_others; [exact Hall|by constructor; [..|left]|].
    intros k r g Hki Hr _ Hok. destruct (Hothers r g (Hwait _ _ Hki Hr) Hok) as (s' & segs' & Hl' & Hc' & -> & ->).
    constructor; [done|done|]. right. by exists ch.
  - apply inv_over. eapply Forall2_others; [exact Hall|split; [done|by left]|].
    intros k r g Hki Hr _ Hok. destruct (Hothers r g (Hwait _ _ Hki Hr) Hok) as (s' & segs' & Hl' & Hc' & -> & ->).
    split; [done|]. right. by exists ch, (body ms s' segs').
Qed.

(** A fiber that leaves the barrier alone, after the last marker. *)
Lemma local_step_end fibers gs b w i r left d e ch k r' out left' :
  at_end fibers gs b e ch k -> bounded b ->
  fibers !! i = Some r -> is_stopped r = is_stopped r' ->
  fiber_ok b ch e [] r' (left', (d + how_many is_marker out)%nat) ->
  left = out ++ left' -> d = e \/ out = [] ->
  polled fibers gs b i left d b w r' out.
Proof.
  intros Hat Hb Hi Hsame Hok Hleft He. pose proof Hat as [Hall Hcount Hlt Hround Htwo].
  exists left'. split_and!; [|done|by apply keeps_refl|].
  - apply (inv_end _ _ _ _ e ch k). constructor; rewrite ?length_insert; try done.
    + by apply Forall2_insert.
    + by rewrite (how_many_same _ _ _ _ _ Hi Hsame).
  - intros Hne. destruct He as [-> |]; [|done]. apply Forall_forall. intros g (j & Hj)%list_elem_of_lookup.
    destruct (Forall2_lookup_r _ _ _ _ _ Hall Hj) as (r0 & _ & H0). by eapply fiber_ok_count.
Qed.

Lemma report_calls (s s' : FiberBarrier * Shared) :
  do_call display Remove s = (s', Ok None) -> report_finished display s = (s', Ok ()).
Proof. cbn [do_call]. intros (s1 & [] & Hp & [= ->])%act_bind_inv. exact Hp. Qed.

(** A stream ends. *)
Lemma finish_step fibers gs b w i d e ch k :
  at_end fibers gs b e ch k -> bounded b ->
  fibers !! i = Some (Running [IFinished]) -> d = e ->
  exists b', poll_fiber display shared (Running [IFinished] : reading) (b, w) = ((b', w), (Stopped, [])) /\
    polled fibers gs b i [] d b' w Stopped [].
Proof.
  intros Hat Hb Hi ->. pose proof Hat as [Hall Hk Hlt Hround Htwo].
  assert (forall b', do_call display Remove (b, w) = ((b', w), Ok None) ->
    poll_fiber display shared (Running [IFinished] : reading) (b, w) = ((b', w), (Stopped, []))) as Hpoll.
  { intros b' Hc. cbn [poll_fiber]. by rewrite (report_calls _ _ Hc). }
  pose proof (how_many_insert is_stopped fibers i _ Stopped Hi) as Hcount. cbn in Hcount.
  destruct (decide (S k < length fibers)%nat) as [Hmore|Hlast].
  - destruct (do_call_waits display _ _ _ _ _ b w Remove Hround Hmore) as (b' & Hc & Hround').
    pose proof (do_call_keeps display _ _ _ _ _ _ _ _ _ _ _ Hround Hb Hc) as Hkeep.
    exists b'. split; [by apply Hpoll|]. exists []. split_and!; [|done|done|done].
    apply (inv_end _ _ _ _ e ch (S k)). constructor; rewrite ?length_insert; [|lia|lia| |done].
    + rewrite Nat.add_0_r. apply Forall2_insert; [|by constructor].
      eapply Forall2_impl; [exact Hall|]. intros r g. by apply fiber_ok_keeps.
    + change (leaving [Remove]) with 1%nat in Hround'. by rewrite Nat.add_1_r in Hround'.
  - assert (k = length fibers - 1)%nat as Hk1 by lia. rewrite Hk1 in Hround at 1.
    destruct (do_call_last display _ ch k _ b w Remove Hround) as (b' & Hc & _); [lia|lia|done|].
    pose proof (do_call_keeps display _ _ _ _ _ _ _ _ _ _ _ Hround Hb Hc) as Hkeep.
    exists b'. split; [by apply Hpoll|]. exists []. split_and!; [|done|done|done].
    apply inv_over. eapply Forall2_others; [exact Hall|by split; [|left]|].
    intros j r g Hji Hr Hg Hok.
    assert (is_stopped r = true) as Hs by (eapply (how_many_others is_stopped fibers i); [exact Hi|done|lia|exact Hji|exact Hr]).
    inversion Hok as [ms0 cur segs0 r0 Hl0 Hc0 [->|(c & -> & _)]| | |]; subst; try done. by split; [|left].
Qed.

(** *** Every poll *)

Lemma clean_next i cur segs : clean (i :: cur) segs -> is_marker i = false /\ clean cur segs.
Proof. intros [Hc Hs]. cbn in Hc. apply andb_true_iff in Hc as [Hi Hc]. by split; [unfold is_marker; rewrite Hi|split]. Qed.

Lemma clean_segs s segs : clean [] (s :: segs) -> clean s segs.
Proof. intros [_ Hs]. by inversion Hs. Qed.

Lemma poll_ready c l b w : await c b = Ready (Ok Continue) ->
  poll_fiber display shared (WaitingFor c l : reading) (b, w) = ((b, w), (Running l, [])).
Proof. intros Hc. cbn [poll_fiber fst]. by rewrite Hc. Qed.

Definition poll_ok (fibers : list reading) (gs : list (list item * nat)) (b : FiberBarrier) (w : Shared)
    (i : nat) (r : reading) (left : list item) (d : nat) : Prop :=
  exists b' w' r' out, poll_fiber display shared r (b, w) = ((b', w'), (r', out)) /\
    polled fibers gs b i left d b' w' r' out.

Lemma poll_active fibers gs b w i r left d e ch m ms j cur segs :
  at_marker fibers gs b w e ch m ms j -> bounded b ->
  fibers !! i = Some r -> length segs = length (m :: ms) -> clean cur segs -> ready_to b (body (m :: ms) cur segs) r ->
  left = delivered (m :: ms) cur segs -> d = e -> poll_ok fibers gs b w i r left d.
Proof.
  intros Hat Hb Hi Hlen Hclean Hready -> ->.
  pose proof (in_round_pending _ _ _ _ _ _ (am_round _ _ _ _ _ _ _ _ _ Hat)) as Hpending.
  assert (forall r' out left', poll_fiber display shared r (b, w) = ((b, w), (r', out)) -> is_waiting ch r = is_waiting ch r' ->
    fiber_ok b ch e (m :: ms) r' (left', (e + how_many is_marker out)%nat) -> delivered (m :: ms) cur segs = out ++ left' ->
    poll_ok fibers gs b w i r (delivered (m :: ms) cur segs) e) as Hstep.
  { intros r' out left' Hp Hsame Hok Hl. exists b, w, r', out. split; [done|].
    eapply (local_step fibers gs b w i r _ e e ch m ms j); eauto. }
  destruct Hready as [->|(c & -> & Hc)].
  - destruct segs as [|s segs]; [done|]. destruct cur as [|x cur].
    + eapply (Hstep (Running (ICheck m :: body ms s segs)) [Ok (SMarker m)] (after m ms s segs)); [done..| |done].
      cbn. rewrite Nat.add_1_r. constructor; [by injection Hlen|by apply clean_segs].
    + destruct (clean_next _ _ _ Hclean) as [Hx Hclean'].
      eapply (Hstep (Running (body (m :: ms) cur (s :: segs))) [x] (delivered (m :: ms) cur (s :: segs))); [done..| |done].
      unfold how_many. cbn [List.filter]. rewrite Hx, Nat.add_0_r. constructor; [done|done|by left].
  - eapply (Hstep (Running (body (m :: ms) cur segs)) [] (delivered (m :: ms) cur segs)); [by apply poll_ready| | |done].
    + cbn. apply Nat.eqb_neq. intros ->. by rewrite Hpending in Hc.
    + rewrite Nat.add_0_r. constructor; [done|done|by left].
Qed.

Lemma poll_active_end fibers gs b w i r left d e ch k cur segs :
  at_end fibers gs b e ch k -> bounded b ->
  fibers !! i = Some r -> length segs = length ([] : list Marker) -> clean cur segs -> ready_to b (body [] cur segs) r ->
  left = delivered [] cur segs -> d = e -> poll_ok fibers gs b w i r left d.
Proof.
  intros Hat Hb Hi Hlen Hclean Hready -> ->.
  assert (forall r' out left', poll_fiber display shared r (b, w) = ((b, w), (r', out)) -> is_stopped r = is_stopped r' ->
    fiber_ok b ch e [] r' (left', (e + how_many is_marker out)%nat) -> delivered [] cur segs = out ++ left' ->
    poll_ok fibers gs b w i r (delivered [] cur segs) e) as Hstep.
  { intros r' out left' Hp Hsame Hok Hl. exists b, w, r', out. split; [done|].
    eapply (local_step_end fibers gs b w i r _ e e ch k); eauto. }
  destruct Hready as [->|(c & -> & Hc)].
  - destruct cur as [|x cur].
    + destruct (finish_step fibers gs b w i e e ch k) as (b' & Hp & Hpolled); try done. by exists b', w, Stopped, [].
    + destruct (clean_next _ _ _ Hclean) as [Hx Hclean'].
      eapply (Hstep (Running (body [] cur segs)) [x] (delivered [] cur segs)); [done..| |done].
      unfold how_many. cbn [List.filter]. rewrite Hx, Nat.add_0_r. by constructor; [..|left].
  - eapply (Hstep (Running (body [] cur segs)) [] (delivered [] cur segs)); [by apply poll_ready|done| |done].
    rewrite Nat.add_0_r. by constructor; [..|left].
Qed.

(** A barrier of one participant answers at once. *)
Lemma alone_call c (b : FiberBarrier) w : fresh 1 b -> bounded b ->
  (forall why, snd (computed (first_computation None [c]) w) <> Panic why) ->
  exists b', do_call display c (b, w) = ((b', fst (computed (first_computation None [c]) w)),
      Ok (match c with Compute _ => Some (Immediate (snd (computed (first_computation None [c]) w))) | Remove => None end)) /\
    keeps b b' /\ match c with Compute _ => fresh 1 b' | Remove => True end.
Proof.
  intros (Hc & Hf & Hq) Hb Hp. destruct c as [f|].
  - exists (with_function (with_function b (Some f)) None). split; [|split; [by apply keeps_same|done]].
    cbn [do_call]. erewrite act_bind_Ok; [done|]. unfold compute_result, pop_queue_inner, take_and_run. cbn. rewrite Hf, Hq. cbn.
    cbn in Hp. destruct (f w) as [w' [v|e|why]]; [done|done|by destruct (Hp why)].
  - exists (mkQueue (Barrier.count b - 1) None None (channels b) (next_channel b)). split; [|split; [by apply keeps_same|done]].
    cbn [do_call]. erewrite act_bind_Ok; [done|]. unfold remove_participant, pop_queue_inner, take_and_run. cbn. by rewrite Hf, Hq.
Qed.

Lemma poll_alone r g b w e ms : alone r g b w e ms -> bounded b -> poll_ok [r] [g] b w 0 r g.1 g.2.
Proof.
  intros [Hok Hchecks Hfresh Hw Hd] Hb.
  assert (forall b' w' r' out left' e' ms', poll_fiber display shared r (b, w) = ((b', w'), (r', out)) -> keeps b b' ->
    g.1 = out ++ left' -> (out <> [] -> g.2 = e) ->
    (alone r' (left', (g.2 + how_many is_marker out)%nat) b' w' e' ms' \/ over b' r' (left', (g.2 + how_many is_marker out)%nat)) ->
    poll_ok [r] [g] b w 0 r g.1 g.2) as Hstep.
  { intros b' w' r' out left' e' ms' Hp Hk Hl He Hnext. exists b', w', r', out. split; [done|]. exists left'.
    split_and!; [|done|done|intros _; by repeat constructor]. cbn. destruct Hnext as [Ha|Ho].
    - by eapply inv_alone.
    - apply inv_over. by constructor. }
  destruct Hok as [ms cur segs Hlen Hclean|m ms s segs Hlen Hclean]; cbn [fst snd] in *.
  - destruct cur as [|x cur].
    + destruct ms as [|m ms], segs as [|s segs]; try done.
      * destruct (alone_call Remove b w Hfresh Hb) as (b' & Hc & Hk & _); [done|].
        apply (Hstep b' w Stopped [] [] e []); [|done..|by right; split; [|left]].
        cbn [body List.map app poll_fiber]. by rewrite (report_calls _ _ Hc).
      * apply (Hstep b w (Running (ICheck m :: body ms s segs)) [Ok (SMarker m)] (after m ms s segs) e (m :: ms));
          [done|by apply keeps_refl|done|done|]. left. constructor; try done. cbn. rewrite Nat.add_1_r.
        constructor; [by injection Hlen|by eapply clean_segs].
    + destruct (clean_next _ _ _ Hclean) as [Hx Hclean'].
      apply (Hstep b w (Running (body ms cur segs)) [x] (delivered ms cur segs) e ms);
        [by destruct ms, segs|by apply keeps_refl|by destruct ms, segs|done|]. left. constructor; try done.
      unfold how_many. cbn [List.filter]. rewrite Hx, Nat.add_0_r. by constructor.
  - apply Forall_cons in Hchecks as [Hm Hchecks]. unfold checks in Hm.
    set (mk := checkpoint_number m) in *.
    assert (marker_computation shared mk (waiting_for mk w) = (mkShared mk None details, Ok (verdict m))) as Hcomp.
    { unfold marker_computation, waiting_for. cbn. by rewrite Hd, Hm. }
    destruct (alone_call (Compute (marker_computation shared mk)) b (waiting_for mk w) Hfresh Hb) as (b' & Hc & Hk & Hfresh');
      [cbn [first_computation find_map computed]; by rewrite Hcomp|].
    cbn [first_computation find_map computed] in Hc. rewrite Hcomp in Hc. cbn [fst snd] in Hc.
    apply (Hstep b' (mkShared mk None details) (fst (decide_check (B := B) (Ok (verdict m)) (body ms s segs))) []
      (after m ms s segs) (S e) ms); [|done|done|done|].
    + cbn [poll_fiber]. fold mk. rewrite (poll_state_calls _ _ _ _ _ (or_introl Hw) Hc). by destruct (verdict m).
    + unfold after. destruct (verdict m); [left|by right; split; [|left]]. constructor; try done.
      rewrite Nat.add_0_r. by constructor.
Qed.

(** A poll keeps the invariant, and delivers what is next of the stream. *)
Lemma poll_step fibers gs b w i r left d :
  inv fibers gs b w -> bounded b -> fibers !! i = Some r -> gs !! i = Some (left, d) ->
  poll_ok fibers gs b w i r left d.
Proof.
  intros Hinv Hb Hi Hg. destruct Hinv as [e ch m ms j Hat|e ch k Hat|r0 g0 e ms -> -> Hal|Hall].
  - pose proof (am_all _ _ _ _ _ _ _ _ _ Hat) as Hall. pose proof (Forall2_lookup_lr _ _ _ _ _ _ Hall Hi Hg) as Hok.
    inversion Hok as [ms0 cur segs r0 Hlen Hclean Hready|m0 ms0 s segs Hlen Hclean|m0 ms0 s segs Hlen Hclean|]; subst.
    + eapply poll_active; eauto.
    + destruct (decide (S j < length fibers)%nat) as [Hmore|Hlast].
      * edestruct (check_waits fibers gs b w i _ _ e ch m ms j s segs Hat Hb Hi Hlen Hclean
          eq_refl eq_refl Hmore) as (b' & w' & Hp & Hpolled). by eexists _, _, _, _.
      * edestruct (check_last fibers gs b w i _ _ e ch m ms j s segs Hat Hb Hi Hlen Hclean
          eq_refl eq_refl) as (b' & w' & r' & Hp & Hpolled); [pose proof (am_some _ _ _ _ _ _ _ _ _ Hat); lia|]. by eexists _, _, _, _.
    + exists b, w, (WaitingFor ch (body ms s segs)), []. split.
      { cbn [poll_fiber fst]. by rewrite (in_round_pending _ _ _ _ _ _ (am_round _ _ _ _ _ _ _ _ _ Hat)). }
      eapply (local_step fibers gs b w i _ _ (S e) e ch m ms j); eauto.
      rewrite Nat.add_0_r. by constructor.
  - pose proof (Forall2_lookup_lr _ _ _ _ _ _ (ae_all _ _ _ _ _ _ Hat) Hi Hg) as Hok.
    inversion Hok as [ms0 cur segs r0 Hlen Hclean Hready| | |]; subst.
    + eapply poll_active_end; eauto.
    + exists b, w, Stopped, []. split; [done|]. eapply (local_step_end fibers gs b w i _ _ d d ch k); eauto.
      rewrite Nat.add_0_r. by constructor.
  - destruct i as [|i]; [|done]. injection Hi as ->. injection Hg as ->. by eapply (poll_alone r (left, d)).
  - pose proof (Forall2_lookup_lr _ _ _ _ _ _ Hall Hi Hg) as [Hl Hr]. cbn in Hl. subst left.
    assert (forall r', poll_fiber display shared r (b, w) = ((b, w), (r', [])) -> over b r' ([], (d + 0)%nat) ->
      poll_ok fibers gs b w i r [] d) as Hstep.
    { intros r' Hp Ho. exists b, w, r', []. split; [done|]. exists []. split_and!; [|done|by apply keeps_refl|done].
      apply inv_over. by apply Forall2_insert. }
    apply (Hstep Stopped); [|by split; [|left]]. destruct Hr as [->|(c & l & -> & Hc)]; [done|].
    cbn [poll_fiber fst]. by rewrite Hc.
Qed.

(** *** A schedule *)

(** What fiber [i] delivers in a run, and how many markers. *)
Definition outs_of (i : nat) (outs : list (nat * item)) : list item :=
  List.map snd (List.filter (fun o => (o.1 =? i)%nat) outs).
Definition markers_of (i : nat) (outs : list (nat * item)) : nat := how_many is_marker (outs_of i outs).

Lemma outs_of_app i o o' : outs_of i (o ++ o') = outs_of i o ++ outs_of i o'.
Proof. unfold outs_of. by rewrite List.filter_app, List.map_app. Qed.

Lemma outs_of_one i j out : outs_of i (pair j <$> out) = if (j =? i)%nat then out else [].
Proof.
  unfold outs_of. destruct (j =? i)%nat eqn:E; induction out as [|x out IH]; cbn; rewrite ?E; [done|cbn; by f_equal|done|done].
Qed.

Lemma how_many_app {A} (p : A -> bool) l k : how_many p (l ++ k) = (how_many p l + how_many p k)%nat.
Proof. unfold how_many. by rewrite List.filter_app, length_app. Qed.

Lemma markers_of_app i o o' : markers_of i (o ++ o') = (markers_of i o + markers_of i o')%nat.
Proof. unfold markers_of. by rewrite outs_of_app, how_many_app. Qed.

(** Nothing is delivered by a fiber that has delivered more markers than another one. *)
Definition aligned_from (gs : list (list item * nat)) (outs : list (nat * item)) : Prop :=
  forall pre i x post, outs = pre ++ (i, x) :: post -> forall j g g',
    gs !! i = Some g -> gs !! j = Some g' -> (g.2 + markers_of i pre <= g'.2 + markers_of j pre)%nat.

(** What the fibers deliver is next in their streams. *)
Definition progress (gs : list (list item * nat)) (outs : list (nat * item)) (gs' : list (list item * nat)) : Prop :=
  length gs' = length gs /\ forall i g, gs !! i = Some g -> exists left', g.1 = outs_of i outs ++ left' /\
    gs' !! i = Some (left', (g.2 + markers_of i outs)%nat).

Lemma progress_step gs i left d out left' outs gs' :
  gs !! i = Some (left, d) -> left = out ++ left' ->
  progress (<[i := (left', (d + how_many is_marker out)%nat)]> gs) outs gs' ->
  progress gs ((pair i <$> out) ++ outs) gs'.
Proof.
  intros Hi Hl [Hlen Hp]. split; [by rewrite Hlen, length_insert|]. intros j g Hj.
  rewrite markers_of_app, outs_of_app. unfold markers_of at 1. rewrite outs_of_one. destruct (Nat.eqb_spec i j) as [<-|Hne].
  - rewrite Hi in Hj. injection Hj as <-.
    destruct (Hp i _ (list_lookup_insert_eq _ _ _ (lookup_lt_Some _ _ _ Hi))) as (l & Hl' & Hg'). cbn in Hl', Hg'.
    exists l. split; [cbn; by rewrite Hl, Hl', app_assoc|]. rewrite Hg'. cbn. do 2 f_equal. lia.
  - rewrite <- (list_lookup_insert_ne gs i j (left', (d + how_many is_marker out)%nat) Hne) in Hj. exact (Hp j g Hj).
Qed.

Lemma aligned_step gs i left d out left' outs :
  gs !! i = Some (left, d) -> (length out <= 1)%nat -> (out <> [] -> Forall (fun g => d <= g.2)%nat gs) ->
  aligned_from (<[i := (left', (d + how_many is_marker out)%nat)]> gs) outs ->
  aligned_from gs ((pair i <$> out) ++ outs).
Proof.
  intros Hi Hone Hmin Hrest pre a x post E.
  assert (forall j g, gs !! j = Some g -> exists g1, <[i := (left', (d + how_many is_marker out)%nat)]> gs !! j = Some g1 /\
    (g.2 + markers_of j (pair i <$> out) = g1.2)%nat) as Hnext.
  { intros j g Hj. unfold markers_of. rewrite outs_of_one. destruct (Nat.eqb_spec i j) as [<-|Hne].
    - rewrite Hi in Hj. injection Hj as <-. eexists. by rewrite list_lookup_insert_eq by (by eapply lookup_lt_Some).
    - exists g. rewrite list_lookup_insert_ne by done. split; [done|]. unfold how_many. cbn. lia. }
  assert (forall pre2, outs = pre2 ++ (a, x) :: post -> pre = (pair i <$> out) ++ pre2 -> forall j g g',
    gs !! a = Some g -> gs !! j = Some g' -> (g.2 + markers_of a pre <= g'.2 + markers_of j pre)%nat) as Hlater.
  { intros pre2 E2 -> j g g' Ha Hj. destruct (Hnext _ _ Ha) as (g1 & Hg1 & Hm1), (Hnext _ _ Hj) as (g2 & Hg2 & Hm2).
    rewrite !markers_of_app, !Nat.add_assoc, Hm1, Hm2. exact (Hrest pre2 a x post E2 j g1 g2 Hg1 Hg2). }
  destruct out as [|y [|]]; [by apply (Hlater pre)| |cbn in Hone; lia].
  destruct pre as [|p pre].
  - cbn in E. injection E as -> -> _. intros j g g' Ha Hj. rewrite Hi in Ha. injection Ha as <-. cbn. rewrite !Nat.add_0_r.
    specialize (Hmin ltac:(done)). rewrite Forall_forall in Hmin. apply Hmin. by eapply list_elem_of_lookup_2.
  - cbn in E. injection E as <- E. by apply (Hlater pre).
Qed.

(** What a fiber still has to do: each poll of a fiber that is not blocked does some of it. *)
Definition work (r : reading) : nat :=
  match r with Running l => 2 * length l + 1 | WaitingFor _ l => 2 * length l + 2 | Stopped => 0 end.
Definition blocked (b : FiberBarrier) (r : reading) : Prop :=
  r = Stopped \/ exists c l, r = WaitingFor c l /\ await c b = Pending.

Lemma decide_work x l (r' : reading) out : decide_check x l = (r', out) ->
  (length out <= 1)%nat /\ (work r' <= 2 * length l + 1)%nat.
Proof. destruct x as [[]|e|why]; intros [= <- <-]; cbn; lia. Qed.

Lemma poll_work (r r' : reading) s s' out : poll_fiber display shared r s = (s', (r', out)) ->
  (length out <= 1)%nat /\ ((work r' < work r)%nat \/ (s' = s /\ r' = r /\ blocked s.1 r)).
Proof.
  destruct r as [[|[x|m|] l]|c l|]; cbn [poll_fiber].
  - intros [= <- <- <-]. cbn. lia.
  - intros [= <- <- <-]. cbn. lia.
  - destruct (poll_fiber_state _ _ _ _) as [s1 [[x|c]|e|why]];
      first [intros [= _ E]; apply decide_work in E; cbn [work length]; lia|intros [= _ <- <-]; cbn; lia].
  - destruct (report_finished _ _) as [s1 [x|e|why]]; intros [= _ <- <-]; cbn; lia.
  - destruct (await c (fst s)) eqn:Ha.
    + intros [= _ E]. apply decide_work in E. cbn [work]. lia.
    + intros [= <- <- <-]. split; [cbn; lia|]. right. split_and!; [done..|]. right. by exists c, l.
  - intros [= <- <- <-]. split; [cbn; lia|]. right. split_and!; [done..|]. by left.
Qed.

(** Only a fiber whose round goes on, or that has stopped, is blocked: someone else can go on. *)
Lemma inv_progress fibers gs b w : inv fibers gs b w ->
  (exists i r, fibers !! i = Some r /\ ~ blocked b r) \/ (Forall (eq Stopped) fibers /\ Forall (fun g => g.1 = []) gs).
Proof.
  intros Hinv.
  assert (forall l r, ready_to b l r -> ~ blocked b r) as Hready.
  { intros l r [->|(c & -> & Hc)] [Hs|(c' & l' & Hw & Hc')]; try done. injection Hw as <- _. by rewrite Hc in Hc'. }
  destruct Hinv as [e ch m ms j [Hall _ -> Hlt _ _ _ _]|e ch k [Hall -> Hlt _ _]|r g e ms -> -> [Hok _ _ _ _]|Hall].
  - left. destruct (how_many_some _ _ Hlt) as (i & r & Hi & Hr). exists i, r. split; [done|].
    destruct (Forall2_lookup_l _ _ _ _ _ Hall Hi) as (g & _ & Hok).
    inversion Hok; subst; [by eapply Hready|by intros [|(? & ? & ? & _)]|cbn in Hr; by rewrite Nat.eqb_refl in Hr].
  - left. destruct (how_many_some _ _ Hlt) as (i & r & Hi & Hr). exists i, r. split; [done|].
    destruct (Forall2_lookup_l _ _ _ _ _ Hall Hi) as (g & _ & Hok). inversion Hok; subst; [by eapply Hready|done].
  - left. exists 0%nat, r. split; [done|]. destruct Hok; by intros [|(? & ? & ? & _)].
  - destruct (how_many_all is_stopped fibers) as [Hle Hstopped].
    destruct (decide (how_many is_stopped fibers = length fibers)) as [Heq|Hne].
    + right. split.
      * apply Forall_forall. intros r (i & Hi)%list_elem_of_lookup. specialize (Hstopped Heq _ _ Hi). by destruct r.
      * apply Forall_forall. intros g (i & Hi)%list_elem_of_lookup.
        by destruct (Forall2_lookup_r _ _ _ _ _ Hall Hi) as (r & _ & Hg & _).
    + left. destruct (how_many_some is_stopped fibers) as (i & r & Hi & Hr); [lia|]. exists i, r. split; [done|].
      destruct (Forall2_lookup_l _ _ _ _ _ Hall Hi) as (g & _ & _ & [->|(c & l & -> & Hc)]); [done|].
      intros [Hs|(c' & l' & Hw & Hc')]; [done|]. injection Hw as <- _. by rewrite Hc in Hc'.
Qed.

(** The state of a run. *)
Definition good (fibers : list reading) (gs : list (list item * nat)) (s : FiberBarrier * Shared) : Prop :=
  inv fibers gs s.1 s.2 /\ bounded s.1 /\ length gs = length fibers.

Definition works (fibers : list reading) : nat := list_sum (List.map work fibers).

Lemma works_insert fibers i r r' : fibers !! i = Some r ->
  (works (<[i := r']> fibers) + work r = works fibers + work r')%nat.
Proof.
  unfold works. revert i. induction fibers as [|a l IH]; intros [|i] Hi; try done; cbn in *.
  - injection Hi as ->. lia.
  - specialize (IH i Hi). unfold list_sum, insert in *. lia.
Qed.

Lemma good_poll fibers gs s i r : good fibers gs s -> fibers !! i = Some r ->
  exists s' r' out left d left', poll_fiber display shared r s = (s', (r', out)) /\
    gs !! i = Some (left, d) /\ left = out ++ left' /\
    good (<[i := r']> fibers) (<[i := (left', (d + how_many is_marker out)%nat)]> gs) s' /\ keeps s.1 s'.1 /\
    (out <> [] -> Forall (fun g => d <= g.2)%nat gs).
Proof.
  intros (Hinv & Hb & Hlen) Hi. destruct s as [b w].
  destruct (gs !! i) as [[left d]|] eqn:Hg; [|apply lookup_ge_None in Hg; apply lookup_lt_Some in Hi; lia].
  destruct (poll_step _ _ _ _ _ _ _ _ Hinv Hb Hi Hg) as (b' & w' & r' & out & Hp & left' & Hinv' & Hl & Hk & Hmin).
  exists (b', w'), r', out, left, d, left'. split_and!; [done..| |done|done].
  split_and!; [done|apply Hk|by rewrite !length_insert].
Qed.

(** A run by any schedule. *)
Lemma run_any schedule fibers gs s : good fibers gs s ->
  let '(s', (fibers', outs)) := poll_fibers display shared schedule fibers s in
  exists gs', good fibers' gs' s' /\ keeps s.1 s'.1 /\ progress gs outs gs' /\ aligned_from gs outs /\
    (works fibers' <= works fibers)%nat /\ length fibers' = length fibers.
Proof.
  revert fibers gs s. induction schedule as [|i schedule IH]; intros fibers gs s Hgood; cbn [poll_fibers].
  - exists gs. split_and!; [done|by apply keeps_refl, Hgood| |by intros [|? ?]|done|done].
    split; [done|]. intros i [l d] Hi. exists l. by rewrite Hi, Nat.add_0_r.
  - destruct (fibers !! i) as [r|] eqn:Hi; [|by apply IH].
    destruct (good_poll _ _ _ _ _ Hgood Hi) as (s1 & r1 & out & left & d & left' & Hp & Hg & Hl & Hgood1 & Hk1 & Hmin).
    rewrite Hp. specialize (IH _ _ _ Hgood1). destruct (poll_fibers _ _ _ _ _) as [s2 [fibers2 outs]].
    destruct IH as (gs' & Hgood2 & Hk2 & Hprog & Hal & Hw & Hlen2). rewrite length_insert in Hlen2.
    destruct (poll_work _ _ _ _ _ Hp) as [Hone Hwork]. pose proof (works_insert _ _ _ r1 Hi) as Hsum.
    exists gs'. split_and!; [done|by eapply keeps_trans|by eapply progress_step|by eapply aligned_step| |done].
    destruct Hwork as [?|(_ & -> & _)]; lia.
Qed.

Lemma unblocked_keeps (b b' : FiberBarrier) r : keeps b b' -> ~ blocked b r -> ~ blocked b' r.
Proof.
  intros [_ Hk] Hr [->|(c & l & -> & Hc')]; apply Hr; [by left|]. right. exists c, l. split; [done|].
  destruct (await c b) as [x|] eqn:Hc; [|done]. apply Hk in Hc. by rewrite Hc in Hc'.
Qed.

(** A fiber that can go on does so when it is polled. *)
Lemma run_works schedule fibers gs s i r : good fibers gs s -> fibers !! i = Some r -> ~ blocked s.1 r -> i ∈ schedule ->
  (works (poll_fibers display shared schedule fibers s).2.1 < works fibers)%nat.
Proof.
  revert fibers gs s. induction schedule as [|j schedule IH]; intros fibers gs s Hgood Hi Hr Hin; [by apply not_elem_of_nil in Hin|].
  cbn [poll_fibers]. destruct (decide (i = j)) as [<-|Hij].
  - rewrite Hi. destruct (good_poll _ _ _ _ _ Hgood Hi) as (s1 & r1 & out & left & d & left' & Hp & _ & _ & Hgood1 & _).
    rewrite Hp. pose proof (run_any schedule _ _ _ Hgood1) as Hrest. destruct (poll_fibers _ _ _ _ _) as [s2 [fibers2 outs]].
    destruct Hrest as (_ & _ & _ & _ & _ & Hle & _). pose proof (works_insert _ _ _ r1 Hi).
    destruct (poll_work _ _ _ _ _ Hp) as [_ [?|(_ & _ & Hb)]]; [cbn [fst snd]; lia|done].
  - apply elem_of_cons in Hin as [|Hin]; [done|]. destruct (fibers !! j) as [q|] eqn:Hj; [|by eapply IH].
    destruct (good_poll _ _ _ _ _ Hgood Hj) as (s1 & q1 & out & left & d & left' & Hp & _ & _ & Hgood1 & Hk & _).
    rewrite Hp. specialize (IH _ _ _ Hgood1). rewrite list_lookup_insert_ne in IH by done.
    specialize (IH Hi (unblocked_keeps _ _ _ Hk Hr) Hin).
    destruct (poll_fibers _ _ _ _ _) as [s2 [fibers2 outs]]. cbn [fst snd] in *.
    pose proof (works_insert _ _ _ q1 Hj). destruct (poll_work _ _ _ _ _ Hp) as [_ [?|(_ & -> & _)]]; lia.
Qed.

Lemma poll_fibers_app schedule schedule' fibers s :
  poll_fibers display shared (schedule ++ schedule') fibers s =
  let '(s, (fibers, outs)) := poll_fibers display shared schedule fibers s in
  let '(s, (fibers, outs')) := poll_fibers display shared schedule' fibers s in
  (s, (fibers : list reading, outs ++ outs')).
Proof.
  revert fibers s. induction schedule as [|i schedule IH]; intros fibers s; cbn [app poll_fibers].
  - by destruct (poll_fibers _ _ _ _ _) as [? [? ?]].
  - destruct (fibers !! i) as [r|]; [|apply IH]. destruct (poll_fiber _ _ _ _) as [s1 [r1 out]]. rewrite IH.
    destruct (poll_fibers _ _ schedule _ _) as [s2 [fibers2 outs]]. destruct (poll_fibers _ _ _ _ _) as [s3 [fibers3 outs']].
    by rewrite app_assoc.
Qed.

(** A round of polls: every fiber is polled. *)
Definition covers (n : nat) (round : list nat) : Prop := forall i, (i < n)%nat -> i ∈ round.

(** Enough rounds end all fibers. *)
Lemma run_rounds rounds fibers gs s : good fibers gs s -> Forall (covers (length fibers)) rounds ->
  (works fibers <= length rounds)%nat -> Forall (eq Stopped) (poll_fibers display shared (concat rounds) fibers s).2.1.
Proof.
  revert fibers gs s. induction rounds as [|round rounds IH]; intros fibers gs s Hgood Hcover Hw.
  - cbn in Hw |- *. destruct (inv_progress fibers gs s.1 s.2) as [(i & r & Hi & Hr)|[Hs _]]; [apply Hgood| |done].
    pose proof (run_works [i] _ _ _ _ _ Hgood Hi Hr ltac:(by left)). lia.
  - apply Forall_cons in Hcover as [Hround Hcover]. cbn [concat]. rewrite poll_fibers_app.
    assert (works fibers <= length rounds \/
      works (poll_fibers display shared round fibers s).2.1 < works fibers)%nat as Hless.
    { destruct (inv_progress fibers gs s.1 s.2) as [(i & r & Hi & Hr)|[Hs _]]; [apply Hgood| |].
      - right. eapply run_works; [done..|]. by apply Hround, lookup_lt_is_Some; eexists.
      - left. assert (works fibers = 0)%nat; [|lia]. clear -Hs. unfold works. by induction Hs as [|r l <-]. }
    pose proof (run_any round _ _ _ Hgood) as Hrun. destruct (poll_fibers _ _ round _ _) as [s1 [fibers1 outs]].
    destruct Hrun as (gs1 & Hgood1 & _ & _ & _ & Hle & Hlen). cbn [fst snd] in Hless.
    specialize (IH _ _ _ Hgood1). rewrite Hlen in IH. specialize (IH Hcover ltac:(cbn [length] in Hw; lia)).
    by destruct (poll_fibers _ _ _ _ _) as [s2 [fibers2 outs']].
Qed.

(** *** Any streams with the same markers *)

Definition markers_in (l : list item) : list Marker := omap (fun i => match i with Ok (SMarker m) => Some m | _ => None end) l.

(** What is delivered of a stream: all up to the first marker at which the fibers pause. *)
Fixpoint up_to_pause (l : list item) : list item :=
  match l with
  | [] => []
  | Ok (SMarker m) :: l => Ok (SMarker m) :: match verdict m with Continue => up_to_pause l | Pause => [] end
  | i :: l => i :: up_to_pause l
  end.

Lemma stream_segments l : exists cur segs, l = stream_of (markers_in l) cur segs /\ length segs = length (markers_in l) /\
  clean cur segs /\ up_to_pause l = delivered (markers_in l) cur segs.
Proof.
  induction l as [|i l (cur & segs & Hl & Hlen & Hclean & Hd)]; [by exists [], []|].
  destruct (is_marker i) eqn:Hi.
  - destruct i as [[| |m]|e|why]; try done. exists [], (cur :: segs). cbn. split_and!; [by f_equal|by f_equal| |by rewrite Hd].
    split; [done|]. by constructor; apply Hclean.
  - exists (i :: cur), segs.
    assert (markers_in (i :: l) = markers_in l) as -> by (by destruct i as [[| |m]|e|why]).
    split_and!; [|done| |].
    + rewrite Hl at 1. by destruct (markers_in l), segs.
    + destruct Hclean as [Hc Hs]. split; [|done]. cbn. rewrite Hc, andb_true_r. unfold is_marker in Hi. by destruct (data i).
    + transitivity (i :: up_to_pause l); [by destruct i as [[| |m]|e|why]|]. rewrite Hd. by destruct (markers_in l), segs.
Qed.

Lemma instructions_work l : (work (Running (insert_stream_instructions l)) <= 4 * length l + 3)%nat.
Proof.
  assert (length (l ≫= instructions_of) <= 2 * length l)%nat as Hl.
  { induction l as [|i l IH]; [done|]. rewrite bind_cons, length_app. cbn [length].
    assert (length (instructions_of i) <= 2)%nat by (destruct i as [[]|e|why]; cbn; lia). lia. }
  unfold insert_stream_instructions. cbn [work]. rewrite length_app. cbn [length]. lia.
Qed.

(** The fibers of a new barrier. *)
Lemma start_good ms streams mark : Forall checks ms ->
  Forall (fun l => markers_in l = ms) streams ->
  good ((fun l => Running (insert_stream_instructions l)) <$> streams) ((fun l => (up_to_pause l, 0%nat)) <$> streams)
    (Barrier.new (N.of_nat (length streams)), mkShared mark None details).
Proof.
  intros Hchecks Hms. unfold good. cbn [fst snd]. rewrite !length_fmap. split_and!; [|apply new_bounded|done].
  pose proof (Barrier.new_fresh (W := Shared) (T := FiberState) (length streams)) as Hfresh.
  destruct (decide (1 < length streams)%nat) as [Hn|Hn].
  - unfold fresh in Hfresh. rewrite (proj2 (Nat.leb_gt _ _)) in Hfresh by lia. destruct Hfresh as (ch & Hround).
    eapply (next_round _ 0 ms ch); [done| | |by rewrite length_fmap|done|done|].
    + by rewrite length_fmap.
    + intros k r Hr. rewrite list_lookup_fmap in Hr. destruct (streams !! k) as [l|]; [|done]. by injection Hr as <-.
    + generalize (new (N.of_nat (length streams)) : FiberBarrier). intros b0. clear Hround Hn.
      induction Hms as [|l streams Hl Hms IH]; [done|]. rewrite !fmap_cons. constructor; [|exact IH].
      destruct (stream_segments l) as (cur & segs & Hseg & Hlen & [Hcur Hsegs] & Hup). rewrite Hl in *. rewrite Hup.
      constructor; [done|done|]. left. rewrite Hseg. f_equal. by apply instructions_body.
  - destruct streams as [|l [|]]; [by apply inv_over| |cbn in Hn; lia]. eapply inv_alone; [done|done|].
    apply Forall_cons in Hms as [Hl _]. constructor; [|exact Hchecks|done|done|done].
    destruct (stream_segments l) as (cur & segs & Hseg & Hlen & [Hcur Hsegs] & Hup). rewrite Hl in *. rewrite Hup.
    rewrite Hseg, instructions_body by done. by constructor.
Qed.

End runs.

(** A run under any schedule is aligned, and each fiber delivers a beginning of its stream. *)
Lemma run_aligned `{Profile} {B} (display : DataFusionError -> string) shared
    (details : option (list GenerationSpec) * option (list GenerationInputDetail)) (verdict : Marker -> FiberState)
    (mark : N) (ms : list Marker) (streams : list (list (res DataFusionError (SItem B)))) (schedule : list nat) :
  Forall (fun l => markers_in l = ms) streams -> Forall (checks shared details verdict) ms ->
  let '(_, (_, outs)) := poll_fibers display shared schedule ((fun l => Running (insert_stream_instructions l)) <$> streams)
    (Barrier.new (N.of_nat (length streams)), mkShared mark None details) in
  (forall pre i x post, outs = pre ++ (i, x) :: post -> (i < length streams)%nat ->
    forall j, (j < length streams)%nat -> (markers_of i pre <= markers_of j pre)%nat) /\
  (forall i l, streams !! i = Some l -> exists left, up_to_pause verdict l = outs_of i outs ++ left).
Proof.
  intros Hms Hchecks. pose proof (start_good shared details verdict ms streams mark Hchecks Hms) as Hgood.
  pose proof (run_any display shared details verdict schedule _ _ _ Hgood) as Hrun.
  destruct (poll_fibers _ _ _ _ _) as [s' [fibers outs]].
  destruct Hrun as (gs' & _ & _ & [_ Hprog] & Hal & _ & _).
  assert (forall i l, streams !! i = Some l -> ((fun l => (up_to_pause verdict l, 0%nat)) <$> streams) !! i = Some (up_to_pause verdict l, 0%nat)) as Hmap.
  { intros i l Hi. by rewrite list_lookup_fmap, Hi. }
  split.
  - intros pre i x post E [l Hi]%lookup_lt_is_Some j [l' Hj]%lookup_lt_is_Some.
    exact (Hal pre i x post E j _ _ (Hmap _ _ Hi) (Hmap _ _ Hj)).
  - intros i l Hi. destruct (Hprog i _ (Hmap _ _ Hi)) as (left & Hl & _). by exists left.
Qed.

(** Enough rounds end all fibers, with all that they should deliver. *)
Lemma fair_run_ends `{Profile} {B} (display : DataFusionError -> string) shared
    (details : option (list GenerationSpec) * option (list GenerationInputDetail)) (verdict : Marker -> FiberState)
    (mark : N) (ms : list Marker) (streams : list (list (res DataFusionError (SItem B)))) (rounds : list (list nat)) :
  Forall (fun l => markers_in l = ms) streams -> Forall (checks shared details verdict) ms ->
  Forall (covers (length streams)) rounds -> (list_sum ((fun l => 4 * length l + 3) <$> streams) <= length rounds)%nat ->
  let run := poll_fibers display shared (concat rounds) ((fun l => Running (insert_stream_instructions l)) <$> streams)
    (Barrier.new (N.of_nat (length streams)), mkShared mark None details) in
  run.2.1 = replicate (length streams) Stopped /\
  forall i l, streams !! i = Some l -> outs_of i run.2.2 = up_to_pause verdict l.
Proof.
  intros Hms Hchecks Hcover Hwork run.
  pose proof (start_good shared details verdict ms streams mark Hchecks Hms) as Hgood.
  pose proof (run_any display shared details verdict (concat rounds) _ _ _ Hgood) as Hrun.
  pose proof (run_rounds display shared details verdict rounds _ _ _ Hgood) as Hrounds. fold run in Hrun, Hrounds.
  rewrite length_fmap in Hrounds. specialize (Hrounds Hcover).
  destruct run as [s' [fibers outs]]. cbn [fst snd] in *.
  destruct Hrun as (gs' & Hgood' & _ & [_ Hprog] & _ & _ & Hlen'). rewrite length_fmap in Hlen'.
  assert (Forall (eq Stopped) fibers) as Hstopped.
  { apply Hrounds. etrans; [|exact Hwork]. clear. induction streams as [|l streams IH]; [done|].
    rewrite !fmap_cons. unfold works in *. cbn. pose proof (instructions_work l). unfold list_sum in *. cbn in *. lia. }
  split; [rewrite <- Hlen'; symmetry; by apply replicate_as_Forall_2|].
  intros i l Hi. destruct (Hprog i (up_to_pause verdict l, 0%nat)) as (left & Hl & Hg'); [by rewrite list_lookup_fmap, Hi|].
  cbn [fst] in Hl. rewrite Hl.
  destruct (inv_progress _ _ _ _ _ _ _ (proj1 Hgood')) as [(k & r & Hk & Hr)|[_ Hdone]].
  - exfalso. apply Hr. left. rewrite Forall_forall in Hstopped. symmetry. apply Hstopped. by eapply list_elem_of_lookup_2.
  - rewrite Forall_forall in Hdone. specialize (Hdone _ (list_elem_of_lookup_2 _ _ _ Hg')). cbn in Hdone.
    by rewrite Hdone, app_nil_r.
Qed.

(** C3: the fibers of a remote source stay aligned, whatever the schedule in which they are
    polled.  Any number of remote streams carry the same markers, and at each the check of the
    generation and the addresses succeeds and says whether to go on or to pause.  Then (1) no
    fiber delivers anything after a marker before all fibers have delivered this marker; (2)
    what a fiber delivers is always a beginning of its stream up to the first marker at which
    the fibers pause, in the order of the stream; and (3) once every fiber has been polled often
    enough (four times per item and three times more, over all streams), all fibers have
    stopped and each has delivered its stream exactly up to that marker: no fiber waits for
    ever at the barrier. *)
Theorem fibers_aligned `{Profile} {B} (display : DataFusionError -> string) ids generation_id parts addresses
    (details : option (list GenerationSpec) * option (list GenerationInputDetail)) (verdict : Marker -> FiberState)
    (mark : N) (ms : list Marker) (streams : list (list (res DataFusionError (SItem B)))) (schedule : list nat) :
  let '(shared, barrier) := shared_fiber_state_new ids generation_id parts addresses in
  length streams = length addresses ->
  Forall (fun l => markers_in l = ms) streams ->
  Forall (fun m => check_generation_and_addresses details shared (checkpoint_number m) = Ok (verdict m)) ms ->
  let '(_, (fibers, outs)) := poll_fibers display shared schedule
    ((fun l => Running (insert_stream_instructions l)) <$> streams) (barrier, mkShared mark None details) in
  (forall pre i x post, outs = pre ++ (i, x) :: post -> (i < length streams)%nat ->
    forall j, (j < length streams)%nat -> (markers_of i pre <= markers_of j pre)%nat) /\
  (forall i l, streams !! i = Some l -> exists left, up_to_pause verdict l = outs_of i outs ++ left) /\
  (forall rounds, schedule = concat rounds -> Forall (covers (length streams)) rounds ->
    (list_sum ((fun l => 4 * length l + 3) <$> streams) <= length rounds)%nat ->
    fibers = replicate (length streams) Stopped /\
    forall i l, streams !! i = Some l -> outs_of i outs = up_to_pause verdict l).
Proof.
  cbn [shared_fiber_state_new]. intros Hlen Hms Hchecks.
  set (shared := mkSharedFiberState ids generation_id parts addresses) in *. rewrite <- Hlen.
  pose proof (run_aligned display shared details verdict mark ms streams schedule Hms Hchecks) as Hrun.
  pose proof (fun rounds => fair_run_ends display shared details verdict mark ms streams rounds Hms Hchecks) as Hend.
  destruct (poll_fibers _ _ _ _ _) as [s' [fibers outs]] eqn:Erun. destruct Hrun as [Hal Hprog].
  split_and!; [done|done|]. intros rounds -> Hcover Hwork. specialize (Hend rounds Hcover Hwork). by rewrite Erun in Hend.
Qed.

(** Two fibers pass marker 1 and pause at marker 2, where another address is given. *)
Definition example_run_details : option (list GenerationSpec) * option (list GenerationInputDetail) :=
  (Some [mkGenerationSpec "g" (mkRange 0 2 2) []],
   Some [mkInputDetail "s" [mkLocation "h1" (0, 2) (mkRange 0 1 2); mkLocation "h2" (0, 2) (mkRange 1 2 2);
                            mkLocation "h3" (2, 9) (mkRange 0 2 2)]]).
Definition example_addresses : list (string * string * PartitionRange) :=
  [("s", "h1", mkRange 0 1 2); ("s", "h2", mkRange 1 2 2)].
Definition example_verdict (m : Marker) : FiberState := if checkpoint_number m <? 2 then Continue else Pause.
Definition example_streams : list (list (res DataFusionError (SItem N))) :=
  [[Ok (SRecordBatch 1); Ok (SMarker (mkMarker 1)); Ok (SRecordBatch 2); Ok (SMarker (mkMarker 2)); Ok (SRecordBatch 3)];
   [Ok (SMarker (mkMarker 1)); Ok (SMarker (mkMarker 2)); Ok (SRecordBatch 4)]].

Lemma fibers_aligned_witness :
  let '(shared, barrier) := shared_fiber_state_new ["s"] "g" (mkRange 0 2 2) example_addresses in
  let '(_, (fibers, outs)) := poll_fibers (H := true) (fun _ => "e") shared (concat (replicate 40 [1; 0]%nat))
    ((fun l => Running (insert_stream_instructions l)) <$> example_streams) (barrier, mkShared 0 None example_run_details) in
  fibers = [Stopped; Stopped] /\
  outs_of 0 outs = [Ok (SRecordBatch 1); Ok (SMarker (mkMarker 1)); Ok (SRecordBatch 2); Ok (SMarker (mkMarker 2))] /\
  outs_of 1 outs = [Ok (SMarker (mkMarker 1)); Ok (SMarker (mkMarker 2))].
Proof.
  pose proof (fibers_aligned (H := true) (fun _ => "e") ["s"] "g" (mkRange 0 2 2) example_addresses example_run_details
    example_verdict 0 [mkMarker 1; mkMarker 2] example_streams (concat (replicate 40 [1; 0]%nat))) as Hrun.
  cbn [shared_fiber_state_new] in Hrun |- *.
  specialize (Hrun eq_refl ltac:(by repeat constructor) ltac:(by repeat constructor)).
  destruct (poll_fibers _ _ _ _ _) as [s [fibers outs]]. destruct Hrun as (_ & _ & Hall).
  destruct (Hall (replicate 40 [1; 0]%nat)) as [-> Houts]; [done| |vm_compute; lia|].
  - apply Forall_replicate. intros [|[|i]] Hi; [by right; left|by left|cbn in Hi; lia].
  - split; [done|]. split; [exact (Houts 0%nat _ eq_refl)|exact (Houts 1%nat _ eq_refl)].
Defined.
