(* ===== verification/MarkerCut.v ===== *)
(** * The checkpoint of an operator after a remote source

    Each fiber of a remote source passes its markers on, and the combined stream is read by one
    operator: with several fibers the operator sees every marker once per fiber
    (operators/remote_source/fibres.rs, operators/utils/fiber_stream.rs).  The last of them is
    a consistent cut of the streams; the counting operator (operators/count_star.rs) saves its
    count at the first.  Paths are relative to src/src/streaming/. *)

From S2P Require Import Prelude Arrow Partitioning Stream Generation FileSystem CheckpointStorage StateBackend KeyedState.
From S2P Require Import FiberStream Count CountStar Barrier RemoteSource FiberRuns.

(** ** What a run of fibers delivers *)

Section runs.
Context `{Profile} {B : Type} (display : DataFusionError -> string).
Abbreviation item := (res DataFusionError (SItem B)).

(** The items in the order in which the fibers deliver them are an interleaving of the fibers. *)
Lemma run_merges (outs : list (nat * item)) n :
  Forall (fun o => o.1 < n)%nat outs -> merges ((fun i => outs_of i outs) <$> seq 0 n) outs.*2.
Proof.
  induction 1 as [|[i x] outs Hi _ IH].
  - constructor. apply Forall_fmap, Forall_forall. by intros.
  - cbn [fst] in Hi. cbn [fmap list_fmap]. apply (merges_take _ i _ (outs_of i outs)).
    + rewrite list_lookup_fmap, lookup_seq_lt by done. cbn. unfold outs_of. cbn. by rewrite Nat.eqb_refl.
    + assert (<[i := outs_of i outs]> ((fun j => outs_of j ((i, x) :: outs)) <$> seq 0 n) =
        (fun j => outs_of j outs) <$> seq 0 n) as ->; [|exact IH].
      apply list_eq. intros j. destruct (decide (j = i)) as [->|Hne].
      * rewrite list_lookup_insert_eq by (by rewrite length_fmap, length_seq).
        by rewrite list_lookup_fmap, lookup_seq_lt.
      * rewrite list_lookup_insert_ne, !list_lookup_fmap by done. destruct (seq 0 n !! j) as [k|] eqn:Hk; [|done].
        apply lookup_seq in Hk as [-> _]. cbn. unfold outs_of. cbn. by rewrite (proj2 (Nat.eqb_neq _ _)) by done.
Qed.

Lemma run_indices shared schedule fibers s :
  Forall (fun o => o.1 < length fibers)%nat (poll_fibers (B := B) display shared schedule fibers s).2.2.
Proof.
  revert fibers s. induction schedule as [|i schedule IH]; intros fibers s; [constructor|]. cbn [poll_fibers].
  destruct (fibers !! i) as [r|] eqn:Hi; [|apply IH]. destruct (poll_fiber _ _ _ _) as [s1 [r1 out]].
  specialize (IH (<[i := r1]> fibers) s1). destruct (poll_fibers _ _ _ _ _) as [s2 [fibers2 outs]].
  rewrite length_insert in IH. apply Forall_app_2; [|exact IH]. apply Forall_fmap, Forall_forall.
  intros x _. cbn. by eapply lookup_lt_Some.
Qed.

(** The items of a stream through its [k]-th marker. *)
Fixpoint through (k : nat) (l : list item) : list item :=
  match k, l with
  | O, _ | _, [] => []
  | S k', i :: l => i :: through (if is_marker i then k' else k) l
  end.

Lemma through_app k o m left : is_marker m = true -> how_many is_marker (o ++ [m]) = k ->
  through k ((o ++ [m]) ++ left) = o ++ [m].
Proof.
  intros Hm. revert k. induction o as [|x o IH]; intros k Hk.
  - unfold how_many in Hk. cbn in Hk. rewrite Hm in Hk. cbn in Hk. subst k. cbn. rewrite Hm. by destruct left.
  - unfold how_many in Hk. cbn [app List.filter] in Hk. destruct (is_marker x) eqn:Hx.
    + cbn [length] in Hk. subst k. cbn [app through]. rewrite Hx. f_equal. by apply IH.
    + destruct k as [|k]; [|cbn [app through]; rewrite Hx; f_equal; by apply IH].
      exfalso. rewrite List.filter_app, length_app in Hk. cbn in Hk. rewrite Hm in Hk. cbn in Hk. lia.
Qed.

(** The last item that a fiber has delivered. *)
Lemma last_delivered j y o (outs : list (nat * item)) : outs_of j outs = o ++ [y] ->
  exists pre rest, outs = pre ++ (j, y) :: rest /\ outs_of j pre = o /\ outs_of j rest = [].
Proof.
  revert o. induction outs as [|[i x] outs IH] using rev_ind; intros o Ho; [by destruct o|].
  rewrite outs_of_app in Ho. change [(i, x)] with (pair i <$> [x]) in Ho. rewrite outs_of_one in Ho.
  destruct (Nat.eqb_spec i j) as [->|Hne].
  - apply app_inj_tail in Ho as [Ho ->]. by exists outs, [].
  - rewrite app_nil_r in Ho. destruct (IH o Ho) as (pre & rest & -> & Hpre & Hrest).
    exists pre, (rest ++ [(i, x)]). rewrite <- app_assoc. split; [done|]. split; [done|].
    rewrite outs_of_app, Hrest. change [(i, x)] with (pair i <$> [x]). by rewrite outs_of_one, (proj2 (Nat.eqb_neq _ _)).
Qed.
(** When all fibers have delivered equally many markers at the moment at which one has just
    delivered a marker, the last item of each is a marker. *)
Lemma aligned_cut n (outs : list (nat * item)) before i m later j :
  (forall pre a x post, outs = pre ++ (a, x) :: post -> (a < n)%nat ->
    forall b, (b < n)%nat -> (markers_of a pre <= markers_of b pre)%nat) ->
  outs = before ++ (i, m) :: later -> is_marker m = true -> (i < n)%nat -> (j < n)%nat ->
  markers_of j (before ++ [(i, m)]) = markers_of i (before ++ [(i, m)]) ->
  exists o x, outs_of j (before ++ [(i, m)]) = o ++ [x] /\ is_marker x = true.
Proof.
  intros Hal -> Hm Hi Hj Hk. set (seen := before ++ [(i, m)]) in *.
  assert (markers_of i seen = S (markers_of i before)) as Hone.
  { unfold seen, markers_of. rewrite outs_of_app. change [(i, m)] with (pair i <$> [m]).
    rewrite outs_of_one, Nat.eqb_refl, how_many_app. unfold how_many at 2. cbn. rewrite Hm. cbn. lia. }
  destruct (outs_of j seen) as [|x o _] eqn:Ho using rev_ind.
  { unfold markers_of in Hk at 1. rewrite Ho in Hk. cbn in Hk. lia. }
  exists o, x. split; [done|]. destruct (is_marker x) eqn:Hx; [done|exfalso].
  destruct (last_delivered j x o seen Ho) as (pre & rest & Hseen & Hpre & Hrest).
  assert (markers_of j pre = markers_of j seen) as Hmj.
  { unfold markers_of. rewrite Hpre, Ho, how_many_app. unfold how_many at 3. cbn. rewrite Hx. cbn. lia. }
  destruct rest as [|r rest _] using rev_ind.
  { unfold seen in Hseen. apply app_inj_tail in Hseen as [_ [= _ ->]]. congruence. }
  rewrite app_comm_cons, app_assoc in Hseen. unfold seen in Hseen at 1. apply app_inj_tail in Hseen as [Hb _].
  assert (markers_of i pre <= markers_of i before)%nat as Hle by (rewrite Hb, markers_of_app; lia).
  specialize (Hal pre j x (rest ++ (i, m) :: later)). rewrite Hb, <- app_assoc in Hal.
  specialize (Hal eq_refl Hj i Hi). lia.
Qed.
End runs.

(** C6: the last of the fibers to pass a marker on makes a consistent cut.  Any number of remote
    streams carry the same markers, at which the checks of the fibers succeed.  Take any moment
    of a run under any schedule at which a fiber has just delivered a marker and all fibers have
    delivered equally many: then each fiber has delivered its stream through that marker, and
    nothing after it. *)
Theorem last_marker_is_a_cut `{Profile} {B} (display : DataFusionError -> string) ids generation_id parts addresses
    (details : option (list GenerationSpec) * option (list GenerationInputDetail)) (verdict : Marker -> FiberState)
    (mark : N) (ms : list Marker) (streams : list (list (res DataFusionError (SItem B)))) (schedule : list nat) :
  let '(shared, barrier) := shared_fiber_state_new ids generation_id parts addresses in
  length streams = length addresses ->
  Forall (fun l => markers_in l = ms) streams ->
  Forall (fun m => check_generation_and_addresses details shared (checkpoint_number m) = Ok (verdict m)) ms ->
  let '(_, (_, outs)) := poll_fibers display shared schedule
    ((fun l => Running (insert_stream_instructions l)) <$> streams) (barrier, mkShared mark None details) in
  forall before i m later, outs = before ++ (i, Ok (SMarker m)) :: later ->
  let seen := before ++ [(i, Ok (SMarker m))] in
  (forall j, (j < length streams)%nat -> markers_of j seen = markers_of i seen) ->
  forall j l, streams !! j = Some l -> outs_of j seen = through (markers_of i seen) (up_to_pause verdict l).
Proof.
  cbn [shared_fiber_state_new]. intros Hlen Hms Hchecks.
  set (shared := mkSharedFiberState ids generation_id parts addresses) in *. rewrite <- Hlen.
  pose proof (run_aligned display shared details verdict mark ms streams schedule Hms Hchecks) as Hrun.
  pose proof (run_indices display shared schedule ((fun l => Running (insert_stream_instructions l)) <$> streams)
    (Barrier.new (N.of_nat (length streams)), mkShared mark None details)) as Hindex.
  destruct (poll_fibers _ _ _ _ _) as [s' [fibers outs]]. cbn [snd] in Hindex. rewrite length_fmap in Hindex.
  destruct Hrun as [Hal Hprog]. intros before i m later Houts.
  set (seen := before ++ _). intros Hsame j l Hj.
  assert (markers_of j seen = markers_of i seen) as Hk by (by apply Hsame; eapply lookup_lt_Some).
  destruct (aligned_cut (length streams) outs before i (Ok (SMarker m)) later j Hal) as (o & x & Ho & Hx); try done.
  { rewrite Houts in Hindex. by apply Forall_app in Hindex as [_ [Hi _]%Forall_cons]. }
  { by eapply lookup_lt_Some. }
  destruct (Hprog j l Hj) as (left & ->). rewrite Houts, cons_middle, app_assoc, outs_of_app, <- app_assoc. fold seen in Ho |- *.
  rewrite Ho. symmetry. apply through_app; [done|]. by rewrite <- Hk, <- Ho.
Qed.

(** ** The checkpoint that the counting operator takes *)

Section counting.
Context {S B : Type} `{KeyedState S} `{Profile} `{SelectAll}.
Context (display : DataFusionError -> string) (num_rows : B -> N) (count_batch : N -> res DataFusionError B).
Context `{KeyedStateView S, !KeyedStateLaws S, !SelectAllLaws}.
Abbreviation process := (CountStar.process num_rows count_batch).
Abbreviation total := (total_rows num_rows).

(** A remote stream: the batches before the marker [c], the marker, and what follows it. *)
Definition before_marker (c : N) (stream : list B * list (res DataFusionError (SItem B))) : list (res DataFusionError (SItem B)) :=
  ((fun b => Ok (SRecordBatch b)) <$> stream.1) ++ Ok (SMarker (mkMarker c)) :: stream.2.

(** What the operator reads of the items that the fibers deliver. *)
Definition operator_input (outs : list (nat * res DataFusionError (SItem B))) : list (res DataFusionError (option (SItem B))) :=
  (fun r : res DataFusionError (SItem B) => Some <$> r) <$> outs.*2.

(** The first fiber is polled until it has delivered its marker. *)
Lemma poll_first_fiber (shared : SharedFiberState) c bs rest others s :
  let '(s', (_, outs)) := poll_fibers display shared (replicate (length bs + 1) 0%nat)
    ((fun l => Running (insert_stream_instructions l)) <$> before_marker c (bs, rest) :: others) s in
  s' = s /\ outs = pair 0%nat <$> (((fun b => Ok (SRecordBatch b)) <$> bs) ++ [Ok (SMarker (mkMarker c))]).
Proof.
  unfold before_marker. cbn [fst snd]. revert others. induction bs as [|b bs IH]; intros others; [done|].
  specialize (IH others). cbn [length Nat.add replicate poll_fibers].
  cbn [fmap list_fmap app lookup list_lookup insert list_insert]. unfold insert_stream_instructions at 1.
  rewrite bind_cons. cbn [instructions_of app poll_fiber]. cbn [fmap list_fmap app] in IH.
  unfold insert_stream_instructions in IH at 1. fold (insert_stream_instructions (B := B)).
  destruct (poll_fibers _ _ _ _ s) as [s' [fibers outs]]. destruct IH as [-> ->]. done.
Qed.

(** The operator counts the batches before a marker, saves the count at it, and loads it again. *)
Lemma saves_at_marker self st range c bs :
  ready self st range -> 0 < c -> (forall m, ~ ks_saved st c m) -> fits (local_count self + total bs) ->
  exists st1 st2, let n := local_count self + total bs in
    feed process (batches bs ++ [Ok (Some (SMarker (mkMarker c)))]) self =
      (mkCount (Some st1) n (Some range), [Ok (SMarker (mkMarker c))]) /\
    load (mkCount (Some st1) n (Some range)) c = (mkCount (Some st2) n (Some range), Ok tt).
Proof.
  intros (Hst & Hr & Hinv) Hc Hno Hfit. set (n := local_count self + total bs) in *.
  destruct (process_marker num_rows count_batch (mkCount (state self) n (current_partition_range self)) st range c)
    as (st1 & m & Hp & Hi1 & Hs1 & Hm & _); [done|by intros m []%Hno|done|].
  destruct (load_saved (mkCount (Some st1) n (Some range)) st1 range c m n) as (st2 & Hl & _); [done|done|done|done|done|].
  exists st1, st2. split; [|exact Hl]. erewrite feed_app; [|by apply feed_batches|constructor]. fold n. cbn [feed]. by rewrite Hp.
Qed.

Lemma operator_input_first (l : list (res DataFusionError (SItem B))) :
  operator_input (pair 0%nat <$> l) = (fun r : res DataFusionError (SItem B) => Some <$> r) <$> l.
Proof. unfold operator_input. f_equal. induction l; [done|]. cbn. by f_equal. Qed.

(** C10: a checkpoint behind several fibers loses rows.  A counting operator reads a remote
    source with at least two remote streams, each with batches before the marker [c], the marker
    and anything after it.  There is a schedule of the fibers, of any remote source, in which the
    first fiber has delivered its stream through the marker and the others nothing yet; the
    operator then passes the marker on and saves its count, without an error.  Restarted from
    [c], it loads this count, and when it reads what comes [after] the checkpoint it ends with
    a count that is short of the rows that it was sent by all rows that the other streams have
    before the marker. *)
Theorem first_marker_loses_rows (shared : SharedFiberState) w self st range c first others after :
  ready self st range -> 0 < c -> (forall m, ~ ks_saved st c m) ->
  fits (local_count self + total first.1) -> fits (local_count self + total first.1 + total after) ->
  exists schedule fibers outs self1 self2 self3 counted,
    poll_fibers display shared schedule
      ((fun l => Running (insert_stream_instructions l)) <$> (before_marker c <$> first :: others)) w = (w, (fibers, outs)) /\
    feed process (operator_input outs) self = (self1, [Ok (SMarker (mkMarker c))]) /\
    load self1 c = (self2, Ok tt) /\
    CountStar.run num_rows count_batch self2 [(0, single ((fun b => Ok (SRecordBatch b)) <$> after))] =
      Ok (self3, [(0, single [SRecordBatch <$> count_batch counted])]) /\
    counted + sumN (total ∘ fst <$> others) = local_count self + sumN (total ∘ fst <$> first :: others) + total after.
Proof.
  intros Hready Hc Hno Hbefore Hafter. destruct first as [bs rest]. cbn [fst] in *.
  destruct (saves_at_marker self st range c bs Hready Hc Hno Hbefore) as (st1 & st2 & Hfeed & Hload).
  pose proof (poll_first_fiber shared c bs rest (before_marker c <$> others) w) as Hpoll.
  destruct (poll_fibers _ _ _ _ _) as [w' [fibers outs]] eqn:Erun. destruct Hpoll as [-> ->].
  do 3 eexists. do 2 eexists. eexists (mkCount (Some st2) (local_count self + total bs + total after) (Some range)), _.
  split; [exact Erun|]. split; [|split; [exact Hload|split; [by apply run_batches|]]].
  - rewrite operator_input_first, fmap_app, <- list_fmap_compose. exact Hfeed.
  - cbn [local_count]. change (sumN (total ∘ fst <$> (bs, rest) :: others)) with (total bs + sumN (total ∘ fst <$> others)). lia.
Qed.
(** A task that is started again from the checkpoint [c], as by [scale_up], while the tasks that it
    reads go on, opens their streams from the beginning: the tickets always have the checkpoint 0.
    The batches before the marker, which the loaded count has already, are counted again. *)
Theorem restarted_reader_counts_twice (shared : SharedFiberState) w self st range c bs rest :
  ready self st range -> 0 < c -> (forall m, ~ ks_saved st c m) ->
  fits (local_count self + total bs) -> fits (local_count self + total bs + total bs) ->
  exists schedule self1 self2 self3 outs,
    feed process (batches bs ++ [Ok (Some (SMarker (mkMarker c)))]) self = (self1, [Ok (SMarker (mkMarker c))]) /\
    load self1 c = (self2, Ok tt) /\
    snd (snd (poll_fibers display shared schedule [Running (insert_stream_instructions (before_marker c (bs, rest)))] w)) =
      outs ++ [(0%nat, Ok (SMarker (mkMarker c)))] /\
    feed process (operator_input outs) self2 = (self3, []) /\ local_count self3 = local_count self + total bs + total bs.
Proof.
  intros Hready Hc Hno Hfit Htwice.
  destruct (saves_at_marker self st range c bs Hready Hc Hno Hfit) as (st1 & st2 & Hfeed & Hload).
  pose proof (poll_first_fiber shared c bs rest [] w) as Hpoll.
  exists (replicate (length bs + 1) 0%nat). do 2 eexists.
  eexists (mkCount (Some st2) (local_count self + total bs + total bs) (Some range)), (pair 0%nat <$> ((fun b => Ok (SRecordBatch b)) <$> bs)).
  split; [exact Hfeed|]. split; [exact Hload|]. split; [|split; [|done]].
  - destruct (poll_fibers _ _ _ _ _) as [w' [fibers outs]]. destruct Hpoll as [_ ->]. by rewrite fmap_app.
  - rewrite operator_input_first, <- list_fmap_compose. by apply (feed_batches num_rows count_batch bs).
Qed.
End counting.

(** ** The checkpoint on an example *)

Module ExampleCut.
#[local] Existing Instance RocksDBState.example_keyed.
#[local] Existing Instance RocksDBState.example_view.
#[local] Existing Instance RocksDBState.example_laws.
#[local] Existing Instances in_order in_order_laws.
#[local] Instance profile : Profile := true.

Definition rows (b : list N) : N := N.of_nat (length b).
Definition as_batch (n : N) : res DataFusionError (list N) := Ok [n].
Definition counter : CountStarFunction :=
  mkCount (Some (RocksDBState.example_state ∅)) 0 (Some (mkRange 0 1 1)).

(** Two remote streams with the marker 1, of three and of two rows. *)
Definition shared : SharedFiberState := mkSharedFiberState ["s"] "g" (mkRange 0 2 2) FiberRuns.example_addresses.
Definition start : FiberBarrier * Shared := (Barrier.new 2, mkShared 0 None FiberRuns.example_run_details).
Definition first : list (list N) * list (res DataFusionError (SItem (list N))) := ([[1; 2]; [3]], []).
Definition second : list (list N) * list (res DataFusionError (SItem (list N))) := ([[4; 5]], []).

Definition deliver (schedule : list nat) : list (nat * res DataFusionError (SItem (list N))) :=
  (poll_fibers (fun _ => "e") shared schedule
    ((fun l => Running (insert_stream_instructions l)) <$> [before_marker 1 first; before_marker 1 second]) start).2.2.

(** The five rows and one after the checkpoint: the job ends with four. *)
Lemma first_marker_loses_rows_witness :
  exists schedule self1 self2 self3,
    feed (CountStar.process rows as_batch) (operator_input (deliver schedule)) counter = (self1, [Ok (SMarker (mkMarker 1))]) /\
    load self1 1 = (self2, Ok tt) /\
    CountStar.run rows as_batch self2 [(0, single [Ok (SRecordBatch [6])])] = Ok (self3, [(0, single [SRecordBatch <$> as_batch 4])]).
Proof.
  destruct (RocksDBState.example_state_inv ∅) as (Hinv & Hno & _).
  destruct (first_marker_loses_rows (fun _ => "e") rows as_batch shared start counter
    (RocksDBState.example_state ∅) (mkRange 0 1 1) 1 first [second] [[6]])
    as (schedule & fibers & outs & self1 & self2 & self3 & counted & Hpoll & Hfeed & Hload & Hrun & Hcount);
    [done|done|exact (Hno 1)|reflexivity|reflexivity|].
  exists schedule, self1, self2, self3. split; [|split; [exact Hload|]].
  - unfold deliver. cbn [fmap list_fmap] in Hpoll |- *. rewrite Hpoll. exact Hfeed.
  - change (counted + 2 = 6) in Hcount. assert (counted = 4) as -> by lia. exact Hrun.
Defined.

(** When both markers have been read the operator has saved its count twice under the number 1,
    in two directories.  The count that a restart finds is that of the directory which is listed
    first: it depends on the names that were drawn whether the rows of the second stream
    are lost. *)
Definition restored (uuid : nat -> string) : N * (N * res DataFusionError ()) :=
  let _ : KeyedState (RocksDBState.t (FL := tree) (FR := tree)) :=
    @RocksDBState.keyed_state tree tree (PrefixedLocalFileSystemStorage.storage ["tmp"]) FileDb.rocks_db
      (PrefixedLocalFileSystemStorage.storage ["tmp"]) BitJson.json true uuid 10 [] in
  let '(self1, _) := feed (CountStar.process rows as_batch)
    (operator_input (deliver ([0; 0; 0]%nat ++ concat (replicate 10 [0; 1]%nat)))) counter in
  let '(self2, r) := load self1 1 in (local_count self1, (local_count self2, r)).

Definition names_drawn (l : list string) (n : nat) : string := default "" (l !! n).

Lemma restored_count_depends_on_names :
  restored (names_drawn ["x0"; "x1"; "x2"]) = (5, (5, Ok tt)) /\
  restored (names_drawn ["x1"; "x0"; "x2"]) = (5, (3, Ok tt)).
Proof. split; vm_compute; reflexivity. Qed.
(** The cut at marker 1 of two fibers, and what they deliver after it. *)
Lemma last_marker_is_a_cut_witness :
  let outs := (poll_fibers (fun _ => "e") (mkSharedFiberState ["s"] "g" (mkRange 0 2 2) FiberRuns.example_addresses)
    [0; 0; 1; 0; 1; 0; 0]%nat ((fun l => Running (insert_stream_instructions l)) <$> example_streams) start).2.2 in
  outs = [(0%nat, Ok (SRecordBatch 1)); (0%nat, Ok (SMarker (mkMarker 1))); (1%nat, Ok (SMarker (mkMarker 1)));
          (0%nat, Ok (SRecordBatch 2))] /\
  outs_of 0 (take 3 outs) = [Ok (SRecordBatch 1); Ok (SMarker (mkMarker 1))] /\ outs_of 1 (take 3 outs) = [Ok (SMarker (mkMarker 1))].
Proof.
  pose proof (last_marker_is_a_cut (fun _ => "e") ["s"] "g" (mkRange 0 2 2) FiberRuns.example_addresses
    FiberRuns.example_run_details FiberRuns.example_verdict 0 [mkMarker 1; mkMarker 2] example_streams [0; 0; 1; 0; 1; 0; 0]%nat) as Hcut.
  cbn [shared_fiber_state_new] in Hcut. specialize (Hcut eq_refl ltac:(by repeat constructor) ltac:(by repeat constructor)).
  match goal with |- let outs := (?run).2.2 in _ => assert (exists s fibers, run = (s, (fibers,
    [(0%nat, Ok (SRecordBatch 1)); (0%nat, Ok (SMarker (mkMarker 1))); (1%nat, Ok (SMarker (mkMarker 1)));
     (0%nat, Ok (SRecordBatch 2))]))) as (s & fibers & Hrun) by (eexists _, _; vm_compute; reflexivity) end.
  intros outs. unfold outs. rewrite Hrun. split; [done|].
  change (Barrier.new _, _) with start in Hcut. rewrite Hrun in Hcut.
  specialize (Hcut [(0%nat, Ok (SRecordBatch 1)); (0%nat, Ok (SMarker (mkMarker 1)))] 1%nat (mkMarker 1) _ eq_refl).
  cbn [app] in Hcut. split; [apply (Hcut ltac:(intros [|[|]]; [done|done|cbn; lia]) 0%nat _ eq_refl)|].
  apply (Hcut ltac:(intros [|[|]]; [done|done|cbn; lia]) 1%nat _ eq_refl).
Defined.
End ExampleCut.
