(* ===== verification/RemoteExchange.v ===== *)
(** * The remote exchange operator (src/streaming/operators/remote_exchange.rs)

    The operator at the end of a task: [init] creates the data channel of its output stream and
    [run] writes its input into it.  Its items reach the readers of the channel, under every
    interleaving with them. *)

From stdpp Require Import relations.
From S2P Require Import Prelude Arrow Partitioning Stream Generation Channels FiberStream.
Import ExchangeChannelStore.

Section exchange.
Context `{Arrow} `{SelectAll}.

Record RemoteExchangeOperator := mkExchange {
  output_stream_id : string;
  ex_schema : Schema;
  partitioning : option PartitioningSpec;
}.

(** [RemoteExchangeOperator::new] uses the empty schema. *)
Definition exchange_new (empty_schema : Schema) (sid : string) : RemoteExchangeOperator :=
  mkExchange sid empty_schema None.
Definition exchange_new_with_partitioning (sid : string) (schema : Schema) (spec : PartitioningSpec)
    : RemoteExchangeOperator := mkExchange sid schema (Some spec).

(** [data_channel] is the sender and the channel it writes to. *)
Record RemoteExchangeOperatorFunction := mkExchangeFn {
  fn_stream_id : string;
  fn_partitioning : option PartitioningSpec;
  data_channel : option (nat * DataChannelSender);
}.

Definition exchange_create (op : RemoteExchangeOperator) : RemoteExchangeOperatorFunction :=
  mkExchangeFn (output_stream_id op) (partitioning op) None.

Definition with_data_channel (self : RemoteExchangeOperatorFunction) (ch : option (nat * DataChannelSender))
    : RemoteExchangeOperatorFunction := mkExchangeFn (fn_stream_id self) (fn_partitioning self) ch.

Definition unwrap_none : string := "called `Option::unwrap()` on a `None` value".

(** Replacing [data_channel] drops the sender that was there. *)
Definition drop_channel (self : RemoteExchangeOperatorFunction) (store : ExchangeChannelStore.t)
    : ExchangeChannelStore.t :=
  match data_channel self with
  | Some (ch, s) => mkStore (alter (fun st => drop_sender st s) ch (heap store)) (channels store)
  | None => store
  end.

Definition exchange_init (self : RemoteExchangeOperatorFunction) (generations : option (list GenerationSpec))
    : act ExchangeChannelStore.t DataFusionError RemoteExchangeOperatorFunction := fun store =>
  match generations with
  | None => (store, Panic unwrap_none)
  | Some generations =>
      match generations !! 0%nat with
      | None => (store, Panic "index out of bounds: the len is 0 but the index is 0")
      | Some generation =>
          let partitioning_details :=
            (fun spec => mkDetails spec (gen_partitions generation)) <$> fn_partitioning self in
          let ch := length (heap store) in
          let '(sender, store) := ExchangeChannelStore.create store (fn_stream_id self) partitioning_details in
          (drop_channel self store, Ok (with_data_channel self (Some (ch, sender))))
      end
  end.

(** One turn of the loop of [run]. *)
Definition write_item (item : res DataFusionError (SItem Batch)) (st : DataChannelState Batch)
    (s : DataChannelSender) : res DataFusionError (DataChannelState Batch * DataChannelSender) :=
  match item with
  | Ok (SGeneration _) =>
      Panic "RemoteExchangeOperatorFunction does not know how to handle generations right now"
  | Ok (SRecordBatch record_batch) => send (Ok (SIRecordBatch record_batch)) st s
  | Ok (SMarker marker) => send (Ok (SIMarker marker)) st s
  | Err err => send (Err err) st s
  | Panic w => Panic w
  end.

Fixpoint write_items (items : list (res DataFusionError (SItem Batch))) (st : DataChannelState Batch)
    (s : DataChannelSender) : DataChannelState Batch * res DataFusionError DataChannelSender :=
  match items with
  | [] => (st, Ok s)
  | item :: items =>
      match write_item item st s with
      | Ok (st, s) => write_items items st s
      | Err e => (st, Err e)
      | Panic w => (st, Panic w)
      end
  end.

(** [run]: the output is empty, and the channel is dropped at the end. *)
Definition exchange_run (self : RemoteExchangeOperatorFunction) (inputs : list (N * FiberStream (SItem Batch)))
    (store : ExchangeChannelStore.t)
    : ExchangeChannelStore.t * RemoteExchangeOperatorFunction * res DataFusionError (list (N * FiberStream (SItem Batch))) :=
  match data_channel self with
  | None => (store, self, Err (Execution "Data channel not initialized"))
  | Some (ch, s) =>
      match inputs with
      | [(_, input_stream)] =>
          match heap store !! ch with
          | None => (store, self, Panic "no such channel")
          | Some st =>
              let '(st, r) := write_items (combined input_stream) st s in
              let store := mkStore (<[ch := st]> (heap store)) (channels store) in
              match r with
              | Ok s =>
                  let self := with_data_channel self (Some (ch, s)) in
                  (drop_channel self store, with_data_channel self None, Ok [])
              | Err e => (store, self, Err e)
              | Panic w => (store, self, Panic w)
              end
          end
      | _ => (store, self, Panic "RemoteExchangeOperatorFunction should only have one input")
      end
  end.

(** ** What is written is what arrives *)

(** The calls that the operator makes on the sender of its channel. *)
Definition exchange_script (items : list (StreamItem Batch)) : list (Cmd Batch) :=
  (SendItem <$> items) ++ [DropSender].

Lemma items_of_script items : items_of (exchange_script items) = items.
Proof.
  unfold exchange_script, items_of. induction items as [|i items IH]; cbn; [done|]. by rewrite IH.
Qed.

Lemma write_item_send i st s : write_item (Ok (sitem_of_stream_item i)) st s = send (Ok i) st s.
Proof. by destruct i. Qed.

(** Writing items to a running channel is the sequence of the sender's steps. *)
Lemma write_items_steps items (c : config Batch) rest :
  pc c = Idle -> script c = (SendItem <$> items) ++ rest -> is_Some (notification (st c)) ->
  exists st' s',
    write_items ((fun i => Ok (sitem_of_stream_item i)) <$> items) (st c) (sender c) = (st', Ok s') /\
    rtc step c (mkConfig st' s' rest Idle (index c) (out c) (rpc c)) /\
    is_Some (notification st') /\ data st' = data (st c) ++ items /\
    next_index s' = (next_index (sender c) + length items)%nat.
Proof.
  revert c. induction items as [|i items IH]; intros c Hpc Hsc Hn; cbn [fmap list_fmap write_items length] in *.
  - exists (st c), (sender c). split; [done|]. split; [|split; [done|]].
    + cbn in Hsc. rewrite <- Hsc, <- Hpc. by destruct c.
    + rewrite app_nil_r. split; [done|lia].
  - destruct c as [st0 s0 sc0 pc0 ix o rp].
    cbn [st sender script pc index out rpc] in *. subst sc0 pc0. destruct Hn as [n Hn].
    set (c0 := mkConfig st0 s0 (SendItem i :: (SendItem <$> items) ++ rest) Idle ix o rp).
    destruct (push i st0 s0) as [[old st1] s1] eqn:Hpush.
    assert (old = Some n /\ is_Some (notification st1) /\ data st1 = data st0 ++ [i] /\
      next_index s1 = S (next_index s0)) as (-> & Hn1 & Hd1 & Hi1).
    { unfold push in Hpush. cbn in Hpush. injection Hpush as <- <- <-. by cbn. }
    set (c1 := mkConfig st1 s1 ((SendItem <$> items) ++ rest) (Notify n) ix o rp).
    set (c2 := mkConfig (notify n st1) s1 ((SendItem <$> items) ++ rest) Idle ix o rp).
    assert (step c0 c1) as Hs1 by (left; cbn -[push]; by rewrite Hpush).
    assert (step c1 c2) as Hs2 by (by left).
    assert (write_item (Ok (sitem_of_stream_item i)) st0 s0 = Ok (notify n st1, s1)) as ->.
    { rewrite write_item_send. unfold send. by rewrite Hpush. }
    destruct (IH c2) as (st' & s' & Hw & Hsteps & Hn' & Hd' & Hi'); [done|done|by cbn|].
    exists st', s'. split; [done|]. split; [|split; [done|]].
    + eapply rtc_l; [exact Hs1|]. eapply rtc_l; [exact Hs2|]. exact Hsteps.
    + cbn in Hd', Hi'. rewrite Hd', Hd1, <- (assoc_L (++)). split; [done|lia].
Qed.

Context `{!SelectAllLaws}.

(** Run on a newly created channel, the operator leaves its input in the channel. *)
Lemma exchange_run_writes self store ch items o :
  data_channel self = Some (ch, snd (channel_create (B := Batch))) ->
  heap store !! ch = Some (fst channel_create) ->
  exists st' lc,
    exchange_run self [(o, single ((fun i => Ok (sitem_of_stream_item i)) <$> items))] store =
      (mkStore (<[ch := st']> (heap store)) (channels store), with_data_channel self None, Ok []) /\
    data st' = items /\ status st' = Cancelled lc (length items) /\
    exists c, reachable (exchange_script items) c /\ st c = st' /\ script c = [] /\ out c = [].
Proof.
  intros Hself Hheap.
  destruct (write_items_steps items (init (exchange_script items)) [DropSender])
    as (st' & s' & Hw & Hsteps & [n Hn] & Hd & Hi); [done|done|by eexists|].
  change (st (init (exchange_script items))) with (fst (channel_create (B := Batch))) in Hw, Hd.
  change (sender (init (exchange_script items))) with (snd (channel_create (B := Batch))) in Hw, Hi.
  exists (drop_sender st' s'), (last_checkpoint s').
  assert (drop_sender st' s' = notify n (mkState (data st') None
    (Cancelled (last_checkpoint s') (length items)) (fresh st') (notified st'))) as Hdrop.
  { unfold drop_sender, cancel_with_status, take_notification, set_status. cbn. rewrite Hn, Hi. done. }
  split; [|split; [by rewrite Hdrop|split; [by rewrite Hdrop|]]].
  - unfold exchange_run. rewrite Hself, Hheap. unfold single. rewrite combined_single, Hw.
    unfold drop_channel. cbn [data_channel with_data_channel heap channels].
    by rewrite !list_insert_alter, list_alter_alter_eq.
  - eexists. split; [unfold reachable; etrans; [exact Hsteps|]|].
    + eapply rtc_l; [left; reflexivity|]. eapply rtc_l; [left; reflexivity|].
      cbn. rewrite Hn. eapply rtc_once. left. reflexivity.
    + rewrite Hdrop. change (length items) with (next_index (snd (channel_create (B := Batch))) + length items)%nat.
      rewrite <- Hi. done.
Qed.

(** C35: a remote exchange delivers its input.  Run on a newly created channel, the operator
    returns no output streams, leaves every item of its input in the channel, in order, and
    cancels the channel at its end; its calls are a sequence of sender steps of the channel
    machine, so that under every interleaving with a reader the reader receives a prefix of
    the input, and all of it if its stream ends without an error. *)
Theorem exchange_run_delivers self store ch items o :
  data_channel self = Some (ch, snd (channel_create (B := Batch))) ->
  heap store !! ch = Some (fst channel_create) ->
  exists st' lc,
    exchange_run self [(o, single ((fun i => Ok (sitem_of_stream_item i)) <$> items))] store =
      (mkStore (<[ch := st']> (heap store)) (channels store), with_data_channel self None, Ok []) /\
    data st' = items /\ status st' = Cancelled lc (length items) /\
    (exists c, reachable (exchange_script items) c /\ st c = st' /\ script c = [] /\ out c = []) /\
    (forall c, reachable (exchange_script items) c ->
       out c `prefix_of` items /\ (rpc c = RDone None -> out c = items)).
Proof.
  intros Hself Hheap.
  destruct (exchange_run_writes self store ch items o Hself Hheap) as (st' & lc & Hrun & Hd & Hs & Hc).
  exists st', lc. split; [done|]. split; [done|]. split; [done|]. split; [done|].
  intros c [[rest Hp] Hend]%reachable_inv%inv_reader_prefix. rewrite items_of_script in Hp, Hend.
  split; [by exists rest|done].
Qed.
End exchange.

(** A batch and a marker through the operator, into the channel that [exchange_init] creates. *)
Definition example_exchange : RemoteExchangeOperatorFunction (H := RowArrow.arrow) :=
  mkExchangeFn (H := RowArrow.arrow) "s" None (Some (0%nat, sender_new)).
Definition example_batch : RowArrow.batch := {| RowArrow.b_schema := []; RowArrow.b_rows := [[1]; [2]] |}.

Lemma exchange_run_delivers_witness :
  let items := [SIRecordBatch example_batch; SIMarker (mkMarker 1)] in
  let store := snd (ExchangeChannelStore.create (H := RowArrow.arrow) ExchangeChannelStore.new "s" None) in
  exists st' lc,
    exchange_run (H := RowArrow.arrow) (H0 := in_order) example_exchange
      [(0, single ((fun i => Ok (sitem_of_stream_item i)) <$> items))] store =
      (mkStore [st'] (channels store), mkExchangeFn (H := RowArrow.arrow) "s" None None, Ok []) /\
    data st' = items /\ status st' = Cancelled lc 2.
Proof.
  intros items store.
  destruct (exchange_run_delivers (H := RowArrow.arrow) (H0 := in_order) (H1 := in_order_laws)
    example_exchange store 0 items 0) as (st' & lc & Hrun & Hd & Hs & _); [reflexivity..|].
  exists st', lc. split; [exact Hrun|]. split; [exact Hd|exact Hs].
Defined.
