(* ===== verification/Serde.v ===== *)
(** * Serialization with a schema context
    (src/streaming/utils/serde_serialization.rs, operators/remote_exchange.rs)

    A physical expression can only be read back with the schema of its input.  A remote exchange
    is serialized as a pair, the schema first; reading the second element, the expressions find
    the schema in a thread-local variable, which a guard clears when it is dropped.  The
    variable is the state of the model.  The encodings of schemas and expressions and the
    outer format are parameters. *)

From S2P Require Import Prelude Arrow Partitioning RemoteExchange.

#[local] Notation Bytes := (list N).

(** What is used of a [FunctionRegistry]: user defined functions by name, of a type [F]. *)
Record FunctionRegistry (F : Type) := mkRegistry {
  udfs : list string;
  udf : string -> res string F;
  udaf : string -> res string F;
  udwf : string -> res string F;
  expr_planners : list F;
}.
Arguments mkRegistry {F} _ _ _ _ _.
Arguments udf {F} _ _.

Class ProtoCodec `{Arrow} := {
  (** [protobuf::Schema]: [try_from], [encode_to_vec], [decode] and [try_into] *)
  SchemaMessage : Type;
  schema_try_from : Schema -> res string SchemaMessage;
  schema_encode_to_vec : SchemaMessage -> Bytes;
  schema_decode : Bytes -> res string SchemaMessage;
  schema_try_into : SchemaMessage -> res string Schema;
  (** [serialize_physical_exprs] (one expression) and [encode_to_vec] *)
  ExprNode : Type;
  serialize_physical_expr : Expr -> res string ExprNode;
  node_encode : ExprNode -> Bytes;
  node_decode : Bytes -> res string ExprNode;
  (** [parse_physical_exprs] (one expression), with the codec *)
  Function : Type;
  parse_physical_expr : FunctionRegistry Function -> Schema -> ExprNode -> res string Expr;
}.

(** [NoRegistry] *)
Definition no_registry {F} : FunctionRegistry F :=
  let refuse (kind name : string) : res string F :=
    Err ("No function registry provided to deserialize, so can not deserialize User Defined " +:+ kind +:+ " '" +:+ name +:+ "'") in
  mkRegistry [] (refuse "Function") (refuse "Aggregate Function") (refuse "Window Function") [].

(** The documented round trips; an expression is read over a schema that has its columns, and
    without a registry when it calls no user defined function. *)
Class ProtoCodecLaws `{ProtoCodec} := {
  expr_over : Schema -> Expr -> Prop;
  schema_into_from s m : schema_try_from s = Ok m -> schema_try_into m = Ok s;
  schema_decode_encode m : schema_decode (schema_encode_to_vec m) = Ok m;
  node_roundtrip n : node_decode (node_encode n) = Ok n;
  expr_roundtrip s e n : expr_over s e -> serialize_physical_expr e = Ok n ->
    parse_physical_expr no_registry s n = Ok e;
}.

Section serde.
Context `{ProtoCodec}.

(** [schema::serialize] and [schema::deserialize] *)
Definition schema_to_bytes (schema : Schema) : res string Bytes :=
  proto_schema ← map_err (fun e => "Failed to convert schema: " +:+ e) (schema_try_from schema);
  Ok (schema_encode_to_vec proto_schema).

Definition schema_from_bytes (bytes : Bytes) : res string Schema :=
  proto_schema ← map_err (fun e => "Failed to decode schema: " +:+ e) (schema_decode bytes);
  map_err (fun e => "Failed to convert schema: " +:+ e) (schema_try_into proto_schema).

(** The thread-local variable [INPUT_SCHEMA_CONTEXT]. *)
Abbreviation ctx := (option Schema).

Definition set_context (schema : Schema) : act ctx string () := fun c =>
  match c with
  | Some _ => (c, Err "Input schema already set in this thread")
  | None => (Some schema, Ok tt)
  end.

(** [impl Drop for ContextGuard] *)
Definition drop_guard : ctx -> ctx := fun _ => None.

Definition get_context : act ctx string Schema := fun c =>
  (c, ok_or "No input schema set in this thread" c).

(** [physical_expr_refs::serialize] *)
Definition exprs_serialize (exprs : list Expr) : res string (list Bytes) :=
  proto_expressions ← map_err (fun err => "Failed to encode PhysicalExprNode: " +:+ err)
    (try_collect serialize_physical_expr exprs);
  Ok (List.map node_encode proto_expressions).

Definition deserialize_with_input_schema (input_schema : Schema) (buffers : list Bytes)
    : res string (list Expr) :=
  proto_expressions ← map_err (fun err => "Failed to decode PhysicalExprNode: " +:+ err)
    (try_collect node_decode buffers);
  map_err (fun err => "Failed to parse PhysicalExprNode: " +:+ err)
    (try_collect (parse_physical_expr no_registry input_schema) proto_expressions).

(** [physical_expr_refs::deserialize] *)
Definition exprs_deserialize (buffers : list Bytes) : act ctx string (list Expr) := fun c =>
  match get_context c with
  | (c, Ok input_schema) => (c, deserialize_with_input_schema input_schema buffers)
  | (c, Err err) => (c, Err ("Failed to get input schema: " +:+ err))
  | (c, Panic w) => (c, Panic w)
  end.

(** *** [RemoteExchangeOperator] *)

(** The elements of the tuple: [InitialSerialization] and [ContentSerialization], whose field is
    a [PartitioningSpec]. *)
Inductive Element :=
  | EInitial (output_stream_id : string) (schema : Bytes)
  | EContent (partitioning : option (list Bytes)).

Definition initial_serialization (op : RemoteExchangeOperator) : res string Element :=
  schema ← schema_to_bytes (ex_schema op); Ok (EInitial (output_stream_id op) schema).

Definition content_serialization (op : RemoteExchangeOperator) : res string Element :=
  match partitioning op with
  | None => Ok (EContent None)
  | Some spec => exprs ← exprs_serialize (expressions spec); Ok (EContent (Some exprs))
  end.

Definition exchange_serialize (op : RemoteExchangeOperator) : res string (list Element) :=
  initial ← initial_serialization op; content ← content_serialization op; Ok [initial; content].

(** [seq.next_element::<InitialDeserialization>()?]: the element, if there is one. *)
Definition next_initial (seq : list Element) : res string (option (string * Schema) * list Element) :=
  match seq with
  | [] => Ok (None, [])
  | EInitial sid bytes :: seq => schema ← schema_from_bytes bytes; Ok (Some (sid, schema), seq)
  | EContent _ :: _ => Err "invalid type"
  end.

(** [seq.next_element::<ContentDeserialization>()?]: reads expressions in the context. *)
Definition next_content (seq : list Element) : act ctx string (option (option PartitioningSpec)) := fun c =>
  match seq with
  | [] => (c, Ok None)
  | EContent None :: _ => (c, Ok (Some None))
  | EContent (Some buffers) :: _ =>
      let '(c, r) := exprs_deserialize buffers c in
      (c, exprs ← r; Ok (Some (Some (mkPartitioningSpec exprs))))
  | EInitial _ _ :: _ => (c, Err "invalid type")
  end.

(** [visit_seq]: the guard is dropped at the end of the block, whatever it gave. *)
Definition visit_seq (seq : list Element) : act ctx string RemoteExchangeOperator := fun c =>
  match next_initial seq with
  | Ok (Some (sid, schema), seq) =>
      match set_context schema c with
      | (c, Ok _) =>
          let '(c, post) := next_content seq c in
          (drop_guard c, post ← post; part ← ok_or "invalid length 1" post; Ok (mkExchange sid schema part))
      | (c, Err _) => (c, Err "Failed to set context for deserialization")
      | (c, Panic w) => (c, Panic w)
      end
  | Ok (None, _) => (c, Err "invalid length 0")
  | Err e => (c, Err e)
  | Panic w => (c, Panic w)
  end.

(** ** Reading back *)

Lemma try_collect_roundtrip {A C} (f : A -> res string C) (g : C -> res string A) l k :
  try_collect f l = Ok k -> Forall (fun x => forall y, f x = Ok y -> g y = Ok x) l -> try_collect g k = Ok l.
Proof.
  rewrite try_collect_Ok. induction 1 as [|x y l k Hxy _ IH]; intros Hl; [done|].
  apply Forall_cons in Hl as [Hx Hl]. cbn. by rewrite (Hx y Hxy), bind_Ok, (IH Hl).
Qed.

Context `{!ProtoCodecLaws}.

Lemma schema_roundtrip s b : schema_to_bytes s = Ok b -> schema_from_bytes b = Ok s.
Proof.
  unfold schema_to_bytes, schema_from_bytes. destruct (schema_try_from s) as [m|e|w] eqn:E; cbn; intros [= <-].
  by rewrite schema_decode_encode; cbn; rewrite (schema_into_from s m E).
Qed.

Lemma exprs_roundtrip schema exprs buffers :
  Forall (expr_over schema) exprs -> exprs_serialize exprs = Ok buffers ->
  deserialize_with_input_schema schema buffers = Ok exprs.
Proof.
  intros Hover Hser. unfold exprs_serialize in Hser.
  destruct (try_collect serialize_physical_expr exprs) as [nodes|e|w] eqn:Hnodes; cbn in Hser; try done.
  injection Hser as <-. unfold deserialize_with_input_schema.
  assert (try_collect node_decode (List.map node_encode nodes) = Ok nodes) as ->.
  { apply (try_collect_Ok node_decode). clear Hnodes Hover. induction nodes as [|n nodes IH]; cbn; constructor; [|done].
    apply node_roundtrip. }
  cbn. rewrite (try_collect_roundtrip serialize_physical_expr _ exprs nodes Hnodes); [done|].
  eapply Forall_impl; [exact Hover|]. intros e He n Hn. by eapply expr_roundtrip.
Qed.

(** A remote exchange survives serialization.  What [serialize] writes is read back as the
    same operator on a thread without a context, provided that its partitioning expressions are
    over its schema; and reading leaves the context of the thread as it was on every path,
    whether it succeeds or fails. *)
Theorem exchange_serde_roundtrip op elements :
  (forall spec, partitioning op = Some spec -> Forall (expr_over (ex_schema op)) (expressions spec)) ->
  exchange_serialize op = Ok elements ->
  visit_seq elements None = (None, Ok op) /\
  (forall seq c, fst (visit_seq seq c) = c).
Proof.
  intros Hover Hser. split.
  - unfold exchange_serialize, initial_serialization, content_serialization in Hser.
    destruct op as [sid schema part]. cbn in *.
    destruct (schema_to_bytes schema) as [bytes|e|w] eqn:Hs; cbn in Hser; try done.
    apply schema_roundtrip in Hs. unfold visit_seq.
    destruct part as [[exprs]|]; cbn in Hser.
    + destruct (exprs_serialize exprs) as [buffers|e|w] eqn:He; cbn in Hser; try done.
      injection Hser as <-. cbn. rewrite Hs. cbn.
      rewrite (exprs_roundtrip schema exprs buffers (Hover _ eq_refl) He). done.
    + injection Hser as <-. cbn. by rewrite Hs.
  - intros seq c. unfold visit_seq.
    destruct (next_initial seq) as [[[[sid schema]|] rest]|e|w]; [|done..].
    unfold set_context. destruct c as [schema'|]; [done|].
    by destruct (next_content rest (Some schema)) as [c r].
Qed.
End serde.

(** A codec for the concrete Arrow instance: a schema is a list of names, encoded by its
    length; an expression is a column. *)
Module ColumnCodec.
Definition names_to_bytes (s : list string) : res string Bytes :=
  if bool_decide (s = ["a"; "b"]) then Ok [2] else if bool_decide (s = []) then Ok [0] else Err "unknown".
Definition names_from_bytes (b : Bytes) : res string (list string) :=
  if bool_decide (b = [2]) then Ok ["a"; "b"] else if bool_decide (b = [0]) then Ok [] else Err "unknown".
Definition node_from_bytes (b : Bytes) : res string nat :=
  match b with [n] => Ok (N.to_nat n) | _ => Err "unknown" end.
Definition parse_column (s : list string) (n : nat) : res string nat :=
  if (n <? length s)%nat then Ok n else Err "no such column".

#[export] Instance codec : ProtoCodec (H := RowArrow.arrow) := {|
  SchemaMessage := Bytes;
  schema_try_from := names_to_bytes : @Schema RowArrow.arrow -> _;
  schema_encode_to_vec bytes := bytes;
  schema_decode := Ok;
  schema_try_into := names_from_bytes : _ -> res string (@Schema RowArrow.arrow);
  ExprNode := nat;
  serialize_physical_expr := Ok : @Expr RowArrow.arrow -> res string nat;
  node_encode n := [N.of_nat n];
  node_decode := node_from_bytes;
  Function := unit;
  parse_physical_expr _ := parse_column : @Schema RowArrow.arrow -> nat -> res string (@Expr RowArrow.arrow);
|}.

#[export] Instance codec_laws : ProtoCodecLaws (H := RowArrow.arrow).
Proof.
  refine {| expr_over := fun (s : @Schema RowArrow.arrow) (e : @Expr RowArrow.arrow) => (e < length (s : list string))%nat |}.
  - intros s b. cbn. unfold names_to_bytes, names_from_bytes. repeat case_bool_decide; intros [= <-]; by subst.
  - done.
  - intros n. cbn. by rewrite Nat2N.id.
  - intros s e n He [= <-]. cbn. unfold parse_column. by rewrite (proj2 (Nat.ltb_lt _ _)).
Defined.

Lemma exchange_serde_roundtrip_witness :
  let op := mkExchange (H := RowArrow.arrow) "s" ["a"; "b"] (Some (mkPartitioningSpec (H0 := RowArrow.arrow) [1%nat])) in
  exchange_serialize op = Ok [EInitial "s" [2]; EContent (Some [[1]])] /\
  visit_seq [EInitial "s" [2]; EContent (Some [[1]])] None = (None, Ok op).
Proof.
  intros op. split; [reflexivity|].
  apply (exchange_serde_roundtrip op [EInitial "s" [2]; EContent (Some [[1]])]); [|reflexivity].
  intros spec [= <-]. repeat constructor.
Defined.
End ColumnCodec.

(** ** Record batches

    [record_batch] and [record_batches] write the Arrow stream format: a header with the schema
    of the first batch, the batches, and an end. *)

Class IpcStream `{Arrow} := {
  StreamWriter : Type;
  (** [StreamWriter::try_new(buffer, schema)], [write] and [finish], which fills the buffer *)
  stream_writer_try_new : Schema -> res string StreamWriter;
  stream_writer_write : StreamWriter -> Batch -> res string StreamWriter;
  stream_writer_finish : StreamWriter -> res string Bytes;
  (** [StreamReader::try_new(bytes)], then [next] until [None] *)
  stream_reader_try_new : Bytes -> res string (list (res string Batch));
}.

Section record_batches.
Context `{IpcStream}.

Fixpoint write_all (writer : StreamWriter) (record_batches : list Batch) : res string StreamWriter :=
  match record_batches with
  | [] => Ok writer
  | batch :: record_batches => writer ← stream_writer_write writer batch; write_all writer record_batches
  end.

Definition record_batches_serialize (record_batches : list Batch) : res string Bytes :=
  match record_batches with
  | [] => Ok []
  | record_batch :: _ =>
      writer ← stream_writer_try_new (batch_schema record_batch);
      writer ← write_all writer record_batches;
      stream_writer_finish writer
  end.

Definition record_batches_deserialize (bytes : Bytes) : res string (list Batch) :=
  reader ← stream_reader_try_new bytes;
  try_collect (map_err (fun error => "Failed to read record batch: " +:+ error)) reader.

Definition record_batch_serialize (record_batch : Batch) : res string Bytes :=
  record_batches_serialize [record_batch].

Definition record_batch_deserialize (bytes : Bytes) : res string Batch :=
  vec ← record_batches_deserialize bytes;
  match vec with
  | [b] => Ok b
  | [] => Err "Cannot deserialize a record batch from an empty stream"
  | _ => Err "Found more than one record batch when deserializing the stream"
  end.
End record_batches.

(** The stream format keeps batches of its schema, and needs a header. *)
Class IpcStreamLaws `{IpcStream} : Prop := {
  written_stream s writer batches writer' bytes :
    stream_writer_try_new s = Ok writer -> write_all writer batches = Ok writer' ->
    stream_writer_finish writer' = Ok bytes -> Forall (fun b => batch_schema b = s) batches ->
    stream_reader_try_new bytes = Ok (List.map Ok batches);
  empty_stream : exists e, stream_reader_try_new [] = Err e;
}.

Section record_batches_correct.
Context `{IpcStreamLaws}.

Lemma try_collect_oks (f : string -> string) (l : list Batch) :
  try_collect (map_err f) (List.map Ok l) = Ok l.
Proof. induction l as [|b l IH]; [done|]. cbn in *. by rewrite IH. Qed.

(** Record batches of one schema that are serialized are read back, whether as a list or as
    a single batch; but no batches are written as no bytes, which cannot be read back. *)
Theorem record_batches_roundtrip s batches bytes :
  Forall (fun b => batch_schema b = s) batches -> record_batches_serialize batches = Ok bytes ->
  match batches with
  | [] => exists e, record_batches_deserialize bytes = Err e
  | [b] => record_batches_deserialize bytes = Ok [b] /\ record_batch_serialize b = Ok bytes /\
      record_batch_deserialize bytes = Ok b
  | _ => record_batches_deserialize bytes = Ok batches
  end.
Proof.
  destruct batches as [|b batches].
  { intros _ [= <-]. destruct empty_stream as [e He]. exists e. unfold record_batches_deserialize. by rewrite He. }
  intros Hs Hser.
  assert (record_batches_deserialize bytes = Ok (b :: batches)) as Hread.
  { unfold record_batches_serialize in Hser. apply bind_Ok_inv in Hser as (w & Hw & Hser).
    apply bind_Ok_inv in Hser as (w' & Hw' & Hf). unfold record_batches_deserialize.
    apply Forall_cons in Hs as [<- Hs].
    rewrite (written_stream _ _ _ _ _ Hw Hw' Hf) by by constructor. apply try_collect_oks. }
  destruct batches as [|b' batches]; [|done].
  split; [done|]. split; [done|]. unfold record_batch_deserialize. by rewrite Hread.
Qed.
End record_batches_correct.

(** A stream format for the concrete Arrow instance: one number for the whole stream. *)
Module NumberedStream.
#[local] Existing Instance RowArrow.arrow.

Definition pair_of (b : RowArrow.batch) : list string * list (list N) := (RowArrow.b_schema b, RowArrow.b_rows b).
Definition of_pair (p : list string * list (list N)) : RowArrow.batch :=
  {| RowArrow.b_schema := p.1; RowArrow.b_rows := p.2 |}.

Definition read_number (bytes : Bytes) : res string (list (res string Batch)) :=
  match bytes with
  | [Npos n] => ps ← ok_or "invalid stream" (decode (A := list (list string * list (list N))) n);
      Ok (List.map (fun p => Ok (of_pair p)) ps)
  | _ => Err "expected a schema message"
  end.

#[export] Instance ipc_stream : IpcStream := {|
  StreamWriter := list (list string * list (list N));
  stream_writer_try_new _ := Ok [];
  stream_writer_write w b := Ok (w ++ [pair_of b]);
  stream_writer_finish w := Ok [Npos (encode w)];
  stream_reader_try_new := read_number;
|}.

Lemma write_all_pairs w (bs : list Batch) : write_all w bs = Ok (w ++ List.map pair_of bs).
Proof.
  revert w. induction bs as [|b bs IH]; intros w; cbn; [by rewrite app_nil_r|].
  etrans; [apply IH|]. by rewrite <- app_assoc.
Qed.

#[export] Instance ipc_stream_laws : IpcStreamLaws.
Proof.
  constructor.
  - intros s w bs w' bytes [= <-] Hw Hf _. rewrite write_all_pairs in Hw. injection Hw as <-.
    injection Hf as <-. cbn [stream_reader_try_new ipc_stream read_number app]. rewrite decode_encode.
    cbn. rewrite map_map. f_equal. apply map_ext. by intros [].
  - by eexists.
Qed.

Definition one_batch : Batch := {| RowArrow.b_schema := ["a"]; RowArrow.b_rows := [[1]; [2]] |}.

Lemma record_batches_roundtrip_witness :
  exists bytes, record_batches_serialize [one_batch] = Ok bytes /\
    record_batch_deserialize bytes = Ok one_batch.
Proof.
  eexists. split; [reflexivity|].
  apply (record_batches_roundtrip (batch_schema one_batch) [one_batch]); [by repeat constructor|reflexivity].
Defined.
End NumberedStream.
