(* ===== verification/Task.v ===== *)
(** * Tasks and workers (src/streaming/task_definition_2.rs, task_main_3.rs, worker_process.rs)

    A task definition holds the root operator of a task; a worker runs tasks by their id.  A
    running task loads a checkpoint and runs its operator in a loop, and shares the generations
    and input locations with it through an observable. *)

From S2P Require Import Prelude Arrow Partitioning Stream Generation FiberStream Barrier RemoteExchange RemoteSource Source Operators.

(** ** Task definitions *)

Record RemoteSourceOperator := mkRemoteSourceOperator { op_stream_ids : list string }.

Section definition.
Context `{Arrow}.

Abbreviation Spec := (OperatorSpec Batch RemoteExchangeOperator RemoteSourceOperator).

Record TaskDefinition2 := mkTaskDefinition { task_id : string; operator : OperatorDefinition Spec }.

Fixpoint get_exchange_outputs (operator : Spec) : list string :=
  match operator with
  | SpecRemoteExchangeOutput output => [output_stream_id output]
  | SpecNested _ operators _ => concat ((fun op => get_exchange_outputs (def_spec op)) <$> operators)
  | _ => []
  end.

Fixpoint get_exchange_inputs (operator : Spec) : list string :=
  match operator with
  | SpecRemoteExchangeInput input => op_stream_ids input
  | SpecNested _ operators _ => concat ((fun op => get_exchange_inputs (def_spec op)) <$> operators)
  | _ => []
  end.

(** [get_used_state_ids], of an operator with the given state id. *)
Fixpoint used_state_ids_of (state_id : string) (operator : Spec) : list string :=
  match operator with
  | SpecCountStar | SpecCountByKey _ => [state_id]
  | SpecNested _ operators _ =>
      concat ((fun op => used_state_ids_of (def_state_id op) (def_spec op)) <$> operators)
  | _ => []
  end.
Definition get_used_state_ids (operator : OperatorDefinition Spec) : list string :=
  used_state_ids_of (def_state_id operator) (def_spec operator).

Definition exchange_outputs (self : TaskDefinition2) : list string := get_exchange_outputs (def_spec (operator self)).
Definition exchange_inputs (self : TaskDefinition2) : list string := get_exchange_inputs (def_spec (operator self)).
Definition used_state_ids (self : TaskDefinition2) : list string := get_used_state_ids (operator self).
End definition.

(** ** The main loop of a task *)

Section main_loop.
Context {F B : Type}.

(** The operator: its [init], [load] and [run] without inputs; [run] may never return. *)
Context (op_init : option (list GenerationSpec) -> string -> act F DataFusionError ()).
Context (op_load : N -> act F DataFusionError ()).
Context (op_run : F -> F * Poll (res DataFusionError (streams B))).

(** Whether the payload of an [External] error is an [OutOfOrderGenerationsError]. *)
Context (is_out_of_order : string -> bool).

(** [last_checkpoint] of the operator. *)
Context (last_checkpoint : F -> res DataFusionError N).

(** The turns of the loop, with the result if it ended: an [External] error that is not out of
    order falls through the [match], and the loop goes on with the same checkpoint. *)
Fixpoint main_loop (fuel : nat) (function : F) (checkpoint : N)
    : F * option (res DataFusionError ()) :=
  match fuel with
  | O => (function, None)
  | Datatypes.S fuel =>
      match op_load checkpoint function with
      | (function, Ok _) =>
          match op_run function with
          | (function, Pending) => (function, None)
          | (function, Ready (Ok outputs)) =>
              (function, Some (if (length outputs =? 0)%nat then Ok tt
                               else Panic "assertion `left == right` failed"))
          | (function, Ready (Err (External external))) =>
              if is_out_of_order external then
                match last_checkpoint function with
                | Ok checkpoint => main_loop fuel function checkpoint
                | Err e => (function, Some (Err e))
                | Panic w => (function, Some (Panic w))
                end
              else main_loop fuel function checkpoint
          | (function, Ready (Err error)) => (function, Some (Err error))
          | (function, Ready (Panic w)) => (function, Some (Panic w))
          end
      | (function, r) => (function, Some r)
      end
  end.

Definition operator_main_loop (fuel : nat) (function : F) (generations : option (list GenerationSpec))
    (state_id : string) (initial_checkpoint : N) : F * option (res DataFusionError ()) :=
  match op_init generations state_id function with
  | (function, Ok _) => main_loop fuel function initial_checkpoint
  | (function, r) => (function, Some r)
  end.

(** A task whose operator fails with an external error never ends.  If loading the
    checkpoint works and running fails each time with an [External] error that is not an
    [OutOfOrderGenerationsError], the loop reloads the same checkpoint and runs again for ever,
    for any number of turns; with any other error it ends at once with that error. *)
Theorem external_error_retries_forever (Inv : F -> Prop) function generations state_id checkpoint function0 :
  op_init generations state_id function = (function0, Ok tt) -> Inv function0 ->
  (forall f, Inv f -> exists f', op_load checkpoint f = (f', Ok tt) /\ Inv f') ->
  ((forall f, Inv f -> exists f' payload, op_run f = (f', Ready (Err (External payload))) /\
      is_out_of_order payload = false /\ Inv f') ->
   forall fuel, snd (operator_main_loop fuel function generations state_id checkpoint) = None) /\
  ((forall f, Inv f -> exists f' e, op_run f = (f', Ready (Err e)) /\ forall payload, e <> External payload) ->
   exists e, forall fuel, snd (operator_main_loop (Datatypes.S fuel) function generations state_id checkpoint) = Some (Err e)).
Proof.
  intros Hinit H0 Hload. unfold operator_main_loop. rewrite Hinit. split.
  - intros Hrun fuel. clear Hinit. revert function0 H0. induction fuel as [|fuel IH]; intros f Hf; [done|].
    cbn [main_loop]. destruct (Hload f Hf) as (f1 & -> & Hf1).
    destruct (Hrun f1 Hf1) as (f2 & payload & -> & -> & Hf2). by apply IH.
  - intros Hrun. destruct (Hload function0 H0) as (f1 & Hl & Hf1).
    destruct (Hrun f1 Hf1) as (f2 & e & Hr & He). exists e. intros fuel. cbn [main_loop]. rewrite Hl, Hr.
    by destruct e as [| |payload| |]; [| |destruct (He payload)| |].
Qed.
End main_loop.

(** An operator whose run fails with an external error, a thousand turns in. *)
Lemma external_error_retries_forever_witness :
  snd (operator_main_loop (F := ()) (B := N) (fun _ _ self => (self, Ok tt)) (fun _ self => (self, Ok tt))
    (fun self => (self, Ready (Err (External "connection reset")))) (fun _ => false) (fun _ => Ok 0)
    1000 tt None "s" 0) = None.
Proof.
  apply (external_error_retries_forever (B := N) (fun _ _ self => (self, Ok tt)) (fun _ self => (self, Ok tt))
    (fun self => (self, Ready (Err (External "connection reset")))) (fun _ => false) (fun _ => Ok 0)
    (fun _ => True) tt None "s" 0 tt).
  - reflexivity.
  - exact I.
  - intros f _. by exists f.
  - intros f _. by exists f, "connection reset".
Defined.

(** ** Running tasks and their scheduling details *)

Section running.
Context `{Arrow}.

Abbreviation Details := (option (list GenerationSpec) * option (list GenerationInputDetail))%type.

(** [RunningTaskState] and the observable that the operator sees; the main loop runs apart. *)
Record RunningTask := mkRunningTask {
  rt_definition : TaskDefinition2;
  rt_checkpoint : N;
  rt_generations : list GenerationSpec;
  rt_input_locations : list GenerationInputDetail;
  rt_scheduling_details : Details;
  rt_cancelled : bool;
}.

Record InitialSchedulingDetails := mkInitial {
  generations : list GenerationSpec;
  input_locations : list GenerationInputDetail;
}.

Definition task_start (definition : TaskDefinition2) (initial_checkpoint : N)
    (initial_input_locations : list GenerationInputDetail) (gens : list GenerationSpec)
    : res DataFusionError RunningTask :=
  let op := operator definition in
  if (0 <? length (def_inputs op))%nat || (0 <? length (def_outputs op))%nat then
    Err (Internal "Task main doesn't support operators with inputs and outputs")
  else Ok (mkRunningTask definition initial_checkpoint gens initial_input_locations
             (Some gens, Some initial_input_locations) false).

Definition update_scheduling_details (self : RunningTask) (details : TaskSchedulingDetailsUpdate) : RunningTask :=
  mkRunningTask (rt_definition self) (rt_checkpoint self)
    (match generation details with Some g => rt_generations self ++ [g] | None => rt_generations self end)
    (default (rt_input_locations self) (input_details details))
    ((fun g => [g]) <$> generation details, input_details details)
    (rt_cancelled self).

Definition task_cancel (self : RunningTask) : RunningTask :=
  mkRunningTask (rt_definition self) (rt_checkpoint self) (rt_generations self) (rt_input_locations self)
    (rt_scheduling_details self) true.

(** *** Workers *)

Abbreviation running_tasks := (gmap string RunningTask).

(** [WorkerProcess::start_task_from]: the task is started before its id is looked up; a second
    task with the id is cancelled. *)
Definition start_task_from (self : running_tasks) (definition : TaskDefinition2)
    (initial : InitialSchedulingDetails) (checkpoint : N)
    : running_tasks * list RunningTask * res DataFusionError () :=
  match task_start definition checkpoint (input_locations initial) (generations initial) with
  | Ok running_task =>
      match self !! task_id definition with
      | Some _ => (self, [task_cancel running_task],
                   Err (Internal ("Task with ID " +:+ task_id definition +:+ " is already running")))
      | None => (<[task_id definition := running_task]> self, [], Ok tt)
      end
  | Err e => (self, [], Err e)
  | Panic w => (self, [], Panic w)
  end.

Definition start_task (self : running_tasks) (definition : TaskDefinition2) (initial : InitialSchedulingDetails)
    : running_tasks * list RunningTask * res DataFusionError () :=
  start_task_from self definition initial 0.

Definition update_input (self : running_tasks) (tid : string) (update : TaskSchedulingDetailsUpdate)
    : running_tasks * res DataFusionError () :=
  match self !! tid with
  | None => (self, Err (Internal ("No running task found with ID " +:+ tid)))
  | Some running_task => (<[tid := update_scheduling_details running_task update]> self, Ok tt)
  end.

Context `{Profile}.

(** An update of a running task replaces what its operator knows.  The task keeps every
    generation it was given, but the operator only sees those of the last update: after an
    update without a generation, or without input details, the next marker of every fiber
    fails, and after an update with a generation that has not started at a marker there is no
    generation for it, although an earlier one covers it. *)
Theorem update_forgets_details self tid task update shared marker :
  self !! tid = Some task ->
  exists task', update_input self tid update = (<[tid := task']> self, Ok tt) /\
    rt_generations task' = rt_generations task ++ option_list (generation update) /\
    match generation update, input_details update with
    | None, _ =>
        check_generation_and_addresses (rt_scheduling_details task') shared marker =
          Err (Internal "No initial generations were provided")
    | Some _, None =>
        check_generation_and_addresses (rt_scheduling_details task') shared marker =
          Err (Internal "No initial input_details were provided")
    | Some g, Some _ =>
        ~ started (stream_ids shared) marker g ->
        check_generation_and_addresses (rt_scheduling_details task') shared marker =
          Err (Execution "No generation found for the current marker")
    end.
Proof.
  intros Htask. exists (update_scheduling_details task update). unfold update_input. rewrite Htask.
  split; [done|]. destruct update as [[g|] [d|]]; cbn; rewrite ?app_nil_r; (split; [done|]); try done.
  intros Hg. unfold check_generation_and_addresses. cbn. unfold find_current_generation. cbn.
  rewrite <- generation_valid_started in Hg. by destruct (generation_valid (stream_ids shared) marker g).
Qed.
End running.

(** A running task whose inputs are moved: its next marker fails. *)
Lemma update_forgets_details_witness :
  let gen := mkGenerationSpec "g" PartitionRangeOps.empty [] in
  let task := mkRunningTask (H := RowArrow.arrow)
    (mkTaskDefinition (H := RowArrow.arrow) "t" (mkOpDef "t" "s" SpecIdentity [] [])) 0 [gen] [] (Some [gen], Some []) false in
  let update := mkTaskSchedulingDetailsUpdate None (Some []) in
  exists task', update_input (H := RowArrow.arrow) {[ "t" := task ]} "t" update = (<["t" := task']> {[ "t" := task ]}, Ok tt) /\
    rt_generations task' = [gen] ++ option_list (generation update) /\
    check_generation_and_addresses (H := true) (rt_scheduling_details task')
      (mkSharedFiberState ["x"] "g" PartitionRangeOps.empty []) 3 =
      Err (Internal "No initial generations were provided").
Proof.
  intros gen task update.
  apply (update_forgets_details (H := RowArrow.arrow) (H0 := true) {[ "t" := task ]} "t" task update
    (mkSharedFiberState ["x"] "g" PartitionRangeOps.empty []) 3).
  apply lookup_singleton_eq.
Defined.
