(* ===== verification/Pipeline.v ===== *)
(** * The job of the program (src/run.rs)

    [run] starts one task, a nested operator in which a source feeds a count by key whose
    output a remote exchange makes available to the reader of the job.  The file puts the
    models of these parts together, from the task definition to the data channel, and shows
    what the reader receives when the task runs from the beginning and when it is started again
    from a checkpoint.  It also has the two tasks of [get_tasks_inner]. *)

From S2P Require Import Prelude Arrow Partitioning Stream Generation FileSystem CheckpointStorage StateBackend KeyedState FiberStream Source Count CountStar CountByKey Operators Nested Channels RemoteExchange Task.
Import ExchangeChannelStore.

(** ** The count by key over markers and batches *)

Section counting.
Context {S B : Type} `{KeyedState S} `{Profile} `{SelectAll}.
Context (evaluate : string -> B -> res DataFusionError ColumnarValue).
Context (counts_batch : list N -> list N -> res DataFusionError B).
Context (iter : gmap N N -> list (N * N)).
Context `{KeyedStateView S, !KeyedStateLaws S, !SelectAllLaws}.
Context (iter_entries : forall m, iter m ≡ₚ map_to_list m).

Abbreviation process := (CountByKey.process evaluate counts_batch iter).
Abbreviation well_typed := (CountByKey.well_typed evaluate).
Abbreviation ready := (CountByKey.ready (S := S)).

Definition batch_of (i : StreamItem B) : option B :=
  match i with SIRecordBatch b => Some b | SIMarker _ => None end.

(** The keys of the batches of a stream. *)
Definition keys_of (key : string) (l : list (StreamItem B)) : list N :=
  all_keys evaluate key (omap batch_of l).

Definition marker_items (cs : list N) : list (StreamItem B) := SIMarker ∘ mkMarker <$> cs.

(** The items of a stream as the closure of the operator sees them. *)
Definition inputs (l : list (StreamItem B)) : list (res DataFusionError (option (SItem B))) :=
  (fun i => Ok (Some (sitem_of_stream_item i))) <$> l.

Lemma keys_of_app key l k : keys_of key (l ++ k) = keys_of key l ++ keys_of key k.
Proof. unfold keys_of, all_keys. by rewrite omap_app, fmap_app, concat_app. Qed.

Lemma inputs_app l k : inputs (l ++ k) = inputs l ++ inputs k.
Proof. apply fmap_app. Qed.

(** What a checkpoint taken at a marker of [l] has to hold: the counts of the items before it. *)
Definition consistent (st : S) (key : string) (counts : gmap N N) (l : list (StreamItem B)) : Prop :=
  forall l1 c l2, l = l1 ++ SIMarker (mkMarker c) :: l2 ->
  forall m, ks_saved st c m -> m = encode (tally counts (keys_of key l1)).

(** Every marker of [l] has its checkpoint. *)
Definition complete (st : S) (key : string) (counts : gmap N N) (l : list (StreamItem B)) : Prop :=
  forall l1 c l2, l = l1 ++ SIMarker (mkMarker c) :: l2 ->
  ks_saved st c (encode (tally counts (keys_of key l1))).

Lemma consistent_cons st key counts i l :
  consistent st key counts (i :: l) -> consistent st key (tally counts (keys_of key [i])) l.
Proof.
  intros Hc l1 c l2 -> m Hm. rewrite <- tally_app, <- keys_of_app. exact (Hc (i :: l1) c l2 eq_refl m Hm).
Qed.

(** The operator counts every batch, passes every marker on, and saves the counts at it. *)
Lemma feed_items l self st range :
  ready self st range -> Forall (well_typed (key_col self)) (omap batch_of l) ->
  countable (local_counts self) (keys_of (key_col self) l) -> NoDup (omap marker_of l) ->
  consistent st (key_col self) (local_counts self) l ->
  exists st', feed process (inputs l) self =
      (with_counts (with_state self st') (tally (local_counts self) (keys_of (key_col self) l)),
       Ok ∘ sitem_of_stream_item <$> marker_items (omap marker_of l)) /\
    ks_inv st' /\ keeps_saved st st' /\ complete st' (key_col self) (local_counts self) l /\
    (forall c m, c ∉ omap marker_of l -> ks_saved st' c m -> ks_saved st c m).
Proof.
  revert self st. induction l as [|[[c]|b] l IH]; intros self st Hready Hty Hc Hnd Hcon.
  - destruct self as [key ? counts ?], Hready as (Hs & _ & Hinv & _). cbn in Hs. subst.
    exists st. split; [done|]. split; [done|]. split; [by intros ???|]. split; [|done].
    intros l1 c l2 Heq. by destruct l1.
  - change (omap marker_of (SIMarker (mkMarker c) :: l)) with (c :: omap marker_of l) in *.
    apply NoDup_cons in Hnd as [Hnotin Hnd].
    destruct (key_process_marker evaluate counts_batch iter iter_entries self st range c Hready)
      as (st1 & Hp & Hi1 & He1 & Hs1 & Hk1 & Hback).
    { intros m Hm. exact (Hcon [] c l eq_refl m Hm). }
    destruct (IH (with_state self st1) st1) as (st2 & Hf & Hi2 & Hk2 & Hcomp & Hback2).
    { destruct Hready as (_ & Hr & _ & Hu & _). split; [done|]. split; [done|]. split; [done|].
      split; [done|]. by rewrite He1. }
    { done. }
    { done. }
    { done. }
    { intros l1 c' l2 -> m Hm. apply (Hcon (SIMarker (mkMarker c) :: l1) c' l2 eq_refl).
      apply Hback; [|done]. intros ->. apply Hnotin. rewrite omap_app. cbn. set_solver. }
    exists st2. split; [|split; [done|split; [by intros ???; apply Hk2, Hk1|split]]].
    + cbn [inputs fmap list_fmap feed sitem_of_stream_item]. rewrite Hp. fold (inputs l).
      by rewrite Hf.
    + intros [|i l1] c' l2 Heq; injection Heq.
      * intros _ ->. by apply Hk2.
      * intros -> <-. by apply (Hcomp l1 c' l2).
    + intros c' m Hin Hm. cbn in Hin. apply Hback; [set_solver|]. apply Hback2; [set_solver|done].
  - cbn in Hty, Hnd. apply Forall_cons in Hty as [Hb Hty].
    change (SIRecordBatch b :: l) with ([SIRecordBatch b] ++ l) in Hc at 1. rewrite keys_of_app in Hc.
    apply countable_app in Hc as [Hcb Hc].
    assert (keys_of (key_col self) [SIRecordBatch b] = keys evaluate (key_col self) b) as Hkeys
      by apply app_nil_r.
    destruct (IH (with_counts self (tally (local_counts self) (keys evaluate (key_col self) b))) st)
      as (st' & Hf & Hi & Hk & Hcomp & Hback).
    { destruct Hready as (Hs & Hr & Hi & Hu & Hd). split; [done|]. split; [done|]. split; [done|].
      rewrite Hkeys in Hcb. split; [by apply tally_u64|]. etrans; [exact Hd|]. apply encode_tally_dom. }
    { done. }
    { by rewrite Hkeys in Hc. }
    { done. }
    { apply consistent_cons in Hcon. by rewrite Hkeys in Hcon. }
    exists st'. split; [|split; [done|split; [done|split; [|done]]]].
    + cbn [inputs fmap list_fmap feed sitem_of_stream_item]. unfold CountByKey.process at 1.
      rewrite Hkeys in Hcb. erewrite act_bind_Ok by (by apply update_counts). cbn [perform].
      fold (inputs l). rewrite Hf. cbn [with_counts with_state local_counts key_col].
      rewrite <- tally_app, <- Hkeys, <- keys_of_app. done.
    + intros [|i l1] c' l2 Heq; injection Heq; [done|]. intros -> <-.
      pose proof (Hcomp l1 c' l2 eq_refl) as Hs. cbn [local_counts with_counts key_col] in Hs.
      by rewrite <- Hkeys, <- tally_app, <- keys_of_app in Hs.
Qed.

Lemma process_end self total :
  counts_batch (iter (local_counts self)).*1 (iter (local_counts self)).*2 = Ok total ->
  process None self = (self, Ok (Some (SRecordBatch total))).
Proof.
  intros Ht. unfold CountByKey.process. cbn [action]. unfold mbind at 1, act_bind at 1. cbn.
  by rewrite Ht.
Qed.

(** All of the operator's output: the markers, and at the end the batch of the counts. *)
Lemma count_run l self st range total :
  let final := tally (local_counts self) (keys_of (key_col self) l) in
  ready self st range -> Forall (well_typed (key_col self)) (omap batch_of l) ->
  countable (local_counts self) (keys_of (key_col self) l) -> NoDup (omap marker_of l) ->
  consistent st (key_col self) (local_counts self) l ->
  counts_batch (iter final).*1 (iter final).*2 = Ok total ->
  exists self' st',
    CountByKey.run evaluate counts_batch iter self [(0, single (emitted l))] =
      Ok (self', [(0, single (emitted (marker_items (omap marker_of l) ++ [SIRecordBatch total])))]) /\
    state self' = Some st' /\ complete st' (key_col self) (local_counts self) l.
Proof.
  intros final Hready Hty Hc Hnd Hcon Htotal.
  destruct (feed_items l self st range Hready Hty Hc Hnd Hcon) as (st' & Hf & _ & _ & Hcomp & _).
  exists (with_counts (with_state self st') final), st'. split; [|done].
  destruct Hready as (Hs & _). unfold CountByKey.run. cbn [last ok_or mbind res_bind].
  rewrite Hs. cbn [ok_or].
  assert (with_end (combined (single (emitted l))) = inputs l ++ [Ok None]) as ->.
  { unfold single, with_end, emitted, inputs. by rewrite combined_single, <- list_fmap_compose. }
  erewrite feed_app; [|exact Hf|].
  - cbn [feed]. erewrite process_end by exact Htotal. cbn.
    do 4 f_equal. unfold emitted. by rewrite fmap_app.
  - apply Forall_fmap, Forall_forall. by intros.
Qed.
End counting.

(** ** The tasks of run.rs *)

Section job.
Context {S : Type} `{Arrow} `{KeyedState S} `{Profile} `{SelectAll}.

(** The schema without columns. *)
Context (empty_schema : Schema).

(** [infinite_stream_tasks], for any source and key column. *)
Definition counting_task (source : SourceOperator) (key_col : string) : TaskDefinition2 :=
  mkTaskDefinition "task1" (mkOpDef "nested1" "1"
    (SpecNested []
      [mkOpDef "source1" "2" (SpecSource source) [] [mkOpOutput "output1" 0];
       mkOpDef "count1" "4" (SpecCountByKey key_col) [mkOpInput "output1" 0] [mkOpOutput "output2" 0];
       mkOpDef "exchange1" "3" (SpecRemoteExchangeOutput (exchange_new empty_schema "exchange_output1"))
         [mkOpInput "output2" 0] []]
      [])
    [] []).

(** [test_batch] has the column [a] of the values 1, 2, 3, 1, 2, 1. *)
Definition infinite_stream_tasks (test_batch : Batch) : list TaskDefinition2 :=
  [counting_task
     (new_with_iterations
        [SIMarker (mkMarker 1); SIRecordBatch test_batch; SIMarker (mkMarker 2)] 10)
     "a"].

Definition get_tasks_inner (test_batch : Batch) : list TaskDefinition2 :=
  [mkTaskDefinition "task1" (mkOpDef "nested1" "1"
     (SpecNested []
       [mkOpDef "source1" "2" (SpecSource (source_new [test_batch])) [] [mkOpOutput "output1" 0];
        mkOpDef "exchange1" "3" (SpecRemoteExchangeOutput (exchange_new empty_schema "exchange_output1"))
          [mkOpInput "output1" 0] []]
       [])
     [] []);
   mkTaskDefinition "task2" (mkOpDef "nested2" "4"
     (SpecNested []
       [mkOpDef "exchange2" "5" (SpecRemoteExchangeInput (mkRemoteSourceOperator ["exchange_output1"]))
          [] [mkOpOutput "output2" 0];
        mkOpDef "exchange3" "6" (SpecRemoteExchangeOutput (exchange_new empty_schema "exchange_output2"))
          [mkOpInput "output2" 0] []]
       [])
     [] [])].

(** ** Running a task *)

(** A remote exchange with the channel store of its worker. *)
Abbreviation Exchange := (RemoteExchangeOperatorFunction * ExchangeChannelStore.t)%type.

#[export] Instance exchange_function : OperatorFunction2 Exchange Batch := {|
  op_init generations _ self :=
    match exchange_init self.1 generations self.2 with
    | (store, Ok function) => ((function, store), Ok tt)
    | (store, Err e) => ((self.1, store), Err e)
    | (store, Panic w) => ((self.1, store), Panic w)
    end;
  op_load _ self := (self, Ok tt);
  op_run inputs self :=
    let '(store, function, r) := exchange_run self.1 inputs self.2 in ((function, store), r);
|}.

(** The operator of a remote source, which the job of [run] does not use. *)
Context {In : Type} `{OperatorFunction2 In Batch} (create_in : RemoteSourceOperator -> In).

Context (open_new : string -> PartitionRange -> res DataFusionError S).
Context (num_rows : Batch -> N) (count_batch : N -> res DataFusionError Batch).
Context (evaluate : string -> Batch -> res DataFusionError ColumnarValue).
Context (counts_batch : list N -> list N -> res DataFusionError Batch).
Context (iter : gmap N N -> list (N * N)).
Context (is_out_of_order : string -> bool).

Abbreviation Function := (OperatorFn S Batch RemoteExchangeOperator RemoteSourceOperator Exchange In).

(** The main loop of a task that a worker with this channel store starts from a checkpoint. *)
Definition run_task (fuel : nat) (store : ExchangeChannelStore.t) (task : TaskDefinition2)
    (generations : list GenerationSpec) (checkpoint : N) : Function * option (res DataFusionError ()) :=
  operator_main_loop
    (fn_init open_new num_rows count_batch evaluate counts_batch iter)
    (fn_load open_new num_rows count_batch evaluate counts_batch iter)
    (fun f => fn_run open_new num_rows count_batch evaluate counts_batch iter f [])
    is_out_of_order fn_last_checkpoint fuel
    (spec_create (fun op => (exchange_create op, store)) create_in (def_spec (operator task)))
    (Some generations) (def_state_id (operator task)) checkpoint.

(** *** What the job leaves behind *)

(** The channel that the reader of the job is given. *)
Definition job_channel (f : Function) : option (DataChannelState Batch) :=
  match f with
  | FNested _ [_; _; (_, FRemoteOutput (_, store))] _ =>
      output ← channels store !! "exchange_output1"; heap store !! channel output
  | _ => None
  end.

(** The state backend of the count. *)
Definition job_state (f : Function) : option S :=
  match f with
  | FNested _ [_; (_, FCountByKey function); _] _ => state function
  | _ => None
  end.

Abbreviation run_fn := (fn_run open_new num_rows count_batch evaluate counts_batch iter
  (Out := RemoteExchangeOperator) (In := RemoteSourceOperator) (FOut := Exchange) (FIn := In)).

Lemma run_operator_ok {Spec F T} (t : task (Spec := Spec) (F := F) (T := T)) st st1 ins self outs st2 :
  take_all (input_ids (t_def t)) st = (st1, Ok (Some ins)) -> t_run t ins = (self, Ready (Ok outs)) ->
  register (output_ids (t_def t)) outs st1 = (st2, Ok tt) ->
  run_operator t st = (st2, (self, Ready (Ok tt))).
Proof. intros Ht Hr Hreg. unfold run_operator. rewrite Ht. unfold temp. by rewrite Hr, Hreg. Qed.

(** The three operators of the task pass their streams on. *)
Lemma run_chain source key_col f1 f1' f2 f2' f3 f3' s1 s2 :
  run_fn f1 [] = (f1', Ready (Ok [(0, s1)])) ->
  run_fn f2 [(0, s1)] = (f2', Ready (Ok [(0, s2)])) ->
  run_fn f3 [(0, s2)] = (f3', Ready (Ok [])) ->
  match def_spec (operator (counting_task source key_col)) with
  | SpecNested ins [d1; d2; d3] outs =>
      run_fn (FNested ins [(d1, f1); (d2, f2); (d3, f3)] outs) [] =
        (FNested ins [(d1, f1'); (d2, f2'); (d3, f3')] outs, Ready (Ok []))
  | _ => False
  end.
Proof.
  intros Hf1 Hf2 Hf3. cbn [counting_task operator def_spec fn_run fmap list_fmap].
  unfold run_all_operators. cbn [fmap list_fmap t_self add_inputs for_each mret act_ret].
  cbn [poll_operators].
  erewrite run_operator_ok; [|reflexivity|exact Hf1|vm_compute; reflexivity].
  erewrite run_operator_ok; [|vm_compute; reflexivity|exact Hf2|vm_compute; reflexivity].
  erewrite run_operator_ok; [|vm_compute; reflexivity|exact Hf3|vm_compute; reflexivity].
  reflexivity.
Qed.

(** ** What the job delivers *)

Context `{KeyedStateView S, !KeyedStateLaws S, !SelectAllLaws}.
Context (iter_entries : forall m, iter m ≡ₚ map_to_list m).

(** The output of the job: the markers, and at the end the counts. *)
Definition job_output (cs : list N) (total : Batch) : list (StreamItem Batch) :=
  marker_items cs ++ [SIRecordBatch total].

(** A channel that has received the items and then its end, in the order of the channel's own steps. *)
Definition finished (ch : DataChannelState Batch) (delivered : list (StreamItem Batch)) : Prop :=
  data ch = delivered /\ (exists lc, status ch = Cancelled lc (length delivered)) /\
  exists c, reachable (exchange_script delivered) c /\ Channels.st c = ch /\ script c = [] /\ out c = [].

Abbreviation key_keys := (keys_of evaluate).
Abbreviation counter := (CountByKey.mkCount (S := S)).

Lemma init_job store source key gen gens st :
  open_new "4-count-star" (gen_partitions gen) = Ok st ->
  fn_init open_new num_rows count_batch evaluate counts_batch iter (Some (gen :: gens)) "1"
    (spec_create (fun op => (exchange_create op, store)) create_in
      (def_spec (operator (counting_task source key)))) =
  (match def_spec (operator (counting_task source key)) with
   | SpecNested ins [d1; d2; d3] outs =>
       FNested ins
         [(d1, FSource (create_operator_function source));
          (d2, FCountByKey (counter key (Some st) ∅ (Some (gen_partitions gen))));
          (d3, FRemoteOutput (mkExchangeFn "exchange_output1" None (Some (length (heap store), sender_new)),
                 snd (create store "exchange_output1" None)))] outs
   | _ => FIdentity mkIdentity
   end, Ok tt).
Proof.
  intros Hopen. cbn -[channel_create]. unfold CountByKey.init. cbn -[channel_create].
  change ("4" +:+ "-count-star") with "4-count-star". rewrite Hopen. reflexivity.
Qed.

Lemma load_job ins outs d1 d2 d3 src src' cnt cnt' ex c :
  Source.load src c = Ok src' -> CountByKey.load cnt c = (cnt', Ok tt) ->
  fn_load open_new num_rows count_batch evaluate counts_batch iter c
    (FNested ins [(d1, FSource src); (d2, FCountByKey cnt); (d3, FRemoteOutput ex)] outs : Function) =
  (FNested ins [(d1, FSource src'); (d2, FCountByKey cnt'); (d3, FRemoteOutput ex)] outs, Ok tt).
Proof. intros Hs Hc. cbn. rewrite Hs, Hc. reflexivity. Qed.

Lemma fn_run_source src outs :
  Source.run src 0 = Ok outs -> run_fn (FSource src) [] = (FSource src, Ready (Ok [(0, single outs)])).
Proof.
  intros Hr. cbn [fn_run]. unfold ready_run, op_run, source_function. cbn [length]. by rewrite Hr.
Qed.

Lemma fn_run_count cnt cnt' ins outs :
  CountByKey.run evaluate counts_batch iter cnt ins = Ok (cnt', outs) ->
  run_fn (FCountByKey cnt) ins = (FCountByKey cnt', Ready (Ok outs)).
Proof.
  intros Hr. cbn [fn_run]. unfold ready_run, op_run, count_by_key_function. by rewrite Hr.
Qed.

Lemma fn_run_exchange ex store ins store' ex' outs :
  exchange_run ex ins store = (store', ex', Ok outs) ->
  run_fn (FRemoteOutput (ex, store)) ins = (FRemoteOutput (ex', store'), Ready (Ok outs)).
Proof.
  intros Hr. cbn [fn_run]. unfold ready_run, op_run, exchange_function. cbn [fst snd]. by rewrite Hr.
Qed.

(** The job from a checkpoint [c], when loading it leaves [counts] and the source at [l]. *)
Lemma task_delivers fuel store source key gens gen c st l src st1 counts total :
  let range := gen_partitions gen in
  let final := tally counts (key_keys key l) in
  open_new "4-count-star" range = Ok st ->
  Source.load (create_operator_function source) c = Ok src -> Source.run src 0 = Ok (emitted l) ->
  CountByKey.load (counter key (Some st) ∅ (Some range)) c =
    (counter key (Some st1) counts (Some range), Ok tt) ->
  CountByKey.ready (counter key (Some st1) counts (Some range)) st1 range ->
  Forall (CountByKey.well_typed evaluate key) (omap batch_of l) -> countable counts (key_keys key l) ->
  NoDup (omap marker_of l) -> consistent evaluate st1 key counts l ->
  counts_batch (iter final).*1 (iter final).*2 = Ok total ->
  exists f ch st', run_task (Datatypes.S fuel) store (counting_task source key) (gen :: gens) c = (f, Some (Ok tt)) /\
    job_channel f = Some ch /\ finished ch (job_output (omap marker_of l) total) /\
    job_state f = Some st' /\ complete evaluate st' key counts l.
Proof.
  intros range final Hopen Hload Hrun Hcload Hready Hty Hc Hnd Hcon Htotal.
  destruct (count_run evaluate counts_batch iter iter_entries l _ st1 range total Hready Hty Hc Hnd Hcon Htotal)
    as (cnt' & st' & Hcnt & Hst' & Hcomp).
  set (store1 := snd (create store "exchange_output1" None)).
  set (ex := mkExchangeFn "exchange_output1" None (Some (length (heap store), sender_new))).
  destruct (exchange_run_writes ex store1 (length (heap store)) (job_output (omap marker_of l) total) 0)
    as (ch & lc & Hex & Hd & Hs & Hr).
  { done. }
  { subst store1. cbn. by rewrite lookup_app_r, Nat.sub_diag by lia. }
  unfold run_task, operator_main_loop.
  change (def_state_id (operator (counting_task source key))) with "1".
  rewrite (init_job store source key gen gens st Hopen). cbn [counting_task operator def_spec main_loop].
  erewrite load_job by eassumption.
  erewrite (run_chain source key _ (FSource src) _ (FCountByKey cnt') _
    (FRemoteOutput (with_data_channel ex None, mkStore (<[length (heap store) := ch]> (heap store1)) (channels store1)))
    (single (emitted l)) (single (emitted (job_output (omap marker_of l) total)))).
  - eexists _, ch, st'. split; [reflexivity|]. split; [|split; [|done]].
    + assert (channels store1 !! "exchange_output1" = Some (mkOutput (length (heap store)) None)) as Hch
        by apply lookup_insert_eq.
      cbn [job_channel heap channels]. rewrite Hch. cbn [mbind option_bind channel].
      apply list_lookup_insert_eq. subst store1. cbn. rewrite length_app. cbn. lia.
    + split; [done|]. split; [by exists lc|done].
  - by apply fn_run_source.
  - by eapply fn_run_count.
  - eapply fn_run_exchange. exact Hex.
Qed.

(** *** A run from the beginning *)

Lemma occurrences_concat k (ls : list (list N)) : occurrences k (concat ls) = sumN (occurrences k <$> ls).
Proof. induction ls as [|l ls IH]; cbn; [done|]. by rewrite occurrences_app, IH. Qed.

Lemma omap_batch_shift n (l : list (StreamItem Batch)) : omap batch_of (shift n <$> l) = omap batch_of l.
Proof. induction l as [|[m|b] l IH]; cbn; [done|done|by f_equal]. Qed.

(** A repetition has the batches of the items. *)
Lemma repetitions_batches (l : list (StreamItem Batch)) mx from n (b : Batch) :
  b ∈ omap batch_of (repetitions l mx from n) -> b ∈ omap batch_of l.
Proof.
  unfold repetitions. revert from. induction n as [|n IH]; intros from; cbn [seq fmap list_fmap concat].
  { by intros ?%elem_of_nil. }
  rewrite omap_app, omap_batch_shift, elem_of_app. intros [?|Hin]; [done|by eapply IH].
Qed.

Lemma repetitions_occurrences key l mx from n k :
  occurrences k (key_keys key (repetitions l mx from n)) = N.of_nat n * occurrences k (key_keys key l).
Proof.
  unfold repetitions. revert from. induction n as [|n IH]; intros from; [done|].
  cbn [seq fmap list_fmap concat]. rewrite keys_of_app, occurrences_app.
  replace (key_keys key (shift (N.of_nat from * mx) <$> l)) with (key_keys key l)
    by (unfold keys_of; by rewrite omap_batch_shift).
  unfold fmap in IH. rewrite IH. lia.
Qed.

Lemma seq_NoDup_N n m : NoDup (N.of_nat <$> seq n m).
Proof. apply NoDup_fmap_2; [intros ??; lia|apply NoDup_seq]. Qed.

(** The assumptions on a job: its source has the markers [1..mx], the batches have a u64 key
    column, and no count overflows. *)
Definition job_ok (items : list (StreamItem Batch)) (mx iters : nat) (key : string) : Prop :=
  (0 < mx)%nat /\ numbered items mx /\ (0 < iters)%nat /\ fits (N.of_nat iters * (N.of_nat mx + 1)) /\
  Forall (CountByKey.well_typed evaluate key) (omap batch_of items) /\
  countable ∅ (key_keys key (repetitions items (N.of_nat mx) 0 iters)).

Lemma job_items items mx iters key :
  job_ok items mx iters key ->
  let l := repetitions items (N.of_nat mx) 0 iters in
  omap marker_of l = N.of_nat <$> seq 1 (iters * mx) /\ NoDup (omap marker_of l) /\
  Forall (CountByKey.well_typed evaluate key) (omap batch_of l).
Proof.
  intros (_ & Hn & _ & _ & Hty & _) l.
  assert (omap marker_of l = N.of_nat <$> seq 1 (iters * mx)) as Hm by by apply repetitions_markers.
  split; [done|]. split; [rewrite Hm; apply seq_NoDup_N|].
  rewrite Forall_forall in Hty |- *. intros b Hb%repetitions_batches. by apply Hty.
Qed.

(** A backend without entries and checkpoints. *)
Definition fresh_state (st : S) : Prop := ks_inv st /\ ks_entries st = ∅ /\ forall c m, ~ ks_saved st c m.

Lemma fresh_ready st key range :
  fresh_state st -> CountByKey.ready (counter key (Some st) ∅ (Some range)) st range.
Proof.
  intros (Hi & He & _). split; [done|]. split; [done|]. split; [done|].
  split; [apply map_Forall_empty|]. rewrite He. set_solver.
Qed.

(** C8: the job of [run] delivers its result.  Started from the beginning on an empty state, the
    task with a source of [iters] repetitions, whose markers are [1..mx], ends without an
    error in the first turn of its main loop, for every fuel.  Its channel then holds the
    markers [1 .. iters * mx] and one batch, of the counts of every key: [iters] times its
    occurrences in the items of the source.  A checkpoint has been saved at every marker, with
    the counts of the batches before it. *)
Theorem counting_job_delivers items mx iters key gens gen st store total :
  let l := repetitions items (N.of_nat mx) 0 iters in
  let final := tally ∅ (key_keys key l) in
  job_ok items mx iters key ->
  open_new "4-count-star" (gen_partitions gen) = Ok st -> fresh_state st ->
  counts_batch (iter final).*1 (iter final).*2 = Ok total ->
  forall fuel, exists f ch st',
    run_task (Datatypes.S fuel) store (counting_task (new_with_iterations items (N.of_nat iters)) key)
      (gen :: gens) 0 = (f, Some (Ok tt)) /\
    job_channel f = Some ch /\ finished ch (job_output (N.of_nat <$> seq 1 (iters * mx)) total) /\
    (forall k, default 0 (final !! k) = N.of_nat iters * occurrences k (key_keys key items)) /\
    job_state f = Some st' /\ complete evaluate st' key ∅ l.
Proof.
  intros l final Hok Hopen Hfresh Htotal fuel.
  destruct (job_items _ _ _ _ Hok) as (Hm & Hnd & Hty). fold l in Hm, Hnd, Hty.
  destruct Hok as (Hmx & Hn & Hit & Hfit & _ & Hc).
  destruct (task_delivers fuel store (new_with_iterations items (N.of_nat iters)) key gens gen 0 st l
    (create_operator_function (new_with_iterations items (N.of_nat iters))) st ∅ total)
    as (f & ch & st' & Hrun & Hch & Hfin & Hst & Hcomp).
  - done.
  - done.
  - by apply run_repetitions.
  - done.
  - by apply fresh_ready.
  - done.
  - done.
  - done.
  - destruct Hfresh as (_ & _ & Hno). intros l1 c l2 _ m Hs. by destruct (Hno c m).
  - done.
  - exists f, ch, st'. rewrite Hm in Hfin. repeat (split; [done|]). split; [|done].
    intros k. unfold final. by rewrite tally_lookup, lookup_empty, <- repetitions_occurrences with (mx := N.of_nat mx) (from := 0%nat).
Qed.

(** *** A restart from a checkpoint *)

Lemma marker_split_unique l1 l2 k1 k2 c :
  NoDup (omap marker_of (l1 ++ SIMarker (mkMarker c) :: l2 : list (StreamItem Batch))) ->
  l1 ++ SIMarker (mkMarker c) :: l2 = k1 ++ SIMarker (mkMarker c) :: k2 -> l1 = k1.
Proof.
  revert k1. induction l1 as [|i l1 IH]; intros [|j k1] Hnd Heq; [done|..]; injection Heq.
  - intros -> <-. change (NoDup (c :: omap marker_of (k1 ++ SIMarker (mkMarker c) :: k2))) in Hnd.
    apply NoDup_cons in Hnd as [Hnot _]. destruct Hnot. rewrite omap_app. cbn. set_solver.
  - intros <- ->. change (NoDup (c :: omap marker_of (l1 ++ SIMarker (mkMarker c) :: l2))) in Hnd.
    apply NoDup_cons in Hnd as [Hnot _]. destruct Hnot. rewrite omap_app. cbn. set_solver.
  - intros Heq' ->. f_equal. apply IH; [|done]. destruct j as [m|b]; [|done].
    by apply (NoDup_cons (checkpoint_number m)) in Hnd as [_ ?].
Qed.

Lemma marker_at c (l : list (StreamItem Batch)) :
  c ∈ omap marker_of l -> exists l1 l2, l = l1 ++ SIMarker (mkMarker c) :: l2.
Proof.
  intros [i Hi]%find_marker_in. apply find_marker_spec in Hi as (l1 & l2 & -> & _). by exists l1, l2.
Qed.

(** What the checkpoints of an interrupted run hold, seen from the whole stream. *)
Lemma interrupted_saved st0 st1 key seen rest :
  fresh_state st0 -> NoDup (omap marker_of (seen ++ rest)) -> complete evaluate st1 key ∅ seen ->
  (forall c m, c ∉ omap marker_of seen -> ks_saved st1 c m -> ks_saved st0 c m) ->
  consistent evaluate st1 key ∅ (seen ++ rest).
Proof.
  intros (_ & _ & Hno) Hnd Hcomp Hback l1 c l2 Heq m Hm.
  destruct (decide (c ∈ omap marker_of seen)) as [Hin|Hout]; [|destruct (Hno c m); by apply Hback].
  destruct (marker_at _ _ Hin) as (k1 & k2 & Hseen).
  assert (l1 = k1) as ->.
  { apply (marker_split_unique l1 l2 k1 (k2 ++ rest) c); [by rewrite <- Heq|].
    rewrite <- Heq, Hseen, <- (assoc_L (++)). done. }
  exact (ks_saved_inj st1 c _ _ Hm (Hcomp _ _ _ Hseen)).
Qed.

Lemma consistent_suffix st key before l :
  consistent evaluate st key ∅ (before ++ l) -> consistent evaluate st key (tally ∅ (key_keys key before)) l.
Proof.
  intros Hc l1 c l2 -> m Hm. rewrite <- tally_app, <- keys_of_app.
  apply (Hc (before ++ l1) c l2); [by rewrite (assoc_L (++))|done].
Qed.

Lemma seq_from (n c : nat) : (1 <= c <= n)%nat ->
  (N.of_nat <$> seq 1 n) = (N.of_nat <$> seq 1 (c - 1)) ++ (N.of_nat <$> seq c (n + 1 - c)).
Proof.
  intros Hc. rewrite <- fmap_app. f_equal. replace n with (c - 1 + (n + 1 - c))%nat at 1 by lia.
  rewrite seq_app. do 2 f_equal. lia.
Qed.

(** Two ways to split a list at the first occurrence of the same element. *)
Lemma split_unique {A} (x : A) l1 l2 k1 k2 :
  l1 ++ x :: l2 = k1 ++ x :: k2 -> x ∉ l1 -> x ∉ k1 -> l1 = k1.
Proof.
  revert k1. induction l1 as [|y l1 IH]; intros [|z k1] Heq Hl Hk; [done|..]; injection Heq.
  - intros _ <-. destruct Hk. left.
  - intros _ ->. destruct Hl. left.
  - intros Heq' ->. f_equal. apply IH; [done|by intros ?; apply Hl; right|by intros ?; apply Hk; right].
Qed.

Lemma split_markers before after c n :
  omap marker_of (before ++ SIMarker (mkMarker (N.of_nat c)) :: after : list (StreamItem Batch)) = N.of_nat <$> seq 1 n ->
  N.of_nat c ∉ omap marker_of before -> (1 <= c <= n)%nat ->
  omap marker_of (SIMarker (mkMarker (N.of_nat c)) :: after) = N.of_nat <$> seq c (n + 1 - c).
Proof.
  intros Heq Hnot Hc. rewrite omap_app, (seq_from n c Hc) in Heq.
  assert (omap marker_of before = N.of_nat <$> seq 1 (c - 1)) as Hb; [|by rewrite Hb in Heq; apply app_inv_head in Heq].
  replace (n + 1 - c)%nat with (Datatypes.S (n - c)) in Heq by lia.
  cbn [seq fmap list_fmap] in Heq.
  change (omap marker_of (SIMarker (mkMarker (N.of_nat c)) :: after)) with (N.of_nat c :: omap marker_of after) in Heq.
  assert (N.of_nat c ∉ N.of_nat <$> seq 1 (c - 1)) as Hn2.
  { intros (k & Hk & Hin%elem_of_seq)%list_elem_of_fmap. lia. }
  by eapply split_unique.
Qed.

(** A run up to anywhere passes the markers on that it has seen, and leaves their checkpoints. *)
Lemma interrupted_run st0 key range seen rest :
  fresh_state st0 -> Forall (CountByKey.well_typed evaluate key) (omap batch_of (seen ++ rest)) ->
  countable ∅ (key_keys key (seen ++ rest)) -> NoDup (omap marker_of (seen ++ rest)) ->
  exists crashed st1,
    feed (CountByKey.process evaluate counts_batch iter) (inputs seen) (counter key (Some st0) ∅ (Some range)) =
      (crashed, emitted (marker_items (omap marker_of seen))) /\
    state crashed = Some st1 /\ ks_inv st1 /\ complete evaluate st1 key ∅ seen /\
    consistent evaluate st1 key ∅ (seen ++ rest).
Proof.
  intros Hfresh Hty Hcnt Hnd.
  destruct (feed_items evaluate counts_batch iter iter_entries seen
    (counter key (Some st0) ∅ (Some range)) st0 range (fresh_ready st0 key range Hfresh))
    as (st1 & Hf & Hi & _ & Hcomp & Hback); cbn [key_col local_counts].
  - rewrite omap_app in Hty. by apply Forall_app in Hty as [? _].
  - rewrite keys_of_app in Hcnt. by apply countable_app in Hcnt as [? _].
  - rewrite omap_app in Hnd. by apply NoDup_app in Hnd as (? & _).
  - destruct Hfresh as (_ & _ & Hno). intros l1 c' l2 _ m Hs. by destruct (Hno c' m).
  - eexists _, st1. split; [exact Hf|]. split; [done|]. split; [done|]. split; [done|].
    by apply (interrupted_saved st0).
Qed.

(** Starting again where the source goes on with [tail], after what was counted of [before]. *)
Lemma restart_delivers fuel store source key gens gen c st src before tail total :
  let final := tally ∅ (key_keys key (before ++ tail)) in
  open_new "4-count-star" (gen_partitions gen) = Ok st -> ks_inv st -> 0 < c ->
  ks_saved st c (encode (tally ∅ (key_keys key before))) ->
  consistent evaluate st key ∅ (before ++ tail) ->
  Source.load (create_operator_function source) c = Ok src -> Source.run src 0 = Ok (emitted tail) ->
  Forall (CountByKey.well_typed evaluate key) (omap batch_of (before ++ tail)) ->
  countable ∅ (key_keys key (before ++ tail)) -> NoDup (omap marker_of (before ++ tail)) ->
  counts_batch (iter final).*1 (iter final).*2 = Ok total ->
  exists f ch, run_task (Datatypes.S fuel) store (counting_task source key) (gen :: gens) c = (f, Some (Ok tt)) /\
    job_channel f = Some ch /\ finished ch (job_output (omap marker_of tail) total).
Proof.
  intros final Hopen Hinv Hc Hsaved Hcon Hload Hsrc Hty Hcnt Hnd Htotal.
  rewrite keys_of_app in Hcnt. apply countable_app in Hcnt as [Hcb Hct].
  rewrite omap_app in Hty. apply Forall_app in Hty as [_ Hty].
  rewrite omap_app in Hnd. apply NoDup_app in Hnd as (_ & _ & Hnd).
  set (m := tally ∅ (key_keys key before)) in *.
  assert (u64_map m) as Hu by (apply tally_u64; [apply map_Forall_empty|done]).
  destruct (key_load_saved (counter key (Some st) ∅ (Some (gen_partitions gen))) st (gen_partitions gen) c m)
    as (st2 & Hcload & Hi2 & He2 & _ & Hk2); [done..|].
  destruct (task_delivers fuel store source key gens gen c st tail src st2 m total)
    as (f & ch & _ & Hrun & Hch & Hfin & _); [done..| |done|done|done| | |by exists f, ch].
  - split; [done|]. split; [done|]. split; [done|]. split; [done|]. by rewrite He2.
  - intros l1 c' l2 Heq m' Hm'. apply (consistent_suffix st key before tail Hcon l1 c' l2 Heq). by apply Hk2.
  - unfold m. by rewrite <- tally_app, <- keys_of_app.
Qed.

(** C9: a job that is started again from a checkpoint counts every batch exactly once.  A run
    that stops anywhere after the marker [c], having seen the items [seen] of its source, has
    passed on exactly the markers it has seen.  Let the task be started again, in a new worker,
    with a state that has exactly the checkpoints of that run, from the checkpoint [c <= mx], one of the
    first repetition of the source ([Source.load_at] shows what a source does that is moved to
    a later one).  For every
    fuel it ends in the first turn, and its channel holds exactly the part of the uninterrupted
    output that starts with the marker [c], with the same final counts: what was counted between
    the checkpoint and the crash is neither lost nor counted twice. *)
Theorem counting_job_restarts items mx iters key range st0 c seen rest total :
  let l := repetitions items (N.of_nat mx) 0 iters in
  let final := tally ∅ (key_keys key l) in
  job_ok items mx iters key -> fresh_state st0 -> (1 <= c <= mx)%nat ->
  l = seen ++ rest -> N.of_nat c ∈ omap marker_of seen ->
  counts_batch (iter final).*1 (iter final).*2 = Ok total ->
  exists crashed st1 delivered,
    feed (CountByKey.process evaluate counts_batch iter) (inputs seen) (counter key (Some st0) ∅ (Some range)) =
      (crashed, emitted (marker_items (omap marker_of seen))) /\ state crashed = Some st1 /\ ks_inv st1 /\
    job_output (N.of_nat <$> seq 1 (iters * mx)) total =
      marker_items (N.of_nat <$> seq 1 (c - 1)) ++ delivered /\
    forall fuel store gen gens st,
      open_new "4-count-star" (gen_partitions gen) = Ok st -> ks_inv st ->
      keeps_saved st1 st -> keeps_saved st st1 ->
      exists f ch,
        run_task (Datatypes.S fuel) store (counting_task (new_with_iterations items (N.of_nat iters)) key)
          (gen :: gens) (N.of_nat c) = (f, Some (Ok tt)) /\
        job_channel f = Some ch /\ finished ch delivered.
Proof.
  intros l final Hok Hfresh Hcmx Hsplit Hin Htotal.
  destruct (job_items _ _ _ _ Hok) as (Hm & Hnd & Hty). fold l in Hm, Hnd, Hty.
  destruct Hok as (Hmx & Hn & Hit & Hfit & _ & Hcnt). fold l in Hcnt.
  assert (1 <= c <= iters * mx)%nat as Hcn by nia.
  destruct (load_resumes items mx iters c Hmx Hn Hit Hfit Hcmx) as (src & before & after & Hload & Hrep & Hnot & Hsrc).
  fold l in Hrep. set (tail := SIMarker (mkMarker (N.of_nat c)) :: after) in *.
  destruct (interrupted_run st0 key range seen rest) as (crashed & st1 & Hf & Hst1 & Hi & Hcomp & Hcon);
    [done|by rewrite <- Hsplit..|].
  exists crashed, st1, (job_output (omap marker_of tail) total).
  split; [done|]. split; [done|]. split; [done|].
  split.
  { replace (omap marker_of tail) with (N.of_nat <$> seq c (iters * mx + 1 - c))
      by (symmetry; apply (split_markers before after c (iters * mx)); fold tail; by rewrite <- ?Hrep).
    unfold job_output, marker_items. by rewrite (seq_from _ c Hcn), fmap_app, (assoc_L (++)). }
  intros fuel store gen gens st Hopen Hinv Hto Hfrom.
  apply (restart_delivers fuel store _ key gens gen _ st src before tail); rewrite <- ?Hrep; try done; [lia|..].
  - destruct (marker_at _ _ Hin) as (k1 & k2 & Hseen).
    assert (before = k1) as ->.
    { apply (marker_split_unique before after k1 (k2 ++ rest) (N.of_nat c)); fold tail; rewrite <- Hrep; [done|].
      by rewrite Hsplit, Hseen, <- (assoc_L (++)). }
    exact (Hto _ _ (Hcomp _ _ _ Hseen)).
  - rewrite Hsplit. intros l1 c' l2 Heq m Hs. by apply (Hcon l1 c' l2 Heq), Hfrom.
Qed.

(** The first task of [get_tasks_inner] fails: its source has a batch and no marker. *)
Theorem get_tasks_inner_fails test_batch gens gen store fuel :
  exists task f, head (get_tasks_inner test_batch) = Some task /\
    run_task (Datatypes.S fuel) store task (gen :: gens) 0 = (f, Some (Err no_markers)).
Proof. eexists _, _. split; [reflexivity|]. reflexivity. Qed.

(** A task that is told that its generations are out of order cannot recover when its operator is
    nested, as those of all tasks here are: asking for the last checkpoint panics. *)
Theorem nested_recovery_panics fuel (f f1 : Function) c ins fns outs external :
  fn_load open_new num_rows count_batch evaluate counts_batch iter c f = (f1, Ok tt) ->
  run_fn f1 [] = (FNested ins fns outs, Ready (Err (External external))) -> is_out_of_order external = true ->
  main_loop (fn_load open_new num_rows count_batch evaluate counts_batch iter) (fun f => run_fn f [])
    is_out_of_order fn_last_checkpoint (Datatypes.S fuel) f c =
  (FNested ins fns outs, Some (Panic "not yet implemented")).
Proof. intros Hload Hrun Ho. cbn [main_loop]. by rewrite Hload, Hrun, Ho. Qed.
End job.

(** ** The job of run.rs on an example *)

Module ExampleJob.
#[local] Existing Instance RowArrow.arrow.
#[local] Existing Instance RocksDBState.example_keyed.
#[local] Existing Instance RocksDBState.example_view.
#[local] Existing Instance RocksDBState.example_laws.
#[local] Existing Instance in_order.
#[local] Existing Instance in_order_laws.
#[local] Instance profile : Profile := true.

Abbreviation St := (RocksDBState.t (FL := tree) (FR := tree)).

Definition test_batch : Batch :=
  {| RowArrow.b_schema := []; RowArrow.b_rows := [[1]; [2]; [3]; [1]; [2]; [1]] |}.

(** The first column is the key. *)
Definition evaluate (_ : string) (b : Batch) : res DataFusionError ColumnarValue :=
  let column := default 0 ∘ head <$> RowArrow.b_rows b in Ok (ArrayUInt64 column ((fun _ => true) <$> column)).

Definition counts_batch (ks ns : list N) : res DataFusionError Batch :=
  Ok {| RowArrow.b_schema := []; RowArrow.b_rows := zip_with (fun k n => [k; n]) ks ns |}.

Definition state0 : St := RocksDBState.example_state ∅.

Definition run_job (open_new : string -> PartitionRange -> res DataFusionError St) (task : TaskDefinition2) (c : N) :=
  run_task (In := IdentityOperatorFunction) (fun _ => mkIdentity) open_new (fun _ => 0) (fun _ => Ok test_batch)
    evaluate counts_batch map_to_list (fun _ => false) 1 ExchangeChannelStore.new task
    [mkGenerationSpec "g" (mkRange 0 1 1) []] c.

Definition items : list (StreamItem Batch) :=
  [SIMarker (mkMarker 1); SIRecordBatch test_batch; SIMarker (mkMarker 2)].

Lemma items_ok : job_ok evaluate items 2 10 "a".
Proof.
  split; [lia|]. split; [reflexivity|]. split; [lia|]. split; [reflexivity|]. split; [by repeat constructor|].
  apply small_countable; reflexivity.
Qed.

Lemma state0_fresh : fresh_state state0.
Proof. destruct (RocksDBState.example_state_inv ∅) as (Hi & Hno & He). done. Qed.

(** The counts of ten repetitions, in the order in which the map is iterated. *)
Definition total : Batch := {| RowArrow.b_schema := []; RowArrow.b_rows := [[2; 20]; [3; 10]; [1; 30]] |}.

Lemma counting_job_delivers_witness :
  exists task f ch, head (infinite_stream_tasks [] test_batch) = Some task /\
    run_job (fun _ _ => Ok state0) task 0 = (f, Some (Ok tt)) /\
    job_channel f = Some ch /\ data ch = job_output (N.of_nat <$> seq 1 20) total.
Proof.
  destruct (counting_job_delivers (H := RowArrow.arrow) [] (fun _ => mkIdentity) (fun _ _ => Ok state0)
    (fun _ => 0) (fun _ => Ok test_batch) evaluate counts_batch map_to_list (fun _ => false)
    ltac:(done) items 2 10 "a" [] (mkGenerationSpec "g" (mkRange 0 1 1) []) state0 ExchangeChannelStore.new total)
    with (fuel := 0%nat) as (f & ch & _ & Hrun & Hch & (Hd & _) & _).
  - exact items_ok.
  - reflexivity.
  - exact state0_fresh.
  - vm_compute. reflexivity.
  - exists (counting_task (H := RowArrow.arrow) [] (new_with_iterations items 10) "a"), f, ch.
    split; [reflexivity|]. split; [exact Hrun|]. split; [exact Hch|exact Hd].
Defined.

(** The run crashes in the second repetition, after the markers 1, 2 and 3; it is started again
    from the checkpoint 2 with the state that it left. *)
Definition all_items : list (StreamItem Batch) := repetitions items 2 0 10.

Definition crashed : CountByKeyFunction (S := St) :=
  fst (feed (CountByKey.process evaluate counts_batch map_to_list) (inputs (take 5 all_items))
         (CountByKey.mkCount "a" (Some state0) ∅ (Some (mkRange 0 1 1)))).

Definition reopen (_ : string) (_ : PartitionRange) : res DataFusionError St :=
  match state crashed with Some st => Ok st | None => Err (Internal "no state") end.

Lemma counting_job_restarts_witness :
  exists task f ch, head (infinite_stream_tasks [] test_batch) = Some task /\
    run_job reopen task 2 = (f, Some (Ok tt)) /\ job_channel f = Some ch /\
    job_output (N.of_nat <$> seq 1 20) total = SIMarker (mkMarker 1) :: data ch.
Proof.
  destruct (counting_job_restarts (H := RowArrow.arrow) [] (fun _ => mkIdentity) reopen
    (fun _ => 0) (fun _ => Ok test_batch) evaluate counts_batch map_to_list (fun _ => false)
    ltac:(done) items 2 10 "a" (mkRange 0 1 1) state0 2 (take 5 all_items) (drop 5 all_items) total)
    as (last & st1 & delivered & Hfeed & Hst & Hinv & Hout & Hrestart).
  - exact items_ok.
  - exact state0_fresh.
  - lia.
  - reflexivity.
  - apply (bool_decide_eq_true_1 _). vm_compute. reflexivity.
  - vm_compute. reflexivity.
  - assert (reopen "4-count-star" (mkRange 0 1 1) = Ok st1) as Hopen.
    { unfold reopen, crashed. rewrite Hfeed. cbn [fst]. by rewrite Hst. }
    destruct (Hrestart 0%nat ExchangeChannelStore.new (mkGenerationSpec "g" (mkRange 0 1 1) []) [] st1)
      as (f & ch & Hrun & Hch & Hd & _); [done|done|by intros ???..|].
    exists (counting_task (H := RowArrow.arrow) [] (new_with_iterations items 10) "a"), f, ch.
    split; [reflexivity|]. split; [exact Hrun|]. split; [exact Hch|]. rewrite Hd. exact Hout.
Defined.
End ExampleJob.
