(* ===== verification/Coordinator.v ===== *)
(** * Scheduling (src/streaming/coordinator.rs, src/python/py_utils.rs)

    The coordinators place tasks on processors, tell every task where the streams of the others
    are, and restart copies of a task with smaller partitions from its latest checkpoints.  The
    processors are Python actors; starting them and sending them a plan are the operations of
    the class [ComputeEnv]. *)

From S2P Require Import Prelude Arrow Partitioning Stream Generation FileSystem CheckpointStorage RemoteExchange RemoteSource Operators Task.
Import PartitionRangeOps.

(** ** Initial scheduling details (py_utils.rs) *)

Section scheduling.
Context `{Arrow}.

(** [2 << 31], a [usize]. *)
Definition all_checkpoints : N * N := (0, 4294967296).

Definition initial_details (range : PartitionRange) (assigned_tasks : list (TaskDefinition2 * string))
    : InitialSchedulingDetails :=
  let initial_generation := mkGenerationSpec "initial_generation" range [] in
  let input_details := concat ((fun '(task, address) =>
    (fun stream_id => mkInputDetail stream_id [mkLocation address all_checkpoints range]) <$> exchange_outputs task)
    <$> assigned_tasks) in
  mkInitial [initial_generation] input_details.

Definition schedule_without_partitions_inner (assigned_tasks : list (TaskDefinition2 * string))
    : InitialSchedulingDetails := initial_details empty assigned_tasks.

Definition schedule_with_constant_partitions (assigned_tasks : list (TaskDefinition2 * string))
    (partition : PartitionRange) : InitialSchedulingDetails := initial_details partition assigned_tasks.

(** The streams that the tasks of a schedule write. *)
Definition written (assigned_tasks : list (TaskDefinition2 * string)) : list string :=
  concat ((fun a => exchange_outputs (fst a)) <$> assigned_tasks).

(** [address] is where the schedule has put the task that writes [stream_id]. *)
Definition written_at (assigned_tasks : list (TaskDefinition2 * string)) (sid addr : string) : Prop :=
  exists task, (task, addr) ∈ assigned_tasks /\ sid ∈ exchange_outputs task.

Lemma input_locations_spec range tasks d :
  d ∈ input_locations (initial_details range tasks) <->
  exists sid addr, written_at tasks sid addr /\ d = mkInputDetail sid [mkLocation addr all_checkpoints range].
Proof.
  unfold initial_details, written_at. cbn. rewrite list_elem_of_In, in_concat. split.
  - intros (l & Hl & Hd). apply list_elem_of_In, list_elem_of_fmap in Hl as ([task addr] & -> & Hin).
    apply list_elem_of_In, list_elem_of_fmap in Hd as (sid & -> & Hsid). eauto 6.
  - intros (sid & addr & (task & Hin & Hsid) & ->). eexists. split.
    + apply list_elem_of_In, list_elem_of_fmap. exists (task, addr). done.
    + cbn. apply list_elem_of_In, list_elem_of_fmap. eauto.
Qed.

Context `{Profile}.

(** What a reader of [range] gets of a location that holds all of it. *)
Definition served (range : PartitionRange) : PartitionRange := if is_empty range then empty else range.

Lemma addresses_of_one range sid addr marker :
  start range <= end_ range -> fits (end_ range) -> marker < 4294967296 ->
  get_addresses_for_stream range marker (mkInputDetail sid [mkLocation addr all_checkpoints range]) =
    Ok [(sid, addr, served range)].
Proof.
  intros Hr Hfit Hm. unfold get_addresses_for_stream, serves_checkpoint, served, fits in *.
  cbn [locations List.filter offset_range fst snd all_checkpoints].
  rewrite (proj2 (N.leb_le _ _)), (proj2 (N.ltb_lt _ _)) by lia. cbn [andb fmap list_fmap].
  unfold match_location. cbn [loc_partitions address stream_id].
  destruct (is_empty range) eqn:He; cbn [andb].
  - unfold is_empty in He. apply N.eqb_eq in He. unfold size. rewrite usub_le by done.
    rewrite He, N.sub_diag. done.
  - assert (intersection range range = range) as ->.
    { unfold is_empty in He. apply N.eqb_neq in He. unfold intersection. rewrite N.max_id, N.min_id.
      rewrite (proj2 (N.ltb_lt _ _)) by lia. by destruct range. }
    rewrite He. cbn [omap list_omap fst snd sum_sizes]. unfold size.
    rewrite usub_le, bind_Ok, uadd_fits, bind_Ok, bind_Ok, N.add_0_l by (unfold fits; lia).
    by rewrite bind_Ok, N.eqb_refl.
Qed.

(** C36: the initial schedule wires the streams.  In the details of a schedule, every task that
    reads streams which other tasks write finds, at every checkpoint number below [2^32], one
    address per stream: that of a task that writes the stream, with the whole range of the
    schedule. *)
Theorem schedule_wires_streams range tasks sids marker :
  start range <= end_ range -> fits (end_ range) -> marker < 4294967296 ->
  Forall (fun sid => sid ∈ written tasks) sids ->
  let details := schedule_with_constant_partitions tasks range in
  find_current_generation sids (generations details) marker =
    Ok (mkGenerationSpec "initial_generation" range []) /\
  exists addrs, Forall2 (written_at tasks) sids addrs /\
    get_addresses range marker sids (input_locations details) =
      Ok (zip_with (fun sid addr => (sid, addr, served range)) sids addrs).
Proof.
  intros Hr Hfit Hm Hsids details. split; [done|].
  enough (exists addrs, Forall2 (written_at tasks) sids addrs /\
    exists found, try_collect (fun sid =>
        ok_or (Execution ("No input detail found for stream ID: " +:+ sid))
          (find_first (fun d => bool_decide (stream_id d = sid)) (input_locations details))) sids = Ok found /\
      try_collect (get_addresses_for_stream range marker) found =
        Ok (zip_with (fun sid addr => [(sid, addr, served range)]) sids addrs))
    as (addrs & Hw & found & Hf & Ha).
  { exists addrs. split; [done|]. unfold get_addresses. rewrite Hf, bind_Ok, Ha, bind_Ok. f_equal.
    clear -Hw. induction Hw as [|sid addr sids addrs _ _ IH]; [done|]. cbn. by rewrite IH. }
  induction Hsids as [|sid sids Hsid _ IH].
  { exists []. split; [constructor|]. by exists []. }
  destruct IH as (addrs & Hw & found & Hf & Ha).
  destruct (find_first (fun d => bool_decide (stream_id d = sid)) (input_locations details)) as [d|] eqn:Hd.
  - apply find_first_Some in Hd as Hin. destruct Hin as [Hin Heq]. apply bool_decide_eq_true in Heq.
    apply input_locations_spec in Hin as (sid' & addr & Hat & ->). cbn in Heq. subst sid'.
    exists (addr :: addrs). split; [by constructor|]. exists (mkInputDetail sid [mkLocation addr all_checkpoints range] :: found).
    cbn [try_collect]. rewrite Hd. cbn [ok_or]. rewrite bind_Ok, Hf. split; [done|].
    rewrite addresses_of_one by done. rewrite bind_Ok, Ha. done.
  - exfalso. apply find_first_None in Hd. rewrite Forall_forall in Hd.
    unfold written in Hsid. apply list_elem_of_In, in_concat in Hsid as (l & Hl & Hin).
    apply list_elem_of_In, list_elem_of_fmap in Hl as ([task addr] & -> & Htask).
    apply list_elem_of_In in Hin.
    specialize (Hd (mkInputDetail sid [mkLocation addr all_checkpoints range])).
    rewrite bool_decide_eq_false in Hd. apply Hd; [|done]. apply input_locations_spec.
    exists sid, addr. split; [|done]. by exists task.
Qed.
End scheduling.

(** ** Splitting the partitions of a task (scale_up) *)

Section split.
Context `{Profile}.

(** The source writes [2usize^32], the exclusive or. *)
Definition new_partition_cap : N := N.lxor 2 32.

Definition scale_partition {E} (cap floor remaining i : N) : res E PartitionRange :=
  size ← uadd floor (if i <? remaining then 1 else 0);
  base ← umul i floor;
  start ← uadd base (if i <? remaining then i else remaining);
  e ← uadd start size;
  Ok (PartitionRangeOps.new start e cap).

Definition scale_partitions {E} (cap : N) (new_number : nat) : res E (list PartitionRange) :=
  partition_size_floor ← udiv cap (N.of_nat new_number);
  remaining_size ← urem cap (N.of_nat new_number);
  try_collect (scale_partition cap partition_size_floor remaining_size) (N.of_nat <$> seq 0 new_number).

(** Where partition [i] starts. *)
Definition scale_bound (floor remaining i : N) : N := i * floor + N.min i remaining.

Lemma scale_partition_spec {E} cap n i :
  fits cap -> 0 < n -> i < n ->
  scale_partition (E := E) cap (cap / n) (cap mod n) i =
    Ok (mkRange (scale_bound (cap / n) (cap mod n) i) (scale_bound (cap / n) (cap mod n) (i + 1)) cap).
Proof.
  intros Hcap Hn Hi. pose proof (N.div_mod cap n ltac:(lia)) as Hdm.
  pose proof (N.mod_lt cap n ltac:(lia)) as Hmod. unfold fits in *.
  assert ((i + 1) * (cap / n) <= n * (cap / n)) as Hmul by (apply N.mul_le_mono_r; lia).
  rewrite N.mul_add_distr_r, N.mul_1_l in Hmul.
  unfold scale_partition, scale_bound. generalize dependent (cap / n). intros f Hdm Hmul.
  pose proof (N.le_0_l (i * f)). pose proof (N.le_0_l (cap mod n)).
  destruct (N.ltb_spec i (cap mod n)).
  - rewrite uadd_fits, bind_Ok, umul_fits, bind_Ok, uadd_fits, bind_Ok, uadd_fits, bind_Ok by (unfold fits; lia).
    unfold PartitionRangeOps.new. do 2 f_equal; rewrite ?N.mul_add_distr_r; lia.
  - rewrite uadd_fits, bind_Ok, umul_fits, bind_Ok, uadd_fits, bind_Ok, uadd_fits, bind_Ok by (unfold fits; lia).
    unfold PartitionRangeOps.new. do 2 f_equal; rewrite ?N.mul_add_distr_r; lia.
Qed.

(** C37: scaling up splits the partitions evenly.  For any number of copies but zero, and any
    number of partitions, the ranges of the copies tile the partitions, one range per copy, and
    their sizes differ by at most one; the number of partitions that the code uses is 34, and
    with zero copies it panics. *)
Theorem scale_partitions_tile {E} cap n :
  fits cap -> (0 < n)%nat ->
  exists rs, scale_partitions (E := E) cap n = Ok rs /\ length rs = n /\ tiles cap 0 cap rs /\
    Forall (fun r => cap / N.of_nat n <= end_ r - start r <= cap / N.of_nat n + 1) rs.
Proof.
  intros Hcap Hn.
  set (f := cap / N.of_nat n). set (m := cap mod N.of_nat n).
  set (r i := mkRange (scale_bound f m (N.of_nat i)) (scale_bound f m (N.of_nat i + 1)) cap).
  assert (forall k j, (j + k <= n)%nat ->
    try_collect (scale_partition (E := E) cap f m) (N.of_nat <$> seq j k) = Ok (r <$> seq j k)) as Hcol.
  { intros k. induction k as [|k IH]; intros j Hj; [done|]. cbn [seq fmap list_fmap try_collect].
    unfold f, m. rewrite scale_partition_spec, bind_Ok by (done || lia). fold f m.
    unfold fmap in IH. rewrite IH by lia. done. }
  assert (forall k j, tiles cap (scale_bound f m (N.of_nat j)) (scale_bound f m (N.of_nat (j + k))) (r <$> seq j k)) as Htile.
  { intros k. induction k as [|k IH]; intros j; cbn [seq fmap list_fmap tiles].
    - by rewrite Nat.add_0_r.
    - cbn [r start end_ partitions]. split; [done|]. split; [unfold scale_bound; lia|]. split; [done|].
      replace (N.of_nat j + 1) with (N.of_nat (S j)) by lia.
      replace (j + S k)%nat with (S j + k)%nat by lia. apply IH. }
  exists (r <$> seq 0 n). split; [|split; [|split]].
  - unfold scale_partitions. rewrite udiv_pos, bind_Ok, urem_pos, bind_Ok by lia. apply Hcol. lia.
  - by rewrite length_fmap, length_seq.
  - specialize (Htile n 0%nat). cbn [Nat.add] in Htile.
    assert (scale_bound f m (N.of_nat 0) = 0) as Hz by (unfold scale_bound; lia). rewrite Hz in Htile.
    assert (scale_bound f m (N.of_nat n) = cap) as Hc; [|by rewrite Hc in Htile].
    unfold scale_bound, f, m. pose proof (N.div_mod cap (N.of_nat n) ltac:(lia)).
    pose proof (N.mod_lt cap (N.of_nat n) ltac:(lia)). lia.
  - apply Forall_fmap, Forall_true. intros i. unfold compose, r, scale_bound. cbn. lia.
Qed.

Lemma scale_zero_panics {E} cap : exists why, scale_partitions (E := E) cap 0 = Panic why.
Proof. by eexists. Qed.
End split.

(** ** The coordinators *)

Abbreviation PyErr := string.

(** Processors are known by their address; the state [E] is the cluster. *)
Class ComputeEnv (E : Type) `{Arrow} := {
  start_many_processors : nat -> option string -> act E PyErr (list string);
  update_plan : string -> TaskDefinition2 -> InitialSchedulingDetails -> act E PyErr ();
  update_plan_with_checkpoint :
    string -> TaskDefinition2 -> InitialSchedulingDetails -> N -> act E PyErr ();
}.

(** [str::parse::<usize>]: decimal digits after an optional sign, at least one, without overflow. *)
Definition digit (c : Ascii.ascii) : option N :=
  let n := Ascii.N_of_ascii c in if (48 <=? n) && (n <=? 57) then Some (n - 48) else None.

Fixpoint parse_digits (s : string) (acc : N) : option N :=
  match s with
  | EmptyString => Some acc
  | String c s => d ← digit c; let n := acc * 10 + d in if n <? u64_modulus then parse_digits s n else None
  end.

Definition parse_usize (s : string) : option N :=
  match s with
  | EmptyString => None
  | String c s' =>
      if bool_decide (c = Ascii.ascii_of_N 43) then
        match s' with EmptyString => None | _ => parse_digits s' 0 end
      else parse_digits s 0
  end.

Section coordinators.
Context {E FS : Type} `{Arrow} `{!ComputeEnv E} `{FileSystemStorage FS, LatestJson} `{Profile}.
Context (py_err : DataFusionError -> PyErr).

(** Sending its plan to the processor of every assigned task. *)
Definition deploy (details : InitialSchedulingDetails) (assigned : list (TaskDefinition2 * string))
    : act E PyErr () :=
  for_each (fun '(task, addr) => update_plan addr task details) assigned.

(** [StaticCoordinator::schedule_together] *)
Definition schedule_together (tasks : list TaskDefinition2) (remote_checkpoint_dir : option string)
    : act E PyErr (list (TaskDefinition2 * string)) :=
  processors ← start_many_processors (length tasks) remote_checkpoint_dir;
  let assigned_tasks := zip tasks processors in
  _ ← deploy (schedule_without_partitions_inner assigned_tasks) assigned_tasks;
  mret assigned_tasks.

(** [ActiveCoordinator]: the copies of every task, with their address and range. *)
Record ActiveCoordinator := mkActive {
  remote_checkpoint_storage : FileSystemStateStorage;
  ac_checkpoint_dir : string;
  tasks : list (TaskDefinition2 * list (string * PartitionRange));
}.

Definition start_single_copies (storage : FileSystemStateStorage) (all_tasks : list TaskDefinition2)
    (remote_checkpoint_dir : string) : act E PyErr ActiveCoordinator :=
  processors ← start_many_processors (length all_tasks) (Some remote_checkpoint_dir);
  let assigned_tasks := zip all_tasks processors in
  _ ← deploy (schedule_with_constant_partitions assigned_tasks full) assigned_tasks;
  mret (mkActive storage remote_checkpoint_dir ((fun '(task, addr) => (task, [(addr, full)])) <$> assigned_tasks)).

(** [stream_last_output], up to [stream_results]: the address and the stream to read. *)
Definition last_output (self : ActiveCoordinator) : res PyErr (string * string) :=
  '(output_task, copies) ← ok_or "No tasks assigned" (last (tasks self));
  match copies with
  | [(output_addr, _)] =>
      stream_id ← unwrap "called `Option::unwrap()` on a `None` value" (last (exchange_outputs output_task));
      Ok (output_addr, stream_id)
  | _ => Err "Expected exactly one copy of the output task"
  end.

(** The latest checkpoint of a range, as a number. *)
Definition latest_checkpoint (self : ActiveCoordinator) (state_id : string) (partition : PartitionRange)
    : act FS DataFusionError (PartitionRange * N) := fun fs =>
  match get_latest_operator_checkpoints (remote_checkpoint_storage self) state_id partition fs with
  | (fs, Ok (checkpoint_id, _)) =>
      (fs, n ← ok_or (Internal "Failed to parse checkpoint ID") (parse_usize checkpoint_id); Ok (partition, n))
  | (fs, Err e) => (fs, Err e)
  | (fs, Panic w) => (fs, Panic w)
  end.

Fixpoint latest_checkpoints (self : ActiveCoordinator) (state_id : string) (partitions : list PartitionRange)
    : act FS DataFusionError (list (PartitionRange * N)) :=
  match partitions with
  | [] => mret []
  | p :: ps => c ← latest_checkpoint self state_id p; cs ← latest_checkpoints self state_id ps; mret (c :: cs)
  end.

(** The locations of the streams of all other tasks. *)
Definition other_locations (self : ActiveCoordinator) (tid : string) : list GenerationInputDetail :=
  concat ((fun '(task, copies) =>
    (fun stream_id => mkInputDetail stream_id
      ((fun '(addr, range) => mkLocation addr all_checkpoints range) <$> copies)) <$> exchange_outputs task)
    <$> List.filter (fun '(task, _) => negb (bool_decide (task_id task = tid))) (tasks self)).

(** [scale_up]: it starts the copies; the record of the coordinator does not change. *)
Definition scale_up (self : ActiveCoordinator) (tid : string) (new_number : nat)
    : E * FS -> E * FS * res PyErr () := fun '(env, fs) =>
  match find_first (fun '(task, _) => bool_decide (task_id task = tid)) (tasks self) with
  | None => (env, fs, Err ("Task with ID " +:+ tid +:+ " not found"))
  | Some (task_def, _) =>
      match scale_partitions (E := PyErr) new_partition_cap new_number with
      | Ok partitions =>
          match used_state_ids task_def with
          | [task_state_id] =>
              match latest_checkpoints self task_state_id partitions fs with
              | (fs, Ok checkpoints) =>
                  let '(env, r) :=
                    (processors ← start_many_processors new_number (Some (ac_checkpoint_dir self));
                     for_each (fun '((partition, checkpoint), addr) =>
                       update_plan_with_checkpoint addr task_def
                         (mkInitial [mkGenerationSpec (task_id task_def +:+ "-" +:+ addr) partition []]
                            (other_locations self tid)) checkpoint)
                       (zip checkpoints processors)) env in
                  (env, fs, r)
              | (fs, Err e) => (env, fs, Err (py_err e))
              | (fs, Panic w) => (env, fs, Panic w)
              end
          | _ => (env, fs, Err "Scaling up is only supported for tasks with a single state ID")
          end
      | Err e => (env, fs, Err e)
      | Panic w => (env, fs, Panic w)
      end
  end.
End coordinators.

(** ** Witnesses *)

Section witnesses.
#[local] Existing Instance RowArrow.arrow.

(** A task that writes the stream "a", and one that reads it and writes "b". *)
Definition writer (tid sid : string) : TaskDefinition2 :=
  mkTaskDefinition tid (mkOpDef tid "state"
    (SpecRemoteExchangeOutput (mkExchange sid ([] : @Schema RowArrow.arrow) None)) [] []).

Lemma schedule_wires_streams_witness :
  exists addrs, Forall2 (written_at [(writer "t1" "a", "h1"); (writer "t2" "b", "h2")]) ["b"] addrs /\
    get_addresses (H := true) (mkRange 0 34 34) 7 ["b"]
      (input_locations (schedule_with_constant_partitions
        [(writer "t1" "a", "h1"); (writer "t2" "b", "h2")] (mkRange 0 34 34))) =
      Ok (zip_with (fun sid addr => (sid, addr, mkRange 0 34 34)) ["b"] addrs).
Proof.
  apply (schedule_wires_streams (H0 := true) (mkRange 0 34 34)
    [(writer "t1" "a", "h1"); (writer "t2" "b", "h2")] ["b"] 7).
  - done.
  - done.
  - done.
  - constructor; [|constructor]. apply (bool_decide_eq_true_1 _). vm_compute. reflexivity.
Defined.

Lemma scale_partitions_tile_witness :
  exists rs, scale_partitions (H := true) (E := PyErr) new_partition_cap 4 = Ok rs /\ length rs = 4%nat /\
    tiles new_partition_cap 0 new_partition_cap rs /\
    Forall (fun r => new_partition_cap / N.of_nat 4 <= end_ r - start r <= new_partition_cap / N.of_nat 4 + 1) rs.
Proof. apply (scale_partitions_tile (H := true)); [done|lia]. Defined.
End witnesses.
