(* ===== verification/Service.v ===== *)
(** * Workers as remote processes

    src/python/streaming_processor_service.rs (the service of a worker), worker_process.rs (how
    a worker starts), runtime/runtime.rs and runtime/exchange_manager/data_exchange_manager.rs
    (what it runs on), src/python/remote_processor.rs and coordinator.rs (how the coordinator
    starts workers and sends them their tasks), and the actor of src/py/entrypoint.py in between.

    Workers are Ray actors.  A call to an actor is queued; the calls of one actor are handled in
    the order in which they were made, those of different actors in any order.  The coordinator
    waits for the answers of [start_up] only. *)

From stdpp Require Import relations.
From S2P Require Import Prelude Arrow Partitioning Stream Generation Channels FileSystem CheckpointStorage RemoteExchange RemoteSource Operators Task Coordinator.

Abbreviation Bytes := (list N).

(** ** What the services rely on *)

(** The operating system and the runtime, with their state [W]. *)
Class WorkerEnv (W : Type) := {
  (** [local_ip()] *)
  local_ip : act W string string;
  (** [tempfile::Builder] with a prefix: the new directory *)
  tempdir : string -> act W string Path;
  (** [TcpListener::bind] and [local_addr]: the address of the listener *)
  bind_listener : string -> act W string string;
  (** [new_friendly_name()] in Python *)
  new_friendly_name : act W string string;
}.

(** flexbuffers and serde: a value in bytes, the root of a buffer, and a value at a root. *)
Class Flexbuffers (A : Type) := {
  to_vec : A -> res string Bytes;
  get_root : Bytes -> res string Bytes;
  deserialize : Bytes -> res string A;
}.

(** What is written is read back. *)
Definition carries {A} `{Flexbuffers A} (a : A) : Prop :=
  exists bytes reader, to_vec a = Ok bytes /\ get_root bytes = Ok reader /\ deserialize reader = Ok a.

Definition map_act_err {S E F A} (f : E -> F) (m : act S E A) : act S F A :=
  fun s => let '(s, r) := m s in (s, map_err f r).

(** ** A worker process *)

Section service.
Context `{Arrow} {W : Type} `{WorkerEnv W} `{Flexbuffers TaskDefinition2} `{Flexbuffers InitialSchedulingDetails}.

(** [Display] of a [DataFusionError] *)
Context (display : DataFusionError -> string).

(** [serving]: the flight service runs until it is told to stop. *)
Record DataExchangeManager := mkManager {
  listening_address : string;
  exchange_channel_store : ExchangeChannelStore.t;
  close_signal_sender : bool;
  serving : bool;
}.

(** [DataExchangeManager::start], with [create_listener]. *)
Definition create_listener (local_ip_address : string) : act W DataFusionError string :=
  map_act_err External (bind_listener (local_ip_address +:+ ":0")).

Definition manager_start (local_ip_address : string) : act W DataFusionError DataExchangeManager :=
  listening_address ← create_listener local_ip_address;
  mret (mkManager listening_address ExchangeChannelStore.new true true).

Definition create_channel (self : DataExchangeManager) (sid : string) (details : option ExchangeChannelStore.ChannelPartitioningDetails)
    : DataChannelSender * DataExchangeManager :=
  let '(sender, store) := ExchangeChannelStore.create (exchange_channel_store self) sid details in
  (sender, mkManager (listening_address self) store (close_signal_sender self) (serving self)).

(** [close]: the sender is used once. *)
Definition manager_close (self : DataExchangeManager) : DataExchangeManager :=
  if close_signal_sender self
  then mkManager (listening_address self) (exchange_channel_store self) false false
  else self.

(** [Client]: a Flight client.  A storage is a directory and the root below it. *)
Context {Client : Type}.

Record Runtime := mkRuntime {
  data_client_manager : gmap string Client;
  data_exchange_manager : DataExchangeManager;
  local_file_system : Path;
  remote_checkpoint_file_system : Path * FileSystemStateStorage;
}.

Definition runtime_start (local_ip_address : string) (local : Path) (remote : Path * FileSystemStateStorage)
    : act W DataFusionError Runtime :=
  manager ← manager_start local_ip_address;
  mret (mkRuntime ∅ manager local remote).

Record WorkerProcess := mkWorker {
  wp_name : string;
  runtime : Runtime;
  wp_running_tasks : gmap string RunningTask;
}.

Definition make_temp_dir (prefix : string) : act W DataFusionError Path :=
  map_act_err (fun e => Internal ("Failed to create temporary directory: " +:+ e)) (tempdir prefix).

Definition start_with_remote_file_system (name : string) (remote : Path * FileSystemStateStorage)
    : act W DataFusionError WorkerProcess :=
  let name := "[" +:+ name +:+ "]" in
  local_ip_addr ← map_act_err (fun e => Internal ("Failed to get worker local ip: " +:+ e)) local_ip;
  dir ← make_temp_dir (name +:+ "-local");
  runtime ← runtime_start local_ip_addr dir remote;
  mret (mkWorker name runtime ∅).

Definition worker_start (name : string) : act W DataFusionError WorkerProcess :=
  dir ← make_temp_dir (name +:+ "-remote");
  start_with_remote_file_system name (dir, mkStateStorage ["state"]).

Definition data_exchange_address (self : WorkerProcess) : string :=
  listening_address (data_exchange_manager (runtime self)).

Definition with_tasks (self : WorkerProcess) (tasks : gmap string RunningTask) : WorkerProcess :=
  mkWorker (wp_name self) (runtime self) tasks.

(** ** The state of a service *)

(** [future]: what starting the worker does, and its result. *)
Inductive WorkerProcessState :=
  | Starting (future : act W DataFusionError WorkerProcess) (still_starting_error : DataFusionError)
  | Running (worker_process : WorkerProcess)
  | Errored (error : DataFusionError).

Definition state_new (future : act W DataFusionError WorkerProcess) : WorkerProcessState :=
  Starting future (Internal "Worker process is still starting").

Definition expect_started (self : WorkerProcessState) : res DataFusionError WorkerProcess :=
  match self with
  | Starting _ still_starting_error => Err still_starting_error
  | Running worker_process => Ok worker_process
  | Errored error => Err error
  end.

(** A future that has panicked panics again when it is polled. *)
Definition wait_for_startup (self : WorkerProcessState) (w : W)
    : W * WorkerProcessState * res DataFusionError WorkerProcess :=
  match self with
  | Starting future still_starting_error =>
      match future w with
      | (w, Ok worker_process) => (w, Running worker_process, Ok worker_process)
      | (w, Err error) => (w, Errored error, Err error)
      | (w, Panic why) =>
          (w, Starting (fun w => (w, Panic "`async fn` resumed after panicking")) still_starting_error, Panic why)
      end
  | Running worker_process => (w, self, Ok worker_process)
  | Errored error => (w, self, Err error)
  end.

(** ** The service *)

(** [all_done]: the messages in the channel of capacity 1, from which nobody receives. *)
Record Service := mkService { worker_process : WorkerProcessState; all_done_queue : nat }.

Definition with_worker (self : Service) (wp : WorkerProcessState) : Service :=
  mkService wp (all_done_queue self).

Definition worker_process_fut (name : string) (remote_storage_url : option string)
    : act W DataFusionError WorkerProcess :=
  match remote_storage_url with
  | None => worker_start name
  | Some url => start_with_remote_file_system name (to_path url, mkStateStorage ["state"])
  end.

Definition service_new (name : string) (remote_storage_url : option string) : Service :=
  mkService (state_new (worker_process_fut name remote_storage_url)) 0.

Definition start_up (self : Service) (w : W) : W * Service * res PyErr () :=
  let '(w, wp, r) := wait_for_startup (worker_process self) w in
  (w, with_worker self wp,
   map_err (fun e => "Worker process failed to start " +:+ display e) (_ ← r; Ok tt)).

Definition started (self : Service) : res PyErr WorkerProcess :=
  map_err (fun e => "Worker process is still starting " +:+ display e) (expect_started (worker_process self)).

Definition service_addr (self : Service) : res PyErr string := data_exchange_address <$> started self.

(** [all_done]: sending waits while the channel is full. *)
Definition all_done (self : Service) : Service * Poll (res PyErr ()) :=
  if (all_done_queue self <? 1)%nat
  then (mkService (worker_process self) (Datatypes.S (all_done_queue self)), Ready (Ok tt))
  else (self, Pending).

(** Both decoding errors speak of a task definition. *)
Definition decode {A} `{Flexbuffers A} (what : string) (bytes : Bytes) : res PyErr A :=
  reader ← map_err (fun e => "Failed to parse " +:+ what +:+ " bytes: " +:+ e) (get_root bytes);
  map_err (fun e => "Failed to deserialize task definition: " +:+ e) (deserialize reader).

Definition service_start_task_from (self : Service) (task_bytes details_bytes : Bytes) (checkpoint_number : N)
    : Service * res PyErr () :=
  match started self with
  | Ok wp =>
      match (task_definition ← decode "task" task_bytes;
             details ← decode "scheduling details" details_bytes;
             Ok (task_definition, details)) with
      | Ok (task_definition, details) =>
          let '(tasks, _, r) := start_task_from (wp_running_tasks wp) task_definition details checkpoint_number in
          (with_worker self (Running (with_tasks wp tasks)), map_err display r)
      | Err e => (self, Err e)
      | Panic w => (self, Panic w)
      end
  | Err e => (self, Err e)
  | Panic w => (self, Panic w)
  end.

Definition service_start_task (self : Service) (task_bytes details_bytes : Bytes) : Service * res PyErr () :=
  match started self with
  | Ok wp =>
      match (task_definition ← decode "task" task_bytes;
             details ← decode "scheduling details" details_bytes;
             Ok (task_definition, details)) with
      | Ok (task_definition, details) =>
          let '(tasks, _, r) := start_task (wp_running_tasks wp) task_definition details in
          (with_worker self (Running (with_tasks wp tasks)), map_err display r)
      | Err e => (self, Err e)
      | Panic w => (self, Panic w)
      end
  | Err e => (self, Err e)
  | Panic w => (self, Panic w)
  end.

(** ** The actors of a cluster (src/py/entrypoint.py) *)

Inductive Call :=
  | UpdatePlan (plan_bytes initial_schedule_details_bytes : Bytes)
  | UpdatePlanWithCheckpoint (plan_bytes initial_schedule_details_bytes : Bytes) (starting_checkpoint : N)
  | AllDone.

(** What a method of the actor does to its service; nobody looks at the answer. *)
Definition handle (call : Call) (self : Service) : Service :=
  match call with
  | UpdatePlan plan details => (service_start_task self plan details).1
  | UpdatePlanWithCheckpoint plan details checkpoint => (service_start_task_from self plan details checkpoint).1
  | AllDone => (all_done self).1
  end.

(** The actors, and the calls that have not been handled, in the order in which they were made. *)
Record Cluster := mkCluster { world : W; actors : list Service; inbox : list (nat * Call) }.

(** An actor handles the first of its calls. *)
Inductive step : Cluster -> Cluster -> Prop :=
  | step_call w svcs before i call after svc :
      (forall c, (i, c) ∉ before) -> svcs !! i = Some svc ->
      step (mkCluster w svcs (before ++ (i, call) :: after))
           (mkCluster w (<[i := handle call svc]> svcs) (before ++ after)).

(** ** The coordinator's side (remote_processor.rs, coordinator.rs) *)

Record RemoteProcessor := mkProcessor { processor_object : nat; processor_addr : string }.

(** A new actor, with the [__init__] of the class [Processor]. *)
Definition init_remote (remote_checkpoint_dir : option string) : act Cluster PyErr nat := fun cl =>
  match new_friendly_name (world cl) with
  | (w, Ok name) =>
      (mkCluster w (actors cl ++ [service_new name remote_checkpoint_dir]) (inbox cl), Ok (length (actors cl)))
  | (w, Err e) => (mkCluster w (actors cl) (inbox cl), Err e)
  | (w, Panic why) => (mkCluster w (actors cl) (inbox cl), Panic why)
  end.

(** The answer of [start_up], for which the caller waits. *)
Definition start_up_remote (processor : nat) : act Cluster PyErr string := fun cl =>
  match actors cl !! processor with
  | None => (cl, Err "no such actor")
  | Some svc =>
      let '(w, svc, r) := start_up svc (world cl) in
      (mkCluster w (<[processor := svc]> (actors cl)) (inbox cl), _ ← r; service_addr svc)
  end.

Fixpoint init_all (n : nat) (remote_checkpoint_dir : option string) : act Cluster PyErr (list nat) :=
  match n with
  | O => mret []
  | Datatypes.S n =>
      processor ← init_remote remote_checkpoint_dir;
      rest ← init_all n remote_checkpoint_dir;
      mret (processor :: rest)
  end.

(** All of them start up, whatever the answers; [ray.get] raises the first error. *)
Fixpoint start_up_all (processors : list nat) (cl : Cluster) : Cluster * list (res PyErr string) :=
  match processors with
  | [] => (cl, [])
  | p :: processors =>
      let '(cl, r) := start_up_remote p cl in
      let '(cl, rs) := start_up_all processors cl in (cl, r :: rs)
  end.

Definition processor_start (remote_checkpoint_dir : option string) : act Cluster PyErr RemoteProcessor :=
  processor_object ← init_remote remote_checkpoint_dir;
  addr ← start_up_remote processor_object;
  mret (mkProcessor processor_object addr).

Definition start_many (num_processors : nat) (remote_checkpoint_dir : option string)
    : act Cluster PyErr (list RemoteProcessor) :=
  processor_objects ← init_all num_processors remote_checkpoint_dir;
  fun cl =>
    let '(cl, answers) := start_up_all processor_objects cl in
    (cl, addr ← try_collect id answers; Ok (zip_with mkProcessor processor_objects addr)).

Definition task_to_bytes (task : TaskDefinition2) : res DataFusionError Bytes :=
  map_err (fun e => Internal ("Failed to serialize TaskDefinition2 to Flexbuffer: " +:+ e)) (to_vec task).

Definition details_to_bytes (details : InitialSchedulingDetails) : res DataFusionError Bytes :=
  map_err (fun e => Internal ("Failed to serialize InitialSchedulingDetails to Flexbuffer: " +:+ e))
    (to_vec details).

Definition plan_bytes (task : TaskDefinition2) (details : InitialSchedulingDetails) : res PyErr (Bytes * Bytes) :=
  task_bytes ← map_err (fun e => "Failed to serialize TaskDefinition2: " +:+ display e) (task_to_bytes task);
  detail_bytes ←
    map_err (fun e => "Failed to serialize InitialSchedulingDetails: " +:+ display e) (details_to_bytes details);
  Ok (task_bytes, detail_bytes).

Definition call_remote (self : RemoteProcessor) (call : Call) : act Cluster PyErr () := fun cl =>
  (mkCluster (world cl) (actors cl) (inbox cl ++ [(processor_object self, call)]), Ok tt).

Definition processor_update_plan (self : RemoteProcessor) (task : TaskDefinition2) (details : InitialSchedulingDetails)
    : act Cluster PyErr () :=
  '(task_bytes, detail_bytes) ← lift (plan_bytes task details);
  call_remote self (UpdatePlan task_bytes detail_bytes).

Definition processor_update_plan_with_checkpoint (self : RemoteProcessor) (task : TaskDefinition2)
    (details : InitialSchedulingDetails) (checkpoint : N) : act Cluster PyErr () :=
  '(task_bytes, detail_bytes) ← lift (plan_bytes task details);
  call_remote self (UpdatePlanWithCheckpoint task_bytes detail_bytes checkpoint).

(** [ComputeEnv::start_processor_and_run] *)
Definition start_processor_and_run (task : TaskDefinition2) (details : InitialSchedulingDetails)
    : act Cluster PyErr RemoteProcessor :=
  processor ← processor_start None;
  _ ← processor_update_plan processor task details;
  mret processor.

(** The processor with an address, by which the coordinators know it. *)
Definition find_processor (addr : string) (cl : Cluster) : res PyErr RemoteProcessor :=
  match list_find (fun svc => service_addr svc = Ok addr) (actors cl) with
  | Some (i, _) => Ok (mkProcessor i addr)
  | None => Err "no such processor"
  end.

#[export] Instance cluster_env : ComputeEnv Cluster := {|
  start_many_processors n dir := processors ← start_many n dir; mret (processor_addr <$> processors);
  update_plan addr task details := fun cl =>
    (processor ← lift (find_processor addr cl); processor_update_plan processor task details) cl;
  update_plan_with_checkpoint addr task details checkpoint := fun cl =>
    (processor ← lift (find_processor addr cl);
     processor_update_plan_with_checkpoint processor task details checkpoint) cl;
|}.

(** ** Starting workers *)

(** The operations of the system work, and a listener has an address that is not in use. *)
Class WorkerEnvLaws := {
  bound : W -> gset string;
  local_ip_spec w : exists w' ip, local_ip w = (w', Ok ip) /\ bound w' = bound w;
  tempdir_spec w prefix : exists w' dir, tempdir prefix w = (w', Ok dir) /\ bound w' = bound w;
  bind_spec w a : exists w' addr, bind_listener a w = (w', Ok addr) /\ addr ∉ bound w /\
    bound w' = {[addr]} ∪ bound w;
  friendly_name_spec w : exists w' name, new_friendly_name w = (w', Ok name) /\ bound w' = bound w;
}.

(** A worker that has started and runs these tasks. *)
Definition serves (addr : string) (tasks : gmap string RunningTask) (svc : Service) : Prop :=
  exists wp, worker_process svc = Running wp /\ data_exchange_address wp = addr /\ wp_running_tasks wp = tasks.

Lemma serves_addr addr tasks svc : serves addr tasks svc -> service_addr svc = Ok addr.
Proof. intros (wp & Hs & <- & _). unfold service_addr, started. by rewrite Hs. Qed.

Lemma map_act_err_Ok {S E F A} (f : E -> F) (m : act S E A) s s' a :
  m s = (s', Ok a) -> map_act_err f m s = (s', Ok a).
Proof. intros Hm. unfold map_act_err. by rewrite Hm. Qed.

Section with_laws.
Context `{!WorkerEnvLaws}.

Lemma start_with_remote_ok name remote w :
  exists w' wp, start_with_remote_file_system name remote w = (w', Ok wp) /\
    wp_running_tasks wp = ∅ /\ data_exchange_address wp ∉ bound w /\
    bound w' = {[data_exchange_address wp]} ∪ bound w.
Proof.
  destruct (local_ip_spec w) as (w1 & ip & Hip & Hb1).
  destruct (tempdir_spec w1 (("[" +:+ name +:+ "]") +:+ "-local")) as (w2 & dir & Hdir & Hb2).
  destruct (bind_spec w2 (ip +:+ ":0")) as (w3 & addr & Hbind & Hfresh & Hb3).
  exists w3, (mkWorker ("[" +:+ name +:+ "]") (mkRuntime ∅ (mkManager addr ExchangeChannelStore.new true true) dir remote) ∅).
  split; [|split; [done|]].
  - unfold start_with_remote_file_system.
    erewrite act_bind_Ok by exact (map_act_err_Ok _ _ _ _ _ Hip).
    erewrite act_bind_Ok by exact (map_act_err_Ok _ _ _ _ _ Hdir).
    unfold runtime_start, manager_start, create_listener. unfold mbind, act_bind.
    by erewrite map_act_err_Ok by exact Hbind.
  - cbn. rewrite Hb3, Hb2, Hb1 in *. done.
Qed.

Lemma start_up_ok name dir w :
  exists w' svc addr, start_up (service_new name dir) w = (w', svc, Ok tt) /\ serves addr ∅ svc /\
    addr ∉ bound w /\ bound w' = {[addr]} ∪ bound w.
Proof.
  assert (exists w' wp, worker_process_fut name dir w = (w', Ok wp) /\ wp_running_tasks wp = ∅ /\ data_exchange_address wp ∉ bound w /\
    bound w' = {[data_exchange_address wp]} ∪ bound w) as (w' & wp & Hs & Ht & Hf & Hb).
  { destruct dir as [url|]; [apply start_with_remote_ok|].
    destruct (tempdir_spec w (name +:+ "-remote")) as (w1 & d & Hd & Hb1).
    destruct (start_with_remote_ok name (d, mkStateStorage ["state"]) w1) as (w' & wp & Hs & Hrest).
    exists w', wp. rewrite Hb1 in Hrest. split; [|done].
    unfold worker_process_fut, worker_start. by erewrite act_bind_Ok by exact (map_act_err_Ok _ _ _ _ _ Hd). }
  exists w', (mkService (Running wp) 0), (data_exchange_address wp).
  split; [|split; [by exists wp|done]].
  unfold start_up, service_new. cbn [worker_process wait_for_startup state_new]. by rewrite Hs.
Qed.

Lemma init_all_ok n dir cl :
  exists w svcs, init_all n dir cl =
      (mkCluster w (actors cl ++ svcs) (inbox cl), Ok (seq (length (actors cl)) n)) /\
    length svcs = n /\ Forall (fun svc => exists name, svc = service_new name dir) svcs /\
    bound w = bound (world cl).
Proof.
  revert cl. induction n as [|n IH]; intros cl.
  { exists (world cl), []. rewrite app_nil_r. by destruct cl. }
  destruct (friendly_name_spec (world cl)) as (w1 & name & Hname & Hb1).
  destruct (IH (mkCluster w1 (actors cl ++ [service_new name dir]) (inbox cl))) as (w & svcs & Hinit & Hlen & Hall & Hb).
  exists w, (service_new name dir :: svcs). cbn [world actors inbox] in *.
  split; [|split; [cbn; congruence|split; [by constructor; eauto|congruence]]].
  cbn [init_all]. unfold init_remote at 1, mbind at 1, act_bind at 1. rewrite Hname.
  erewrite act_bind_Ok by exact Hinit. rewrite length_app, Nat.add_1_r, <- (assoc_L (++)). done.
Qed.

Lemma start_up_all_ok svcs dir before w box :
  Forall (fun svc => exists name, svc = service_new name dir) svcs ->
  exists w' addrs svcs',
    start_up_all (seq (length before) (length svcs)) (mkCluster w (before ++ svcs) box) =
      (mkCluster w' (before ++ svcs') box, Ok <$> addrs) /\
    Forall2 (fun addr => serves addr ∅) addrs svcs' /\ NoDup addrs /\ (forall a, a ∈ addrs -> a ∉ bound w) /\
    length addrs = length svcs.
Proof.
  intros Hall. revert before w. induction Hall as [|svc svcs [name ->] _ IH]; intros before w.
  { exists w, [], []. repeat split; [constructor|constructor|]. intros a Ha. by apply elem_of_nil in Ha. }
  destruct (start_up_ok name dir w) as (w1 & svc & addr & Hs & Hserves & Hfresh & Hb).
  destruct (IH (before ++ [svc]) w1) as (w' & addrs & svcs' & Hrest & Hall2 & Hnd & Hout & Hlen).
  exists w', (addr :: addrs), (svc :: svcs'). split; [|split; [by constructor|split; [|split]]].
  - cbn [length seq start_up_all]. unfold start_up_remote. cbn [actors world inbox].
    rewrite list_lookup_middle by done. rewrite Hs. cbn [mbind res_bind].
    rewrite (serves_addr _ _ _ Hserves), insert_app_r_alt, Nat.sub_diag by lia. cbn [list_insert insert].
    change (<[0%nat := svc]> (service_new name dir :: svcs)) with (svc :: svcs).
    rewrite length_app, Nat.add_1_r, <- (assoc_L (++)) in Hrest. cbn [app] in Hrest. rewrite Hrest.
    by rewrite <- (assoc_L (++)).
  - constructor; [|done]. intros Ha%Hout. apply Ha. rewrite Hb. set_solver.
  - intros a [->|Ha]%elem_of_cons; [done|]. apply Hout in Ha. rewrite Hb in Ha. set_solver.
  - cbn. congruence.
Qed.

Lemma processor_addrs k addrs : processor_addr <$> zip_with mkProcessor (seq k (length addrs)) addrs = addrs.
Proof. revert k. induction addrs as [|a addrs IH]; intros k; cbn; [done|]. by rewrite IH. Qed.

Lemma start_many_ok n dir cl :
  exists w addrs svcs,
    start_many_processors n dir cl = (mkCluster w (actors cl ++ svcs) (inbox cl), Ok addrs) /\
    Forall2 (fun addr => serves addr ∅) addrs svcs /\ NoDup addrs /\
    (forall a, a ∈ addrs -> a ∉ bound (world cl)) /\ length addrs = n.
Proof.
  destruct (init_all_ok n dir cl) as (w & svcs & Hinit & Hlen & Hall & Hb).
  destruct (start_up_all_ok svcs dir (actors cl) w (inbox cl) Hall)
    as (w' & addrs & svcs' & Hup & Hserves & Hnd & Hout & Hla).
  rewrite Hlen in Hup. exists w', addrs, svcs'. split; [|split; [done|split; [done|split]]].
  - assert (try_collect id (Ok <$> addrs) = (Ok addrs : res PyErr (list string))) as Hcol.
    { apply try_collect_Ok. apply Forall2_fmap_l. apply Forall_Forall2_diag. by apply Forall_forall. }
    assert (start_many n dir cl = (mkCluster w' (actors cl ++ svcs') (inbox cl),
      Ok (zip_with mkProcessor (seq (length (actors cl)) n) addrs))) as Hmany.
    { unfold start_many, mbind at 1, act_bind at 1. rewrite Hinit, Hup, Hcol. done. }
    cbn [start_many_processors cluster_env]. erewrite act_bind_Ok by exact Hmany.
    unfold mret, act_ret. rewrite <- Hlen, <- Hla. do 2 f_equal. by rewrite processor_addrs.
  - intros a Ha. rewrite <- Hb. by apply Hout.
  - congruence.
Qed.
End with_laws.

(** ** Sending the tasks *)

(** The call by which a processor is given its task. *)
Definition call_of (addrs : list string) (details_bytes : Bytes) (assigned : TaskDefinition2 * string)
    (call : nat * Call) : Prop :=
  addrs !! call.1 = Some assigned.2 /\
  exists task_bytes, to_vec assigned.1 = Ok task_bytes /\ call.2 = UpdatePlan task_bytes details_bytes.

Lemma find_processor_ok w addrs svcs box i addr :
  Forall2 (fun addr svc => exists tasks, serves addr tasks svc) addrs svcs -> NoDup addrs -> addrs !! i = Some addr ->
  find_processor addr (mkCluster w svcs box) = Ok (mkProcessor i addr).
Proof.
  intros Hall Hnd Hi. unfold find_processor. cbn [actors].
  destruct (Forall2_lookup_l _ _ _ i addr Hall Hi) as (svc & Hsvc & tasks & Hs).
  assert (list_find (fun svc => service_addr svc = Ok addr) svcs = Some (i, svc)) as ->; [|done].
  apply list_find_Some. split; [done|]. split; [by eapply serves_addr|].
  intros j svc' Hj Hji Haddr. destruct (Forall2_lookup_r _ _ _ j svc' Hall Hj) as (addr' & Haj & tasks' & Hs').
  apply serves_addr in Hs'. rewrite Hs' in Haddr. injection Haddr as ->.
  pose proof (NoDup_lookup _ _ _ _ Hnd Haj Hi). lia.
Qed.

Lemma update_plan_ok w addrs svcs box i addr task details task_bytes details_bytes :
  Forall2 (fun addr svc => exists tasks, serves addr tasks svc) addrs svcs -> NoDup addrs -> addrs !! i = Some addr ->
  to_vec task = Ok task_bytes -> to_vec details = Ok details_bytes ->
  update_plan addr task details (mkCluster w svcs box) =
    (mkCluster w svcs (box ++ [(i, UpdatePlan task_bytes details_bytes)]), Ok tt).
Proof.
  intros Hall Hnd Hi Htb Hdet. cbn [update_plan cluster_env]. unfold mbind at 1, act_bind at 1, lift at 1.
  rewrite (find_processor_ok w addrs svcs box i addr Hall Hnd Hi).
  unfold processor_update_plan, plan_bytes, task_to_bytes, details_to_bytes. rewrite Htb, Hdet. done.
Qed.

Lemma deploy_ok details details_bytes w addrs svcs box assigned :
  Forall2 (fun addr svc => exists tasks, serves addr tasks svc) addrs svcs -> NoDup addrs ->
  to_vec details = Ok details_bytes ->
  Forall (fun '(task, addr) => is_Ok (to_vec task) /\ addr ∈ addrs) assigned ->
  exists calls, deploy details assigned (mkCluster w svcs box) = (mkCluster w svcs (box ++ calls), Ok tt) /\
    Forall2 (call_of addrs details_bytes) assigned calls.
Proof.
  intros Hall Hnd Hdet Hasg. revert box. induction Hasg as [|[task addr] assigned [[tb Htb] Hin] _ IH]; intros box.
  { exists []. rewrite app_nil_r. by split. }
  apply list_elem_of_lookup in Hin as [i Hi].
  destruct (IH (box ++ [(i, UpdatePlan tb details_bytes)])) as (calls & Hd & Hcalls).
  exists ((i, UpdatePlan tb details_bytes) :: calls). split; [|constructor; [split; [done|by exists tb]|done]].
  unfold deploy. cbn [for_each]. erewrite act_bind_Ok by (by apply (update_plan_ok _ addrs)).
  unfold deploy in Hd. rewrite Hd. by rewrite <- (assoc_L (++)).
Qed.

(** ** The actors start their tasks *)

(** A root operator: [RunningTask::start] takes no other. *)
Definition is_root (task : TaskDefinition2) : Prop :=
  def_inputs (operator task) = [] /\ def_outputs (operator task) = [].

(** The task as a worker runs it. *)
Definition running_from (c : N) (details : InitialSchedulingDetails) (task : TaskDefinition2) : gmap string RunningTask :=
  {[ task_id task := mkRunningTask task c (generations details) (input_locations details)
       (Some (generations details), Some (input_locations details)) false ]}.

Lemma handle_update_plan addr svc task details task_bytes details_bytes :
  serves addr ∅ svc -> is_root task -> carries task -> carries details ->
  to_vec task = Ok task_bytes -> to_vec details = Ok details_bytes ->
  serves addr (running_from 0 details task) (handle (UpdatePlan task_bytes details_bytes) svc).
Proof.
  intros (wp & Hs & Ha & Ht) [Hi Ho] (tb & tr & Htb & Htr & Htd) (db & dr & Hdb & Hdr & Hdd) Htb' Hdb'.
  rewrite Htb in Htb'. injection Htb' as <-. rewrite Hdb in Hdb'. injection Hdb' as <-.
  cbn [handle]. unfold service_start_task, started, decode. rewrite Hs. cbn.
  rewrite Htr. cbn. rewrite Htd, Hdr. cbn. rewrite Hdd. cbn.
  unfold start_task, start_task_from, task_start. rewrite Hi, Ho, Ht. cbn -[insert].
  rewrite lookup_empty. cbn -[insert]. by eexists.
Qed.

(** Which workers there are and which tasks they run, and which calls are still to be handled. *)
Definition deployed (details : InitialSchedulingDetails) (assigned : list (TaskDefinition2 * string))
    (calls : list (nat * Call)) (cl : Cluster) : Prop :=
  inbox cl ⊆ calls /\ NoDup (inbox cl).*1 /\ length (actors cl) = length assigned /\
  forall k task addr i call, assigned !! k = Some (task, addr) -> calls !! k = Some (i, call) ->
    exists svc, actors cl !! i = Some svc /\
      serves addr (if decide (i ∈ (inbox cl).*1) then ∅ else running_from 0 details task) svc.

(** Handling a call starts its task and leaves the other workers alone. *)
Lemma step_deployed addrs details details_bytes assigned calls cl cl' :
  NoDup calls.*1 -> Forall2 (call_of addrs details_bytes) assigned calls ->
  to_vec details = Ok details_bytes -> carries details ->
  Forall (fun '(task, _) => is_root task /\ carries task) assigned ->
  deployed details assigned calls cl -> step cl cl' -> deployed details assigned calls cl'.
Proof.
  intros Hnd Hcalls Hdb Hdet Hok (Hsub & Hbox & Hlen & Hall) Hstep.
  destruct Hstep as [w svcs before j c after svc Hbefore Hj]. cbn [inbox actors] in *.
  rewrite fmap_app, fmap_cons in Hbox. cbn [fst] in Hbox.
  assert (j ∉ (before ++ after).*1 /\ NoDup (before ++ after).*1) as [Hnot Hbox'].
  { rewrite fmap_app. apply NoDup_app in Hbox as (Hn1 & Hdis & Hn2). apply NoDup_cons in Hn2 as [Hj2 Hn2].
    split.
    - rewrite elem_of_app. intros [Hin|Hin]; [|done]. apply (Hdis j Hin). left.
    - apply NoDup_app. split; [done|]. split; [|done]. intros x Hx Hx'. apply (Hdis x Hx). by right. }
  split; [set_solver|]. split; [done|]. split; [by rewrite <- Hlen; apply length_insert|].
  intros k task addr i call Hk Hc. destruct (Hall k task addr i call Hk Hc) as (svc' & Hsvc' & Hserves).
  destruct (decide (i = j)) as [->|Hne].
  - rewrite Hj in Hsvc'. injection Hsvc' as <-.
    exists (handle c svc). split; [by apply list_lookup_insert_eq, lookup_lt_Some with svc|].
    rewrite decide_True in Hserves by (rewrite fmap_app, fmap_cons; set_solver).
    rewrite decide_False by done.
    assert ((j, c) ∈ calls) as [k' Hk']%list_elem_of_lookup by set_solver.
    assert (k' = k) as ->.
    { apply (NoDup_lookup calls.*1 k' k j Hnd); by rewrite list_lookup_fmap, ?Hk', ?Hc. }
    rewrite Hk' in Hc. injection Hc as <-.
    destruct (Forall2_lookup_lr _ _ _ _ _ _ Hcalls Hk Hk') as (_ & tb & Htb & Hc). cbn in Htb, Hc. subst c.
    destruct (proj1 (Forall_lookup _ _) Hok _ _ Hk) as [Hroot Hcar].
    by apply handle_update_plan.
  - exists svc'. cbn [actors inbox]. rewrite list_lookup_insert_ne by done. split; [done|].
    rewrite (decide_ext (i ∈ (before ++ after).*1) (i ∈ (before ++ (j, c) :: after).*1)); [done|].
    rewrite !fmap_app, fmap_cons. set_solver.
Qed.

(** Every call gets handled. *)
Lemma calls_finish cl :
  (forall i c, (i, c) ∈ inbox cl -> is_Some (actors cl !! i)) ->
  exists cl', rtc step cl cl' /\ inbox cl' = [].
Proof.
  destruct cl as [w svcs box]. cbn. revert svcs. induction box as [|[i c] box IH]; intros svcs Hin.
  { by exists (mkCluster w svcs []). }
  destruct (Hin i c) as [svc Hsvc]; [left|].
  destruct (IH (<[i := handle c svc]> svcs)) as (cl' & Hsteps & Hbox).
  { intros j d Hj. destruct (Hin j d) as [svc' Hs']; [by right|]. apply lookup_lt_is_Some.
    rewrite length_insert. by apply lookup_lt_Some in Hs'. }
  exists cl'. split; [|done]. eapply rtc_l; [|exact Hsteps].
  apply (step_call w svcs [] i c box svc); [set_solver|done].
Qed.

(** The calls of a schedule are in the order of its actors. *)
Lemma calls_index details_bytes (assigned : list (TaskDefinition2 * string)) calls k i call :
  NoDup assigned.*2 -> Forall2 (call_of assigned.*2 details_bytes) assigned calls ->
  calls !! k = Some (i, call) -> i = k.
Proof.
  intros Hnd Hcalls Hc. destruct (Forall2_lookup_r _ _ _ _ _ Hcalls Hc) as ([t a] & Ha & Hi & _). cbn in Hi.
  apply (NoDup_lookup _ i k a Hnd Hi). by rewrite list_lookup_fmap, Ha.
Qed.

Lemma calls_NoDup details_bytes (assigned : list (TaskDefinition2 * string)) calls :
  NoDup assigned.*2 -> Forall2 (call_of assigned.*2 details_bytes) assigned calls -> NoDup calls.*1.
Proof.
  intros Hnd Hcalls. apply NoDup_alt. intros k k' i Hk Hk'. rewrite list_lookup_fmap in Hk, Hk'.
  destruct (calls !! k) as [[i1 c1]|] eqn:Hc; [|done]. destruct (calls !! k') as [[i2 c2]|] eqn:Hc'; [|done].
  cbn in Hk, Hk'. apply (calls_index _ _ _ _ _ _ Hnd Hcalls) in Hc, Hc'. congruence.
Qed.

(** After the calls are made, and while they are handled, the workers are as they should be. *)
Lemma deployed_reachable details details_bytes assigned calls w svcs cl :
  NoDup assigned.*2 -> Forall2 (fun addr => serves addr ∅) assigned.*2 svcs ->
  Forall2 (call_of assigned.*2 details_bytes) assigned calls ->
  to_vec details = Ok details_bytes -> carries details ->
  Forall (fun '(task, _) => is_root task /\ carries task) assigned ->
  rtc step (mkCluster w svcs calls) cl -> deployed details assigned calls cl.
Proof.
  intros Hnd Hserves Hcalls Hdb Hdet Hok Hsteps.
  pose proof (calls_NoDup _ _ _ Hnd Hcalls) as Hndc.
  revert cl Hsteps. apply rtc_ind_r; [|intros cl cl' _ Hstep IH; by eapply step_deployed].
  split; [done|]. split; [done|].
  split; [apply Forall2_length in Hserves; rewrite length_fmap in Hserves; by symmetry|].
  intros k task addr i call Hk Hc. cbn [actors inbox].
  pose proof (calls_index _ _ _ _ _ _ Hnd Hcalls Hc) as ->. rewrite decide_True.
  - destruct (Forall2_lookup_l _ _ _ k addr Hserves) as (svc & Hsvc & Hs); [|by exists svc].
    by rewrite list_lookup_fmap, Hk.
  - apply list_elem_of_lookup. exists k. by rewrite list_lookup_fmap, Hc.
Qed.

(** Scheduling leaves a started worker for every task, and one call for each. *)
Lemma schedule_together_calls `{!WorkerEnvLaws} (tasks : list TaskDefinition2) dir w0 :
  Forall (fun task => is_Ok (to_vec task)) tasks ->
  (forall assigned : list (TaskDefinition2 * string), assigned.*1 = tasks ->
     is_Ok (to_vec (schedule_without_partitions_inner assigned))) ->
  exists w svcs calls assigned details_bytes,
    schedule_together tasks dir (mkCluster w0 [] []) = (mkCluster w svcs calls, Ok assigned) /\
    assigned.*1 = tasks /\ NoDup assigned.*2 /\ Forall2 (fun addr => serves addr ∅) assigned.*2 svcs /\
    to_vec (schedule_without_partitions_inner assigned) = Ok details_bytes /\
    Forall2 (call_of assigned.*2 details_bytes) assigned calls.
Proof.
  intros Htasks Hdetails.
  destruct (start_many_ok (length tasks) dir (mkCluster w0 [] []))
    as (w & addrs & svcs & Hmany & Hserves & Hnd & _ & Hlen).
  set (assigned := zip tasks addrs). set (details := schedule_without_partitions_inner assigned).
  assert (assigned.*1 = tasks) as Hfst by (apply fst_zip; lia).
  assert (assigned.*2 = addrs) as Hsnd by (apply snd_zip; lia).
  destruct (Hdetails assigned Hfst) as [db Hdb].
  destruct (deploy_ok details db w addrs svcs [] assigned) as (calls & Hdep & Hcalls); [|done|done|..].
  { eapply Forall2_impl; [exact Hserves|]. intros a svc Hs. by exists ∅. }
  { apply Forall_forall. intros [task addr] Hin. split.
    - apply (list_elem_of_fmap_2 fst) in Hin. rewrite Hfst in Hin. by eapply Forall_forall in Htasks.
    - apply (list_elem_of_fmap_2 snd) in Hin. by rewrite Hsnd in Hin. }
  exists w, svcs, calls, assigned, db. rewrite Hsnd. split; [|done].
  unfold schedule_together. erewrite act_bind_Ok by exact Hmany. fold assigned details.
  by erewrite act_bind_Ok by exact Hdep.
Qed.

(** C12: every worker runs the task it was given.  [schedule_together] on an empty cluster, with
    tasks and scheduling details that can be encoded and decoded, succeeds with a worker of its
    own address for every task.  In every state that the actors can reach afterwards, in any
    order of handling their calls, there are no actors but these workers; a worker that has an
    unhandled call runs nothing, any other worker runs exactly its task, from checkpoint 0 and
    with the scheduling details of the schedule; and from every such state all the calls can be
    handled. *)
Theorem scheduled_tasks_run `{!WorkerEnvLaws} (tasks : list TaskDefinition2) dir w0 :
  Forall (fun task => is_root task /\ carries task) tasks ->
  (forall assigned : list (TaskDefinition2 * string), assigned.*1 = tasks ->
     carries (schedule_without_partitions_inner assigned)) ->
  exists cl assigned,
    schedule_together tasks dir (mkCluster w0 [] []) = (cl, Ok assigned) /\
    assigned.*1 = tasks /\ NoDup assigned.*2 /\
    forall cl', rtc step cl cl' ->
      length (actors cl') = length assigned /\
      (forall i task addr, assigned !! i = Some (task, addr) ->
         exists svc, actors cl' !! i = Some svc /\
           serves addr (if decide (i ∈ (inbox cl').*1) then ∅
                        else running_from 0 (schedule_without_partitions_inner assigned) task) svc) /\
      exists cl'', rtc step cl' cl'' /\ inbox cl'' = [].
Proof.
  intros Htasks Hdetails.
  destruct (schedule_together_calls tasks dir w0) as (w & svcs & calls & assigned & db & Hrun & Hfst & Hnd & Hserves & Hdb & Hcalls).
  { eapply Forall_impl; [exact Htasks|]. intros task [_ (b & ? & Hb & _)]. by exists b. }
  { intros assigned Ha. destruct (Hdetails assigned Ha) as (b & ? & Hb & _). by exists b. }
  exists (mkCluster w svcs calls), assigned. split; [done|]. split; [done|]. split; [done|].
  intros cl' Hsteps.
  destruct (deployed_reachable (schedule_without_partitions_inner assigned) db assigned calls w svcs cl')
    as (Hsub & _ & Hlen & Hall); [done..|by apply Hdetails| |done|].
  { apply Forall_forall. intros [task addr] Hin. apply (list_elem_of_fmap_2 fst) in Hin.
    rewrite Hfst in Hin. by eapply Forall_forall in Htasks. }
  split; [done|]. split.
  - intros i task addr Hi. destruct (Forall2_lookup_l _ _ _ _ _ Hcalls Hi) as ([i' call] & Hc & _).
    pose proof (calls_index _ _ _ _ _ _ Hnd Hcalls Hc) as ->. exact (Hall i task addr i call Hi Hc).
  - apply calls_finish. intros i c Hin. apply Hsub, list_elem_of_lookup in Hin as [k Hk].
    destruct (Forall2_lookup_r _ _ _ _ _ Hcalls Hk) as ([task addr] & Ha & _).
    destruct (Hall k task addr i c Ha Hk) as (svc & Hs & _). by exists svc.
Qed.

(** ** The life of a service *)

(** Starting up settles the state of a worker: however the worker started, a second [start_up]
    changes nothing and gives the same answer.  If it succeeded the worker has an address; if
    it failed, asking for the address and starting a task fail for ever, with an error that
    says that the worker is still starting.  Before [start_up] no task can be started either. *)
Theorem startup_settles name dir w w1 svc1 r :
  start_up (service_new name dir) w = (w1, svc1, r) -> (forall why, r <> Panic why) ->
  (forall task details c,
     service_start_task_from (service_new name dir) task details c =
       (service_new name dir, Err ("Worker process is still starting " +:+
          display (Internal "Worker process is still starting")))) /\
  (forall w2, start_up svc1 w2 = (w2, svc1, r)) /\
  (r = Ok tt -> is_Ok (service_addr svc1)) /\
  (forall msg, r = Err msg -> exists e, msg = "Worker process failed to start " +:+ display e /\
     service_addr svc1 = Err ("Worker process is still starting " +:+ display e) /\
     forall task details c, service_start_task_from svc1 task details c =
       (svc1, Err ("Worker process is still starting " +:+ display e))).
Proof.
  intros Hs Hp. split; [done|]. unfold start_up, service_new in Hs. cbn [worker_process wait_for_startup state_new] in Hs.
  destruct (worker_process_fut name dir w) as [w' [wp|e|why]]; injection Hs as <- <- <-.
  - split; [done|]. split; [by eexists|done].
  - split; [done|]. split; [done|]. intros msg [= <-]. by exists e.
  - by destruct (Hp why).
Qed.

(** A plan that a worker refuses is lost: the coordinator is told that the task was sent, and
    the worker does nothing.  So it is with a root operator that has inputs or outputs, and with
    a task whose id the worker runs already. *)
Theorem refused_plan_lost addr addrs svcs w box i svc tasks task details :
  Forall2 (fun addr svc => exists tasks, serves addr tasks svc) addrs svcs -> NoDup addrs ->
  addrs !! i = Some addr -> svcs !! i = Some svc -> serves addr tasks svc ->
  carries task -> carries details ->
  ~ is_root task \/ is_Some (tasks !! task_id task) ->
  exists call, update_plan addr task details (mkCluster w svcs box) =
      (mkCluster w svcs (box ++ [(i, call)]), Ok tt) /\ serves addr tasks (handle call svc).
Proof.
  intros Hall Hnd Hi Hsvc (wp & Hs & Ha & Ht) (tb & tr & Htb & Htr & Htd) (db & dr & Hdb & Hdr & Hdd) Hbad.
  exists (UpdatePlan tb db). split; [by apply (update_plan_ok _ addrs)|].
  cbn [handle]. unfold service_start_task, started, decode. rewrite Hs. cbn.
  rewrite Htr. cbn. rewrite Htd, Hdr. cbn. rewrite Hdd. cbn.
  unfold start_task, start_task_from, task_start.
  destruct ((0 <? length (def_inputs (operator task)))%nat || (0 <? length (def_outputs (operator task)))%nat) eqn:Hio.
  { exists (with_tasks wp (wp_running_tasks wp)). done. }
  destruct Hbad as [Hroot|[t Hrun]].
  - destruct Hroot. apply orb_false_iff in Hio as [Hin Hout]. split.
    + by destruct (def_inputs (operator task)).
    + by destruct (def_outputs (operator task)).
  - rewrite Ht, Hrun. cbn -[insert]. by eexists.
Qed.

(** Nothing receives the message of [all_done]: the first call succeeds and a second one waits
    for ever. *)
Theorem all_done_once name dir :
  exists svc, all_done (service_new name dir) = (svc, Ready (Ok tt)) /\ all_done svc = (svc, Pending).
Proof. by eexists. Qed.
End service.

(** ** Reading the result (src/python/py_utils.rs) *)

Section results.
Context {Net B Client : Type}.
Context (make_client : string -> act Net DataFusionError Client).
Context (do_get : Client -> StreamingFlightTicketData -> act Net string (list (res DataFusionError (StreamItem B)))).

(** It makes a client of its own. *)
Definition create_remote_stream_no_runtime (stream_id address : string) (partitions : PartitionRange)
    : act Net DataFusionError (list (res DataFusionError (SItem B))) :=
  create_remote_stream make_client do_get stream_id address partitions.

(** The [filter_map] at the end of [stream_results]: batches and errors are kept. *)
Definition result_of (item : res DataFusionError (SItem B)) : option (res DataFusionError B) :=
  match item with
  | Err e => Some (Err e)
  | Panic w => Some (Panic w)
  | Ok (SRecordBatch b) => Some (Ok b)
  | Ok _ => None
  end.

Definition stream_results (address stream_id : string) : act Net DataFusionError (list (res DataFusionError B)) :=
  stream ← retry_future 5 (create_remote_stream_no_runtime stream_id address PartitionRangeOps.empty);
  mret (omap result_of stream).

Definition collect_inner (address stream_id : string) : act Net DataFusionError (list B) :=
  stream ← stream_results address stream_id; lift (try_collect id stream).

Context (display : DataFusionError -> string).

Definition collect (address stream_id : string) : act Net PyErr (list B) :=
  map_act_err (fun err => "Failed to collect record batches: " +:+ display err) (collect_inner address stream_id).

(** The batches of a stream. *)
Definition batches_of (items : list (StreamItem B)) : list B :=
  omap (fun i => match i with SIRecordBatch b => Some b | SIMarker _ => None end) items.

(** [collect] asks for the whole stream, gives its batches in order and drops its markers; an
    error in the stream is the result. *)
Theorem collect_reads_batches address sid net net1 net2 client items after :
  make_client address net = (net1, Ok client) ->
  do_get client (mkTicket PartitionRangeOps.empty sid 0) net1 = (net2, Ok ((Ok <$> items) ++ after)) ->
  (after = [] -> collect address sid net = (net2, Ok (batches_of items))) /\
  (forall e rest, after = Err e :: rest ->
     collect address sid net = (net2, Err ("Failed to collect record batches: " +:+ display e))).
Proof.
  intros Hc Hg.
  assert (stream_results address sid net = (net2, Ok ((Ok <$> batches_of items) ++ omap result_of (into_sitem <$> after)))) as Hs.
  { unfold stream_results. unfold mbind at 1, act_bind at 1. cbn [retry_future].
    unfold create_remote_stream_no_runtime, create_remote_stream, act_bind at 1. rewrite Hc, Hg.
    unfold mret, act_ret. do 2 f_equal.
    change (List.map into_sitem) with (fmap (M := list) (into_sitem (B := B))).
    rewrite fmap_app, omap_app. f_equal. clear. induction items as [|[m|b] items IH]; cbn; [done|done|].
    by f_equal. }
  assert (forall (l : list B) k, try_collect id ((Ok <$> l) ++ k) =
    (l' ← try_collect id k; Ok (l ++ l') : res DataFusionError (list B))) as Happ.
  { clear. intros l k. induction l as [|b l IH]; cbn; [by destruct (try_collect id k)|].
    rewrite IH. by destruct (try_collect id k). }
  assert (collect_inner address sid net =
    (net2, l ← try_collect id (omap result_of (into_sitem <$> after)); Ok (batches_of items ++ l))) as Hi.
  { unfold collect_inner. erewrite act_bind_Ok by exact Hs. unfold lift. by rewrite Happ. }
  unfold collect, map_act_err. rewrite Hi.
  split; [intros ->; cbn; by rewrite app_nil_r|by intros e rest ->].
Qed.
End results.

(** ** A cluster of two workers *)

Module ExampleCluster.
#[local] Existing Instance RowArrow.arrow.

(** The number of listeners so far; the listeners have the addresses host:0, host:1, ... *)
Definition addr_of (n : nat) : string := "host:" +:+ pretty (N.of_nat n).

#[local] Instance env : WorkerEnv nat := {|
  local_ip n := (n, Ok "host");
  tempdir prefix n := (n, Ok [prefix]);
  bind_listener _ n := (S n, Ok (addr_of n));
  new_friendly_name n := (n, Ok "friend");
|}.

#[local] Instance addr_of_inj : Inj (=) (=) addr_of.
Proof.
  intros n m Heq. apply (inj (String.app _)), (inj (pretty (A := N))) in Heq. lia.
Qed.

#[local] Instance env_laws : WorkerEnvLaws (W := nat).
Proof.
  refine {| bound n := list_to_set (addr_of <$> seq 0 n) |}.
  - intros n. by eexists _, _.
  - intros n p. by eexists _, _.
  - intros n a. eexists _, _. split; [reflexivity|]. split.
    + rewrite elem_of_list_to_set, list_elem_of_fmap. intros (k & Hk%(inj addr_of) & Hin%elem_of_seq). lia.
    + rewrite seq_S, fmap_app, list_to_set_app_L. cbn. set_solver.
  - intros n. by eexists _, _.
Defined.

(** Scheduling details as a number. *)
Abbreviation flat := (list (string * PartitionRange * list (string * N)) *
  list (string * list (string * (N * N) * PartitionRange)))%type.

Definition flatten (d : InitialSchedulingDetails) : flat :=
  ((fun g => (gen_id g, gen_partitions g,
      (fun '(sid, AnyTimeAfter n) => (sid, n)) <$> start_conditions g)) <$> generations d,
   (fun i => (stream_id i, (fun l => (address l, offset_range l, loc_partitions l)) <$> locations i))
     <$> input_locations d).

Definition unflatten (f : flat) : InitialSchedulingDetails :=
  mkInitial
    ((fun '(i, r, cs) => mkGenerationSpec i r ((fun '(sid, n) => (sid, AnyTimeAfter n)) <$> cs)) <$> f.1)
    ((fun '(sid, ls) => mkInputDetail sid ((fun '(a, o, r) => mkLocation a o r) <$> ls)) <$> f.2).

Lemma fmap_id_on {A B} (f : A -> B) (g : B -> A) (l : list A) : (forall a, g (f a) = a) -> g <$> (f <$> l) = l.
Proof. intros Hid. induction l as [|a l IH]; cbn; [done|]. by rewrite Hid, IH. Qed.

Lemma unflatten_flatten d : unflatten (flatten d) = d.
Proof.
  destruct d as [gs ls]. unfold unflatten, flatten. cbn. f_equal; apply fmap_id_on.
  - intros [i r cs]. cbn. f_equal. apply fmap_id_on. by intros [sid [n]].
  - intros [sid l]. cbn. f_equal. apply fmap_id_on. by intros [a o r].
Qed.

#[local] Instance details_bytes : Flexbuffers InitialSchedulingDetails := {|
  to_vec d := Ok [Npos (encode (flatten d))];
  get_root b := Ok b;
  deserialize b :=
    match b with
    | [Npos p] => match countable.decode p with Some f => Ok (unflatten f) | None => Err "bad details" end
    | _ => Err "bad details"
    end;
|}.

Lemma details_carried d : carries d.
Proof. eexists _, _. split; [reflexivity|]. split; [reflexivity|]. cbn. by rewrite countable.decode_encode, unflatten_flatten. Qed.

Definition task1 : TaskDefinition2 := writer "t1" "a".
Definition task2 : TaskDefinition2 := writer "t2" "b".

(** The two tasks are known by their number. *)
#[local] Instance task_bytes : Flexbuffers TaskDefinition2 := {|
  to_vec t := Ok [if bool_decide (task_id t = "t1") then 1 else 2];
  get_root b := Ok b;
  deserialize b := match b with [1] => Ok task1 | [2] => Ok task2 | _ => Err "bad task" end;
|}.

Definition display (_ : DataFusionError) : string := "error".

(** Both tasks run once their workers have handled the calls. *)
Lemma scheduled_tasks_run_witness :
  exists cl cl' assigned,
    schedule_together (ComputeEnv0 := cluster_env display (Client := ())) [task1; task2] None (mkCluster 0%nat [] []) =
      (cl, Ok assigned) /\ assigned.*1 = [task1; task2] /\ NoDup assigned.*2 /\
    rtc (step display) cl cl' /\ inbox cl' = [] /\ length (actors cl') = 2%nat /\
    forall i task addr, assigned !! i = Some (task, addr) -> exists svc, actors cl' !! i = Some svc /\
      serves addr (running_from 0 (schedule_without_partitions_inner assigned) task) svc.
Proof.
  destruct (scheduled_tasks_run (Client := ()) display [task1; task2] None 0%nat) as (cl & assigned & Hrun & Hfst & Hnd & Hall).
  - repeat constructor; eexists _, _; (split; [reflexivity|]); split; reflexivity.
  - intros assigned _. apply details_carried.
  - destruct (Hall cl (rtc_refl _ cl)) as (_ & _ & cl' & Hsteps & Hbox).
    exists cl, cl', assigned. split; [exact Hrun|]. split; [exact Hfst|]. split; [exact Hnd|].
    split; [exact Hsteps|]. split; [exact Hbox|].
    destruct (Hall cl' Hsteps) as (Hlen & Hsvc & _).
    split; [by rewrite Hlen, <- (length_fmap fst), Hfst|]. intros i task addr Hi.
    destruct (Hsvc i task addr Hi) as (svc & Hs & Hserves). exists svc. split; [exact Hs|].
    rewrite Hbox in Hserves. exact Hserves.
Defined.

Lemma startup_settles_witness :
  exists w1 svc1, start_up (Client := ()) display (service_new "w" None) 0%nat = (w1, svc1, Ok tt) /\
    is_Ok (service_addr display svc1).
Proof.
  destruct (start_up (Client := ()) display (service_new "w" None) 0%nat) as [[w1 svc1] r] eqn:Hs.
  pose proof (startup_settles (Client := ()) display "w" None 0%nat w1 svc1 r Hs) as Hst.
  vm_compute in Hs. injection Hs as <- <- <-.
  destruct (Hst ltac:(done)) as (_ & _ & Hok & _).
  eexists _, _. split; [reflexivity|]. by apply Hok.
Defined.
End ExampleCluster.
