(* ===== verification/BatchStreams.v ===== *)
(** * Streams of record batches (../max_rows.rs, ../isolator.rs, ../util.rs)

    The pieces of the batch engine that work on streams of batches: [max_rows_stream] cuts
    batches, [PartitionIsolatorExec] picks a partition of its input, and
    [CombinedRecordBatchStream] merges streams, polling them in turn from a random start and
    removing those that ended.  Paths are relative to src/src/streaming/. *)

From S2P Require Import Prelude Arrow Stream.

Section streams.
Context {A : Type}.

(** A stream as the answers to its next polls; [None] is [Poll::Pending], and when none is left
    the stream answers [Ready(None)]. *)
Abbreviation BatchStream := (list (option (res DataFusionError A))).

Definition poll_batch_stream (s : BatchStream)
    : Poll (option (res DataFusionError A)) * BatchStream :=
  match s with
  | [] => (Ready None, [])
  | None :: s => (Pending, s)
  | Some item :: s => (Ready (Some item), s)
  end.

(** ** [CombinedRecordBatchStream] *)

(** [Vec::swap_remove] at an index in range: the last element takes the place. *)
Definition swap_remove (idx : nat) (entries : list BatchStream) : list BatchStream :=
  match last entries with
  | Some y => <[idx := y]> (removelast entries)
  | None => entries
  end.

(** The next index after the entry at [idx] was removed: it wraps at the end of the vector, and
    skips the entry that was swapped in if that was already polled. *)
Definition after_removal (start idx : nat) (entries : list BatchStream) : nat :=
  if (idx =? length entries)%nat then 0
  else if (idx <? start)%nat && (start <=? length entries)%nat
       then ((idx + 1) mod length entries)%nat else idx.

(** The [for _ in 0..self.entries.len()] loop: what it returns, if anything, and the entries. *)
Fixpoint poll_entries (n start idx : nat) (entries : list BatchStream)
    : option (res DataFusionError A) * list BatchStream :=
  match n with
  | O => (None, entries)
  | S n =>
      match entries !! idx with
      | None => (Some (Panic "called `Option::unwrap()` on a `None` value"), entries)
      | Some s =>
          match poll_batch_stream s with
          | (Ready (Some val), s) => (Some val, <[idx := s]> entries)
          | (Ready None, _) =>
              let entries := swap_remove idx entries in
              poll_entries n start (after_removal start idx entries) entries
          | (Pending, s) =>
              poll_entries n start ((idx + 1) mod length entries)%nat (<[idx := s]> entries)
          end
      end
  end.

(** [start] is the answer of [thread_rng_n(self.entries.len())]. *)
Definition combined_poll_next (start : nat) (entries : list BatchStream)
    : Poll (option (res DataFusionError A)) * list BatchStream :=
  match poll_entries (length entries) start start entries with
  | (Some val, entries) => (Ready (Some val), entries)
  | (None, []) => (Ready None, [])
  | (None, entries) => (Pending, entries)
  end.

(** Poll until the stream ends; [rng k n] is the random start of the [k]-th poll. *)
Fixpoint drain_combined (fuel : nat) (rng : nat -> nat -> nat) (entries : list BatchStream)
    : option (list (res DataFusionError A)) :=
  match fuel with
  | O => None
  | S fuel =>
      match combined_poll_next (rng fuel (length entries)) entries with
      | (Ready None, _) => Some []
      | (Ready (Some x), entries) => cons x <$> drain_combined fuel rng entries
      | (Pending, entries) => drain_combined fuel rng entries
      end
  end.

(** ** One poll visits every entry at most once

    While the loop runs, the entries that it visited (P) and those that it did not (U, in the
    order in which it will) lie in the vector in one of two shapes: before the index wraps
    around, and after. *)
Definition phase (start idx : nat) (entries P U : list BatchStream) : Prop :=
  (exists V W, entries = V ++ P ++ W /\ U = W ++ V /\ length V = start /\
    idx = length (V ++ P) /\ W <> []) \/
  (exists P1 P2, entries = P2 ++ U ++ P1 /\ P = P1 ++ P2 /\ idx = length P2 /\
    (length (P2 ++ U) = start \/ P1 = [] /\ (length (P2 ++ U) <= start)%nat)) \/
  (entries ≡ₚ P /\ U = []).

Lemma phase_perm start idx entries P U : phase start idx entries P U -> entries ≡ₚ P ++ U.
Proof.
  intros [(V & W & -> & -> & _)|[(P1 & P2 & -> & -> & _)|[-> ->]]].
  - solve_Permutation.
  - solve_Permutation.
  - by rewrite app_nil_r.
Qed.

Lemma phase_initial start entries :
  (start < length entries)%nat -> exists U, U ≡ₚ entries /\ phase start start entries [] U.
Proof.
  intros Hlt. exists (drop start entries ++ take start entries). split.
  - rewrite (Permutation_app_comm (drop _ _)). by rewrite take_drop.
  - left. exists (take start entries), (drop start entries). cbn. rewrite take_drop, app_nil_r.
    rewrite length_take. split; [done|]. split; [done|]. split; [lia|]. split; [lia|].
    intros Hd%(f_equal length). rewrite length_drop in Hd. cbn in Hd. lia.
Qed.

Lemma phase_head start idx entries P x U :
  phase start idx entries P (x :: U) -> entries !! idx = Some x.
Proof.
  intros [(V & W & -> & HU & _ & -> & HW)|[(P1 & P2 & -> & _ & -> & _)|[_ ?]]]; [| |done].
  - destruct W as [|w W]; [done|]. injection HU as -> ->. by rewrite (assoc_L (++)), list_lookup_middle.
  - by rewrite <- app_comm_cons, list_lookup_middle.
Qed.

Lemma insert_middle a (x y : BatchStream) b : <[length a := y]> (a ++ x :: b) = a ++ y :: b.
Proof. by rewrite insert_app_r_alt, Nat.sub_diag. Qed.

Lemma swap_remove_last a (x : BatchStream) : swap_remove (length a) (a ++ [x]) = a.
Proof.
  unfold swap_remove. rewrite last_snoc, removelast_last. apply list_insert_ge. done.
Qed.

Lemma swap_remove_middle a (x y : BatchStream) b :
  swap_remove (length a) (a ++ x :: b ++ [y]) = a ++ y :: b.
Proof.
  unfold swap_remove. rewrite app_comm_cons, (assoc_L (++)), last_snoc, removelast_last.
  by rewrite insert_middle.
Qed.

(** A pending entry is visited. *)
Lemma phase_pending start idx entries P x U s :
  phase start idx entries P (x :: U) ->
  exists P', P' ≡ₚ P ++ [s] /\
    phase start ((idx + 1) mod length entries)%nat (<[idx := s]> entries) P' U.
Proof.
  intros Hph. exists (P ++ [s]). split; [done|].
  destruct Hph as [(V & W & -> & HU & HV & -> & HW)|[(P1 & P2 & -> & -> & -> & Hs)|[_ ?]]]; [| |done].
  - destruct W as [|w W]; [done|]. injection HU as -> ->.
    rewrite (assoc_L (++)), insert_middle. destruct W as [|w' W].
    + right; left. exists (P ++ [s]), []. rewrite !length_app. cbn [length app].
      rewrite Nat.Div0.mod_same, app_nil_r, <- (assoc_L (++)). auto.
    + left. exists V, (w' :: W). rewrite !length_app. cbn [length].
      rewrite Nat.mod_small by lia. rewrite <- !(assoc_L (++)). split_and!; try done; lia.
  - rewrite <- app_comm_cons, insert_middle. destruct (U ++ P1) as [|z r] eqn:Hz.
    + apply app_eq_nil in Hz as [-> ->]. by right; right.
    + right; left. exists P1, (P2 ++ [s]). rewrite <- !(assoc_L (++)). cbn [app].
      rewrite !length_app in *. cbn [length] in *.
      assert (length (U ++ P1) = S (length r)) as Hl by by rewrite Hz.
      rewrite Nat.mod_small by lia. rewrite Hz. split_and!; [done..|lia|].
      destruct Hs as [Hs|[-> Hs]]; [left|right; split; [done|]]; lia.
Qed.

(** An entry that ended is removed, and the one that takes its place is only skipped if it was
    visited. *)
Lemma phase_ended start idx entries P x U :
  phase start idx entries P (x :: U) ->
  exists P' U', P' ≡ₚ P /\ U' ≡ₚ U /\
    phase start (after_removal start idx (swap_remove idx entries)) (swap_remove idx entries) P' U'.
Proof.
  intros [(V & W & -> & HU & HV & -> & HW)|[(P1 & P2 & -> & -> & -> & Hs)|[_ ?]]]; [| |done].
  - destruct W as [|w W]; [done|]. injection HU as -> ->. rewrite (assoc_L (++)).
    destruct W as [|y W] using rev_ind.
    + exists P, V. rewrite swap_remove_last. unfold after_removal. rewrite Nat.eqb_refl.
      split; [done|]. split; [done|]. right; left. exists P, []. rewrite app_nil_r. auto.
    + exists P, ((y :: W) ++ V). rewrite swap_remove_middle. split; [done|].
      split; [solve_Permutation|]. left. exists V, (y :: W). unfold after_removal.
      rewrite !length_app. cbn [length]. rewrite (proj2 (Nat.eqb_neq _ _)) by lia.
      rewrite (proj2 (Nat.ltb_ge _ _)) by lia. by rewrite <- !(assoc_L (++)).
  - destruct P1 as [|y P1 _] using rev_ind.
    + rewrite app_nil_r. destruct U as [|y U _] using rev_ind.
      * exists P2, []. rewrite swap_remove_last. split; [done|]. split; [done|]. by right; right.
      * exists P2, (y :: U). rewrite swap_remove_middle. split; [done|]. split; [solve_Permutation|].
        right; left. exists [], P2. unfold after_removal. rewrite !length_app in *.
        cbn [length] in *. rewrite !length_app in *. cbn [length] in *.
        rewrite (proj2 (Nat.eqb_neq _ _)) by lia. rewrite (proj2 (Nat.leb_gt _ _)) by lia.
        rewrite andb_false_r, app_nil_r. repeat split. right. split; [done|lia].
    + exists (P1 ++ P2 ++ [y]), U. rewrite <- app_comm_cons, (assoc_L (++) U), swap_remove_middle.
      split; [solve_Permutation|]. split; [done|].
      destruct Hs as [Hs|[Hs _]]; [|by destruct P1]. unfold after_removal.
      rewrite !length_app in *. cbn [length] in *. rewrite length_app.
      rewrite (proj2 (Nat.eqb_neq _ _)) by lia. rewrite (proj2 (Nat.ltb_lt _ _)) by lia.
      rewrite (proj2 (Nat.leb_le _ _)) by lia. cbn [andb].
      destruct (U ++ P1) as [|z r] eqn:Hz.
      * apply app_eq_nil in Hz as [-> ->]. by right; right.
      * right; left. exists P1, (P2 ++ [y]). rewrite <- Hz, <- !(assoc_L (++)). cbn [app].
        rewrite !length_app. cbn [length].
        assert (length (U ++ P1) = S (length r)) as Hl by by rewrite Hz.
        rewrite length_app in Hl. rewrite Nat.mod_small by lia. repeat split. left. lia.
Qed.

(** What a poll did to the entries [U] that it may visit: it removed those that ended ([D]),
    saw [Pe] pending, and stopped at the first that was ready. *)
Definition polled (P U : list BatchStream) (out : option (res DataFusionError A))
    (entries' : list BatchStream) : Prop :=
  exists D Pe, Forall (fun s => s = []) D /\
  match out with
  | Some val => exists s rest, U ≡ₚ D ++ (cons None <$> Pe) ++ (Some val :: s) :: rest /\
                  entries' ≡ₚ P ++ Pe ++ s :: rest
  | None => U ≡ₚ D ++ (cons None <$> Pe) /\ entries' ≡ₚ P ++ Pe
  end.

Lemma insert_perm (l R : list BatchStream) i x y :
  l !! i = Some x -> l ≡ₚ x :: R -> <[i := y]> l ≡ₚ y :: R.
Proof.
  intros (l1 & l2 & -> & ->)%list_elem_of_split_length Hp.
  rewrite insert_middle. rewrite <- Permutation_middle in *.
  apply Permutation_cons_inv in Hp. by rewrite Hp.
Qed.

Lemma poll_entries_polled start idx entries P U :
  phase start idx entries P U ->
  let '(out, entries') := poll_entries (length U) start idx entries in polled P U out entries'.
Proof.
  remember (length U) as n eqn:Hn. revert idx entries P U Hn.
  induction n as [|n IH]; intros idx entries P U Hn Hph; cbn [poll_entries].
  { destruct U; [|done]. apply phase_perm in Hph. by exists [], []. }
  destruct U as [|x U]; [done|]. injection Hn as Hn.
  rewrite (phase_head _ _ _ _ _ _ Hph). destruct x as [|[val|] s]; cbn [poll_batch_stream].
  - destruct (phase_ended _ _ _ _ _ _ Hph) as (P' & U' & HP & HU & Hph').
    rewrite <- (Permutation_length HU) in Hn. specialize (IH _ _ _ _ Hn Hph').
    destruct (poll_entries n _ _ _) as [[val|] e'].
    + destruct IH as (D & Pe & HD & s & rest & Hu & He). exists ([] :: D), Pe.
      split; [by constructor|]. exists s, rest. rewrite <- HU, Hu, He, HP. done.
    + destruct IH as (D & Pe & HD & Hu & He). exists ([] :: D), Pe.
      split; [by constructor|]. rewrite <- HU, Hu, He, HP. done.
  - exists [], []. split; [done|]. exists s, U. split; [done|]. cbn [app fmap list_fmap].
    rewrite <- (Permutation_middle P U s).
    eapply insert_perm; [by eapply phase_head|]. rewrite (phase_perm _ _ _ _ _ Hph).
    by rewrite <- Permutation_middle.
  - destruct (phase_pending _ _ _ _ _ _ s Hph) as (P' & HP & Hph').
    specialize (IH _ _ _ _ Hn Hph').
    destruct (poll_entries n _ _ _) as [[val|] e'].
    + destruct IH as (D & Pe & HD & s' & rest & Hu & He). exists D, (s :: Pe).
      split; [done|]. exists s', rest. rewrite Hu, He, HP. cbn. split; [by rewrite <- !Permutation_middle|by rewrite <- (assoc_L (++))].
    + destruct IH as (D & Pe & HD & Hu & He). exists D, (s :: Pe).
      split; [done|]. rewrite Hu, He, HP. cbn. split; [by rewrite <- !Permutation_middle|by rewrite <- (assoc_L (++))].
Qed.
(** One poll, from the outside. *)
Lemma combined_poll_spec start entries :
  (entries <> [] -> start < length entries)%nat ->
  match combined_poll_next start entries with
  | (Ready (Some val), entries') => polled [] entries (Some val) entries'
  | (Ready None, _) => Forall (fun s => s = []) entries
  | (Pending, entries') => entries' <> [] /\ polled [] entries None entries'
  end.
Proof.
  intros Hstart. unfold combined_poll_next. destruct (decide (entries = [])) as [->|Hne]; [by constructor|].
  destruct (phase_initial start entries (Hstart Hne)) as (U & HU & Hph).
  apply poll_entries_polled in Hph. rewrite (Permutation_length HU) in Hph.
  destruct (poll_entries _ _ _ _) as [[val|] e'].
  - destruct Hph as (D & Pe & HD & s & rest & Hu & He). rewrite HU in Hu. exists D, Pe. eauto 10.
  - destruct Hph as (D & Pe & HD & Hu & He). rewrite HU in Hu. destruct e' as [|e e'].
    + apply Permutation_nil_l in He. cbn in He. subst Pe. cbn in Hu. rewrite app_nil_r in Hu. by rewrite Hu.
    + split; [done|]. exists D, Pe. auto.
Qed.

(** ** The merged stream *)

(** [out] takes the items of the lists in some order that keeps the order of each. *)
Inductive interleaving {T} : list (list T) -> list T -> Prop :=
  | interleaving_nil ls : Forall (fun l => l = []) ls -> interleaving ls []
  | interleaving_cons ls x l rest out :
      ls ≡ₚ (x :: l) :: rest -> interleaving (l :: rest) out -> interleaving ls (x :: out).

Lemma interleaving_perm {T} (ls ls' : list (list T)) out :
  ls ≡ₚ ls' -> interleaving ls out -> interleaving ls' out.
Proof.
  intros Hp Hi. destruct Hi as [ls Hall|ls x l rest out Hls Hi].
  - constructor. by rewrite <- Hp.
  - econstructor; [by rewrite <- Hp|done].
Qed.

Lemma interleaving_ended {T} (ended ls : list (list T)) out :
  Forall (fun l => l = []) ended -> interleaving ls out -> interleaving (ended ++ ls) out.
Proof.
  intros He Hi. induction Hi as [ls Hall|ls x l rest out Hls Hi IH].
  - constructor. by apply Forall_app.
  - apply (interleaving_cons _ x l (ended ++ rest)).
    + by rewrite Hls, Permutation_middle.
    + eapply interleaving_perm; [|exact IH]. by rewrite Permutation_middle.
Qed.

(** The items a stream will deliver, and the polls it will answer before its end. *)
Definition items (s : BatchStream) : list (res DataFusionError A) := omap id s.
Definition polls_left (entries : list BatchStream) : nat := sum_list (length <$> entries).

Lemma polls_left_perm e e' : e ≡ₚ e' -> polls_left e = polls_left e'.
Proof. intros Hp. unfold polls_left. induction Hp; cbn in *; lia. Qed.

Lemma polls_left_app e e' : polls_left (e ++ e') = (polls_left e + polls_left e')%nat.
Proof. unfold polls_left. induction e as [|s e IH]; cbn in *; lia. Qed.

Lemma polls_left_polled D Pe R :
  polls_left (D ++ (cons None <$> Pe) ++ R) = (polls_left D + polls_left Pe + length Pe + polls_left R)%nat.
Proof.
  rewrite !polls_left_app. enough (polls_left (cons None <$> Pe) = polls_left Pe + length Pe)%nat by lia.
  unfold polls_left. induction Pe as [|s Pe IH]; cbn in *; lia.
Qed.

Lemma items_polled D Pe R :
  items <$> (D ++ (cons None <$> Pe) ++ R) = (items <$> D) ++ (items <$> Pe ++ R).
Proof. rewrite !fmap_app. do 2 f_equal. induction Pe; cbn; by f_equal. Qed.

Lemma items_ended D : Forall (fun s => s = []) D -> Forall (fun l => l = []) (items <$> D).
Proof. induction 1 as [|s D -> _ IH]; cbn; constructor; done. Qed.

(** Draining the merged stream ends with an interleaving. *)
Lemma drain_combined_interleaving rng entries fuel :
  (forall k n, 0 < n -> rng k n < n)%nat -> (polls_left entries < fuel)%nat ->
  exists outs, drain_combined fuel rng entries = Some outs /\ interleaving (items <$> entries) outs.
Proof.
  intros Hrng Hfuel.
  assert (forall k (e : list BatchStream), e <> [] -> rng k (length e) < length e)%nat as Hstart.
  { intros k e He. apply Hrng. destruct e; [done|cbn; lia]. }
  revert entries Hfuel. induction fuel as [|fuel IH]; intros entries Hfuel; [lia|].
  cbn [drain_combined]. pose proof (combined_poll_spec _ _ (Hstart fuel entries)) as Hp.
  destruct (combined_poll_next _ _) as [[[val|]|] e'].
  - destruct Hp as (D & Pe & HD & s & rest & Hu & He'). cbn in He'.
    rewrite (polls_left_perm _ _ Hu), polls_left_polled in Hfuel.
    destruct (IH e') as (outs & -> & Hi).
    { rewrite (polls_left_perm _ _ He'), polls_left_app. unfold polls_left in *. cbn in *. lia. }
    exists (val :: outs). split; [done|].
    eapply interleaving_perm; [by rewrite Hu, items_polled|].
    apply interleaving_ended; [by apply items_ended|].
    apply (interleaving_cons _ val (items s) (items <$> Pe ++ rest)).
    + rewrite !fmap_app. cbn. by rewrite <- Permutation_middle.
    + eapply interleaving_perm; [|exact Hi]. rewrite He', !fmap_app. cbn.
      by rewrite <- Permutation_middle.
  - exists []. split; [done|]. constructor. by apply items_ended.
  - destruct Hp as (Hne & D & Pe & HD & Hu & He'). cbn in He'.
    rewrite <- (app_nil_r (cons None <$> Pe)) in Hu.
    rewrite (polls_left_perm _ _ Hu), polls_left_polled in Hfuel.
    destruct (IH e') as (outs & -> & Hi).
    { rewrite (polls_left_perm _ _ He'). apply Permutation_length in He'.
      destruct e'; [done|]. cbn in He'. lia. }
    exists outs. split; [done|].
    eapply interleaving_perm; [by rewrite Hu, items_polled|].
    apply interleaving_ended; [by apply items_ended|].
    eapply interleaving_perm; [|exact Hi]. by rewrite He', app_nil_r.
Qed.

(** C13: merging record batch streams loses nothing and starves nobody.  For every choice of the
    random starts, a poll of the merged stream that answers pending has polled every stream
    that is left, each once (so each will wake the task), and removed only streams that ended;
    and polling to the end terminates and delivers an interleaving of the items of all streams
    that keeps the order within each. *)
Theorem combined_stream_merges rng entries fuel :
  (forall k n, 0 < n -> rng k n < n)%nat -> (polls_left entries < fuel)%nat ->
  (forall k entries', combined_poll_next (rng k (length entries)) entries = (Pending, entries') ->
     exists ended, Forall (fun s => s = []) ended /\ entries ≡ₚ ended ++ (cons None <$> entries')) /\
  exists outs, drain_combined fuel rng entries = Some outs /\
    interleaving (items <$> entries) outs.
Proof.
  intros Hrng Hfuel. split; [|by apply drain_combined_interleaving].
  intros k e' He. assert (entries <> [] -> rng k (length entries) < length entries)%nat as Hstart.
  { intros Hne. apply Hrng. destruct entries; [done|cbn; lia]. }
  pose proof (combined_poll_spec _ _ Hstart) as Hp.
  rewrite He in Hp. destruct Hp as (_ & D & Pe & HD & Hu & He'). cbn in He'.
  exists D. split; [done|]. by rewrite He'.
Qed.
End streams.

Lemma combined_stream_merges_witness :
  exists outs, drain_combined (A := N) 9 (fun k n => (k * 7 + 5) mod n)%nat
    [[None; Some (Ok 1); Some (Ok 2)]; [Some (Ok 3)]; []; [None; None; Some (Ok 4)]] = Some outs /\
  interleaving [[Ok 1; Ok 2]; [Ok 3]; []; [Ok 4]] outs.
Proof.
  apply (combined_stream_merges (A := N) (fun k n => (k * 7 + 5) mod n)%nat
    [[None; Some (Ok 1); Some (Ok 2)]; [Some (Ok 3)]; []; [None; None; Some (Ok 4)]] 9).
  - intros k n Hn. apply Nat.mod_upper_bound. lia.
  - vm_compute. lia.
Defined.

(** ** Limiting the rows of a batch

    [num_rows] is a [usize], and [offset] never exceeds it, so the additions do not overflow. *)

Section max_rows.
Context `{Arrow}.

Abbreviation BatchResult := (res DataFusionError Batch).

(** The [while rows_remaining > max_rows] loop and the remainder; one unit of fuel per slice. *)
Fixpoint slices (fuel : nat) (batch : Batch) (max_rows offset rows_remaining : nat)
    : option (list Batch) :=
  match fuel with
  | O => None
  | S fuel =>
      if (max_rows <? rows_remaining)%nat then
        cons (slice batch offset max_rows) <$>
          slices fuel batch max_rows (offset + max_rows) (rows_remaining - max_rows)
      else Some [slice batch offset rows_remaining]
  end.

(** What is yielded for one item of the input. *)
Definition limit_rows (fuel max_rows : nat) (batch_res : BatchResult) : option (list BatchResult) :=
  match batch_res with
  | Ok batch =>
      if (max_rows <? num_rows batch)%nat then
        List.map Ok <$> slices fuel batch max_rows 0 (num_rows batch)
      else Some [Ok batch]
  | Err e => Some [Err e]
  | Panic w => Some [Panic w]
  end.

Definition max_rows_stream (fuel : nat) (in_stream : list BatchResult) (max_rows : nat)
    : option (list BatchResult) :=
  (@concat BatchResult) <$> mapM (limit_rows fuel max_rows) in_stream.

Record MaxRowsExec (Plan : Type) := mkMaxRows { input : Plan; max_rows : nat }.
Arguments mkMaxRows {Plan} _ _.
Arguments input {Plan} _.
Arguments max_rows {Plan} _.

(** [execute]; [input_execute] is [ExecutionPlan::execute] of the input plan, and the fuel, which
    may depend on the stream, that of [max_rows_stream]. *)
Definition max_rows_execute {Plan} (input_execute : Plan -> nat -> res DataFusionError (list BatchResult))
    (fuel : list BatchResult -> nat) (self : MaxRowsExec Plan) (partition : nat)
    : res DataFusionError (option (list BatchResult)) :=
  stream ← input_execute (input self) partition;
  Ok (max_rows_stream (fuel stream) stream (max_rows self)).

Definition max_rows_with_new_children {Plan} (self : MaxRowsExec Plan) (children : list Plan)
    : res DataFusionError (MaxRowsExec Plan) :=
  match children with
  | [child] => Ok (mkMaxRows child (max_rows self))
  | _ => Panic "assertion `left == right` failed"
  end.

(** ** Isolating partitions *)

Record PartitionIsolatorExec (Plan : Type) := mkIsolator { iso_input : Plan; partition_count : nat }.
Arguments mkIsolator {Plan} _ _.
Arguments iso_input {Plan} _.
Arguments partition_count {Plan} _.

(** [execute]; [partition_group] is the extension [PartitionGroup] of the session. *)
Definition isolator_execute {Plan} (input_execute : Plan -> nat -> res DataFusionError (list BatchResult))
    (self : PartitionIsolatorExec Plan) (partition_group : option (list nat)) (partition : nat)
    : res DataFusionError (list BatchResult) :=
  partition_group ← ok_or (Internal "PartitionGroup not set in session config") partition_group;
  if (partition_count self <? partition)%nat then
    Err (Internal ("Invalid partition " +:+ pretty partition +:+ " for PartitionIsolatorExec"))
  else
    match partition_group !! partition with
    | Some actual_partition_number => input_execute (iso_input self) actual_partition_number
    | None => Ok []
    end.
End max_rows.

(** ** The limit holds and the rows are kept *)

Section max_rows_correct.
Context `{ArrowLaws}.

Abbreviation BatchResult := (res DataFusionError Batch).

(** The rows of a stream, in order, with the errors in their places. *)
Definition row_items (r : BatchResult) : list (res DataFusionError Row) :=
  match r with
  | Ok b => List.map Ok (rows b)
  | Err e => [Err e]
  | Panic w => [Panic w]
  end.

(** A result whose batch, if any, respects the limit and has the schema. *)
Definition limited (limit : nat) (schema : Schema) (r : BatchResult) : Prop :=
  forall b, r = Ok b -> (num_rows b <= limit)%nat /\ batch_schema b = schema.

Lemma slices_spec limit fuel batch offset n :
  (0 < limit)%nat -> (1 <= n <= fuel)%nat -> (offset + n = num_rows batch)%nat ->
  exists out, slices fuel batch limit offset n = Some out /\
    (out ≫= rows) = drop offset (rows batch) /\
    Forall (fun b => (num_rows b <= limit)%nat /\ batch_schema b = batch_schema batch) out.
Proof.
  intros Hl. revert offset n. induction fuel as [|fuel IH]; intros offset n Hn Ho; [lia|].
  cbn [slices]. pose proof (num_rows_rows batch) as Hr.
  destruct (Nat.ltb_spec limit n) as [Hlt|Hge].
  - destruct (IH (offset + limit)%nat (n - limit)%nat) as (out & -> & Hrows & Hall); [lia..|].
    eexists. split; [done|]. split.
    + cbn. rewrite slice_rows by lia. rewrite Hrows. rewrite <- drop_drop. apply take_drop.
    + constructor; [|done]. rewrite num_rows_slice by lia. by rewrite slice_schema.
  - eexists. split; [done|]. split.
    + cbn. rewrite slice_rows by lia. rewrite app_nil_r. apply take_ge.
      rewrite length_drop. lia.
    + constructor; [|done]. rewrite num_rows_slice by lia. by rewrite slice_schema.
Qed.

Lemma limit_rows_spec limit schema fuel r :
  (0 < limit)%nat ->
  (forall b, r = Ok b -> (num_rows b <= fuel)%nat /\ batch_schema b = schema) ->
  exists out, limit_rows fuel limit r = Some out /\ out ≫= row_items = row_items r /\
    Forall (limited limit schema) out.
Proof.
  intros Hl Hr. destruct r as [b|e|w]; cbn [limit_rows].
  2-3: eexists; split; [done|]; split; [done|]; by repeat constructor.
  destruct (Hr b eq_refl) as [Hf Hs]. destruct (Nat.ltb_spec limit (num_rows b)) as [Hlt|Hge].
  - destruct (slices_spec limit fuel b 0 (num_rows b)) as (out & -> & Hrows & Hall); [lia..|].
    eexists. split; [done|]. split.
    + change (row_items (Ok b)) with (List.map (Ok (E := DataFusionError)) (drop 0 (rows b))).
      rewrite <- Hrows. clear. induction out as [|b out IH]; cbn; [done|].
      by rewrite map_app, <- IH.
    + apply Forall_map. eapply Forall_impl; [exact Hall|]. intros x [Hx Hsx] ? [= <-].
      by rewrite Hsx.
  - eexists. split; [done|]. split; [by cbn; rewrite app_nil_r|].
    constructor; [|done]. by intros ? [= <-].
Qed.

(** [max_rows_stream] honours its limit and keeps the data.  For a positive limit, the
    stream ends (one slice per row is fuel enough), every batch has at most [limit] rows and
    the schema of the input, and the rows, with the errors in their places, are those of the
    input in the same order.  With the limit 0 the first batch with a row is sliced for ever:
    no fuel is enough. *)
Theorem max_rows_stream_limits limit schema fuel ins :
  (forall b, Ok b ∈ ins -> (num_rows b <= fuel)%nat /\ batch_schema b = schema) ->
  ((0 < limit)%nat ->
    exists out, max_rows_stream fuel ins limit = Some out /\
      Forall (limited limit schema) out /\ out ≫= row_items = ins ≫= row_items) /\
  ((exists b, Ok b ∈ ins /\ (0 < num_rows b)%nat) ->
    forall fuel', max_rows_stream fuel' ins 0 = None).
Proof.
  intros Hins. split.
  - intros Hl. unfold max_rows_stream. induction ins as [|r ins IH]; [by eexists|].
    destruct IH as (out & Ho & Hall & Hrows); [set_solver|].
    destruct (limit_rows_spec limit schema fuel r Hl) as (o & Hlr & Hor & Hao).
    { intros b ->. apply Hins. set_solver. }
    cbn [mapM]. rewrite Hlr. cbn. destruct (mapM _ ins) as [k|]; [|done]. cbn in *.
    injection Ho as <-. eexists. split; [done|]. split; [by apply Forall_app|].
    by rewrite bind_app, Hor, Hrows.
  - intros (b & Hb & Hn) fuel'. unfold max_rows_stream.
    enough (mapM (limit_rows fuel' 0) ins = None) as -> by done.
    assert (forall f o, slices f b 0 o (num_rows b) = None) as Hs.
    { induction f as [|f IH]; intros o; [done|]. cbn [slices].
      rewrite (proj2 (Nat.ltb_lt _ _) Hn), Nat.sub_0_r, IH. done. }
    clear Hins. induction ins as [|r ins IH]; [by apply elem_of_nil in Hb|].
    cbn [mapM]. apply elem_of_cons in Hb as [<-|Hb].
    + cbn [limit_rows]. by rewrite (proj2 (Nat.ltb_lt _ _) Hn), Hs.
    + rewrite (IH Hb). by destruct (limit_rows _ _ _).
Qed.

(** The isolated partitions are those of the group, and the others are empty; the index one
    past the advertised count passes the check. *)
Lemma isolator_execute_spec {Plan} (ex : Plan -> nat -> res DataFusionError (list BatchResult))
    plan count group i :
  isolator_execute ex (mkIsolator Plan plan count) (Some group) i =
    if (i <=? count)%nat then match group !! i with Some p => ex plan p | None => Ok [] end
    else Err (Internal ("Invalid partition " +:+ pretty i +:+ " for PartitionIsolatorExec")).
Proof.
  unfold isolator_execute. cbn [ok_or partition_count iso_input]. rewrite bind_Ok.
  destruct (Nat.ltb_spec count i), (Nat.leb_spec i count); [lia|done|done|lia].
Qed.
End max_rows_correct.

Lemma max_rows_stream_limits_witness :
  let b := {| RowArrow.b_schema := ["a"]; RowArrow.b_rows := [[1]; [2]; [3]] |} in
  exists out, max_rows_stream (H := RowArrow.arrow) 3 [Ok b; Err (Internal "x")] 2 = Some out /\
    Forall (limited (H := RowArrow.arrow) 2 ["a"]) out.
Proof.
  intros b.
  destruct (@max_rows_stream_limits RowArrow.arrow RowArrow.arrow_laws 2 ["a"] 3
    [Ok b; Err (Internal "x")]) as [Hpos _].
  - intros x Hx. apply elem_of_cons in Hx as [[= ->]|Hx]; [cbn; split; [lia|done]|].
    apply elem_of_cons in Hx as [?|Hx]; [done|]. by apply elem_of_nil in Hx.
  - destruct Hpos as (out & Ho & Hall & _); [lia|]. by exists out.
Defined.
