(* ===== verification/FlightSchema.v ===== *)
(** * Preparing schemas and batches for Flight
    (src/streaming/processor/flight_data_encoder.rs, the functions without state)

    Before a batch crosses the wire its schema is rewritten so that dictionary-encoded fields
    become fields of their value type, its columns are cast to the rewritten schema, and it is
    cut into pieces of about the maximal message size. *)

From S2P Require Import Prelude Arrow.

(** ** Fields and data types

    The public data of the arrow_schema crate, with the constructors that the code matches on;
    [OtherType] stands for every other type, with the fields it may contain. *)

Inductive UnionMode := Sparse | Dense.

Inductive DataType :=
  | List (f : Field)
  | LargeList (f : Field)
  | Struct (fields : list Field)
  | Union (fields : list (N * Field)) (mode : UnionMode)
  | Dictionary (key_type value_type : DataType)
  | Map (f : Field) (sorted : bool)
  | OtherType (tag : string) (fields : list Field)
with Field :=
  | mkField (name : string) (data_type : DataType) (nullable : bool)
      (dict_id : N) (dict_is_ordered : bool) (metadata : list (string * string)).

Definition name (f : Field) : string := let 'mkField n _ _ _ _ _ := f in n.
Definition data_type (f : Field) : DataType := let 'mkField _ t _ _ _ _ := f in t.
Definition nullable (f : Field) : bool := let 'mkField _ _ b _ _ _ := f in b.
Definition metadata (f : Field) : list (string * string) := let 'mkField _ _ _ _ _ m := f in m.

(** [Field::dict_is_ordered] answers only for dictionary fields. *)
Definition dict_is_ordered (f : Field) : option bool :=
  let 'mkField _ t _ _ o _ := f in match t with Dictionary _ _ => Some o | _ => None end.

(** [Field::new], [new_dict], [new_list], [new_struct], [new_union] (never nullable) and
    [with_metadata]. *)
Definition field_new (n : string) (t : DataType) (nullable : bool) : Field :=
  mkField n t nullable 0 false [].
Definition new_dict (n : string) (t : DataType) (nullable : bool) (dict_id : N) (ordered : bool) : Field :=
  mkField n t nullable dict_id ordered [].
Definition new_list (n : string) (f : Field) (nullable : bool) : Field := field_new n (List f) nullable.
Definition new_struct (n : string) (fs : list Field) (nullable : bool) : Field :=
  field_new n (Struct fs) nullable.
Definition new_union (n : string) (type_ids : list N) (fs : list Field) (mode : UnionMode) : Field :=
  field_new n (Union (zip type_ids fs) mode) false.
Definition with_metadata (m : list (string * string)) (f : Field) : Field :=
  let 'mkField n t b i o _ := f in mkField n t b i o m.

(** The induction principle that goes under the lists of fields. *)
Section field_induction.
Context (P : Field -> Prop) (Q : DataType -> Prop).
Context (Hfield : forall n t b i o m, Q t -> P (mkField n t b i o m)).
Context (Hlist : forall f, P f -> Q (List f)) (Hlarge : forall f, P f -> Q (LargeList f)).
Context (Hstruct : forall fs, Forall P fs -> Q (Struct fs)).
Context (Hunion : forall fs mode, Forall (fun x => P (snd x)) fs -> Q (Union fs mode)).
Context (Hdict : forall k v, Q k -> Q v -> Q (Dictionary k v)).
Context (Hmap : forall f s, P f -> Q (Map f s)).
Context (Hother : forall tag fs, Forall P fs -> Q (OtherType tag fs)).

Fixpoint field_ind' (f : Field) : P f :=
  let 'mkField n t b i o m := f in Hfield n t b i o m (data_type_ind' t)
with data_type_ind' (t : DataType) : Q t :=
  let fields := fix go (fs : list Field) : Forall P fs :=
    match fs with
    | [] => List.Forall_nil P
    | f :: fs => List.Forall_cons P f fs (field_ind' f) (go fs)
    end in
  match t with
  | List f => Hlist f (field_ind' f)
  | LargeList f => Hlarge f (field_ind' f)
  | Struct fs => Hstruct fs (fields fs)
  | Union fs mode => Hunion fs mode
      ((fix go (fs : list (N * Field)) : Forall (fun x => P (snd x)) fs :=
        match fs with
        | [] => List.Forall_nil _
        | (i, f) :: fs => List.Forall_cons _ (i, f) fs (field_ind' f) (go fs)
        end) fs)
  | Dictionary k v => Hdict k v (data_type_ind' k) (data_type_ind' v)
  | Map f s => Hmap f s (field_ind' f)
  | OtherType tag fs => Hother tag fs (fields fs)
  end.
End field_induction.

(** [iter().map(|x| f(x, state)).collect()] with a function that changes [state]. *)
Definition map_with {A B S} (f : A -> S -> B * S) : list A -> S -> list B * S :=
  fix go l s :=
    match l with
    | [] => ([], s)
    | x :: l => let '(y, s) := f x s in let '(k, s) := go l s in (y :: k, s)
    end.

(** ** The operations of the arrow crates used here *)
Class FlightArrow `{Arrow} := {
  schema_fields : Schema -> list Field;
  (** [Schema::new(fields).with_metadata(schema.metadata().clone())] *)
  schema_with_fields : Schema -> list Field -> Schema;
  (** the dictionary tracker of the IPC writer *)
  Tracker : Type;
  set_dict_id : Field -> Tracker -> N * Tracker;
  (** [DataType::is_nested] of the types that the code does not name *)
  other_is_nested : string -> list Field -> bool;
  array_data_type : Array -> DataType;
  get_buffer_memory_size : Array -> N;
  (** [arrow_cast::cast] and, for sparse unions, [UnionArray::child] and [try_new] (with the
      type ids of the given union array) *)
  cast : Array -> DataType -> res DataFusionError Array;
  union_child : Array -> N -> Array;
  union_try_new : list (N * Field) -> Array -> list Array -> res DataFusionError Array;
}.

Section prepare.
Context `{FlightArrow}.

Fixpoint is_nested (t : DataType) : bool :=
  match t with
  | List _ | LargeList _ | Struct _ | Union _ _ | Map _ _ => true
  | Dictionary _ v => is_nested v
  | OtherType tag fields => other_is_nested tag fields
  end.

Definition prepare_dictionary (send_dictionaries : bool) (field : Field) (value_type : DataType)
    (t : Tracker) : Field * Tracker :=
  if send_dictionaries then
    let '(dict_id, t) := set_dict_id field t in
    (with_metadata (metadata field)
      (new_dict (name field) (data_type field) (nullable field) dict_id
        (default false (dict_is_ordered field))), t)
  else
    (with_metadata (metadata field) (field_new (name field) value_type (nullable field)), t).

Fixpoint prepare_field_for_flight (send_dictionaries : bool) (field : Field) (t : Tracker)
    {struct field} : Field * Tracker :=
  let prepare := prepare_field_for_flight send_dictionaries in
  let '(mkField n dt b _ _ m) := field in
  match dt with
  | List inner | LargeList inner =>
      let '(inner, t) := prepare inner t in (with_metadata m (new_list n inner b), t)
  | Struct fields =>
      let '(new_fields, t) := map_with prepare fields t in
      (with_metadata m (new_struct n new_fields b), t)
  | Union fields mode =>
      let '(pairs, t) := map_with (fun '(type_id, f) t =>
        let '(f, t) := prepare f t in ((type_id, f), t)) fields t in
      (new_union n pairs.*1 pairs.*2 mode, t)
  | Dictionary _ value_type => prepare_dictionary send_dictionaries field value_type t
  | Map inner sorted =>
      let '(inner, t) := prepare inner t in
      (with_metadata m (field_new n (Map inner sorted) b), t)
  | OtherType _ _ => (field, t)
  end.

Definition prepare_schema_field (send_dictionaries : bool) (field : Field) (t : Tracker)
    : Field * Tracker :=
  match data_type field with
  | Dictionary _ value_type => prepare_dictionary send_dictionaries field value_type t
  | tpe => if is_nested tpe then prepare_field_for_flight send_dictionaries field t else (field, t)
  end.

Definition prepare_schema_for_flight (schema : Schema) (send_dictionaries : bool) (t : Tracker)
    : Schema * Tracker :=
  let '(fields, t) := map_with (prepare_schema_field send_dictionaries) (schema_fields schema) t in
  (schema_with_fields schema fields, t).

(** ** Hydrating dictionaries *)

Definition hydrate_dictionary (array : Array) (t : DataType) : res DataFusionError Array :=
  match array_data_type array, t with
  | Union _ Sparse, Union fields Sparse =>
      children ← try_collect (fun '(type_id, field) =>
        cast (union_child array type_id) (data_type field)) fields;
      union_try_new fields array children
  | _, t => cast array t
  end.

Definition hydrate_dictionaries (batch : Batch) (schema : Schema) : res DataFusionError Batch :=
  columns ← try_collect (fun '(field, c) => hydrate_dictionary c (data_type field))
    (zip (schema_fields schema) (columns batch));
  try_new_with_options schema columns (Some (num_rows batch)).

(** ** Splitting batches *)

Context `{Profile}.

(** The [while offset < batch.num_rows()] loop; one unit of fuel per piece. *)
Fixpoint split_loop (fuel : nat) (batch : Batch) (rows_per_batch offset : nat)
    : res DataFusionError (list Batch) :=
  match fuel with
  | O => if (offset <? num_rows batch)%nat then Panic "out of fuel" else Ok []
  | S fuel =>
      if (offset <? num_rows batch)%nat then
        let length := (rows_per_batch `min` (num_rows batch - offset))%nat in
        out ← split_loop fuel batch rows_per_batch (offset + length);
        Ok (slice batch offset length :: out)
      else Ok []
  end.

(** The size estimate and the number of rows per piece. *)
Definition split_rows_per_batch (batch : Batch) (max_flight_data_size : N) : res DataFusionError nat :=
  size ← foldl (fun acc col => a ← acc; uadd a (get_buffer_memory_size col)) (Ok 0) (columns batch);
  q ← udiv size max_flight_data_size;
  r ← urem size max_flight_data_size;
  n ← uadd q (if r =? 0 then 0 else 1);
  let n_batches := N.max n 1 in
  Ok (N.to_nat (N.of_nat (num_rows batch) / n_batches) `max` 1)%nat.

Definition split_batch_for_grpc_response (batch : Batch) (max_flight_data_size : N)
    : res DataFusionError (list Batch) :=
  rows_per_batch ← split_rows_per_batch batch max_flight_data_size;
  split_loop (num_rows batch) batch rows_per_batch 0.
End prepare.

(** ** What preparing a schema does to its type *)

(** No dictionary is left anywhere in the field. *)
Fixpoint dict_free (f : Field) : bool :=
  let 'mkField _ t _ _ _ _ := f in dict_free_type t
with dict_free_type (t : DataType) : bool :=
  match t with
  | List f | LargeList f | Map f _ => dict_free f
  | Dictionary _ _ => false
  | Struct fs | OtherType _ fs => forallb dict_free fs
  | Union fs _ => forallb (fun x => dict_free (snd x)) fs
  end.

(** Dictionaries occur only under the types that are rewritten, and not in the value type of
    another dictionary: none is under the types that the code does not name (lists of a fixed
    size, views, run-ends) or in a dictionary. *)
Fixpoint dict_simple (f : Field) : bool :=
  let 'mkField _ t _ _ _ _ := f in dict_simple_type t
with dict_simple_type (t : DataType) : bool :=
  match t with
  | List f | LargeList f | Map f _ => dict_simple f
  | Dictionary _ v => dict_free_type v
  | Struct fs => forallb dict_simple fs
  | OtherType _ fs => forallb dict_free fs
  | Union fs _ => forallb (fun x => dict_simple (snd x)) fs
  end.

(** Fields that need no change: nothing to rewrite, and none of the attributes that the
    constructors of nested fields reset (the identifier and order of a dictionary, and for a
    union its nullability and metadata). *)
Fixpoint plain (f : Field) : bool :=
  let 'mkField _ t b i o m := f in
  match t with
  | OtherType _ _ => true
  | Union _ _ => negb b && bool_decide (m = []) && (i =? 0) && negb o && plain_type t
  | _ => (i =? 0) && negb o && plain_type t
  end
with plain_type (t : DataType) : bool :=
  match t with
  | List f | Map f _ => plain f
  | LargeList _ | Dictionary _ _ => false
  | Struct fs => forallb plain fs
  | Union fs _ => forallb (fun x => plain (snd x)) fs
  | OtherType _ _ => true
  end.

(** The type ids of a sparse union are distinct (arrow refuses others). *)
Definition union_ids_distinct (t : DataType) : Prop :=
  match t with Union fields Sparse => NoDup fields.*1 | _ => True end.

Class FlightArrowLaws `{FlightArrow, !ArrowLaws} : Prop := {
  fields_with_fields s fs :
    length fs = length (schema_fields s) -> schema_fields (schema_with_fields s fs) = fs;
  with_own_fields s : schema_with_fields s (schema_fields s) = s;
  (** a batch has one column per field of its schema, of the type of the field *)
  columns_typed b :
    Forall2 (fun f c => array_data_type c = data_type f) (schema_fields (batch_schema b)) (columns b);
  (** [cast] to the own type copies the array; a sparse union is made of its children *)
  cast_same c : cast c (array_data_type c) = Ok c;
  union_children c fields :
    array_data_type c = Union fields Sparse -> NoDup fields.*1 ->
    Forall (fun '(i, f) => array_data_type (union_child c i) = data_type f) fields /\
    union_try_new fields c ((fun '(i, _) => union_child c i) <$> fields) = Ok c;
  try_new_own b : try_new_with_options (batch_schema b) (columns b) (Some (num_rows b)) = Ok b;
}.

Section prepare_correct.
Context `{FlightArrow}.

Lemma map_with_spec {A B S} (f : A -> S -> B * S) (R : A -> B -> Prop) l :
  Forall (fun x => forall s, exists y, f x s = (y, s) /\ R x y) l ->
  forall s, exists k, map_with f l s = (k, s) /\ Forall2 R l k.
Proof.
  induction 1 as [|x l Hx _ IH]; intros s; [by exists []|].
  destruct (Hx s) as (y & Hf & HR), (IH s) as (k & Hk & HRk).
  exists (y :: k). cbn. rewrite Hf. cbn in Hk. rewrite Hk. auto.
Qed.

(** What hydrating makes of a field: the name stays, a dictionary is left exactly where the
    code does not look, and only a plain field stays the same. *)
Definition hydrates_to (f f' : Field) : Prop :=
  name f' = name f /\ dict_free f' = dict_simple f /\ (plain f = true <-> f' = f).

Lemma forallb_Forall2 {A} (p q : A -> bool) l k :
  Forall2 (fun x y => q y = p x) l k -> forallb q k = forallb p l.
Proof. induction 1 as [|x y l k Hxy _ IH]; cbn; [done|]. by rewrite Hxy, IH. Qed.

Lemma forallb_Forall2_eq {A} (p : A -> bool) l k :
  Forall2 (fun x y => p x = true <-> y = x) l k -> forallb p l = true <-> k = l.
Proof.
  induction 1 as [|x y l k Hxy _ IH]; cbn; [done|]. rewrite andb_true_iff, Hxy, IH.
  split; [by intros [-> ->]|by intros [= -> ->]].
Qed.

Lemma hydrates_struct fs k :
  Forall2 hydrates_to fs k ->
  forallb dict_free k = forallb dict_simple fs /\ (forallb plain fs = true <-> k = fs).
Proof.
  intros Hk. split.
  - apply forallb_Forall2. eapply Forall2_impl; [exact Hk|]. by intros ?? (_ & ? & _).
  - apply forallb_Forall2_eq. eapply Forall2_impl; [exact Hk|]. by intros ?? (_ & _ & ?).
Qed.

Lemma value_type_differs k v : v <> Dictionary k v.
Proof.
  revert v k. apply (data_type_ind' (fun _ => True) (fun v => forall k, v <> Dictionary k v)); try done.
  intros k v _ IH k' [= _ Hv]. by apply (IH k).
Qed.

(** A type with one field inside. *)
Ltac wrapped :=
  let f' := fresh "f'" in let Hf := fresh "Hf" in let Hp := fresh "Hp" in
  intros ? IH n b i o m t; destruct (IH t) as (f' & Hf & _ & ? & Hp);
  eexists; cbn; rewrite Hf; split; [done|]; split; [done|]; split; [done|]; cbn;
  rewrite !andb_true_iff, N.eqb_eq, negb_true_iff, Hp;
  split; [by intros [[-> ->] ->]|by intros [= <- <- ->]].

Lemma prepare_field_hydrates f t :
  exists f', prepare_field_for_flight false f t = (f', t) /\ hydrates_to f f'.
Proof.
  revert f t. apply (field_ind'
    (fun f => forall t, exists f', prepare_field_for_flight false f t = (f', t) /\ hydrates_to f f')
    (fun dt => forall n b i o m t, exists f',
      prepare_field_for_flight false (mkField n dt b i o m) t = (f', t) /\
      hydrates_to (mkField n dt b i o m) f')); [auto|..].
  - wrapped.
  - intros f IH n b i o m t. destruct (IH t) as (f' & Hf & Hn & Hd & Hp).
    eexists. cbn. rewrite Hf. split; [done|]. split; [done|]. split; [done|]. cbn.
    by rewrite andb_false_r.
  - intros fs IH n b i o m t.
    destruct (map_with_spec _ hydrates_to fs IH t) as (k & Hk & HR).
    eexists. cbn. rewrite Hk. split; [done|]. apply hydrates_struct in HR as [Hd Hp].
    split; [done|]. split; [done|]. cbn.
    rewrite !andb_true_iff, N.eqb_eq, negb_true_iff, Hp.
    split; [by intros [[-> ->] ->]|by intros [= <- <- ->]].
  - intros fs mode IH n b i o m t.
    destruct (map_with_spec (fun '(type_id, f) t =>
        let '(f, t) := prepare_field_for_flight false f t in ((type_id, f), t))
      (fun x y => fst y = fst x /\ hydrates_to (snd x) (snd y)) fs) with (s := t)
      as (k & Hk & HR).
    { eapply Forall_impl; [exact IH|]. intros [i' f] Hf s. cbn [snd] in Hf. destruct (Hf s) as (f' & Hf' & ?).
      exists (i', f'). by rewrite Hf'. }
    eexists. cbn. rewrite Hk. split; [done|]. split; [done|].
    unfold new_union, field_new. rewrite zip_fst_snd. split; cbn.
    + apply forallb_Forall2. eapply Forall2_impl; [exact HR|]. by intros ?? (_ & _ & ? & _).
    + rewrite !andb_true_iff, N.eqb_eq, bool_decide_eq_true, !negb_true_iff,
        (forallb_Forall2_eq (fun x => plain (snd x)) fs k).
      * split; [by intros [[[[-> ->] ->] ->] ->]|by intros [= -> <- <- <- <-]].
      * eapply Forall2_impl; [exact HR|]. intros [i1 f1] [i2 f2] (Hi & _ & _ & Heq). cbn in *.
        rewrite Heq. split; [by intros ->; f_equal|by intros [= _ ->]].
  - intros k v _ _ n b i o m t. eexists. cbn. split; [done|]. split; [done|]. split; [done|].
    cbn. rewrite andb_false_r. split; [done|]. by intros [= Hv%value_type_differs].
  - intros f s. revert f. wrapped.
  - intros tag fs IH n b i o m t. eexists. cbn. split; [done|]. by repeat split.
Qed.

Lemma prepare_schema_field_eq send f t :
  prepare_schema_field send f t = prepare_field_for_flight send f t.
Proof.
  destruct f as [n dt b i o m]. unfold prepare_schema_field. cbn [data_type].
  destruct dt as [| | | | | |tag fs]; try done. by destruct (is_nested _).
Qed.

Lemma prepare_schema_hydrates schema t :
  exists fields, prepare_schema_for_flight schema false t = (schema_with_fields schema fields, t) /\
    Forall2 hydrates_to (schema_fields schema) fields.
Proof.
  unfold prepare_schema_for_flight.
  destruct (map_with_spec (prepare_schema_field false) hydrates_to (schema_fields schema))
    with (s := t) as (k & -> & HR); [|by exists k].
  apply Forall_true. intros f s. rewrite prepare_schema_field_eq. apply prepare_field_hydrates.
Qed.

(** C39: what is left of the dictionaries of a schema when dictionaries are not sent.  The
    rewritten schema has the same number of fields with the same names, and no identifier is
    drawn from the tracker.  No dictionary is left at any depth exactly when every dictionary
    of the schema is under lists, structs, unions and maps only (not under the types that the
    code does not name, such as lists of a fixed size, nor in the value type of a
    dictionary).  The schema comes back unchanged exactly when its fields are plain: no
    dictionary or large list is rewritten, and there is no attribute that the constructors of
    the nested fields would reset. *)
Theorem prepare_schema_type `{!ArrowLaws, !FlightArrowLaws} schema t :
  exists schema', prepare_schema_for_flight schema false t = (schema', t) /\
    name <$> schema_fields schema' = name <$> schema_fields schema /\
    (forallb dict_free (schema_fields schema') = true <-> forallb dict_simple (schema_fields schema) = true) /\
    (schema' = schema <-> forallb plain (schema_fields schema) = true).
Proof.
  destruct (prepare_schema_hydrates schema t) as (k & -> & HR).
  assert (schema_fields (schema_with_fields schema k) = k) as Hk
    by (apply fields_with_fields; symmetry; by eapply Forall2_length).
  eexists. split; [done|]. rewrite Hk. split.
  { clear Hk. induction HR as [|f f' l k (Hn & _) _ IH]; [done|]. cbn. by rewrite Hn, IH. }
  apply hydrates_struct in HR as [Hd Hp]. split; [by rewrite Hd|].
  rewrite Hp. split; [by intros <-|]. intros ->. apply with_own_fields.
Qed.

Lemma prepare_plain `{!ArrowLaws, !FlightArrowLaws} schema t :
  forallb plain (schema_fields schema) = true ->
  prepare_schema_for_flight schema false t = (schema, t).
Proof.
  intros Hp. destruct (prepare_schema_hydrates schema t) as (k & -> & HR).
  apply hydrates_struct in HR as [_ Heq]. by rewrite (proj1 Heq Hp), with_own_fields.
Qed.

(** *** Batches of a plain schema are sent as they are *)
Lemma hydrate_dictionary_same `{!ArrowLaws, !FlightArrowLaws} c :
  union_ids_distinct (array_data_type c) ->
  hydrate_dictionary c (array_data_type c) = Ok c.
Proof.
  unfold hydrate_dictionary. intros Hid. destruct (array_data_type c) as [| | |fields mode| | |] eqn:Hc;
    try (rewrite <- Hc; apply cast_same).
  destruct mode; [|rewrite <- Hc; apply cast_same].
  destruct (union_children c fields Hc Hid) as [Hall Hown].
  rewrite (proj2 (try_collect_Ok _ _ ((fun '(i, _) => union_child c i) <$> fields))).
  - exact Hown.
  - apply Forall2_fmap_r. apply Forall_Forall2_diag. eapply Forall_impl; [exact Hall|].
    intros [i f] <-. apply cast_same.
Qed.

Lemma hydrate_dictionaries_same `{!ArrowLaws, !FlightArrowLaws} b :
  Forall (fun f => union_ids_distinct (data_type f)) (schema_fields (batch_schema b)) ->
  hydrate_dictionaries b (batch_schema b) = Ok b.
Proof.
  intros Hids. unfold hydrate_dictionaries.
  assert (try_collect (fun '(field, c) => hydrate_dictionary c (data_type field))
    (zip (schema_fields (batch_schema b)) (columns b)) = Ok (columns b)) as ->;
    [|rewrite bind_Ok; apply try_new_own].
  apply try_collect_Ok. pose proof (columns_typed b) as Ht.
  induction Ht as [|f c fs cs Hc _ IH]; cbn; [constructor|].
  apply Forall_cons in Hids as [Hf Hids]. constructor; [|auto].
  rewrite <- Hc in *. by apply hydrate_dictionary_same.
Qed.

(** ** What splitting promises *)

Context `{!ArrowLaws, Profile}.

(** Pieces of [q] rows, the last one with what is left. *)
Definition pieces_of (q : nat) (batch : Batch) (pieces : list Batch) : Prop :=
  (pieces ≫= rows) = rows batch /\
  Forall (fun p => (0 < num_rows p <= q)%nat /\ batch_schema p = batch_schema batch) pieces /\
  (forall p p', p ++ [p'] = pieces -> Forall (fun x => num_rows x = q) p).

Lemma split_loop_spec fuel batch q offset :
  (0 < q)%nat -> (num_rows batch - offset <= fuel)%nat ->
  exists out, split_loop fuel batch q offset = Ok out /\
    (out ≫= rows) = drop offset (rows batch) /\
    Forall (fun p => (0 < num_rows p <= q)%nat /\ batch_schema p = batch_schema batch) out /\
    (forall p p', p ++ [p'] = out -> Forall (fun x => num_rows x = q) p).
Proof.
  intros Hq. pose proof (num_rows_rows batch) as Hr.
  revert offset. induction fuel as [|fuel IH]; intros offset Hf; cbn [split_loop].
  all: destruct (Nat.ltb_spec offset (num_rows batch)) as [Hlt|Hge].
  - lia.
  - exists []. split; [done|]. rewrite drop_ge by lia. split; [done|]. split; [done|].
    by intros [].
  - set (len := (q `min` (num_rows batch - offset))%nat).
    destruct (IH (offset + len)%nat) as (out & -> & Hrows & Hall & Hlast); [lia|].
    eexists. split; [done|]. split.
    { cbn. rewrite slice_rows by lia. rewrite Hrows, <- drop_drop. apply take_drop. }
    split.
    { constructor; [|done]. rewrite num_rows_slice by lia. rewrite slice_schema. split; [lia|done]. }
    intros [|x p] p' Hp; [done|]. cbn in Hp. injection Hp as -> Hp.
    constructor; [|by eapply Hlast]. rewrite num_rows_slice by lia.
    destruct (decide (offset + len < num_rows batch)%nat) as [|Hend]; [lia|exfalso].
    assert (drop (offset + len) (rows batch) = []) as Hd by (apply drop_ge; lia).
    rewrite Hd, <- Hp, bind_app in Hrows. apply app_eq_nil in Hrows as [_ Hrows].
    assert (p' ∈ out) as Hin by (rewrite <- Hp; set_solver).
    rewrite Forall_forall in Hall. destruct (Hall p' Hin) as [[Hpos _] _].
    cbn in Hrows. rewrite app_nil_r in Hrows. rewrite num_rows_rows, Hrows in Hpos. cbn in Hpos. lia.
  - exists []. split; [done|]. rewrite drop_ge by lia. split; [done|]. split; [done|].
    by intros [].
Qed.

Definition memory_size (batch : Batch) : N :=
  foldr (fun c acc => get_buffer_memory_size c + acc) 0 (columns batch).

Lemma sum_sizes_spec l acc :
  fits (acc + foldr (fun c a => get_buffer_memory_size c + a) 0 l) ->
  foldl (fun acc col => a ← acc; uadd a (get_buffer_memory_size col)) (Ok acc) l =
    Ok (E := DataFusionError) (acc + foldr (fun c a => get_buffer_memory_size c + a) 0 l).
Proof.
  revert acc. induction l as [|c l IH]; intros acc Hf; cbn in *; [by rewrite N.add_0_r|].
  rewrite uadd_fits by (unfold fits in *; lia). rewrite IH by (by rewrite <- N.add_assoc).
  by rewrite N.add_assoc.
Qed.

Lemma split_rows_per_batch_spec batch max_size :
  0 < max_size -> fits (memory_size batch) ->
  exists q, split_rows_per_batch batch max_size = Ok q /\ (0 < q)%nat /\
    (q = 1%nat \/ N.of_nat q * memory_size batch <= N.of_nat (num_rows batch) * max_size).
Proof.
  intros Hmax Hfits. unfold split_rows_per_batch.
  rewrite sum_sizes_spec by done. fold (memory_size batch). rewrite N.add_0_l, bind_Ok.
  set (size := memory_size batch) in *. rewrite udiv_pos, urem_pos by done. rewrite !bind_Ok.
  pose proof (N.div_mod size max_size) as Hdm.
  pose proof (N.mod_lt size max_size) as Hml.
  set (d := size / max_size) in *. set (r := size mod max_size) in *.
  set (extra := if r =? 0 then 0 else 1).
  assert (size <= max_size * (d + extra) /\ d + extra <= size \/ size = 0 /\ d = 0 /\ r = 0) as Hn.
  { subst extra. destruct (N.eqb_spec r 0) as [Hr|Hr].
    - destruct (decide (size = 0)); [right; nia|left; nia].
    - left. split; [nia|]. assert (2 <= max_size) by lia. nia. }
  rewrite uadd_fits; [|unfold fits in *; subst extra; destruct (N.eqb_spec r 0); lia].
  rewrite bind_Ok. cbv zeta. set (n := N.max (d + extra) 1).
  eexists. split; [done|]. split; [lia|].
  set (q := (N.to_nat (N.of_nat (num_rows batch) / n) `max` 1)%nat).
  pose proof (N.Div0.mul_div_le (N.of_nat (num_rows batch)) n) as Hle.
  assert (size <= max_size * n) as Hsn by (subst n extra; destruct (r =? 0); nia).
  destruct (decide (q = 1%nat)) as [|Hq]; [by left|right].
  assert (N.of_nat q = N.of_nat (num_rows batch) / n) as -> by lia. nia.
Qed.

(** C38: [split_batch_for_grpc_response] cuts a batch into pieces of the target size.  For a
    positive target it succeeds, the pieces have the rows of the batch in order, none is empty,
    all but the last have the same number [q] of rows and the last at most [q]; and [q] rows are
    on average within the target size, unless [q] is the minimum of one row. *)
Theorem split_batch_bounds batch max_size :
  0 < max_size -> fits (memory_size batch) ->
  exists q pieces, split_batch_for_grpc_response batch max_size = Ok pieces /\
    pieces_of q batch pieces /\
    (q = 1%nat \/ N.of_nat q * memory_size batch <= N.of_nat (num_rows batch) * max_size).
Proof.
  intros Hmax Hfits.
  destruct (split_rows_per_batch_spec batch max_size Hmax Hfits) as (q & Hq & Hpos & Hbound).
  destruct (split_loop_spec (num_rows batch) batch q 0) as (out & Hout & Hrest); [lia..|].
  exists q, out. unfold split_batch_for_grpc_response. by rewrite Hq, bind_Ok, Hout.
Qed.
End prepare_correct.

(** Two rewritings that are not about dictionaries. *)
Example large_list_becomes_list `{FlightArrow} send t :
  prepare_field_for_flight send
    (field_new "l" (LargeList (field_new "item" (OtherType "Int32" []) true)) true) t =
  (field_new "l" (List (field_new "item" (OtherType "Int32" []) true)) true, t).
Proof. done. Qed.

Example union_loses_metadata `{FlightArrow} send t :
  prepare_field_for_flight send
    (mkField "u" (Union [(0, field_new "a" (OtherType "Int32" []) true)] Dense) false 0 false [("k", "v")]) t =
  (mkField "u" (Union [(0, field_new "a" (OtherType "Int32" []) true)] Dense) false 0 false [], t).
Proof. done. Qed.
