(* ===== verification/Flight.v ===== *)
(** * Streams over Flight (src/streaming/processor/flight_data_encoder.rs,
    src/streaming/processor/stream_serialization.rs)

    [FlightDataEncoder] turns a stream of batches and markers into a stream of Flight messages:
    the schema first, every batch in pieces, and a marker as a message without a body that
    carries it as application metadata.  [decode_flight_to_stream] turns the messages back.
    The theorem is the round trip: what arrives has the rows, the markers and the error of what
    was sent, in the same order. *)

From S2P Require Import Prelude Arrow Stream FlightSchema.

Abbreviation Bytes := (list N).

(** [arrow_flight::error::FlightError], with what its variants print. *)
Inductive FlightError :=
  | FArrow (e : DataFusionError)
  | FNotYetImplemented (msg : string)
  | FTonic (status : string)
  | FProtocolError (msg : string)
  | FDecodeError (msg : string)
  | FExternalError (msg : string).

(** [arrow_flight::FlightData] *)
Record FlightData (Descriptor : Type) := mkFlightData {
  flight_descriptor : option Descriptor;
  data_header : Bytes;
  app_metadata : Bytes;
  data_body : Bytes;
}.
Arguments mkFlightData {Descriptor} _ _ _ _.
Arguments flight_descriptor {Descriptor} _.
Arguments data_header {Descriptor} _.
Arguments app_metadata {Descriptor} _.
Arguments data_body {Descriptor} _.

(** [arrow_flight::decode::DecodedPayload] *)
Inductive DecodedPayload (Batch Schema : Type) :=
  | PNone
  | PSchema (s : Schema)
  | PRecordBatch (b : Batch).
Arguments PNone {Batch Schema}.
Arguments PSchema {Batch Schema} _.
Arguments PRecordBatch {Batch Schema} _.

(** ** The IPC writer and the Flight decoder *)
Class FlightIpc `{FlightArrow} := {
  IpcWriteOptions : Type;
  default_options : IpcWriteOptions;
  FlightDescriptor : Type;
  (** [DictionaryTracker::new_with_preserve_dict_id(error_on_replacement, preserve)] *)
  tracker_new : bool -> IpcWriteOptions -> Tracker;
  (** [SchemaAsIpc::new(schema, options).into()] *)
  schema_as_ipc : Schema -> IpcWriteOptions -> FlightData FlightDescriptor;
  (** [IpcDataGenerator::encoded_batch], its results turned into messages *)
  encoded_batch : Batch -> IpcWriteOptions ->
    act Tracker DataFusionError (list (FlightData FlightDescriptor) * FlightData FlightDescriptor);
  (** the finished flatbuffer of a message of version V5 with header NONE and no body *)
  none_header : Bytes;
  (** the state of [FlightDataDecoder], and what it extracts of one message, if anything *)
  Decoder : Type;
  decoder_new : Decoder;
  extract_message : FlightData FlightDescriptor ->
    act Decoder FlightError (option (DecodedPayload Batch Schema));
  (** a [tonic::Status::internal] with the message, as it is printed where it is received (with
      its code, details and metadata) *)
  internal_status : string -> string;
}.

Inductive DictionaryHandling := Hydrate | Resend.
#[global] Instance DictionaryHandling_eq_dec : EqDecision DictionaryHandling.
Proof. solve_decision. Defined.

Inductive FlightDataItem (Batch : Type) :=
  | ItemRecordBatch (b : Batch)
  | ItemAppMetadata (bytes : Bytes).
Arguments ItemRecordBatch {Batch} _.
Arguments ItemAppMetadata {Batch} _.

Section encoder.
Context `{FlightIpc, Profile}.

Abbreviation Message := (FlightData FlightDescriptor).
(** A stream as the answers to its polls; [None] is pending. *)
Abbreviation polls A := (list (option (res FlightError A))).

(** ** The encoder *)

Record FlightIpcEncoder := mkIpcEncoder {
  options : IpcWriteOptions;
  dictionary_tracker : Tracker;
}.

Definition ipc_encoder_new (opts : IpcWriteOptions) (error_on_replacement : bool) : FlightIpcEncoder :=
  mkIpcEncoder opts (tracker_new error_on_replacement opts).

Definition ipc_encode_schema (self : FlightIpcEncoder) (schema : Schema) : Message :=
  schema_as_ipc schema (options self).

Definition ipc_encode_batch (batch : Batch) : act FlightIpcEncoder FlightError (list Message * Message) :=
  fun self =>
    let '(t, r) := encoded_batch batch (options self) (dictionary_tracker self) in
    (mkIpcEncoder (options self) t, map_err FArrow r).

Record FlightDataEncoder := mkEncoder {
  inner : polls (FlightDataItem Batch);
  enc_schema : option Schema;
  max_flight_data_size : N;
  encoder : FlightIpcEncoder;
  enc_app_metadata : option Bytes;
  queue : list Message;
  done_ : bool;
  descriptor : option FlightDescriptor;
  dictionary_handling : DictionaryHandling;
}.

Definition set_inner (i : polls (FlightDataItem Batch)) (self : FlightDataEncoder) : FlightDataEncoder :=
  mkEncoder i (enc_schema self) (max_flight_data_size self) (encoder self) (enc_app_metadata self)
    (queue self) (done_ self) (descriptor self) (dictionary_handling self).

Definition set_queue (q : list Message) (d : bool) (desc : option FlightDescriptor)
    (self : FlightDataEncoder) : FlightDataEncoder :=
  mkEncoder (inner self) (enc_schema self) (max_flight_data_size self) (encoder self)
    (enc_app_metadata self) q d desc (dictionary_handling self).

Definition set_encoder (e : FlightIpcEncoder) (self : FlightDataEncoder) : FlightDataEncoder :=
  mkEncoder (inner self) (enc_schema self) (max_flight_data_size self) e
    (enc_app_metadata self) (queue self) (done_ self) (descriptor self) (dictionary_handling self).

(** [queue_message]: the first message takes the descriptor. *)
Definition queue_message (data : Message) (self : FlightDataEncoder) : FlightDataEncoder :=
  let data := match descriptor self with
              | Some d => mkFlightData (Some d) (data_header data) (app_metadata data) (data_body data)
              | None => data
              end in
  set_queue (queue self ++ [data]) (done_ self) None self.

Definition queue_messages (datas : list Message) (self : FlightDataEncoder) : FlightDataEncoder :=
  foldl (fun self data => queue_message data self) self datas.

Definition encode_schema (schema : Schema) (self : FlightDataEncoder) : FlightDataEncoder * Schema :=
  let send_dictionaries := bool_decide (dictionary_handling self = Resend) in
  let '(schema, t) := prepare_schema_for_flight schema send_dictionaries
                        (dictionary_tracker (encoder self)) in
  let self := set_encoder (mkIpcEncoder (options (encoder self)) t) self in
  let data := ipc_encode_schema (encoder self) schema in
  let data := match enc_app_metadata self with
              | Some m => mkFlightData (flight_descriptor data) (data_header data) m (data_body data)
              | None => data
              end in
  let self := queue_message data
    (mkEncoder (inner self) (enc_schema self) (max_flight_data_size self) (encoder self) None
       (queue self) (done_ self) (descriptor self) (dictionary_handling self)) in
  (mkEncoder (inner self) (Some schema) (max_flight_data_size self) (encoder self)
     (enc_app_metadata self) (queue self) (done_ self) (descriptor self) (dictionary_handling self),
   schema).

(** One turn of the [for batch in split_batch_for_grpc_response(..)] loop. *)
Definition encode_piece (batch : Batch) : act FlightDataEncoder FlightError () := fun self =>
  let '(e, r) := ipc_encode_batch batch (encoder self) in
  let self := set_encoder e self in
  match r with
  | Ok (flight_dictionaries, flight_batch) =>
      (queue_message flight_batch (queue_messages flight_dictionaries self), Ok tt)
  | Err e => (self, Err e)
  | Panic w => (self, Panic w)
  end.

Definition encode_batch (batch : Batch) : act FlightDataEncoder FlightError () := fun self =>
  let '(self, schema) := match enc_schema self with
                         | Some schema => (self, schema)
                         | None => encode_schema (batch_schema batch) self
                         end in
  (batch ← lift (match dictionary_handling self with
                 | Resend => Ok batch
                 | Hydrate => map_err FArrow (hydrate_dictionaries batch schema)
                 end);
   pieces ← lift (map_err FArrow (split_batch_for_grpc_response batch (max_flight_data_size self)));
   for_each encode_piece pieces) self.

Definition encoder_new (input : polls (FlightDataItem Batch)) (schema : option Schema) (max_size : N)
    (opts : IpcWriteOptions) (metadata : Bytes) (desc : option FlightDescriptor)
    (handling : DictionaryHandling) : FlightDataEncoder :=
  let self := mkEncoder input None max_size
    (ipc_encoder_new opts (bool_decide (handling <> Resend))) (Some metadata) [] false desc handling in
  match schema with
  | Some schema => fst (encode_schema schema self)
  | None => self
  end.

(** The message of a marker. *)
Definition metadata_message (bytes : Bytes) : Message := mkFlightData None none_header bytes [].

(** [poll_next]; [i] is [inner self], which each turn of the loop polls once. *)
Fixpoint poll_encoder (i : polls (FlightDataItem Batch)) (self : FlightDataEncoder)
    : Poll (option (res FlightError Message)) * FlightDataEncoder :=
  if done_ self && bool_decide (queue self = []) then (Ready None, self)
  else
    match queue self with
    | data :: q => (Ready (Some (Ok data)), set_queue q (done_ self) (descriptor self) self)
    | [] =>
        match i with
        | [] => (Ready None, set_queue [] true (descriptor self) self)
        | item :: i =>
            let self := set_inner i self in
            match item with
            | None => (Pending, self)
            | Some (Err e) => (Ready (Some (Err e)), set_queue [] true (descriptor self) self)
            | Some (Panic w) => (Ready (Some (Panic w)), self)
            | Some (Ok (ItemRecordBatch batch)) =>
                match encode_batch batch self with
                | (self, Ok _) => poll_encoder i self
                | (self, Err e) => (Ready (Some (Err e)), set_queue [] true (descriptor self) self)
                | (self, Panic w) => (Ready (Some (Panic w)), self)
                end
            | Some (Ok (ItemAppMetadata bytes)) => (Ready (Some (Ok (metadata_message bytes))), self)
            end
        end
    end.

Definition encoder_poll_next (self : FlightDataEncoder)
    : Poll (option (res FlightError Message)) * FlightDataEncoder := poll_encoder (inner self) self.

(** Poll to the end; a stream that panicked is not polled again. *)
Fixpoint drain_encoder (fuel : nat) (self : FlightDataEncoder)
    : option (list (res FlightError Message)) :=
  match fuel with
  | O => None
  | S fuel =>
      match encoder_poll_next self with
      | (Ready None, _) => Some []
      | (Ready (Some (Panic w)), _) => Some [Panic w]
      | (Ready (Some x), self) => cons x <$> drain_encoder fuel self
      | (Pending, self) => drain_encoder fuel self
      end
  end.

(** ** The builder *)

Record FlightDataEncoderBuilder := mkBuilder {
  b_max_flight_data_size : N;
  b_options : IpcWriteOptions;
  b_app_metadata : Bytes;
  b_schema : option Schema;
  b_descriptor : option FlightDescriptor;
  b_dictionary_handling : DictionaryHandling;
}.

Definition GRPC_TARGET_MAX_FLIGHT_SIZE_BYTES : N := 2097152.

Definition builder_default : FlightDataEncoderBuilder :=
  mkBuilder GRPC_TARGET_MAX_FLIGHT_SIZE_BYTES default_options [] None None Hydrate.

Definition build (self : FlightDataEncoderBuilder) (input : polls (FlightDataItem Batch))
    : FlightDataEncoder :=
  encoder_new input (b_schema self) (b_max_flight_data_size self) (b_options self)
    (b_app_metadata self) (b_descriptor self) (b_dictionary_handling self).

Definition with_max_flight_data_size (n : N) (self : FlightDataEncoderBuilder) :=
  mkBuilder n (b_options self) (b_app_metadata self) (b_schema self) (b_descriptor self)
    (b_dictionary_handling self).
Definition with_dictionary_handling (d : DictionaryHandling) (self : FlightDataEncoderBuilder) :=
  mkBuilder (b_max_flight_data_size self) (b_options self) (b_app_metadata self) (b_schema self)
    (b_descriptor self) d.
Definition builder_with_metadata (m : Bytes) (self : FlightDataEncoderBuilder) :=
  mkBuilder (b_max_flight_data_size self) (b_options self) m (b_schema self) (b_descriptor self)
    (b_dictionary_handling self).
Definition with_options (o : IpcWriteOptions) (self : FlightDataEncoderBuilder) :=
  mkBuilder (b_max_flight_data_size self) o (b_app_metadata self) (b_schema self) (b_descriptor self)
    (b_dictionary_handling self).
Definition with_schema (s : Schema) (self : FlightDataEncoderBuilder) :=
  mkBuilder (b_max_flight_data_size self) (b_options self) (b_app_metadata self) (Some s)
    (b_descriptor self) (b_dictionary_handling self).
Definition with_flight_descriptor (d : option FlightDescriptor) (self : FlightDataEncoderBuilder) :=
  mkBuilder (b_max_flight_data_size self) (b_options self) (b_app_metadata self) (b_schema self) d
    (b_dictionary_handling self).

(** ** Streams of items (stream_serialization.rs) *)

Context `{MarkerProto}.

(** The closure of [map]. *)
Definition flight_item (stream_result : res FlightError (StreamItem Batch))
    : res FlightError (FlightDataItem Batch) :=
  match stream_result with
  | Ok (SIRecordBatch record_batch) => Ok (ItemRecordBatch record_batch)
  | Ok (SIMarker marker) => Ok (ItemAppMetadata (to_bytes marker))
  | Err err => Err err
  | Panic w => Panic w
  end.

(** [show] prints the errors of the stream, [show_flight] a Flight error; the result is a
    [tonic::Status]. *)
Definition encoding_status (show_flight : FlightError -> string) (flight_error : FlightError) : string :=
  internal_status ("Error encoding flight data: " +:+ show_flight flight_error).

Definition encode_stream_to_flight {E} (show : E -> string)
    (stream : list (option (res E (StreamItem Batch)))) : FlightDataEncoder :=
  build builder_default
    (option_map (flight_item ∘ map_err (fun e => FExternalError (show e))) <$> stream).

Definition flight_error_into (flight_error : FlightError) : DataFusionError :=
  match flight_error with
  | FArrow arrow_error => arrow_error
  | FNotYetImplemented _ => Internal "Not yet implemented"
  | FTonic status => Internal ("Tonic error " +:+ status)
  | FProtocolError protocol_err => Internal ("Protocol error: " +:+ protocol_err)
  | FDecodeError decode_err => Internal ("Decode error: " +:+ decode_err)
  | FExternalError external_err => Internal ("External error: " +:+ external_err)
  end.

(** The closure of [try_filter_map], on the payload and the metadata of its message. *)
Definition stream_item_of (metadata : Bytes) (payload : DecodedPayload Batch Schema)
    : res DataFusionError (option (StreamItem Batch)) :=
  match payload with
  | PRecordBatch record_batch => Ok (Some (SIRecordBatch record_batch))
  | PSchema _ => Ok None
  | PNone =>
      marker ← map_err (fun e => Internal ("Error decoding marker: " +:+ e)) (from_bytes metadata);
      Ok (Some (SIMarker marker))
  end.

(** The messages as they arrive, through the decoder (which yields one item for a message with a
    payload, and none for a dictionary), and [decode_flight_to_stream]. *)
Fixpoint decode_flight_to_stream (messages : list (res FlightError Message)) (d : Decoder)
    : list (res DataFusionError (StreamItem Batch)) :=
  match messages with
  | [] => []
  | Err e :: messages => Err (flight_error_into e) :: decode_flight_to_stream messages d
  | Panic w :: _ => [Panic w]
  | Ok m :: messages =>
      match extract_message m d with
      | (d, Ok None) => decode_flight_to_stream messages d
      | (d, Ok (Some payload)) =>
          match stream_item_of (app_metadata m) payload with
          | Ok None => decode_flight_to_stream messages d
          | Ok (Some item) => Ok item :: decode_flight_to_stream messages d
          | Err e => Err e :: decode_flight_to_stream messages d
          | Panic w => [Panic w]
          end
      | (d, Err e) => Err (flight_error_into e) :: decode_flight_to_stream messages d
      | (d, Panic w) => [Panic w]
      end
  end.

(** The wire between the two: an error of the server arrives as its status. *)
Definition over_the_wire (show_flight : FlightError -> string) (messages : list (res FlightError Message))
    : list (res FlightError Message) :=
  List.map (map_err (fun e => FTonic (encoding_status show_flight e))) messages.
End encoder.

(** ** The round trip *)

Class FlightIpcLaws `{FlightIpc, !ArrowLaws, !FlightArrowLaws} := {
  (** the decoder has read the schema *)
  in_sync : Schema -> Decoder -> Prop;
  (** a message with header NONE carries no payload and changes nothing *)
  extract_none m d : data_header m = none_header -> extract_message m d = (d, Ok (Some PNone));
  (** the schema message, whatever metadata was attached to it *)
  extract_schema s o d metadata :
    let m := schema_as_ipc s o in
    exists d', extract_message
        (mkFlightData (flight_descriptor m) (data_header m) metadata (data_body m)) d =
      (d', Ok (Some (PSchema s))) /\ in_sync s d';
  (** a batch without dictionaries is one message, which a decoder in sync reads back *)
  encoded_batch_read s b o t d :
    in_sync s d -> batch_schema b = s -> forallb dict_free (schema_fields s) = true ->
    exists t' m d', encoded_batch b o t = (t', Ok ([], m)) /\
      extract_message m d = (d', Ok (Some (PRecordBatch b))) /\ in_sync s d';
}.

Section round_trip.
Context `{FlightIpcLaws, !MarkerProto, !MarkerProtoLaws, Profile}.
Abbreviation Message := (FlightData FlightDescriptor).

(** A schema that needs no rewriting and has no dictionary. *)
Definition sendable (s : Schema) : Prop :=
  forallb plain (schema_fields s) = true /\ forallb dict_free (schema_fields s) = true /\
  Forall (fun f => union_ids_distinct (data_type f)) (schema_fields s).

(** The encoder that [encode_stream_to_flight] builds, between two polls. *)
Definition state (i : list (option (res FlightError (FlightDataItem Batch)))) (sch : option Schema)
    (t : Tracker) (q : list Message) : FlightDataEncoder :=
  mkEncoder i sch GRPC_TARGET_MAX_FLIGHT_SIZE_BYTES (mkIpcEncoder default_options t)
    (match sch with None => Some [] | Some _ => None end) q false None Hydrate.

(** Messages that the decoder, in state [d], reads as [items], ending in [d']. *)
Definition reads (d : Decoder) (q : list Message) (items : list (StreamItem Batch)) (d' : Decoder) : Prop :=
  forall rest, decode_flight_to_stream ((Ok <$> q) ++ rest) d =
    (Ok <$> items) ++ decode_flight_to_stream rest d'.

Lemma reads_app d q items d1 q' items' d2 :
  reads d q items d1 -> reads d1 q' items' d2 -> reads d (q ++ q') (items ++ items') d2.
Proof.
  intros Hq Hq' rest. by rewrite !fmap_app, <- !(assoc_L (++)), Hq, Hq'.
Qed.

Lemma encode_pieces_reads s i t q d pieces :
  sendable s -> in_sync s d -> Forall (fun p => batch_schema p = s) pieces ->
  exists t' q' d', for_each encode_piece pieces (state i (Some s) t q) =
      (state i (Some s) t' (q ++ q'), Ok tt) /\
    reads d q' (SIRecordBatch <$> pieces) d' /\ in_sync s d'.
Proof.
  intros Hs Hd Hall. revert t q d Hd. induction Hall as [|p pieces Hp _ IH]; intros t q d Hd.
  { exists t, [], d. by rewrite app_nil_r. }
  destruct (encoded_batch_read s p default_options t d Hd Hp) as (t1 & m & d1 & He & Hx & Hd1);
    [apply Hs|].
  destruct (IH t1 (q ++ [m]) d1 Hd1) as (t2 & q2 & d2 & Hf & Hr & Hd2).
  exists t2, (m :: q2), d2. split; [|split; [|done]].
  - cbn [for_each]. erewrite act_bind_Ok; [rewrite Hf, <- (assoc_L (++)); done|].
    unfold encode_piece, ipc_encode_batch. cbn. by rewrite He.
  - intros rest. cbn. rewrite Hx. cbn. f_equal. apply Hr.
Qed.

(** The decoder knows the schema as soon as the encoder does. *)
Definition agree (s : Schema) (sch : option Schema) (d : Decoder) : Prop :=
  match sch with None => True | Some s' => s' = s /\ in_sync s d end.

Lemma split_default b :
  fits (memory_size b) ->
  exists pieces, split_batch_for_grpc_response b GRPC_TARGET_MAX_FLIGHT_SIZE_BYTES = Ok pieces /\
    (pieces ≫= rows) = rows b /\ Forall (fun p => batch_schema p = batch_schema b) pieces.
Proof.
  intros Hf. destruct (split_rows_per_batch_spec b GRPC_TARGET_MAX_FLIGHT_SIZE_BYTES) as (q & Hq & Hpos & _);
    [done..|].
  destruct (split_loop_spec (num_rows b) b q 0) as (out & Hout & Hrows & Hall & _); [lia..|].
  exists out. unfold split_batch_for_grpc_response. rewrite Hq, bind_Ok, Hout.
  split; [done|]. split; [done|]. eapply Forall_impl; [exact Hall|]. by intros p [_ ?].
Qed.

Lemma encode_batch_reads s i sch t d b :
  sendable s -> agree s sch d -> batch_schema b = s -> fits (memory_size b) ->
  exists t' q' d' pieces, encode_batch b (state i sch t []) = (state i (Some s) t' q', Ok tt) /\
    reads d q' (SIRecordBatch <$> pieces) d' /\ in_sync s d' /\ (pieces ≫= rows) = rows b /\
    Forall (fun p => batch_schema p = s) pieces.
Proof.
  intros Hs Hd Hb Hfits.
  destruct (split_default b Hfits) as (pieces & Hp & Hrows & Hall).
  assert (exists t1 q1 d1, (match enc_schema (state i sch t []) with
      | Some schema => (state i sch t [], schema)
      | None => encode_schema (batch_schema b) (state i sch t []) end) =
      (state i (Some s) t1 q1, s) /\ reads d q1 [] d1 /\ in_sync s d1)
    as (t1 & q1 & d1 & Hsch & Hr1 & Hd1).
  { destruct sch as [s'|].
    - destruct Hd as [-> Hd]. by exists t, [], d.
    - destruct (extract_schema s default_options d []) as (d1 & Hx & Hd1).
      exists t. eexists _, d1. split; [|split; [|exact Hd1]].
      + cbn. unfold encode_schema. cbn. rewrite Hb. rewrite bool_decide_eq_false_2 by done.
        rewrite prepare_plain by apply Hs. done.
      + intros rest. cbn -[extract_message]. unfold ipc_encode_schema. cbn -[extract_message]. rewrite Hx. done. }
  destruct (encode_pieces_reads s i t1 q1 d1 pieces Hs Hd1) as (t2 & q2 & d2 & Hf & Hr2 & Hd2).
  { eapply Forall_impl; [exact Hall|]. intros p ->. done. }
  exists t2, (q1 ++ q2), d2, pieces. split; [|split; [|split; [done|split; [done|by rewrite <- Hb]]]].
  - unfold encode_batch. rewrite Hsch. unfold lift. cbn. subst s.
    rewrite hydrate_dictionaries_same by apply Hs. cbn.
    erewrite act_bind_Ok; [|done]. erewrite act_bind_Ok; [exact Hf|]. by rewrite Hp.
  - exact (reads_app _ _ [] _ _ _ _ Hr1 Hr2).
Qed.

(** What a stream means to its reader: its rows, markers, and errors in order. *)
Definition content (r : res DataFusionError (StreamItem Batch)) : list (res DataFusionError (Row + Marker)) :=
  match r with
  | Ok (SIRecordBatch b) => List.map (Ok ∘ inl) (rows b)
  | Ok (SIMarker m) => [Ok (inr m)]
  | Err e => [Err e]
  | Panic w => [Panic w]
  end.

Context {E : Type} (show : E -> string) (show_flight : FlightError -> string).

(** What is sent: the content of the stream up to its first error, which arrives in words. *)
Fixpoint sent (stream : list (option (res E (StreamItem Batch))))
    : list (res DataFusionError (Row + Marker)) :=
  match stream with
  | [] => []
  | None :: stream => sent stream
  | Some (Ok item) :: stream => content (Ok item) ++ sent stream
  | Some (Err e) :: _ =>
      [Err (Internal ("Tonic error " +:+ encoding_status show_flight (FExternalError (show e))))]
  | Some (Panic w) :: _ => [Panic w]
  end.

(** Items that the encoder can send: batches of the one schema, markers of a u64. *)
Definition encodable (s : Schema) (x : option (res E (StreamItem Batch))) : Prop :=
  match x with
  | Some (Ok (SIRecordBatch b)) => batch_schema b = s /\ fits (memory_size b)
  | Some (Ok (SIMarker m)) => fits (checkpoint_number m)
  | _ => True
  end.

Abbreviation input_of stream :=
  (option_map (flight_item ∘ map_err (fun e : E => FExternalError (show e))) <$> stream).

Lemma poll_queued i sch t m q :
  encoder_poll_next (state i sch t (m :: q)) = (Ready (Some (Ok m)), state i sch t q).
Proof. by destruct i. Qed.

Lemma poll_marker i sch t bytes :
  encoder_poll_next (state (Some (Ok (ItemAppMetadata bytes)) :: i) sch t []) =
    (Ready (Some (Ok (metadata_message bytes))), state i sch t []).
Proof. done. Qed.

Lemma poll_pending i sch t : encoder_poll_next (state (None :: i) sch t []) = (Pending, state i sch t []).
Proof. done. Qed.

Lemma drain_queue i sch t q fuel :
  drain_encoder (length q + fuel) (state i sch t q) =
    app (Ok <$> q) <$> drain_encoder fuel (state i sch t []).
Proof.
  induction q as [|m q IH]; cbn [length Nat.add].
  - cbn. by destruct (drain_encoder _ _).
  - cbn [drain_encoder]. rewrite poll_queued, IH. by rewrite <- option_fmap_compose.
Qed.

Lemma poll_batch s i sch t b t' q' :
  encode_batch b (state i sch t []) = (state i (Some s) t' q', Ok tt) ->
  encoder_poll_next (state (Some (Ok (ItemRecordBatch b)) :: i) sch t []) =
    encoder_poll_next (state i (Some s) t' q').
Proof.
  intros He. unfold encoder_poll_next. cbn [poll_encoder done_ queue state andb inner].
  change (set_inner i (state (Some (Ok (ItemRecordBatch b)) :: i) sch t [])) with (state i sch t []).
  by rewrite He.
Qed.

Lemma content_pieces pieces :
  ((Ok <$> (SIRecordBatch <$> pieces)) ≫= content) = List.map (Ok ∘ inl) (pieces ≫= rows).
Proof.
  induction pieces as [|p pieces IH]; [done|]. cbn in *. by rewrite IH, map_app.
Qed.

Lemma wire_ok q msgs : over_the_wire show_flight ((Ok <$> q) ++ msgs) = (Ok <$> q) ++ over_the_wire show_flight msgs.
Proof. unfold over_the_wire. rewrite map_app. f_equal. induction q; cbn; by f_equal. Qed.

(** A batch that arrives has the schema of what was sent. *)
Definition of_schema (s : Schema) (r : res DataFusionError (StreamItem Batch)) : Prop :=
  match r with Ok (SIRecordBatch b) => batch_schema b = s | _ => True end.

Lemma drain_sent s stream :
  sendable s -> Forall (encodable s) stream ->
  forall sch t d, agree s sch d ->
  exists n, forall fuel, (n <= fuel)%nat ->
    exists msgs, drain_encoder fuel (state (input_of stream) sch t []) = Some msgs /\
      (decode_flight_to_stream (over_the_wire show_flight msgs) d ≫= content) = sent stream /\
      Forall (of_schema s) (decode_flight_to_stream (over_the_wire show_flight msgs) d).
Proof.
  intros Hs. induction 1 as [|x stream Hx _ IH]; intros sch t d Hd.
  { exists 1%nat. intros [|fuel] Hf; [lia|]. by exists []. }
  destruct x as [[[m|b]|e|w]|].
  - destruct (IH sch t d Hd) as (n & Hn). exists (S n). intros [|fuel] Hf; [lia|].
    destruct (Hn fuel) as (msgs & Hm & Hdec & Hsch); [lia|].
    exists (Ok (metadata_message (to_bytes m)) :: msgs). split; [|split].
    + change (input_of (Some (Ok (SIMarker m)) :: stream))
        with (Some (Ok (ItemAppMetadata (to_bytes m))) :: input_of stream).
      cbn [drain_encoder]. by rewrite poll_marker, Hm.
    + cbn. rewrite extract_none by done. cbn. rewrite marker_bytes_roundtrip by done. cbn.
      f_equal. exact Hdec.
    + cbn. rewrite extract_none by done. cbn. rewrite marker_bytes_roundtrip by done. cbn. by constructor.
  - destruct Hx as [Hb Hfit].
    destruct (encode_batch_reads s (input_of stream) sch t d b Hs Hd Hb Hfit)
      as (t' & q & d' & pieces & He & Hr & Hd' & Hrows & Hpieces).
    destruct (IH (Some s) t' d') as (n & Hn); [done|]. exists (S (length q + n)).
    intros [|fuel] Hf; [lia|]. destruct (Hn (S fuel - length q)%nat) as (msgs & Hm & Hdec & Hsch); [lia|].
    exists ((Ok <$> q) ++ msgs). split; [|split].
    + assert (drain_encoder (S fuel) (state (input_of (Some (Ok (SIRecordBatch b)) :: stream)) sch t []) =
        drain_encoder (S fuel) (state (input_of stream) (Some s) t' q)) as ->.
      { cbn [drain_encoder]. by rewrite <- (poll_batch _ _ _ _ _ _ _ He). }
      replace (S fuel) with (length q + (S fuel - length q))%nat at 1 by lia.
      by rewrite drain_queue, Hm.
    + rewrite wire_ok, Hr, bind_app, content_pieces, Hrows, Hdec. done.
    + rewrite wire_ok, Hr. apply Forall_app_2; [|done]. by rewrite !Forall_fmap.
  - exists 2%nat. intros [|[|fuel]] Hf; [lia..|]. exists [Err (FExternalError (show e))].
    split; [by destruct stream|]. split; [done|]. by repeat constructor.
  - exists 1%nat. intros [|fuel] Hf; [lia|]. exists [Panic w]. split; [done|]. split; [done|]. by repeat constructor.
  - destruct (IH sch t d Hd) as (n & Hn). exists (S n). intros [|fuel] Hf; [lia|].
    destruct (Hn fuel) as (msgs & Hm & Hdec & Hsch); [lia|]. exists msgs. split; [|done].
    change (input_of (None :: stream)) with (None :: input_of stream).
    cbn [drain_encoder]. by rewrite poll_pending, Hm.
Qed.

(** C18: a stream that crosses the wire arrives as it was sent.  If the batches have one schema
    without dictionaries (and nothing else that Flight rewrites), polling the encoder to its
    end terminates, and the decoder then delivers the same rows and the same markers in the
    same order, up to the first error, which it delivers as an error; the cut into batches may
    differ, and empty batches disappear. *)
Theorem flight_round_trip s stream :
  sendable s -> Forall (encodable s) stream ->
  exists n, forall fuel, (n <= fuel)%nat ->
    exists msgs, drain_encoder fuel (encode_stream_to_flight show stream) = Some msgs /\
      (decode_flight_to_stream (over_the_wire show_flight msgs) decoder_new ≫= content) = sent stream.
Proof.
  intros Hs Hall. destruct (drain_sent s stream Hs Hall None (tracker_new true default_options) decoder_new I) as (n & Hn).
  exists n. intros fuel (msgs & Hm & Hd & _)%Hn. by exists msgs.
Qed.
End round_trip.

(** ** A concrete arrow with fields

    A schema is a non-empty list of fields and a row a list of numbers; a column carries its type
    and the rows it was cut from.  Messages are kept in tables: the body of a message is its
    index.  It satisfies every law, so the round trip is not vacuous. *)
Module FieldArrow.

(** Decidable equality of fields, through an injective encoding. *)
Abbreviation tree := (gen_tree (string + N)).
Definition bit (b : bool) : tree := GenLeaf (inr (if b then 1 else 0)).

Fixpoint encode_field (f : Field) : tree :=
  let 'mkField n t b i o m := f in
  GenNode 0 [GenLeaf (inl n); encode_type t; bit b; GenLeaf (inr i); bit o;
    GenNode 0 (List.map (fun '(k, v) => GenNode 0 [GenLeaf (inl k); GenLeaf (inl v)]) m)]
with encode_type (t : DataType) : tree :=
  match t with
  | List f => GenNode 1 [encode_field f]
  | LargeList f => GenNode 2 [encode_field f]
  | Struct fs => GenNode 3 (List.map encode_field fs)
  | Union fs mode => GenNode 4 (bit (match mode with Sparse => true | Dense => false end) ::
      List.map (fun x => GenNode 0 [GenLeaf (inr (fst x)); encode_field (snd x)]) fs)
  | Dictionary k v => GenNode 5 [encode_type k; encode_type v]
  | Map f s => GenNode 6 [encode_field f; bit s]
  | OtherType tag fs => GenNode 7 (GenLeaf (inl tag) :: List.map encode_field fs)
  end.

Lemma map_inj_forall {A B} (f : A -> B) l k :
  Forall (fun x => forall y, f x = f y -> x = y) l -> List.map f l = List.map f k -> l = k.
Proof.
  intros Hl. revert k. induction Hl as [|x l Hx _ IH]; intros [|y k] Hm; try done.
  injection Hm as Hxy Hm. f_equal; auto.
Qed.

Lemma encode_field_inj f g : encode_field f = encode_field g -> f = g.
Proof.
  revert f g. apply (field_ind' (fun f => forall g, encode_field f = encode_field g -> f = g)
    (fun t => forall t', encode_type t = encode_type t' -> t = t')).
  - intros n t b i o m IH [n' t' b' i' o' m'] [= -> Ht Hb -> Ho Hm].
    apply (map_inj_forall _ m m') in Hm; [|apply Forall_true; by intros [] [] [= -> ->]].
    subst m'. rewrite (IH t' Ht). f_equal; [by destruct b, b'|by destruct o, o'].
  - intros f IH [] [= ?]. f_equal. auto.
  - intros f IH [] [= ?]. f_equal. auto.
  - intros fs IH [] [= Hm]. f_equal. by apply (map_inj_forall encode_field).
  - intros fs mode IH [] [= Hb Hm]. f_equal; [|by destruct mode, mode0].
    eapply map_inj_forall; [|exact Hm]. eapply Forall_impl; [exact IH|].
    intros [i f] Hf [i' f'] Hx. cbn in *. injection Hx as -> Hff. by rewrite (Hf f' Hff).
  - intros k v IHk IHv [] [= ??]. f_equal; auto.
  - intros f s IH [] [= Hf Hs]. rewrite (IH _ Hf). f_equal. by destruct s, sorted.
  - intros tag fs IH [] [= -> Hm]. f_equal. by apply (map_inj_forall encode_field).
Qed.

#[export] Instance field_eq_dec : EqDecision Field.
Proof.
  intros f g. destruct (decide (encode_field f = encode_field g)) as [He|He].
  - left. by apply encode_field_inj.
  - right. intros ->. done.
Defined.

Record batch := mkBatch { fb_schema : Field * list Field; fb_rows : list (list N) }.
Definition array : Type := DataType * list (list N) * option nat.
Definition fields_of (s : Field * list Field) : list Field := fst s :: snd s.

Definition take_array (ix : list nat) (a : array) : res DataFusionError array :=
  let '(t, l, c) := a in
  match RowArrow.gather l ix with
  | Some l => Ok (t, l, c)
  | None => Err (ArrowErr "index out of bounds")
  end.

(** The hash of a row is its number in the first column that is hashed. *)
Definition hash_rows (arrs : list array) (n : nat) : list N :=
  match arrs with
  | (_, l, Some e) :: _ => (fun i => default 0 (r ← l !! i; r !! e) mod 2 ^ 64) <$> seq 0 n
  | _ => replicate n 0
  end.

#[export] Instance arrow : Arrow := {|
  Batch := batch; Schema := Field * list Field; Array := array; Expr := nat; Row := list N;
  Schema_eq_dec := _;
  batch_schema := fb_schema;
  num_rows b := length (fb_rows b);
  columns b := List.map (fun f => (data_type f, fb_rows b, None)) (fields_of (fb_schema b));
  slice b o n := mkBatch (fb_schema b) (take n (drop o (fb_rows b)));
  take_arrays cs ix := try_collect (take_array ix) cs;
  try_new_with_options s cs n :=
    match cs with
    | (_, l, _) :: _ =>
        if decide (n = Some (length l)) then Ok (mkBatch s l) else Err (ArrowErr "row count mismatch")
    | [] => Err (ArrowErr "invalid columns")
    end;
  evaluate e b := Ok (OtherType "u64" [], fb_rows b, Some e);
  create_hashes arrs n := Ok (hash_rows arrs n);
  rows := fb_rows;
|}.

#[export] Instance arrow_laws : ArrowLaws.
Proof.
  split; try done.
  - intros b ix Hin.
    destruct (RowArrow.gather_in_range (fb_rows b) ix Hin) as (l' & Hg & Hlen & Hmap).
    exists (List.map (fun f => (data_type f, l', None)) (fields_of (fb_schema b))), (mkBatch (fb_schema b) l').
    split; [|split; [|done]].
    + cbn [take_arrays arrow columns]. generalize (fields_of (fb_schema b)). intros fs.
      induction fs as [|f fs IH]; [done|]. cbn. cbn in IH. by rewrite Hg, IH.
    + cbn. rewrite Hlen. by rewrite decide_True.
  - intros arrs n hs [= <-]. unfold hash_rows. destruct arrs as [|[[t l] [e|]] arrs]; try apply length_replicate.
    by rewrite length_fmap, length_seq.
  - intros arrs n hs [= <-]. unfold hash_rows. destruct arrs as [|[[t l] [e|]] arrs]; try by apply Forall_replicate.
    apply Forall_fmap, Forall_forall. intros i _. unfold fits. cbn. by apply N.mod_lt.
Qed.

#[export] Instance flight_arrow : FlightArrow := {|
  schema_fields := fields_of;
  schema_with_fields s fs := match fs with [] => s | f :: fs => (f, fs) end;
  Tracker := N;
  set_dict_id _ t := (t, t + 1);
  other_is_nested _ _ := false;
  array_data_type c := c.1.1;
  get_buffer_memory_size c := 8 * N.of_nat (length c.1.2);
  cast c t := Ok (t, c.1.2, c.2);
  union_child c i :=
    match c.1.1 with
    | Union fields _ =>
        match (list_to_map fields : gmap N Field) !! i with
        | Some f => (data_type f, c.1.2, c.2)
        | None => c
        end
    | _ => c
    end;
  union_try_new _ c _ := Ok c;
|}.

#[export] Instance flight_arrow_laws : FlightArrowLaws.
Proof.
  split.
  - intros s [|f fs]; [done|]. done.
  - by intros [].
  - intros b. cbn. constructor; [done|]. induction (snd (fb_schema b)); cbn; by constructor.
  - by intros [[t l] c].
  - intros [[t l] c] fields Ht Hnd. cbn in Ht. subst t. split; [|done].
    apply Forall_forall. intros [i f] Hin. cbn. by rewrite (elem_of_list_to_map_1 _ _ _ Hnd Hin).
  - intros [s l]. cbn. by rewrite decide_True.
Qed.

#[export] Instance flight_ipc : FlightIpc := {|
  IpcWriteOptions := unit;
  default_options := tt;
  FlightDescriptor := (Field * list Field) + batch;
  tracker_new _ _ := 0;
  schema_as_ipc s _ := mkFlightData (Some (inl s)) [1] [] [];
  encoded_batch b _ t := (t, Ok ([], mkFlightData (Some (inr b)) [2] [] []));
  none_header := [0];
  Decoder := option (Field * list Field);
  decoder_new := None;
  extract_message m d :=
    if decide (data_header m = [0]) then (d, Ok (Some PNone))
    else match flight_descriptor m with
         | Some (inl s) => (Some s, Ok (Some (PSchema s)))
         | Some (inr b) => (d, Ok (Some (PRecordBatch b)))
         | None => (d, Err (FDecodeError "unknown message"))
         end;
  internal_status message := "status: Internal, message: " +:+ message;
|}.

#[export] Instance flight_ipc_laws : FlightIpcLaws.
Proof.
  refine {| in_sync s (d : Decoder) := d = Some s |}.
  - intros m d Hm. cbn in *. by rewrite decide_True.
  - intros s o d m. cbn. by exists (Some s).
  - intros s b o t d -> _ _. by exists t, (mkFlightData (Some (inr b)) [2] [] []), (Some s).
Defined.

#[export] Instance marker_proto : MarkerProto := {|
  encode_to_vec n := [n];
  decode bytes := match bytes with [n] => Ok n | _ => Err "invalid marker" end;
|}.
#[export] Instance marker_proto_laws : MarkerProtoLaws.
Proof. by split. Qed.
End FieldArrow.

(** ** The theorems at work *)

#[local] Existing Instances FieldArrow.arrow FieldArrow.arrow_laws FieldArrow.flight_arrow
  FieldArrow.flight_arrow_laws FieldArrow.flight_ipc FieldArrow.flight_ipc_laws
  FieldArrow.marker_proto FieldArrow.marker_proto_laws.

Definition example_schema : Schema := (field_new "a" (OtherType "UInt64" []) false, []).
Definition example_batch (n : nat) : Batch :=
  FieldArrow.mkBatch example_schema (List.map (fun i => [N.of_nat i]) (seq 0 n)).

#[local] Instance example_profile : Profile := true.

Definition example_tracker : Tracker := tracker_new true default_options.

Lemma prepare_schema_type_witness :
  let schema : Schema :=
    (field_new "a" (Dictionary (OtherType "Int32" []) (OtherType "Utf8" [])) true, []) in
  exists schema', prepare_schema_for_flight schema false example_tracker = (schema', example_tracker) /\
    forallb dict_free (schema_fields schema') = true.
Proof.
  intros schema. destruct (prepare_schema_type schema example_tracker) as (s' & Hs & _ & Hd & _).
  exists s'. split; [exact Hs|]. apply Hd. reflexivity.
Defined.

Lemma split_batch_bounds_witness :
  exists q pieces,
    split_batch_for_grpc_response (example_batch 7) 24 = Ok pieces /\
    pieces_of q (example_batch 7) pieces.
Proof.
  destruct (split_batch_bounds (example_batch 7) 24) as (q & pieces & Hs & Hp & _);
    [lia|reflexivity|].
  by exists q, pieces.
Defined.

Lemma flight_round_trip_witness :
  exists n, forall fuel, (n <= fuel)%nat ->
    exists msgs,
      drain_encoder fuel (encode_stream_to_flight (fun e : string => e)
        [Some (Ok (SIRecordBatch (example_batch 3))); None; Some (Ok (SIMarker (mkMarker 1)));
         Some (Err "lost")]) = Some msgs /\
      (decode_flight_to_stream (over_the_wire (fun _ => "broken") msgs) decoder_new ≫= content) =
        [Ok (inl [0]); Ok (inl [1]); Ok (inl [2]); Ok (inr (mkMarker 1));
         Err (Internal "Tonic error status: Internal, message: Error encoding flight data: broken")].
Proof.
  refine (flight_round_trip (fun e : string => e) (fun _ => "broken") example_schema
    [Some (Ok (SIRecordBatch (example_batch 3))); None; Some (Ok (SIMarker (mkMarker 1)));
     Some (Err "lost")] _ _).
  - split; [reflexivity|]. split; [reflexivity|]. by repeat constructor.
  - repeat constructor.
Defined.
