(* ===== verification/Edges.v ===== *)
(** * From one task to the next (operators/remote_exchange.rs to operators/remote_source/)

    The exchange at the end of a task, the exchange service of its worker, the Flight stream and
    the remote source at the start of the next task, put together: what the copies of a task
    receive of the streams of other tasks.  Paths are relative to src/src/streaming/. *)

From S2P Require Import Prelude Arrow Partitioning Stream Generation Channels FiberStream Barrier RemoteSource.
From S2P Require Import FiberRuns RemoteExchange FlightSchema Flight.
Import PartitionRangeOps ExchangeChannelStore.

Section edges.
Context `{FlightIpcLaws, !MarkerProto, !MarkerProtoLaws, Profile, SelectAll, !SelectAllLaws}.
Context (show : DataFusionError -> string) (show_flight : FlightError -> string) (display : DataFusionError -> string).
(** prost reads a ticket back from its bytes. *)
Context (encode_ticket : Ticket -> list N) (decode_ticket : list N -> res string Ticket).
Context (ticket_read : forall t, decode_ticket (encode_ticket t) = Ok t).
Context (show_status : Status -> string).

Abbreviation Item := (StreamItem Batch).
Abbreviation item := (res DataFusionError (SItem Batch)).

(** ** The parts together *)

(** The workers, by the address of their exchange service. *)
Abbreviation Net := (gmap string ExchangeChannelStore.t).

(** A copy of a task that ends in a partitioned exchange: where it runs, the range of its first
    generation, and what its exchange is given. *)
Record Producer := mkProducer {
  worker : string;
  out_stream : string;
  range : PartitionRange;
  given : list Item;
}.

Definition as_stream (items : list Item) : list item := (fun i => Ok (sitem_of_stream_item i)) <$> items.

Section producing.
Context (sch : Schema) (exprs : list Expr).

(** The exchange is created, initialised and run to its end. *)
Definition produce (t : Producer) (store : ExchangeChannelStore.t) : ExchangeChannelStore.t :=
  let op := exchange_new_with_partitioning (out_stream t) sch (mkPartitioningSpec exprs) in
  match exchange_init (exchange_create op) (Some [mkGenerationSpec "" (range t) []]) store with
  | (store, Ok self) => (exchange_run self [(0, single (as_stream (given t)))] store).1.1
  | (store, _) => store
  end.

Definition run_producer (net : Net) (t : Producer) : Net :=
  <[worker t := produce t (default ExchangeChannelStore.new (net !! worker t))]> net.
Definition produce_all (ts : list Producer) (net : Net) : Net := foldl run_producer net ts.
End producing.

(** A client of a worker that is there. *)
Definition connect (address : string) : act Net DataFusionError string := fun net =>
  (net, match net !! address with Some _ => Ok address | None => Err (Internal "Cannot connect") end).

(** The service of a worker answers a request with what a reader of the channel is given until
    the channel ends, encoded; the messages cross the wire and are decoded. *)
Definition do_get (fuel : nat) (address : string) (ticket : StreamingFlightTicketData)
    : act Net string (list (res DataFusionError Item)) := fun net =>
  (net,
   store ← ok_or "no worker" (net !! address);
   '(ch, f) ← map_err show_status (get_stream decode_ticket store (encode_ticket
     (mkTicket (RemoteSource.ticket_stream_id ticket) (Some (into_proto (RemoteSource.ticket_partitions ticket))))));
   st ← ok_or "no channel" (heap store !! ch);
   match drain_encoder fuel (encode_stream_to_flight show (Some <$> (apply_filter f <$> (Ok <$> Channels.data st)))) with
   | Some msgs => Ok (decode_flight_to_stream (over_the_wire show_flight msgs) decoder_new)
   | None => Panic "out of fuel"
   end).

Definition open_stream (fuel : nat) (sid address : string) (r : PartitionRange) : act Net DataFusionError (list item) :=
  create_remote_stream connect (do_get fuel) sid address r.

(** The rows of a stream. *)
Definition rows_of (l : list item) : list Row :=
  l ≫= (fun i => match i with Ok (SRecordBatch b) => rows b | _ => [] end).

(** A copy of the next task: the remote source is pulled and its fibers are polled by a
    schedule; the rows that they deliver, once they have all stopped. *)
Definition consume (fuel : nat) (ids : list string) (w : Shared) (schedule : list nat) (net : Net) : option (list Row) :=
  match snd (snd (pull (open_stream fuel) (running_stream_new ids) w net)) with
  | Ok (Some (shared, barrier), instructions) =>
      let '(_, (fibers, outs)) := poll_fibers display shared schedule (Running <$> instructions) (barrier, w) in
      if forallb is_stopped fibers then Some (seq 0 (length fibers) ≫= (fun i => rows_of (outs_of i outs))) else None
  | _ => None
  end.

(** ** The exchange *)

(** Readers of the stream [sid] of the worker are given [items], those of the range [R]. *)
Definition serves (exprs : list Expr) (store : ExchangeChannelStore.t) (sid : string) (R : PartitionRange) (items : list Item) : Prop :=
  exists ch st, ExchangeChannelStore.channels store !! sid = Some (mkOutput ch (Some (mkDetails (mkPartitioningSpec exprs) R))) /\
    heap store !! ch = Some st /\ Channels.data st = items.

Lemma produce_spec sch exprs t store : exists st,
  produce sch exprs t store = mkStore (heap store ++ [st])
    (<[out_stream t := mkOutput (length (heap store)) (Some (mkDetails (mkPartitioningSpec exprs) (range t)))]>
      (ExchangeChannelStore.channels store)) /\ Channels.data st = given t.
Proof.
  unfold produce, exchange_init, exchange_create. cbn [lookup list_lookup fmap option_fmap option_map fn_partitioning
    exchange_new_with_partitioning partitioning output_stream_id fn_stream_id gen_partitions].
  unfold ExchangeChannelStore.create. cbn [channel_create drop_channel data_channel with_data_channel].
  match goal with |- context [exchange_run ?f _ ?s] => set (self := f); set (store1 := s) end.
  destruct (exchange_run_writes self store1 (length (heap store)) (given t) 0) as (st' & lc & Hrun & Hd & _).
  - done.
  - subst store1. cbn [heap]. by rewrite lookup_app_r, Nat.sub_diag by done.
  - exists st'. split; [|done]. fold (as_stream (given t)) in Hrun. rewrite Hrun. cbn [fst].
    subst store1. cbn [heap ExchangeChannelStore.channels]. f_equal.
    by rewrite insert_app_r_alt, Nat.sub_diag by done.
Qed.

Lemma produce_serves sch exprs t store : serves exprs (produce sch exprs t store) (out_stream t) (range t) (given t).
Proof.
  destruct (produce_spec sch exprs t store) as (st & -> & Hd). exists (length (heap store)), st.
  split; [by apply lookup_insert_eq|]. split; [|done]. cbn. by rewrite lookup_app_r, Nat.sub_diag by done.
Qed.

(** Another exchange of the worker leaves it alone. *)
Lemma produce_keeps sch exprs t store sid R items : sid <> out_stream t ->
  serves exprs store sid R items -> serves exprs (produce sch exprs t store) sid R items.
Proof.
  intros Hne (ch & st & Hc & Hh & Hd). destruct (produce_spec sch exprs t store) as (st' & -> & _).
  exists ch, st. split; [by rewrite <- Hc; apply lookup_insert_ne|]. split; [|done].
  cbn. by apply lookup_app_l_Some.
Qed.

(** After all tasks have run, each stream is served on its worker. *)
Lemma produce_all_serves sch exprs ts net t :
  NoDup ((fun t => (out_stream t, worker t)) <$> ts) -> t ∈ ts ->
  exists store, produce_all sch exprs ts net !! worker t = Some store /\ serves exprs store (out_stream t) (range t) (given t).
Proof.
  unfold produce_all. intros Hnd Hin.
  assert (forall ts net, (out_stream t, worker t) ∉ ((fun t => (out_stream t, worker t)) <$> ts) ->
    (exists store, (net : Net) !! worker t = Some store /\ serves exprs store (out_stream t) (range t) (given t)) ->
    exists store, foldl (run_producer sch exprs) net ts !! worker t = Some store /\ serves exprs store (out_stream t) (range t) (given t)) as Hkeep.
  { clear ts net Hnd Hin. induction ts as [|t' ts IH]; intros net Hnot Hs; [done|].
    rewrite fmap_cons, not_elem_of_cons in Hnot. destruct Hnot as [Hne Hnot]. cbn [foldl]. apply IH; [done|]. unfold run_producer.
    destruct Hs as (store & Hn & Hs). destruct (decide (worker t' = worker t)) as [Hw|Hw].
    - rewrite Hw, Hn. cbn. eexists. split; [by apply lookup_insert_eq|]. apply produce_keeps; [|done]. congruence.
    - exists store. by rewrite lookup_insert_ne. }
  revert net. induction ts as [|t' ts IH]; intros net; [by apply not_elem_of_nil in Hin|].
  rewrite fmap_cons in Hnd. apply NoDup_cons in Hnd as [Hnot Hnd]. cbn [foldl].
  apply elem_of_cons in Hin as [<-|Hin]; [|by apply IH].
  apply Hkeep; [done|]. unfold run_producer. eexists. split; [by apply lookup_insert_eq|]. apply produce_serves.
Qed.

(** ** The wire

    Streams with the same rows and markers in the same order are read alike, however they are
    cut into batches. *)
Section verdict.
Context (verdict : Marker -> FiberState).

(** The rows up to the first marker at which the fibers pause. *)
Fixpoint rows_until (l : list (res DataFusionError (Row + Marker))) : list Row :=
  match l with
  | [] => []
  | Ok (inl r) :: l => r :: rows_until l
  | Ok (inr m) :: l => match verdict m with Continue => rows_until l | Pause => [] end
  | _ :: l => rows_until l
  end.

Lemma rows_until_app k l : rows_until (List.map (Ok ∘ inl) k ++ l) = k ++ rows_until l.
Proof. induction k as [|r k IH]; [done|]. cbn in *. by rewrite IH. Qed.

Lemma rows_of_cons i l : rows_of (i :: l) = match i with Ok (SRecordBatch b) => rows b | _ => [] end ++ rows_of l.
Proof. done. Qed.

Lemma content_rows (l : list (res DataFusionError Item)) :
  rows_of (up_to_pause verdict (into_sitem <$> l)) = rows_until (l ≫= content).
Proof.
  induction l as [|i l IH]; [done|]. rewrite fmap_cons, bind_cons. destruct i as [[m|b]|e|w]; cbn [into_sitem sitem_of_stream_item content].
  - cbn [up_to_pause app rows_until]. rewrite rows_of_cons. destruct (verdict m); [exact IH|done].
  - cbn [up_to_pause]. by rewrite rows_of_cons, IH, rows_until_app.
  - cbn [up_to_pause app rows_until]. by rewrite rows_of_cons, IH.
  - cbn [up_to_pause app rows_until]. by rewrite rows_of_cons, IH.
Qed.
End verdict.

Lemma content_markers (l : list (res DataFusionError Item)) :
  markers_in (into_sitem <$> l) = omap (fun r => match r with Ok (inr m) => Some m | _ => None end) (l ≫= content).
Proof.
  unfold markers_in. induction l as [|i l IH]; [done|]. rewrite fmap_cons, bind_cons, omap_app, <- IH.
  destruct i as [[m|b]|e|w]; cbn; [done| |done|done].
  assert (omap (fun r => match r with Ok (inr m) => Some m | _ => None end)
    (List.map (Ok ∘ inl) (rows b) : list (res DataFusionError (Row + Marker))) = []) as ->; [|done].
  by induction (rows b).
Qed.

(** ** What a consumer asks for *)

Section exchanged.
Context (s : Schema) (exprs : list Expr).

(** The rows of a batch in a range of the hash space. *)
Definition part (q : PartitionRange) (b : Batch) : list Row :=
  match filter_by_partition_range b q exprs with Ok b => rows b | _ => [] end.
Definition part_of (q : PartitionRange) (l : list item) : list Row :=
  l ≫= (fun i => match i with Ok (SRecordBatch b) => part q b | _ => [] end).

Lemma part_of_cons q i l : part_of q (i :: l) = match i with Ok (SRecordBatch b) => part q b | _ => [] end ++ part_of q l.
Proof. done. Qed.

(** A batch that can be hashed and whose part in [q] can be sent. *)
Definition shippable (q : PartitionRange) (b : Batch) : Prop :=
  batch_schema b = s /\ N.of_nat (num_rows b) <= 4294967296 /\
  (exists arrays hs, try_collect (fun e => evaluate e b) exprs = Ok arrays /\ create_hashes arrays (num_rows b) = Ok hs) /\
  (forall b', filter_by_partition_range b q exprs = Ok b' -> fits (memory_size b')).
Definition sendable_item (q : PartitionRange) (i : Item) : Prop :=
  match i with SIRecordBatch b => shippable q b | SIMarker m => fits (checkpoint_number m) end.

Lemma shippable_part q b : 0 < partitions q -> shippable q b ->
  exists b', filter_by_partition_range b q exprs = Ok b' /\ batch_schema b' = s /\ fits (memory_size b').
Proof.
  intros Hq (Hs & Hn & (arrays & hs & Ha & Hh) & Hfit).
  destruct (filter_by_partition_range_spec b q exprs arrays hs Hq Hn Ha Hh) as (b' & Hb & Hs' & _).
  exists b'. split; [done|]. split; [congruence|]. by apply Hfit.
Qed.

(** The filtered items of a channel, as a reader is given them. *)
Definition filtered (q : PartitionRange) (items : list Item) : list (res DataFusionError Item) :=
  apply_filter (Some (mkDetails (mkPartitioningSpec exprs) q)) <$> (Ok <$> items).

Lemma filtered_spec q items verdict : 0 < partitions q -> Forall (sendable_item q) items ->
  sent show show_flight (Some <$> filtered q items) = filtered q items ≫= content /\
  Forall (encodable s) (Some <$> filtered q items) /\
  markers_in (into_sitem <$> filtered q items) = markers_in (as_stream items) /\
  rows_of (up_to_pause verdict (into_sitem <$> filtered q items)) = part_of q (up_to_pause verdict (as_stream items)).
Proof.
  intros Hq. induction 1 as [|i items Hi _ (IHs & IHe & IHm & IHr)]; [done|].
  destruct i as [m|b].
  - split_and!.
    + unfold filtered in *. rewrite !fmap_cons. cbn. by f_equal.
    + unfold filtered in *. rewrite !fmap_cons. by constructor.
    + unfold filtered, as_stream, markers_in in *. rewrite !fmap_cons. cbn. by f_equal.
    + change (filtered q (SIMarker m :: items)) with (Ok (SIMarker m) :: filtered q items).
      change (as_stream (SIMarker m :: items)) with (Ok (SMarker m) :: as_stream items). rewrite fmap_cons.
      cbn [into_sitem sitem_of_stream_item up_to_pause]. rewrite rows_of_cons, part_of_cons.
      by destruct (verdict m); [rewrite IHr|].
  - destruct (shippable_part q b Hq Hi) as (b' & Hb & Hs & Hfit).
    assert (filtered q (SIRecordBatch b :: items) = Ok (SIRecordBatch b') :: filtered q items) as Hcons.
    { unfold filtered. rewrite !fmap_cons. cbn -[filter_by_partition_range]. by rewrite Hb. }
    rewrite Hcons. split_and!.
    + rewrite fmap_cons, bind_cons. cbn. by f_equal.
    + rewrite fmap_cons. by constructor.
    + rewrite fmap_cons. exact IHm.
    + change (as_stream (SIRecordBatch b :: items)) with (Ok (SRecordBatch b) :: as_stream items). rewrite fmap_cons.
      cbn [into_sitem sitem_of_stream_item up_to_pause]. rewrite rows_of_cons, part_of_cons, IHr. unfold part. by rewrite Hb.
Qed.

(** A remote stream that is opened gives the part of the channel in the range that was asked for. *)
Lemma open_reads store sid address R items r net :
  sendable s -> net !! address = Some store -> serves exprs store sid R items -> 0 < partitions R ->
  is_empty (intersection R r) = false -> Forall (sendable_item (intersection R r)) items ->
  exists n, forall fuel, (n <= fuel)%nat -> exists D, open_stream fuel sid address r net = (net, Ok D) /\
    markers_in D = markers_in (as_stream items) /\
    forall verdict, rows_of (up_to_pause verdict D) = part_of (intersection R r) (up_to_pause verdict (as_stream items)).
Proof.
  intros Hs Hnet (ch & st & Hch & Hst & Hdata) Hp He Hitems.
  assert (0 < partitions (intersection R r)) as Hq.
  { revert He. unfold intersection. by destruct (_ <? _). }
  destruct (filtered_spec (intersection R r) items (fun _ => Pause) Hq Hitems) as (Hsent & Henc & Hmark & _).
  destruct (drain_sent show show_flight s (Some <$> filtered (intersection R r) items) Hs Henc
    None (tracker_new true default_options) decoder_new I) as (n & Hn).
  exists n. intros fuel (msgs & Hmsgs & Hdec & _)%Hn. rewrite Hsent in Hdec.
  exists (into_sitem <$> decode_flight_to_stream (over_the_wire show_flight msgs) decoder_new). split; [|split].
  - unfold open_stream, create_remote_stream, act_bind, connect. rewrite Hnet. unfold do_get. rewrite Hnet.
    cbn [ok_or mbind res_bind RemoteSource.ticket_stream_id RemoteSource.ticket_partitions].
    unfold get_stream. rewrite ticket_read.
    cbn [map_err mbind res_bind ticket_partitions ticket_stream_id]. rewrite into_from_proto.
    unfold ExchangeChannelStore.stream. rewrite Hch.
    cbn [ok_or mbind res_bind partitioning_details cp_partitions]. rewrite He.
    cbn [map_err mbind res_bind channel partitioning_spec]. rewrite Hst. cbn [ok_or mbind res_bind]. rewrite Hdata.
    assert (drain_encoder fuel (encode_stream_to_flight show (Some <$> filtered (intersection R r) items)) = Some msgs) as Hm
      by exact Hmsgs.
    unfold filtered in Hm. by rewrite Hm.
  - rewrite content_markers, Hdec, <- content_markers. exact Hmark.
  - intros verdict. rewrite content_rows, Hdec, <- content_rows. by eapply filtered_spec.
Qed.

(** ** Pulling the remote source *)

(** The fibers of an operator that has none yet. *)
Definition new_fibers (addresses : list (string * string * PartitionRange)) : list ((string * string) * RunningFiber (B := Batch)) :=
  (fun '(sid, addr, r) => ((sid, addr), fiber_new sid addr r)) <$> addresses.

Lemma new_fibers_list addresses : NoDup addresses.*1 ->
  map_to_list (make_fibers_for_all_addresses (B := Batch) None addresses) ≡ₚ new_fibers addresses.
Proof.
  intros Hnd. unfold make_fibers_for_all_addresses. cbn [app].
  assert ((new_fibers addresses).*1 = addresses.*1) as Hkeys.
  { unfold new_fibers. rewrite <- list_fmap_compose. apply list_fmap_ext. by intros i [[sid addr] r] _. }
  match goal with |- context [?f <$> (?g <$> addresses)] =>
    assert (f <$> (g <$> addresses) = new_fibers addresses) as -> end.
  { unfold new_fibers. rewrite <- list_fmap_compose. apply list_fmap_ext. intros i [[sid addr] r] _.
    cbn. unfold fiber_load. by rewrite bool_decide_eq_true_2. }
  assert (NoDup (new_fibers addresses).*1) as Hndn by by rewrite Hkeys.
  rewrite foldl_insert, (right_id_L ∅ (∪)) by done. by apply map_to_list_to_map.
Qed.

Lemma run_new_fibers fuel net opened l all :
  (forall a, a ∈ l -> open_stream fuel a.1.1 a.1.2 a.2 net = (net, Ok (opened a))) ->
  exists all', run_fibers (open_stream fuel) (new_fibers l) all net =
    (net, (all', Ok ((fun a => insert_stream_instructions (opened a)) <$> l))).
Proof.
  revert all. induction l as [|[[sid addr] r] l IH]; intros all Hopen; [by eexists|].
  pose proof (Hopen _ (list_elem_of_here _ _)) as Ho. cbn [fst snd] in Ho.
  cbn [new_fibers fmap list_fmap run_fibers]. fold (new_fibers l).
  unfold fiber_run at 1. cbn [remote_stream fiber_new fib_stream_id fib_address fib_partitions retry_future].
  unfold mbind at 1, act_bind at 1. rewrite Ho. unfold mret, act_ret.
  match goal with |- context [run_fibers _ _ ?m net] =>
    destruct (IH m (fun a Ha => Hopen a (list_elem_of_further _ _ _ Ha))) as (all' & ->) end.
  by exists all'.
Qed.

(** *** A consumer *)

Definition received (n : nat) (outs : list (nat * item)) : list Row := seq 0 n ≫= (fun i => rows_of (outs_of i outs)).

(** A copy of the next task: its details, and the producers and ranges that they give. *)
Record Consumer := mkConsumer {
  ids : list string;
  details : Shared;
  wanted : GenerationSpec;
  sources : list (Producer * PartitionRange);
}.

Definition address_of (src : Producer * PartitionRange) : string * string * PartitionRange :=
  (out_stream src.1, worker src.1, src.2).
Definition addresses (c : Consumer) : list (string * string * PartitionRange) := address_of <$> sources c.

Definition consumer_state (c : Consumer) : SharedFiberState :=
  fst (shared_fiber_state_new (ids c) (gen_id (wanted c)) (gen_partitions (wanted c)) (addresses c)).

(** The details of a consumer name producers of [ts] (and no stream of a worker twice), and at each marker the check of its fibers has the [verdict]. *)
Record consumer_ok (ts : list Producer) (verdict : Marker -> FiberState) (ms : list Marker) (c : Consumer) : Prop := {
  co_pull : pull_addresses (B := Batch) (running_stream_new (ids c)) (details c) = Ok (wanted c, addresses c);
  co_waiting : currently_waiting_on_marker (details c) = None;
  co_checks : Forall (fun m => check_generation_and_addresses (scheduling_details (details c)) (consumer_state c)
    (checkpoint_number m) = Ok (verdict m)) ms;
  co_once : NoDup (addresses c).*1;
  co_producers : Forall (fun src => src.1 ∈ ts /\ 0 < partitions (range src.1) /\
    is_empty (intersection (range src.1) src.2) = false /\
    Forall (sendable_item (intersection (range src.1) src.2)) (given src.1)) (sources c);
}.

(** The rows of a producer up to the marker at which the consumers pause, in the range that a
    consumer asks for. *)
Definition share (verdict : Marker -> FiberState) (src : Producer * PartitionRange) : list Row :=
  part_of (intersection (range src.1) src.2) (up_to_pause verdict (as_stream (given src.1))).

Definition opened (fuel : nat) (net : Net) (a : string * string * PartitionRange) : list item :=
  match open_stream fuel a.1.1 a.1.2 a.2 net with (_, Ok l) => l | _ => [] end.

Lemma eventually_all {A} (P : A -> nat -> Prop) l :
  Forall (fun x => exists n, forall fuel, (n <= fuel)%nat -> P x fuel) l ->
  exists n, forall fuel, (n <= fuel)%nat -> Forall (fun x => P x fuel) l.
Proof.
  induction 1 as [|x l (n & Hn) _ (k & Hk)]; [by exists 0%nat|]. exists (n + k)%nat. intros fuel Hf.
  constructor; [apply Hn|apply Hk]; lia.
Qed.

Lemma bind_lookup {A C} (f : nat -> list C) (g : A -> list C) l :
  (forall i x, l !! i = Some x -> f i = g x) -> seq 0 (length l) ≫= f = l ≫= g.
Proof.
  revert f. induction l as [|a l IH]; intros f Hf; [done|]. cbn [length seq]. rewrite !bind_cons. f_equal; [by apply (Hf 0%nat)|].
  rewrite <- (IH (fun i => f (S i))); [|intros i x; apply (Hf (S i))].
  change 1%nat with (S 0)%nat. rewrite <- fmap_S_seq. unfold mbind. generalize (seq 0 (length l)). clear. induction l; [done|]. cbn. by f_equal.
Qed.

(** Pulling: one fiber per address, in the order of the map, over the streams that are opened. *)
Lemma pull_opens fuel net c : pull_addresses (B := Batch) (running_stream_new (ids c)) (details c) = Ok (wanted c, addresses c) ->
  NoDup (addresses c).*1 ->
  (forall a, a ∈ addresses c -> open_stream fuel a.1.1 a.1.2 a.2 net = (net, Ok (opened fuel net a))) ->
  exists l, l ≡ₚ addresses c /\
    snd (snd (pull (open_stream fuel) (running_stream_new (ids c)) (details c) net)) =
      Ok (Some (shared_fiber_state_new (ids c) (gen_id (wanted c)) (gen_partitions (wanted c)) (addresses c)),
          (fun a => insert_stream_instructions (opened fuel net a)) <$> l).
Proof.
  intros Hpull Hnd Hopen. 
  destruct (Permutation_map_inv (fun '(sid, addr, r) => ((sid, addr), fiber_new (B := Batch) sid addr r)) (addresses c)
    (new_fibers_list _ Hnd)) as (l & Hl & Hperm).
  exists l. split; [by symmetry|]. unfold pull. cbn [pull_called running_stream_new existing_fibers].
  change (running_stream_new (ids c)) with (running_stream_new (B := Batch) (ids c)) in Hpull. rewrite Hpull.
  change (List.map _ l) with (new_fibers l) in Hl. rewrite Hl.
  destruct (run_new_fibers fuel net (opened fuel net) l (make_fibers_for_all_addresses None (addresses c))) as (all' & ->); [|done].
  intros a Ha. apply Hopen. by rewrite Hperm.
Qed.

(** A consumer receives its share of every producer that it reads. *)
Lemma consumer_reads ts net verdict ms c :
  sendable s -> (forall t, t ∈ ts -> exists store, net !! worker t = Some store /\
    serves exprs store (out_stream t) (range t) (given t)) ->
  (forall t, t ∈ ts -> markers_in (as_stream (given t)) = ms) -> consumer_ok ts verdict ms c ->
  exists n, forall fuel, (n <= fuel)%nat -> exists k, forall rounds,
    Forall (FiberRuns.covers (length (sources c))) rounds -> (k <= length rounds)%nat ->
    exists rs, consume fuel (ids c) (details c) (concat rounds) net = Some rs /\ rs ≡ₚ sources c ≫= share verdict.
Proof.
  intros Hs Hserve Hms [Hpull Hw Hchecks Honce Hprods].
  destruct (eventually_all (fun src fuel => let a := address_of src in
      open_stream fuel a.1.1 a.1.2 a.2 net = (net, Ok (opened fuel net a)) /\
      markers_in (opened fuel net a) = ms /\ rows_of (up_to_pause verdict (opened fuel net a)) = share verdict src) (sources c))
    as (n & Hn).
  { eapply Forall_impl; [exact Hprods|]. intros [t r] (Ht & Hp & He & Hsend). cbn [fst snd] in *.
    destruct (Hserve t Ht) as (store & Hnet & Hsv).
    destruct (open_reads store (out_stream t) (worker t) (range t) (given t) r net Hs Hnet Hsv Hp He Hsend) as (n & Hn).
    exists n. intros fuel (D & HD & Hm & Hr)%Hn.
    assert (opened fuel net (address_of (t, r)) = D) as -> by (unfold opened; cbn [address_of fst snd]; by rewrite HD).
    split; [exact HD|]. split; [by rewrite Hm, Hms|exact (Hr verdict)]. }
  exists n. intros fuel Hopen%Hn.
  assert (Forall (fun a => open_stream fuel a.1.1 a.1.2 a.2 net = (net, Ok (opened fuel net a)) /\
    markers_in (opened fuel net a) = ms) (addresses c)) as Haddr.
  { apply Forall_fmap. eapply Forall_impl; [exact Hopen|]. intros src (Ho & Hm & _). by split. }
  destruct (pull_opens fuel net c Hpull Honce) as (l & Hl & Hpulled).
  { intros a Ha. rewrite Forall_forall in Haddr. by apply Haddr. }
  set (streams := opened fuel net <$> l).
  assert (length streams = length (sources c)) as Hlen.
  { unfold streams. rewrite length_fmap, Hl. apply length_fmap. }
  exists (list_sum ((fun l => 4 * length l + 3)%nat <$> streams)). intros rounds Hcover Hk.
  destruct (fair_run_ends display (consumer_state c) (scheduling_details (details c)) verdict
    (last_completed_marker (details c)) ms streams rounds) as [Hstop Houts].
  - unfold streams. rewrite Forall_fmap, Hl. eapply Forall_impl; [exact Haddr|]. by intros a [].
  - exact Hchecks.
  - by rewrite Hlen.
  - done.
  - rewrite Hlen in Hstop, Houts.
    assert (details c = mkShared (last_completed_marker (details c)) None (scheduling_details (details c))) as Hdet.
    { rewrite <- Hw. by destruct (details c). }
    set (run := poll_fibers _ _ _ _ _) in Hstop, Houts.
    assert (consume fuel (ids c) (details c) (concat rounds) net =
      let '(_, (fibers, outs)) := run in
      if forallb is_stopped fibers then Some (received (length fibers) outs) else None) as ->.
    { unfold consume. rewrite Hpulled. cbn [shared_fiber_state_new]. unfold run, streams. rewrite Hdet at 1.
      rewrite <- !list_fmap_compose. by replace (length (addresses c)) with (length (sources c)) by (symmetry; apply length_fmap). }
    destruct run as [s' [fibers outs]]. cbn [fst snd] in Hstop, Houts. subst fibers.
    exists (streams ≫= (fun l => rows_of (up_to_pause verdict l))). split.
    + rewrite length_replicate.
      assert (forallb is_stopped (replicate (length (sources c)) (Stopped : Reading (B := Batch))) = true) as ->.
      { generalize (length (sources c)). intros k. by induction k. }
      f_equal. unfold received. rewrite <- Hlen. apply bind_lookup. intros i l' Hi. by rewrite (Houts i l' Hi).
    + unfold streams. rewrite Hl. unfold addresses. clear -Hopen. induction Hopen as [|src l (_ & _ & Hr) _ IH]; [done|].
      rewrite !fmap_cons, !bind_cons. by rewrite Hr, IH.
Qed.

(** *** All consumers together *)

(** A batch that can be hashed. *)
Definition hashable (b : Batch) : Prop :=
  N.of_nat (num_rows b) <= 4294967296 /\
  exists arrays hs, try_collect (fun e => evaluate e b) exprs = Ok arrays /\ create_hashes arrays (num_rows b) = Ok hs.
Definition hashable_item (i : item) : Prop := match i with Ok (SRecordBatch b) => hashable b | _ => True end.

Lemma part_tiles p qs b : 0 < p -> tiles p 0 p qs -> hashable b -> concat (List.map (fun q => part q b) qs) ≡ₚ rows b.
Proof.
  intros Hp Ht (Hn & arrays & hs & Ha & Hh).
  destruct (filter_tiling_rows b qs p exprs arrays hs Hp Ht Hn Ha Hh) as (bs & Hbs%try_collect_Ok & <-).
  clear Ht. induction Hbs as [|q b' qs bs Hb _ IH]; [done|]. cbn. rewrite IH. unfold part. by rewrite Hb.
Qed.

Lemma concat_map_app {A C} (f g : A -> list C) l :
  concat (List.map (fun x => f x ++ g x) l) ≡ₚ concat (List.map f l) ++ concat (List.map g l).
Proof.
  induction l as [|a l IH]; [done|]. cbn. rewrite IH, <- !app_assoc. apply Permutation_app_head.
  rewrite !app_assoc. apply Permutation_app_tail, Permutation_app_comm.
Qed.

(** Ranges that tile the hash space share the rows of a stream. *)
Lemma part_of_tiles p qs l : 0 < p -> tiles p 0 p qs -> Forall hashable_item l ->
  concat (List.map (fun q => part_of q l) qs) ≡ₚ rows_of l.
Proof.
  intros Hp Ht. induction 1 as [|i l Hi _ IH].
  - cbn. clear Ht. by induction qs.
  - transitivity (concat (List.map (fun q => match i with Ok (SRecordBatch b) => part q b | _ => [] end ++ part_of q l) qs)).
    { by erewrite List.map_ext by (intros q; apply part_of_cons). }
    rewrite concat_map_app, IH, rows_of_cons. apply Permutation_app_tail.
    destruct i as [[]|e|w]; cbn -[part]; first [by eapply part_tiles|clear Ht IH; by induction qs].
Qed.

Lemma up_to_pause_Forall verdict (P : item -> Prop) l : Forall P l -> Forall P (up_to_pause verdict l).
Proof.
  induction 1 as [|i l Hi _ IH]; [done|]. destruct i as [[| |m]|e|w]; cbn; try (by constructor).
  constructor; [done|]. by destruct (verdict _).
Qed.

(** All rows that the producers give before the consumers pause. *)
Definition given_until (verdict : Marker -> FiberState) (ts : list Producer) : list item :=
  ts ≫= (fun t => up_to_pause verdict (as_stream (given t))).

Lemma shares_part verdict p q ts : partitions q = p -> end_ q <= p -> start q <= end_ q ->
  Forall (fun t => range t = mkRange 0 p p /\ is_empty (intersection (range t) q) = false) ts ->
  ((fun t => (t, q)) <$> ts) ≫= share verdict = part_of q (given_until verdict ts).
Proof.
  intros Hq Hend Hle. unfold given_until, part_of. rewrite bind_bind.
  induction 1 as [|t ts [Ht He] _ IH]; [done|]. rewrite fmap_cons, !bind_cons, IH. f_equal.
  unfold share. cbn [fst snd]. rewrite Ht in *.
  destruct (N.eq_dec (start q) (end_ q)) as [E|E].
  - exfalso. revert He. unfold intersection. cbn. rewrite (proj2 (N.ltb_ge _ _)) by lia. done.
  - rewrite intersection_full by lia. done.
Qed.

Lemma given_hashable q verdict ts : Forall (fun t => Forall (sendable_item q) (given t)) ts ->
  Forall hashable_item (given_until verdict ts).
Proof.
  unfold given_until. induction 1 as [|t ts Ht _ IH]; [constructor|]. rewrite bind_cons. apply Forall_app_2; [|done].
  apply up_to_pause_Forall. unfold as_stream. apply Forall_fmap. eapply Forall_impl; [exact Ht|].
  intros [m|b]; cbn; [done|]. by intros (_ & Hn & Hh & _).
Qed.

(** C4: a shuffle between tasks delivers every row once.  Any number of tasks, each of the whole
    hash space and with the same markers, run their exchanges to the end on any workers; the
    copies of the next task want ranges that tile the hash space, read all of these tasks, and
    at each marker their checks have one verdict.  Then every copy pulls its remote source
    successfully (through the exchange services, the encoding for Flight, the wire and the
    fibers), all its fibers stop under every schedule that polls each of them often enough, and
    what the copies have received together is exactly the rows that the tasks gave to their
    exchanges before the first marker at which the copies pause. *)
Theorem shuffle_delivers_once sch p ts verdict ms cs start :
  sendable s -> 0 < p -> NoDup ((fun t => (out_stream t, worker t)) <$> ts) ->
  Forall (fun t => range t = mkRange 0 p p /\ markers_in (as_stream (given t)) = ms) ts ->
  Forall (fun c => consumer_ok ts verdict ms c /\ sources c = (fun t => (t, gen_partitions (wanted c))) <$> ts) cs ->
  tiles p 0 p ((fun c => gen_partitions (wanted c)) <$> cs) ->
  let net := produce_all sch exprs ts start in
  exists n, forall fuel, (n <= fuel)%nat -> exists k, forall schedules,
    Forall2 (fun c rounds => Forall (FiberRuns.covers (length ts)) rounds /\ (k <= length rounds)%nat) cs schedules ->
    exists received,
      Forall2 (fun run rows => consume fuel (ids run.1) (details run.1) (concat run.2) net = Some rows)
        (zip cs schedules) received /\
      concat received ≡ₚ ts ≫= (fun t => rows_of (up_to_pause verdict (as_stream (given t)))).
Proof.
  intros Hs Hp Hnd Hts Hcs Htiles net.
  assert (forall t, t ∈ ts -> range t = mkRange 0 p p /\ markers_in (as_stream (given t)) = ms) as Ht by by apply Forall_forall.
  destruct (eventually_all (fun c fuel => exists k, forall rounds, Forall (FiberRuns.covers (length ts)) rounds ->
      (k <= length rounds)%nat -> exists rs, consume fuel (ids c) (details c) (concat rounds) net = Some rs /\
        rs ≡ₚ sources c ≫= share verdict) cs) as (n & Hn).
  { eapply Forall_impl; [exact Hcs|]. intros c [Hc Hsrc]. replace (length ts) with (length (sources c)) by (rewrite Hsrc; apply length_fmap).
    eapply (consumer_reads ts net verdict ms c Hs); [|by intros t [_ Hm]%Ht|done].
    intros t Hin. by apply produce_all_serves. }
  exists n. intros fuel Hc%Hn.
  destruct (eventually_all (fun c k => forall rounds, Forall (FiberRuns.covers (length ts)) rounds ->
      (k <= length rounds)%nat -> exists rs, consume fuel (ids c) (details c) (concat rounds) net = Some rs /\
        rs ≡ₚ sources c ≫= share verdict) cs) as (k & Hk).
  { eapply Forall_impl; [exact Hc|]. intros c (k & Hk). exists k. intros k' Hk' rounds Hcov Hlen. apply Hk; [done|lia]. }
  exists k. intros schedules Hsched. specialize (Hk k (le_n k)).
  assert (exists received, Forall2 (fun run rows => consume fuel (ids run.1) (details run.1) (concat run.2) net = Some rows)
      (zip cs schedules) received /\ concat received ≡ₚ concat (List.map (fun c => sources c ≫= share verdict) cs))
    as (received & Hruns & Hperm).
  { clear -Hk Hsched. induction Hsched as [|c rounds cs schedules [Hcov Hlen] _ IH]; [by exists []|].
    apply Forall_cons in Hk as [Hc Hk]. destruct (Hc rounds Hcov Hlen) as (rs & Hrs & Hp), (IH Hk) as (received & Hr & Hps).
    exists (rs :: received). split; [by constructor|]. cbn. by rewrite Hp, Hps. }
  exists received. split; [done|]. rewrite Hperm.
  change (ts ≫= _) with (ts ≫= (fun t => rows_of (up_to_pause verdict (as_stream (given t))))).
  transitivity (rows_of (given_until verdict ts)); [|unfold given_until, rows_of; by rewrite bind_bind].
  pose proof (tiles_Forall _ _ _ _ Htiles) as Hin. rewrite Forall_fmap in Hin.
  assert (Forall (fun c => Forall (fun t => is_empty (intersection (range t) (gen_partitions (wanted c))) = false /\
    Forall (sendable_item (intersection (range t) (gen_partitions (wanted c)))) (given t)) ts) cs) as Hall.
  { eapply Forall_impl; [exact Hcs|]. intros c [[_ _ _ _ Hprod] Hsrc]. rewrite Hsrc, Forall_fmap in Hprod.
    eapply Forall_impl; [exact Hprod|]. by intros t (_ & _ & He & Hsend). }
  rewrite <- (part_of_tiles p ((fun c => gen_partitions (wanted c)) <$> cs) (given_until verdict ts) Hp Htiles).
  - clear Htiles Hn Hc Hk Hsched Hruns Hperm. induction cs as [|c cs IH]; [done|].
    apply Forall_cons in Hin as [(Hq & _ & Hle & Hend) Hin], Hall as [Hc Hall], Hcs as [[_ Hsrc] Hcs].
    rewrite fmap_cons. cbn [List.map concat]. rewrite (IH Hcs Hin Hall), Hsrc. apply Permutation_app_tail.
    rewrite (shares_part verdict p); [done..|]. apply Forall_forall. intros t Hin'. rewrite Forall_forall in Hc.
    split; [by apply Ht|by apply Hc].
  - destruct cs as [|c cs]; [cbn in Htiles; lia|]. apply Forall_cons in Hall as [Hall _].
    apply (given_hashable (intersection (mkRange 0 p p) (gen_partitions (wanted c)))).
    apply Forall_forall. intros t Hin'. rewrite Forall_forall in Hall. destruct (Hall t Hin') as [_ Hsend].
    by rewrite (proj1 (Ht t Hin')) in Hsend.
Qed.

End exchanged.
End edges.

(** ** The theorem at work: two tasks and two copies of the next one *)
Module ExampleShuffle.
#[local] Existing Instances FieldArrow.arrow FieldArrow.arrow_laws FieldArrow.flight_arrow
  FieldArrow.flight_arrow_laws FieldArrow.flight_ipc FieldArrow.flight_ipc_laws
  FieldArrow.marker_proto FieldArrow.marker_proto_laws.
#[local] Existing Instances in_order in_order_laws.
#[local] Instance example_profile : Profile := true.

Definition schema : Schema := (field_new "a" (OtherType "UInt64" []) false, []).
Definition batch (n : nat) : Batch := FieldArrow.mkBatch schema (List.map (fun i => [N.of_nat i]) (seq 0 n)).
Definition marker (n : N) : StreamItem Batch := SIMarker (mkMarker n).

Definition producers : list Producer :=
  [mkProducer "w1" "a" (mkRange 0 3 3) [SIRecordBatch (batch 3); marker 1; SIRecordBatch (batch 2); marker 2; SIRecordBatch (batch 9)];
   mkProducer "w2" "b" (mkRange 0 3 3) [marker 1; SIRecordBatch (batch 4); marker 2]].

(** At marker 2 the stream a moves to another worker. *)
Definition inputs : list GenerationInputDetail :=
  [mkInputDetail "a" [mkLocation "w1" (0, 2) (mkRange 0 3 3); mkLocation "w3" (2, 9) (mkRange 0 3 3)];
   mkInputDetail "b" [mkLocation "w2" (0, 9) (mkRange 0 3 3)]].

Definition consumer (r : PartitionRange) : Consumer :=
  let g := mkGenerationSpec "g" r [] in
  mkConsumer ["a"; "b"] (mkShared 0 None (Some [g], Some inputs)) g (List.map (fun t => (t, r)) producers).
Definition verdict (m : Marker) : FiberState := if checkpoint_number m <? 2 then Continue else Pause.

Definition ticket_bytes (t : Ticket) : list N :=
  [Npos (encode (ticket_stream_id t, (fun r => (p_start r, p_end r, p_partitions r)) <$> ticket_partitions t))].
Definition bytes_ticket (bytes : list N) : res string Ticket :=
  match bytes with
  | [Npos n] => '(sid, r) ← ok_or "invalid ticket" (countable.decode (A := string * option (N * N * N)) n);
      Ok (mkTicket sid ((fun '(a, b, c) => mkProtoRange a b c) <$> r))
  | _ => Err "invalid ticket"
  end.
Lemma ticket_read t : bytes_ticket (ticket_bytes t) = Ok t.
Proof. destruct t as [sid [[a b c]|]]; unfold ticket_bytes, bytes_ticket; by rewrite countable.decode_encode. Qed.

Definition run fuel (c : Consumer) (rounds : list (list nat)) : option (list Row) :=
  consume (fun _ => "e") (fun _ => "broken") (fun _ => "e") ticket_bytes bytes_ticket (fun _ => "not found")
    fuel (ids c) (details c) (concat rounds) (produce_all schema [0%nat] producers ∅).

Definition consumers : list Consumer := [consumer (mkRange 0 2 3); consumer (mkRange 2 3 3)].

#[local] Ltac shippable_batch :=
  split; [reflexivity|split; [vm_compute; discriminate|split; [by eexists _, _|]]];
  let b := fresh in let Hb := fresh in intros b Hb; vm_compute in Hb; injection Hb as <-; reflexivity.

Lemma consumer_is_ok r : r ∈ [mkRange 0 2 3; mkRange 2 3 3] ->
  consumer_ok schema [0%nat] producers verdict [mkMarker 1; mkMarker 2] (consumer r).
Proof.
  intros [-> |[-> |[]%not_elem_of_nil]%elem_of_cons]%elem_of_cons.
  all: split; [reflexivity|reflexivity|by repeat constructor| |].
  all: try (apply (bool_decide_eq_true_1 _); vm_compute; reflexivity).
  all: repeat (apply Forall_cons; split); try done.
  all: split; [first [by left|by right; left]|split; [done|split; [reflexivity|]]].
  all: cbn [fst snd given]; repeat (apply Forall_cons; split); try done.
  all: try (unfold sendable_item; shippable_batch).
  all: reflexivity.
Qed.

Lemma shuffle_delivers_once_witness :
  exists n, forall fuel, (n <= fuel)%nat -> exists k, forall schedules,
    Forall2 (fun _ rounds => Forall (FiberRuns.covers 2) rounds /\ (k <= length rounds)%nat) consumers schedules ->
    exists received, Forall2 (fun r rows => run fuel r.1 r.2 = Some rows) (zip consumers schedules) received /\
      concat received ≡ₚ [[0]; [1]; [2]; [0]; [1]; [0]; [1]; [2]; [3]].
Proof.
  apply (shuffle_delivers_once (fun _ => "e") (fun _ => "broken") (fun _ => "e") ticket_bytes bytes_ticket ticket_read
    (fun _ => "not found") schema [0%nat] schema 3 producers verdict [mkMarker 1; mkMarker 2] consumers ∅).
  - split; [reflexivity|]. split; [reflexivity|]. by repeat constructor.
  - lia.
  - apply (bool_decide_eq_true_1 _). vm_compute. reflexivity.
  - by repeat constructor.
  - constructor; [|constructor; [|constructor]]; (split; [apply consumer_is_ok|done]); [by left|by right; left].
  - cbn. lia.
Defined.
End ExampleShuffle.
