(* ===== verification/Relay.v ===== *)
(** * Jobs of several tasks (worker_process.rs, task_main_3.rs, ../run.rs)

    A worker runs a task with the channel store of its exchange service; a task that starts with
    a remote source reads the stores of other workers through their services.  The file puts the
    main loop of a task, the nested operator, the exchange and the remote source together over
    the network of Edges.v: a job of a source task and any number of tasks that pass its stream
    on, as in the tests of worker_process.rs.  Paths are relative to src/src/streaming/. *)

From S2P Require Import Prelude Arrow Partitioning Stream Generation Channels FileSystem CheckpointStorage StateBackend KeyedState.
From S2P Require Import FiberStream Source Count CountStar CountByKey Operators Nested Barrier RemoteSource FiberRuns MarkerCut.
From S2P Require Import RemoteExchange Task Pipeline Coordinator FlightSchema Flight Edges.
Import PartitionRangeOps ExchangeChannelStore.

Section relay.
Context `{FlightIpcLaws, !MarkerProto, !MarkerProtoLaws, Profile, SelectAll, !SelectAllLaws}.
Context (show : DataFusionError -> string) (show_flight : FlightError -> string) (display : DataFusionError -> string).
Context (encode_ticket : Ticket -> list N) (decode_ticket : list N -> res string Ticket).
Context (ticket_read : forall t, decode_ticket (encode_ticket t) = Ok t).
Context (show_status : Status -> string).
Context {S : Type} `{KeyedState S}.
Context (empty_schema : Schema) (open_new : string -> PartitionRange -> res DataFusionError S).
Context (count_rows : Batch -> N) (count_batch : N -> res DataFusionError Batch).
Context (column : string -> Batch -> res DataFusionError ColumnarValue).
Context (counts_batch : list N -> list N -> res DataFusionError Batch) (iter : gmap N N -> list (N * N)).
Context (is_out_of_order : string -> bool).

Abbreviation Net := (gmap string ExchangeChannelStore.t).
Abbreviation Item := (StreamItem Batch).
Abbreviation item := (res DataFusionError (SItem Batch)).
Abbreviation open_remote := (open_stream show show_flight encode_ticket decode_ticket show_status).

(** ** The remote source as an operator of a task *)

(** The fuel for the encoder of a remote stream. *)
Section tasks.
Context (fuel : nat).

(** The operator with the scheduling details of its task, the network, and the schedule by which
    the fibers of its stream are polled. *)
Record RemoteIn := mkRemoteIn {
  in_function : RemoteSourceOperatorFunction;
  in_generations : option (list GenerationSpec);
  in_inputs : list GenerationInputDetail;
  in_network : Net;
  in_schedule : list nat;
}.

Definition create_remote_in (inputs : list GenerationInputDetail) (net : Net) (schedule : list nat)
    (op : RemoteSourceOperator) : RemoteIn :=
  mkRemoteIn (remote_source_new (op_stream_ids op)) None inputs net schedule.

Definition with_function (self : RemoteIn) (f : RemoteSourceOperatorFunction) (generations : option (list GenerationSpec)) : RemoteIn :=
  mkRemoteIn f generations (in_inputs self) (in_network self) (in_schedule self).

(** The stream of [run], pulled and read by the schedule to its end. *)
Definition read_running_stream (self : RemoteIn) (stream : RunningStream (B := Batch)) (marker : N) : FiberStream (SItem Batch) :=
  let details := mkShared marker None (in_generations self, Some (in_inputs self)) in
  match snd (snd (pull (open_remote fuel) stream details (in_network self))) with
  | Ok (Some (shared, barrier), instructions) =>
      let '(_, (fibers, outs)) := poll_fibers display shared (in_schedule self) (Running <$> instructions) (barrier, details) in
      single (if forallb is_stopped fibers then outs.*2 else outs.*2 ++ [Panic "the fibers have not ended"])
  | Ok (None, _) => []
  | Err e => [Err e]
  | Panic w => [Panic w]
  end.

#[local] Instance remote_in_function : OperatorFunction2 RemoteIn Batch := {|
  op_init generations _ self := (with_function self (remote_source_init (in_function self)) generations, Ok tt);
  op_load checkpoint self :=
    (with_function self (remote_source_load (in_function self) checkpoint) (in_generations self), Ok tt);
  op_run ins self :=
    (self, (List.map (fun '(ordinal, (stream, marker)) => (ordinal, read_running_stream self stream marker))) <$>
             remote_source_run (in_function self) (length ins));
|}.

(** ** Tasks on workers *)

Abbreviation Exchange := (RemoteExchangeOperatorFunction * ExchangeChannelStore.t)%type.
Abbreviation Function := (OperatorFn S Batch RemoteExchangeOperator RemoteSourceOperator Exchange RemoteIn).

(** The channel store that the exchange of a task leaves. *)
Definition exchange_of (f : Function) : option ExchangeChannelStore.t :=
  match f with FRemoteOutput (_, store) => Some store | _ => None end.
Definition store_of (f : Function) : option ExchangeChannelStore.t :=
  match f with
  | FNested _ fs _ => last (omap (exchange_of ∘ snd) fs)
  | f => exchange_of f
  end.

(** A worker runs a task to its end, [turns] rounds of the main loop at most. *)
Definition run_on (turns : nat) (worker : string) (task : TaskDefinition2) (generations : list GenerationSpec)
    (inputs : list GenerationInputDetail) (schedule : list nat) (checkpoint : N) (net : Net)
    : Net * option (res DataFusionError ()) :=
  let store := default ExchangeChannelStore.new (net !! worker) in
  let '(f, r) := run_task (create_remote_in inputs net schedule) open_new count_rows count_batch column counts_batch iter
    is_out_of_order turns store task generations checkpoint in
  (match store_of f with Some store => <[worker := store]> net | None => net end, r).

(** The tasks of the test [two_linked_tasks], and of [get_tasks_inner]. *)
Definition source_task (source : SourceOperator) (out : string) : TaskDefinition2 :=
  mkTaskDefinition "task1" (mkOpDef "nested1" "1"
    (SpecNested []
      [mkOpDef "source1" "2" (SpecSource source) [] [mkOpOutput "output1" 0];
       mkOpDef "exchange1" "3" (SpecRemoteExchangeOutput (exchange_new empty_schema out)) [mkOpInput "output1" 0] []]
      []) [] []).
Definition exchange_task (id input out : string) : TaskDefinition2 :=
  mkTaskDefinition id (mkOpDef "nested2" "4"
    (SpecNested []
      [mkOpDef "exchange2" "5" (SpecRemoteExchangeInput (mkRemoteSourceOperator [input])) [] [mkOpOutput "output2" 0];
       mkOpDef "exchange3" "6" (SpecRemoteExchangeOutput (exchange_new empty_schema out)) [mkOpInput "output2" 0] []]
      []) [] []).

Lemma tasks_of_run test_batch : get_tasks_inner empty_schema test_batch =
  [source_task (source_new [test_batch]) "exchange_output1"; exchange_task "task2" "exchange_output1" "exchange_output2"].
Proof. reflexivity. Qed.

(** The scheduling details of the tests: no partitions, and addresses for all checkpoints. *)
Definition test_generation : GenerationSpec := mkGenerationSpec "gen1" empty [].
Definition test_input (sid address : string) : GenerationInputDetail :=
  mkInputDetail sid [mkLocation address (0, N.shiftl 2 31) empty].

(** ** A stream that is not partitioned, read over the network *)

(** The rows and markers of a stream, in order. *)
Definition flat (l : list Item) : list (res DataFusionError (Row + Marker)) := (Ok <$> l) ≫= content.

(** A worker offers the items under the name [sid], without partitions. *)
Definition offers (store : ExchangeChannelStore.t) (sid : string) (items : list Item) : Prop :=
  exists ch st, ExchangeChannelStore.channels store !! sid = Some (mkOutput ch None) /\
    heap store !! ch = Some st /\ Channels.data st = items.

Lemma flat_ok l : Forall is_Ok (flat l).
Proof.
  unfold flat. induction l as [|[m|b] l IH]; [constructor| |]; rewrite fmap_cons, bind_cons;
    (apply Forall_app_2; [|exact IH]); [by repeat econstructor|]. apply Forall_fmap, Forall_forall. by eexists.
Qed.

Lemma content_ok (d : list (res DataFusionError Item)) l : d ≫= content = flat l -> exists l', d = Ok <$> l'.
Proof.
  intros Hd. pose proof (flat_ok l) as Hall. rewrite <- Hd in Hall. clear Hd.
  induction d as [|r d IH]; [by exists []|]. rewrite bind_cons in Hall. apply Forall_app in Hall as [Hr Hall].
  destruct (IH Hall) as (l' & ->). destruct r as [i|e|w]; [by exists (i :: l')|..]; by apply Forall_cons in Hr as [[? [=]] _].
Qed.

Lemma drain_more (f f' : nat) (self : FlightDataEncoder) msgs :
  drain_encoder f self = Some msgs -> (f <= f')%nat -> drain_encoder f' self = Some msgs.
Proof.
  revert f' self msgs. induction f as [|f IH]; intros f' self msgs; [done|]. intros Hd Hle.
  destruct f' as [|f']; [lia|]. cbn [drain_encoder] in *.
  destruct (encoder_poll_next self) as [[[[m|e|w]|]|] self']; try done.
  - destruct (drain_encoder f self') as [k|] eqn:Hk; [|done]. by rewrite (IH f' self' k Hk) by lia.
  - destruct (drain_encoder f self') as [k|] eqn:Hk; [|done]. by rewrite (IH f' self' k Hk) by lia.
  - apply IH; [done|lia].
Qed.

(** Items that can be sent: batches of the schema, markers below 2^32 (the last checkpoint for
    which the addresses of the tests hold). *)
Definition can_send (s : Schema) (i : Item) : Prop :=
  match i with SIRecordBatch b => batch_schema b = s /\ fits (memory_size b) | SIMarker m => checkpoint_number m < N.shiftl 2 31 end.

Lemma sent_ok l : sent (E := DataFusionError) show show_flight ((fun i => Some (Ok i)) <$> l) = flat l.
Proof. induction l as [|i l IH]; [done|]. rewrite fmap_cons. unfold flat. rewrite fmap_cons, bind_cons. cbn [sent]. by rewrite IH. Qed.

(** What a reader is given, for enough fuel. *)
Lemma open_offered s l : sendable s -> Forall (can_send s) l ->
  exists n l', flat l' = flat l /\ Forall (of_schema s) (Ok <$> l') /\
    forall fuel store sid address (net : Net), (n <= fuel)%nat -> net !! address = Some store -> offers store sid l ->
    open_remote fuel sid address empty net = (net, Ok (as_stream l')).
Proof.
  intros Hs Hl.
  destruct (drain_sent show show_flight s ((fun i => Some (Ok i)) <$> l) Hs) with (sch := @None Schema) (t := tracker_new true default_options)
    (d := decoder_new) as (n & Hn); [|done|].
  { rewrite Forall_fmap. eapply Forall_impl; [exact Hl|]. intros [m|b]; [|done].
    intros Hm. change (checkpoint_number m < 4294967296) in Hm. change (fits (checkpoint_number m)). unfold fits, u64_modulus. lia. }
  destruct (Hn n (le_n n)) as (msgs & Hmsgs & Hdec & Hsch). rewrite sent_ok in Hdec.
  destruct (content_ok _ _ Hdec) as (l' & Hl'). rewrite Hl' in Hdec, Hsch. exists n, l'. split; [exact Hdec|]. split; [done|].
  intros fuel' store sid address net Hle Hnet (ch & st & Hch & Hst & Hdata).
  unfold open_stream, create_remote_stream, act_bind, connect. rewrite Hnet. unfold do_get. rewrite Hnet.
  cbn [ok_or mbind res_bind RemoteSource.ticket_stream_id RemoteSource.ticket_partitions].
  unfold get_stream. rewrite ticket_read. cbn [map_err mbind res_bind ticket_partitions ticket_stream_id]. rewrite into_from_proto.
  unfold ExchangeChannelStore.stream. rewrite Hch. cbn [ok_or mbind res_bind partitioning_details is_empty empty start end_ N.eqb].
  cbn [negb map_err mbind res_bind channel]. rewrite Hst. cbn [ok_or mbind res_bind]. rewrite Hdata.
  assert (encode_stream_to_flight show (Some <$> (apply_filter None <$> (Ok <$> l))) =
    encode_stream_to_flight show ((fun i => Some (Ok i)) <$> l)) as ->.
  { f_equal. rewrite <- !list_fmap_compose. by apply list_fmap_ext. }
  assert (drain_encoder fuel' (encode_stream_to_flight show ((fun i => Some (Ok i)) <$> l)) = Some msgs) as ->
    by (by eapply drain_more).
  rewrite Hl'. do 2 f_equal. change (into_sitem <$> (Ok <$> l') = as_stream l'). unfold as_stream. by rewrite <- list_fmap_compose.
Qed.

(** ** A remote source that reads one stream at one address *)

Definition test_details (sid address : string) : Shared :=
  mkShared 0 None (Some [test_generation], Some [test_input sid address]).
Definition test_state (sid address : string) : SharedFiberState := mkSharedFiberState [sid] "gen1" empty [(sid, address, empty)].

Lemma test_get_addresses sid address m : m < N.shiftl 2 31 ->
  get_addresses empty m [sid] [test_input sid address] = Ok [(sid, address, empty)].
Proof.
  intros Hm%N.ltb_lt. unfold get_addresses. cbn [try_collect fmap find_first List.find test_input stream_id].
  rewrite bool_decide_eq_true_2 by done. cbn [ok_or mbind res_bind try_collect].
  assert (serves_checkpoint m (mkLocation address (0, N.shiftl 2 31) empty) = true) as Hs.
  { unfold serves_checkpoint. cbn [offset_range fst snd]. rewrite Hm. by destruct m. }
  unfold get_addresses_for_stream, test_input. cbn [locations List.filter]. rewrite Hs. done.
Qed.

Lemma test_addresses sid address :
  pull_addresses (B := Batch) (running_stream_new [sid]) (test_details sid address) = Ok (test_generation, [(sid, address, empty)]).
Proof.
  unfold pull_addresses. cbn [test_details scheduling_details last_completed_marker fst snd ok_or mbind res_bind rs_stream_ids running_stream_new].
  change (find_current_generation [sid] [test_generation] 0) with (Ok (E := DataFusionError) test_generation).
  cbn [mbind res_bind]. change (gen_partitions test_generation) with empty. by rewrite test_get_addresses.
Qed.

Lemma test_checks sid address m : m < N.shiftl 2 31 ->
  check_generation_and_addresses (scheduling_details (test_details sid address)) (test_state sid address) m = Ok Continue.
Proof.
  intros Hm. unfold check_generation_and_addresses. cbn [test_details scheduling_details fst snd ok_or mbind res_bind stream_ids test_state].
  change (find_current_generation [sid] [test_generation] m) with (Ok (E := DataFusionError) test_generation).
  cbn [mbind res_bind]. rewrite bool_decide_eq_true_2 by done. cbn [negb].
  change (gen_partitions test_generation) with empty. rewrite test_get_addresses by done. cbn [mbind res_bind current_addresses].
  rewrite (proj2 (same_set_spec _ _)) by done. done.
Qed.

Lemma up_to_pause_never (l : list item) : up_to_pause (fun _ => Continue) l = l.
Proof. induction l as [|[[| |m]|e|w] l IH]; [done|..]; cbn; by rewrite IH. Qed.

(** One fiber alone delivers in the order of its stream. *)
Lemma single_fiber (outs : list (nat * item)) : Forall (fun o => o.1 < 1)%nat outs -> outs.*2 = outs_of 0 outs.
Proof. intros Hi. exact (merges_single _ _ (run_merges outs 1 Hi)). Qed.

(** The scheduled polls of the only fiber, enough for a stream of items. *)
Definition enough (l : list Item) (schedule : list nat) : Prop :=
  exists rounds, schedule = concat rounds /\ Forall (FiberRuns.covers 1) rounds /\ (4 * length l + 3 <= length rounds)%nat.

(** The remote source delivers the stream that it opens. *)
Lemma read_single (function : RemoteSourceOperatorFunction) sid address net l schedule :
  open_remote fuel sid address empty net = (net, Ok (as_stream l)) ->
  Forall (fun i => match i with SIMarker m => checkpoint_number m < N.shiftl 2 31 | _ => True end) l -> enough l schedule ->
  read_running_stream (mkRemoteIn function (Some [test_generation]) [test_input sid address] net schedule)
    (running_stream_new [sid]) 0 = single (as_stream l).
Proof.
  intros Hopen Hm (rounds & -> & Hcover & Hlen). unfold read_running_stream. cbn [in_generations in_inputs in_network in_schedule].
  fold (test_details sid address).
  set (c := mkConsumer [sid] (test_details sid address) test_generation [(mkProducer address sid empty [], empty)]).
  destruct (pull_opens show show_flight encode_ticket decode_ticket show_status fuel net c) as (ls & Hls & Hpull).
  { exact (test_addresses sid address). }
  { by repeat constructor; set_solver. }
  { intros a [-> |[]%not_elem_of_nil]%elem_of_cons. unfold opened. cbn [address_of fst snd out_stream worker].
    by rewrite Hopen. }
  apply Permutation_singleton_r in Hls as ->.
  cbn [ids details wanted c] in Hpull. rewrite Hpull.
  assert (opened show show_flight encode_ticket decode_ticket show_status fuel net (address_of (mkProducer address sid empty [], empty)) =
    as_stream l) as Hopened by (unfold opened; cbn [address_of fst snd out_stream worker]; by rewrite Hopen).
  cbn [fmap list_fmap]. rewrite Hopened. cbn [shared_fiber_state_new].
  change (mkSharedFiberState _ _ _ _) with (test_state sid address).
  destruct (fair_run_ends display (test_state sid address) (scheduling_details (test_details sid address)) (fun _ => Continue) 0
    (markers_in (as_stream l)) [as_stream l] rounds) as [Hstop Houts].
  { by repeat constructor. }
  { unfold markers_in, as_stream. clear -Hm. induction Hm as [|[m|b] l Hi _ IH]; [constructor| |exact IH].
    constructor; [by apply test_checks|exact IH]. }
  { exact Hcover. }
  { cbn. unfold as_stream. rewrite length_fmap. lia. }
  pose proof (run_indices display (test_state sid address) (concat rounds) [Running (insert_stream_instructions (as_stream l))]
    (Barrier.new 1, test_details sid address)) as Hindex.
  cbn [fmap list_fmap length] in Hstop, Houts, Hindex |- *.
  change (N.of_nat (length (addresses c))) with 1. change (N.of_nat 1) with 1 in Hstop, Houts.
  change (mkShared 0 None (scheduling_details (test_details sid address))) with (test_details sid address) in Hstop, Houts.
  destruct (poll_fibers _ _ _ _ _) as [w [fibers outs]]. cbn [fst snd] in *. subst fibers. cbn [forallb replicate is_stopped andb].
  by rewrite (single_fiber _ Hindex), (Houts 0%nat _ eq_refl), up_to_pause_never.
Qed.

(** ** Running the tasks *)

Abbreviation run_fn := (fn_run (FOut := Exchange) (FIn := RemoteIn) (Out := RemoteExchangeOperator) (In := RemoteSourceOperator)
  open_new count_rows count_batch column counts_batch iter).

Abbreviation result := (res DataFusionError (list (N * FiberStream (SItem Batch)))).

(** The exchange of a task, once [init] has created its channel. *)
Definition started_exchange (out : string) (store : ExchangeChannelStore.t) : Exchange :=
  (mkExchangeFn out None (Some (length (heap store), sender_new)), snd (create store out None)).

Lemma exchange_offers out store l : exists store' ex,
  run_fn (FRemoteOutput (started_exchange out store)) [(0, single (as_stream l))] =
    (FRemoteOutput (ex, store'), Ready (Ok [])) /\ offers store' out l.
Proof.
  set (store1 := snd (create store out None)).
  destruct (exchange_run_writes (mkExchangeFn out None (Some (length (heap store), sender_new))) store1 (length (heap store)) l 0)
    as (ch & lc & Hex & Hd & _).
  { done. }
  { subst store1. cbn. by rewrite lookup_app_r, Nat.sub_diag by lia. }
  eexists _, _. split.
  - apply fn_run_exchange. exact Hex.
  - exists (length (heap store)), ch. split; [by apply lookup_insert_eq|]. split; [|exact Hd].
    apply list_lookup_insert_eq. subst store1. cbn. rewrite length_app. cbn. lia.
Qed.

Lemma run_operator_panic {Spec F T} (t : task (Spec := Spec) (F := F) (T := T)) st st1 ins self why :
  take_all (input_ids (t_def t)) st = (st1, Ok (Some ins)) -> t_run t ins = (self, Ready (Panic why)) ->
  run_operator t st = (st1, (self, Ready (Panic why))).
Proof. intros Ht Hr. unfold run_operator. rewrite Ht. unfold temp. by rewrite Hr. Qed.

#[local] Ltac run_both second :=
  cbn [fn_run fmap list_fmap]; unfold run_all_operators; cbn [fmap list_fmap t_self add_inputs for_each mret act_ret];
  cbn [poll_operators];
  erewrite run_operator_ok; [|reflexivity|eassumption|vm_compute; reflexivity];
  second; reflexivity.
#[local] Ltac second_ends := erewrite run_operator_ok; [|vm_compute; reflexivity|eassumption|vm_compute; reflexivity].
#[local] Ltac second_panics := erewrite run_operator_panic; [|vm_compute; reflexivity|eassumption].

(** The main loop of a task of two operators: [init] gives [f] and the started exchange, [load] keeps
    them, and [run] ends with the exchange [e'] and the result [r]. *)
#[local] Ltac run_task_of e f e' r second :=
  match goal with |- context [fn_init ?a1 ?a2 ?a3 ?a4 ?a5 ?a6 ?gens ?id (FNested ?ins [(?d1, ?f1); (?d2, ?f2)] ?outs)] =>
    let e1 := fresh in let e2 := fresh in set (e1 := d1); set (e2 := d2);
    let fs := constr:(FNested ins [(e1, f); (e2, FRemoteOutput e)] outs) in
    assert (fn_init a1 a2 a3 a4 a5 a6 gens id (FNested ins [(e1, f1); (e2, f2)] outs) = (fs, Ok tt)) as -> by reflexivity;
    assert (fn_load a1 a2 a3 a4 a5 a6 0 fs = (fs, Ok tt)) as Hload by reflexivity;
    assert (run_fn fs [] = (FNested ins [(e1, f); (e2, FRemoteOutput e')] outs, Ready r)) as Hrun by run_both second;
    cbn [main_loop]; rewrite Hload, Hrun
  end.

(** A source task leaves the items of its source in the channel. *)
Lemma source_task_offers turns worker source out l inputs schedule net :
  Source.run (create_operator_function source) 0 = Ok (emitted l) ->
  exists store, run_on (Datatypes.S turns) worker (source_task source out) [test_generation] inputs schedule 0 net =
    (<[worker := store]> net, Some (Ok tt)) /\ offers store out l.
Proof.
  intros Hsource. set (store := default ExchangeChannelStore.new (net !! worker)).
  destruct (exchange_offers out store l) as (store' & ex & Hex & Hoff). exists store'. split; [|done].
  assert (run_fn (FSource (create_operator_function source)) [] = (FSource (create_operator_function source), Ready (Ok [(0, single (as_stream l))])))
    as Hsrc by by apply fn_run_source.
  unfold run_on. fold store. unfold run_task, operator_main_loop. 
  cbn [source_task operator def_spec def_state_id spec_create fmap list_fmap].
  run_task_of (started_exchange out store) (FSource (S := S) (Out := RemoteExchangeOperator) (In := RemoteSourceOperator) (FOut := Exchange) (FIn := RemoteIn)
    (create_operator_function source)) (ex, store') (Ok [] : result) second_ends.
  reflexivity.
Qed.

(** A task that reads a stream over the network leaves what it is given in its own channel. *)
Lemma exchange_task_offers turns worker id sid address out l schedule net :
  open_remote fuel sid address empty net = (net, Ok (as_stream l)) ->
  Forall (fun i => match i with SIMarker m => checkpoint_number m < N.shiftl 2 31 | _ => True end) l -> enough l schedule ->
  exists store, run_on (Datatypes.S turns) worker (exchange_task id sid out) [test_generation] [test_input sid address] schedule 0 net =
    (<[worker := store]> net, Some (Ok tt)) /\ offers store out l.
Proof.
  intros Hopen Hm Henough. set (store := default ExchangeChannelStore.new (net !! worker)).
  destruct (exchange_offers out store l) as (store' & ex & Hex & Hoff). exists store'. split; [|done].
  set (self := mkRemoteIn (remote_source_load (remote_source_init (remote_source_new [sid])) 0) (Some [test_generation])
    [test_input sid address] net schedule).
  assert (run_fn (FRemoteInput self) [] = (FRemoteInput self, Ready (Ok [(0, single (as_stream l))]))) as Hself.
  { transitivity (FRemoteInput self : Function, Ready (Ok (E := DataFusionError) [(0, read_running_stream self (running_stream_new [sid]) 0)]));
      [reflexivity|]. unfold self at 2. by rewrite (read_single _ sid address net l). }
  unfold run_on. fold store. unfold run_task, operator_main_loop.
  cbn [exchange_task operator def_spec def_state_id spec_create fmap list_fmap].
  run_task_of (started_exchange out store) (FRemoteInput (S := S) (B := Batch) (Out := RemoteExchangeOperator)
    (In := RemoteSourceOperator) (FOut := Exchange) self) (ex, store') (Ok [] : result) second_ends.
  reflexivity.
Qed.
(** ** Partitions and exchanges have to agree *)

(** The stream [sid] cannot be read in the range [r]: it is partitioned and [r] has none of its
    partitions, or it is not partitioned and [r] is not empty. *)
Definition mismatched (store : ExchangeChannelStore.t) (sid : string) (r : PartitionRange) : Prop :=
  match ExchangeChannelStore.channels store !! sid with
  | Some output =>
      match partitioning_details output with
      | None => is_empty r = false
      | Some details => is_empty (intersection (cp_partitions details) r) = true
      end
  | None => False
  end.

Lemma open_refused sid address r (net : Net) store :
  net !! address = Some store -> mismatched store sid r -> exists e, open_remote fuel sid address r net = (net, Err e).
Proof.
  unfold mismatched. intros Hnet Hr. destruct (ExchangeChannelStore.channels store !! sid) as [[ch details]|] eqn:Hch; [|done].
  cbn [partitioning_details] in Hr. unfold open_stream, create_remote_stream, act_bind, connect. rewrite Hnet.
  unfold do_get. rewrite Hnet. cbn [ok_or mbind res_bind RemoteSource.ticket_stream_id RemoteSource.ticket_partitions].
  unfold get_stream. rewrite ticket_read. cbn [map_err mbind res_bind ticket_partitions ticket_stream_id]. rewrite into_from_proto.
  unfold ExchangeChannelStore.stream. rewrite Hch. cbn [ok_or mbind res_bind partitioning_details].
  destruct details as [details|]; rewrite Hr; eexists; reflexivity.
Qed.

(** Trying again does not help. *)
Lemma retry_refused {W E A} n (f : act W E A) w e : f w = (w, Err e) -> retry_future n f w = (w, Err e).
Proof. intros Hf. induction n as [|n IH]; cbn; by rewrite Hf. Qed.

Lemma pull_refused sid address r (net : Net) details e :
  open_remote fuel sid address r net = (net, Err e) ->
  (exists g, pull_addresses (B := Batch) (running_stream_new [sid]) details = Ok (g, [(sid, address, r)])) ->
  snd (snd (pull (open_remote fuel) (running_stream_new [sid]) details net)) = Err e.
Proof.
  intros Hopen (g & Hg). unfold pull. cbn [pull_called running_stream_new existing_fibers].
  change (running_stream_new [sid]) with (running_stream_new (B := Batch) [sid]) in Hg. rewrite Hg.
  assert (map_to_list (make_fibers_for_all_addresses (B := Batch) None [(sid, address, r)]) =
    [((sid, address), fiber_new sid address r)]) as ->.
  { unfold make_fibers_for_all_addresses. cbn. unfold fiber_load. cbn. rewrite bool_decide_eq_true_2 by done.
    rewrite insert_empty. apply map_to_list_singleton. }
  cbn [run_fibers]. unfold fiber_run. cbn [remote_stream fiber_new fib_stream_id fib_address fib_partitions].
  unfold mbind, act_bind. by rewrite (retry_refused _ _ _ _ Hopen).
Qed.

Definition unwrap_panic : string := "called `Result::unwrap()` on an `Err` value".

(** An exchange whose input stream cannot be pulled panics. *)
Lemma exchange_panics out store e : exists x,
  run_fn (FRemoteOutput (started_exchange out store)) [(0, [Err e])] = (FRemoteOutput x, Ready (Panic unwrap_panic)).
Proof.
  set (store1 := snd (create store out None)).
  assert (heap store1 !! length (heap store) = Some (fst channel_create)) as Hch
    by (subst store1; cbn; by rewrite lookup_app_r, Nat.sub_diag by lia).
  assert (exists store' ex', exchange_run (mkExchangeFn out None (Some (length (heap store), sender_new))) [(0, [Err e])] store1 =
    (store', ex', Panic unwrap_panic)) as (store' & ex' & Hrun).
  { unfold exchange_run. cbn [data_channel]. rewrite Hch. by eexists _, _. }
  exists (ex', store'). cbn [fn_run]. unfold ready_run, op_run, exchange_function, started_exchange. cbn [fst snd].
  fold store1. by rewrite Hrun.
Qed.

(** The details of a schedule with a range, for a stream that another task writes. *)
Definition one_input (range : PartitionRange) (source : SourceOperator) (sid address : string) : InitialSchedulingDetails :=
  schedule_with_constant_partitions [(source_task source sid, address)] range.

Lemma one_input_addresses range source sid address : start range <= end_ range -> fits (end_ range) ->
  pull_addresses (B := Batch) (running_stream_new [sid])
    (mkShared 0 None (Some (Task.generations (one_input range source sid address)), Some (input_locations (one_input range source sid address)))) =
    Ok (mkGenerationSpec "initial_generation" range [], [(sid, address, served range)]).
Proof.
  intros Hr Hfit. unfold pull_addresses. cbn [scheduling_details last_completed_marker fst snd ok_or mbind res_bind rs_stream_ids running_stream_new].
  change (find_current_generation _ _ 0) with (Ok (E := DataFusionError) (mkGenerationSpec "initial_generation" range [])).
  cbn [mbind res_bind gen_partitions]. unfold get_addresses. cbn [try_collect one_input].
  change (input_locations _) with [mkInputDetail sid [mkLocation address all_checkpoints range]].
  cbn [find_first stream_id]. rewrite bool_decide_eq_true_2 by done. cbn [ok_or mbind res_bind try_collect].
  by rewrite addresses_of_one.
Qed.

(** C11: an exchange and the schedule of its reader have to agree on partitions.  A task reads a
    stream of another one by the details of a coordinator's schedule with one range for all
    tasks.  When the exchange of that stream does not match the range (it is partitioned and
    the range is empty, as in the schedules of the static coordinator, or it is not and the
    range is that of the active coordinator), the request is refused on every attempt, and the
    task panics in the first turn of its main loop. *)
Theorem mismatched_reader_panics turns worker id source sid address out range schedule (net : Net) store :
  start range <= end_ range -> fits (end_ range) -> net !! address = Some store -> mismatched store sid (served range) ->
  let details := one_input range source sid address in
  exists net', run_on (Datatypes.S turns) worker (exchange_task id sid out) (Task.generations details) (input_locations details)
    schedule 0 net = (net', Some (Panic unwrap_panic)).
Proof.
  intros Hr Hfit Hnet Hrange details. set (store0 := default ExchangeChannelStore.new (net !! worker)).
  destruct (open_refused sid address (served range) net store Hnet Hrange) as (e & Hopen).
  set (self := mkRemoteIn (remote_source_load (remote_source_init (remote_source_new [sid])) 0) (Some (Task.generations details))
    (input_locations details) net schedule).
  assert (read_running_stream self (running_stream_new [sid]) 0 = [Err e]) as Hread.
  { unfold read_running_stream. cbn [in_generations in_inputs in_network in_schedule self].
    erewrite (pull_refused sid address (served range)); [done|exact Hopen|]. eexists. by apply one_input_addresses. }
  assert (run_fn (FRemoteInput self) [] = (FRemoteInput self, Ready (Ok [(0, [Err e])]))) as Hself.
  { transitivity (FRemoteInput self : Function, Ready (Ok (E := DataFusionError) [(0, read_running_stream self (running_stream_new [sid]) 0)]));
      [reflexivity|]. by rewrite Hread. }
  destruct (exchange_panics out store0 e) as (x & Hex).
  unfold run_on. fold store0. unfold run_task, operator_main_loop.
  cbn [exchange_task operator def_spec def_state_id spec_create fmap list_fmap].
  run_task_of (started_exchange out store0) (FRemoteInput (S := S) (B := Batch) (Out := RemoteExchangeOperator)
    (In := RemoteSourceOperator) (FOut := Exchange) self) x (Panic unwrap_panic : result) second_panics.
  by eexists.
Qed.
End tasks.

(** ** A job of several tasks *)

(** A task that passes a stream on: its worker, its name, and the stream that it writes. *)
Record Hop := mkHop { hop_worker : string; hop_task : string; hop_out : string }.

(** Each task reads the stream of the one before it, its remote source polled by a schedule; the
    results, and where the last stream is. *)
Fixpoint run_hops (fuel turns : nat) (address sid : string) (hops : list (Hop * list nat)) (net : Net)
    : Net * (list (option (res DataFusionError ())) * (string * string)) :=
  match hops with
  | [] => (net, ([], (address, sid)))
  | (h, schedule) :: hops =>
      let '(net, r) := run_on fuel turns (hop_worker h) (exchange_task (hop_task h) sid (hop_out h)) [test_generation]
        [test_input sid address] schedule 0 net in
      let '(net, (rs, last)) := run_hops fuel turns (hop_worker h) (hop_out h) hops net in
      (net, (r :: rs, last))
  end.

(** Batches of the schema, and markers of the checkpoints for which the addresses hold. *)
Definition item_of (s : Schema) (i : Item) : Prop :=
  match i with SIRecordBatch b => batch_schema b = s | SIMarker m => checkpoint_number m < N.shiftl 2 31 end.

Lemma flat_cons i l : flat (i :: l) = content (Ok i) ++ flat l.
Proof. done. Qed.

(** An item of a stream is in its content. *)
Lemma content_item i l : i ∈ l -> forall r, r ∈ content (Ok i) -> r ∈ flat l.
Proof.
  induction 1 as [i l|i j l _ IH]; intros r Hr; rewrite flat_cons; apply elem_of_app; [by left|right; by apply IH].
Qed.

Lemma batch_length b l : SIRecordBatch b ∈ l -> (length (rows b) <= length (flat l))%nat.
Proof.
  remember (SIRecordBatch b) as i eqn:Hi. induction 1 as [j l|j k l _ IH]; rewrite flat_cons, length_app.
  - subst j. cbn. rewrite List.length_map. lia.
  - specialize (IH Hi). lia.
Qed.

(** What carries the content of a stream that can be sent can be sent as well. *)
Lemma same_content_can_send s l l' : Forall (item_of s) l ->
  (forall b, batch_schema b = s -> (length (rows b) <= length (flat l))%nat -> fits (memory_size b)) ->
  flat l' = flat l -> Forall (of_schema s) (Ok <$> l') -> Forall (can_send s) l' /\ Forall (item_of s) l'.
Proof.
  intros Hl Hmem Hflat Hsch. rewrite Forall_fmap in Hsch.
  assert (forall m, SIMarker m ∈ l' -> checkpoint_number m < N.shiftl 2 31) as Hmark.
  { intros m Hm. pose proof (content_item _ _ Hm (Ok (inr m))) as Hin. rewrite Hflat in Hin.
    specialize (Hin ltac:(by left)). clear -Hl Hin. induction Hl as [|[m'|b] l Hi _ IH]; [by apply not_elem_of_nil in Hin|..];
      rewrite flat_cons in Hin; apply elem_of_app in Hin as [Hin|Hin]; [|by apply IH| |by apply IH].
    - apply elem_of_cons in Hin as [Hin|[]%not_elem_of_nil]. by injection Hin as ->.
    - cbn in Hin. by apply list_elem_of_In, in_map_iff in Hin as (? & [=] & _). }
  split; apply Forall_forall; intros [m|b] Hin; rewrite Forall_forall in Hsch; try by apply Hmark.
  - split; [by apply (Hsch _ Hin)|]. apply Hmem; [by apply (Hsch _ Hin)|]. rewrite <- Hflat. by apply batch_length.
  - by apply (Hsch _ Hin).
Qed.

(** A schedule that polls the only fiber of a remote source [k] times. *)
Definition fair (k : nat) (schedule : list nat) : Prop :=
  exists rounds, schedule = concat rounds /\ Forall (FiberRuns.covers 1) rounds /\ (k <= length rounds)%nat.

(** The stream of the last task has the content of the first one. *)
Lemma hops_deliver s l hops : sendable s -> Forall (item_of s) l ->
  (forall b, batch_schema b = s -> (length (rows b) <= length (flat l))%nat -> fits (memory_size b)) ->
  forall l0, flat l0 = flat l -> Forall (of_schema s) (Ok <$> l0) ->
  exists n k, forall fuel turns schedules address sid (net : Net) store, (n <= fuel)%nat ->
    Forall2 (fun _ => fair k) hops schedules ->
    net !! address = Some store -> offers store sid l0 ->
    let '(net', (rs, (address', sid'))) := run_hops fuel (Datatypes.S turns) address sid (zip hops schedules) net in
    length rs = length hops /\ Forall (eq (Some (Ok tt))) rs /\
    exists l', open_remote fuel sid' address' empty net' = (net', Ok (as_stream l')) /\ flat l' = flat l.
Proof.
  intros Hs Hl Hmem. induction hops as [|h hops IH]; intros l0 Hflat Hsch.
  all: destruct (same_content_can_send s l l0 Hl Hmem Hflat Hsch) as [Hsend _].
  all: destruct (open_offered s l0 Hs Hsend) as (n1 & l1 & Hflat1 & Hsch1 & Hopen).
  - exists n1, 0%nat. intros fuel turns schedules address sid net store Hf Hfair%Forall2_nil_inv_l Hnet Hoff. subst schedules. cbn [zip zip_with run_hops]. split; [done|]. split; [done|].
    exists l1. split; [by eapply Hopen|congruence].
  - rewrite Hflat in Hflat1. destruct (IH l1 Hflat1 Hsch1) as (n2 & k2 & Hrest).
    destruct (same_content_can_send s l l1 Hl Hmem Hflat1 Hsch1) as [_ Hitems].
    exists (n1 + n2)%nat, (4 * length l1 + 3 + k2)%nat. intros fuel turns schedules address sid net store Hf Hfair Hnet Hoff.
    apply Forall2_cons_inv_l in Hfair as (schedule & schedules' & (rounds & Hsched & Hcover & Hlen) & Hfair & ->).
    destruct (exchange_task_offers fuel turns (hop_worker h) (hop_task h) sid address (hop_out h) l1 schedule net)
      as (store' & Hrun & Hoff').
    { eapply Hopen; [lia|done..]. }
    { eapply Forall_impl; [exact Hitems|]. by intros [m|b]. }
    { exists rounds. split; [done|]. split; [done|lia]. }
    cbn [zip zip_with run_hops]. rewrite Hrun.
    specialize (Hrest fuel turns schedules' (hop_worker h) (hop_out h) (<[hop_worker h := store']> net) store' ltac:(lia)).
    destruct (run_hops _ _ _ _ _ _) as [net' [rs [address' sid']]].
    destruct Hrest as (Hlen' & Hrs & Hlast); [|apply lookup_insert_eq|done|].
    { eapply Forall2_impl; [exact Hfair|]. intros _ schedule' (rounds' & ? & ? & ?). exists rounds'. split; [done|]. split; [done|lia]. }
    split; [by cbn; f_equal|]. split; [by constructor|done].
Qed.

(** C5: a job of several tasks delivers the stream of its source.  A source task and any number
    of tasks, each of which reads the stream of the one before it through the exchange service
    of that task's worker and passes it on, are run on any workers, with no partitions, as in
    the tests.  With enough fuel and schedules that poll each remote source often enough, every
    task ends without an error in the first turn of its main loop, and a reader that then opens
    the stream of the last task is given exactly the rows and the markers of the source, in
    their order. *)
Theorem relayed_job_delivers s source l worker out hops (net : Net) :
  sendable s -> Source.run (create_operator_function source) 0 = Ok (emitted l) -> Forall (item_of s) l ->
  (forall b, batch_schema b = s -> (length (rows b) <= length (flat l))%nat -> fits (memory_size b)) ->
  NoDup ((worker, out) :: ((fun h => (hop_worker h, hop_out h)) <$> hops)) ->
  exists n k, forall fuel turns schedules, (n <= fuel)%nat -> Forall2 (fun _ => fair k) hops schedules ->
    let '(net1, r) := run_on fuel (Datatypes.S turns) worker (source_task source out) [test_generation] [] [] 0 net in
    let '(net2, (rs, (address, sid))) := run_hops fuel (Datatypes.S turns) worker out (zip hops schedules) net1 in
    r = Some (Ok tt) /\ rs = replicate (length hops) (Some (Ok tt)) /\
    exists l', open_remote fuel sid address empty net2 = (net2, Ok (as_stream l')) /\ flat l' = flat l.
Proof.
  intros Hs Hsource Hl Hmem _.
  destruct (hops_deliver s l hops Hs Hl Hmem l eq_refl) as (n & k & Hhops).
  { apply Forall_fmap. eapply Forall_impl; [exact Hl|]. by intros [m|b]. }
  exists n, k. intros fuel turns schedules Hf Hfair.
  destruct (source_task_offers fuel turns worker source out l [] [] net Hsource) as (store & Hrun & Hoff). rewrite Hrun.
  specialize (Hhops fuel turns schedules worker out (<[worker := store]> net) store Hf Hfair (lookup_insert_eq _ _ _) Hoff).
  destruct (run_hops _ _ _ _ _ _) as [net2 [rs [address sid]]]. destruct Hhops as (Hlen & Hrs & Hlast).
  split; [done|]. split; [|done]. rewrite <- Hlen. symmetry. by apply replicate_as_Forall_2.
Qed.
End relay.

(** ** The tests of worker_process.rs *)

Module ExampleTests.
#[local] Existing Instances FieldArrow.arrow FieldArrow.arrow_laws FieldArrow.flight_arrow
  FieldArrow.flight_arrow_laws FieldArrow.flight_ipc FieldArrow.flight_ipc_laws
  FieldArrow.marker_proto FieldArrow.marker_proto_laws.
#[local] Existing Instances in_order in_order_laws RocksDBState.example_keyed.
#[local] Instance example_profile : Profile := true.

Abbreviation St := (@RocksDBState.t tree tree FileDb.rocks_db).

Definition schema : Schema := (field_new "a" (OtherType "Int32" []) false, []).
Definition test_batch : Batch := FieldArrow.mkBatch schema [[1]; [2]; [3]].
Definition marker (n : N) : StreamItem Batch := SIMarker (mkMarker n).
Definition source : SourceOperator := new_with_markers [marker 1; SIRecordBatch test_batch; marker 2].

(** The count of rows, on the files of a worker; counting by key is not used. *)
Definition open_new (_ : string) (_ : PartitionRange) : res DataFusionError St := Ok (RocksDBState.example_state ∅).
Definition count_schema : Schema := (field_new "count" (OtherType "UInt64" []) false, []).
Definition count_batch (n : N) : res DataFusionError Batch := Ok (FieldArrow.mkBatch count_schema [[n]]).
Definition column (_ : string) (b : Batch) : res DataFusionError ColumnarValue := Err (Internal "not used").

Definition open fuel sid address net :=
  open_stream (fun _ => "e") (fun _ => "broken") ExampleShuffle.ticket_bytes ExampleShuffle.bytes_ticket (fun _ => "not found")
    fuel sid address PartitionRangeOps.empty net.

(** The two tasks of [two_linked_tasks], and a third one after them. *)
Definition tasks : list Hop := [mkHop "worker2" "task2" "exchange_output2"; mkHop "worker3" "task3" "exchange_output3"].

Definition run_first (fuel : nat) :=
  run_on (fun _ => "e") (fun _ => "broken") (fun _ => "e") ExampleShuffle.ticket_bytes ExampleShuffle.bytes_ticket (fun _ => "not found")
    open_new (fun b => N.of_nat (num_rows b)) count_batch column (fun _ _ => count_batch 0) map_to_list (fun _ => false)
    fuel 1 "worker1" (source_task schema source "exchange_output1") [test_generation] [] [] 0 ∅.
Definition run_others (fuel : nat) (schedules : list (list nat)) (net : gmap string ExchangeChannelStore.t) :=
  run_hops (fun _ => "e") (fun _ => "broken") (fun _ => "e") ExampleShuffle.ticket_bytes ExampleShuffle.bytes_ticket (fun _ => "not found")
    schema open_new (fun b => N.of_nat (num_rows b)) count_batch column (fun _ _ => count_batch 0) map_to_list (fun _ => false)
    fuel 1 "worker1" "exchange_output1" (zip tasks schedules) net.

Lemma relayed_job_delivers_witness :
  exists n k, forall fuel schedules, (n <= fuel)%nat -> Forall2 (fun _ => fair k) tasks schedules ->
    let '(net1, r) := run_first fuel in
    let '(net2, (rs, (address, sid))) := run_others fuel schedules net1 in
    r = Some (Ok tt) /\ rs = [Some (Ok tt); Some (Ok tt)] /\
    exists l, open fuel sid address net2 = (net2, Ok (as_stream l)) /\
      flat l = [Ok (inr (mkMarker 1)); Ok (inl [1]); Ok (inl [2]); Ok (inl [3]); Ok (inr (mkMarker 2))].
Proof.
  destruct (relayed_job_delivers (fun _ => "e") (fun _ => "broken") (fun _ => "e") ExampleShuffle.ticket_bytes
    ExampleShuffle.bytes_ticket ExampleShuffle.ticket_read (fun _ => "not found") schema open_new
    (fun b => N.of_nat (num_rows b)) count_batch column (fun _ _ => count_batch 0) map_to_list (fun _ => false)
    schema source [marker 1; SIRecordBatch test_batch; marker 2] "worker1" "exchange_output1" tasks ∅) as (n & k & Hjob).
  - split; [reflexivity|]. split; [reflexivity|]. by repeat constructor.
  - reflexivity.
  - by repeat constructor.
  - intros b Hb Hlen. cbn in Hb, Hlen. unfold memory_size. cbn. rewrite Hb. cbn. unfold fits, u64_modulus. lia.
  - apply (bool_decide_eq_true_1 _). vm_compute. reflexivity.
  - exists n, k. intros fuel schedules Hf Hs. exact (Hjob fuel 0%nat schedules Hf Hs).
Defined.

(** Under the schedule of the active coordinator the second task panics; the first one has
    created its channel. *)
Definition first_store : ExchangeChannelStore.t :=
  snd (ExchangeChannelStore.create ExchangeChannelStore.new "exchange_output1" None).

Lemma mismatched_reader_panics_witness :
  let net := {[ "worker1" := first_store ]} in
  let details := one_input schema PartitionRangeOps.full source "exchange_output1" "worker1" in
  exists net', run_on (fun _ => "e") (fun _ => "broken") (fun _ => "e") ExampleShuffle.ticket_bytes ExampleShuffle.bytes_ticket
      (fun _ => "not found") open_new (fun b => N.of_nat (num_rows b)) count_batch column (fun _ _ => count_batch 0) map_to_list
      (fun _ => false) 0 1 "worker2" (exchange_task schema "task2" "exchange_output1" "exchange_output2")
      (Task.generations details) (input_locations details) [] 0 net =
    (net', Some (Panic "called `Result::unwrap()` on an `Err` value")).
Proof.
  apply (mismatched_reader_panics (fun _ => "e") (fun _ => "broken") (fun _ => "e") ExampleShuffle.ticket_bytes
    ExampleShuffle.bytes_ticket ExampleShuffle.ticket_read (fun _ => "not found") schema open_new
    (fun b => N.of_nat (num_rows b)) count_batch column (fun _ _ => count_batch 0) map_to_list (fun _ => false) 0 0
    "worker2" "task2" source "exchange_output1" "worker1" "exchange_output2" PartitionRangeOps.full []
    {[ "worker1" := first_store ]} first_store).
  - vm_compute. discriminate.
  - reflexivity.
  - apply lookup_singleton_eq.
  - reflexivity.
Defined.

(** *** Counting and restarting (the tests [count_task] and [restarting_with_state]) *)

Definition second_batch : Batch := FieldArrow.mkBatch schema [[4]; [5]; [6]].
Definition counted_source : SourceOperator :=
  new_with_markers [marker 1; SIRecordBatch test_batch; marker 2; SIRecordBatch second_batch; marker 3].

(** The names of the second run end in [_2]; the state ids are the same. *)
Definition count_task (suffix : string) : TaskDefinition2 :=
  let name s := s +:+ suffix in
  mkTaskDefinition (name "task1") (mkOpDef (name "nested1") "1"
    (SpecNested []
      [mkOpDef (name "source1") "2" (SpecSource counted_source) [] [mkOpOutput (name "source_output") 0];
       mkOpDef (name "count1") "3" SpecCountStar [mkOpInput (name "source_output") 0] [mkOpOutput (name "count_output") 0];
       mkOpDef (name "exchange1") "4" (SpecRemoteExchangeOutput (exchange_new schema (name "exchange_output1")))
         [mkOpInput (name "count_output") 0] []]
      []) [] []).

(** [RocksDBStateBackend::open_new] on the file systems of the worker, drawing the n-th name. *)
Definition open_on (files : tree * tree) (n : nat) (sid : string) (range : PartitionRange) : res DataFusionError St :=
  match @StateBackend.open_new tree tree (PrefixedLocalFileSystemStorage.storage ["tmp"]) FileDb.rocks_db
      (RocksDBState.example_uuid n) sid range (mkStateStorage ["state"]) files with
  | (w, Ok b) => Ok (RocksDBState.mk w b (S n))
  | (_, Err e) => Err e
  | (_, Panic why) => Panic why
  end.

Definition run_count (open : string -> PartitionRange -> res DataFusionError St) (task : TaskDefinition2) (checkpoint : N) :=
  run_task (In := IdentityOperatorFunction) (fun _ => mkIdentity) open (fun b => N.of_nat (num_rows b)) count_batch
    column (fun _ _ => count_batch 0) map_to_list (fun _ => false) 1 ExchangeChannelStore.new task [test_generation] checkpoint.

(** What the task leaves in its channel, the count, and the file systems with the next name. *)
Definition count_outcome (f : OperatorFn St Batch RemoteExchangeOperator RemoteSourceOperator
    (RemoteExchangeOperatorFunction * ExchangeChannelStore.t) IdentityOperatorFunction) (out : string)
    : option (list (StreamItem Batch) * (tree * tree) * nat) :=
  match f with
  | FNested _ [_; (_, FCountStar count); (_, FRemoteOutput (_, store))] _ =>
      output ← ExchangeChannelStore.channels store !! out; ch ← heap store !! channel output;
      '(RocksDBState.mk files _ n) ← CountStar.state count; Some (Channels.data ch, files, n)
  | _ => None
  end.

(** The empty directories of a worker. *)
Definition new_files : tree * tree := (FileDb.example_tree, ∅).

(** [count_task]: the markers and the number of rows. *)
Definition first_run := run_count (open_on new_files 0) (count_task "") 0.

Lemma count_task_test : first_run.2 = Some (Ok tt) /\
  fst ∘ fst <$> count_outcome first_run.1 "exchange_output1" =
    Some [marker 1; marker 2; marker 3; SIRecordBatch (FieldArrow.mkBatch count_schema [[6]])].
Proof. split; vm_compute; reflexivity. Qed.

(** [restarting_with_state]: the task is started again from checkpoint 2, on the files that the
    first run has left on the worker. *)
Definition second_run :=
  match count_outcome first_run.1 "exchange_output1" with
  | Some (_, files, n) => Some (run_count (open_on files n) (count_task "_2") 2)
  | None => None
  end.

Lemma restarting_with_state_test :
  (fun r : _ * _ => (r.2, fst ∘ fst <$> count_outcome r.1 "exchange_output1_2")) <$> second_run =
    Some (Some (Ok tt), Some [marker 2; marker 3; SIRecordBatch (FieldArrow.mkBatch count_schema [[6]])]).
Proof. vm_compute. reflexivity. Qed.
End ExampleTests.
