(* ===== verification/Plans.v ===== *)
(** * Distributed plans (../stage.rs, ../stage_reader.rs, ../isolator.rs, ../max_rows.rs,
    ../pre_fetch.rs, ../physical.rs, ../codec.rs, ../proto/generated/protobuf.rs)

    The plan nodes that the batch engine adds to those of DataFusion, the optimizer rule that
    marks where a plan is cut into stages, and the codec that sends the nodes to the processors.
    Paths are relative to src/src/streaming/. *)

From S2P Require Import Prelude.

Abbreviation Bytes := (list N).

(** ** What is used of DataFusion *)
Class DataFusion := {
  Schema : Type;
  Partitioning : Type;
  partitioning_count : Partitioning -> N;
  UnknownPartitioning : N -> Partitioning;
  PlanProperties : Type;
  (** [properties.partitioning], [with_partitioning], and [PlanProperties::new] of a schema and
      a partitioning, incremental and bounded *)
  partitioning : PlanProperties -> Partitioning;
  with_partitioning : Partitioning -> PlanProperties -> PlanProperties;
  properties_new : Schema -> Partitioning -> PlanProperties;
  (** a plan node of DataFusion *)
  Node : Type;
  node_properties : Node -> PlanProperties;
}.

(** The kinds of DataFusion nodes that the engine looks for. *)
Inductive NodeKind := RepartitionExec | SortExec | NestedLoopJoinExec | OtherExec.

Section plans.
Context `{DataFusion}.

(** ** Plan nodes *)
Inductive Plan :=
  | DFRayStageExec (input : Plan) (props : PlanProperties) (stage_id : N)
  | DFRayStageReaderExec (props : PlanProperties) (schema : Schema) (stage_id : N)
  | PartitionIsolatorExec (input : Plan) (props : PlanProperties) (partition_count : N)
  | MaxRowsExec (input : Plan) (max_rows : N)
  | PrefetchExec (input : Plan) (buf_size : N) (props : PlanProperties)
  | NodeExec (kind : NodeKind) (node : Node) (inputs : list Plan).

Fixpoint properties (p : Plan) : PlanProperties :=
  match p with
  | DFRayStageExec _ props _ | DFRayStageReaderExec props _ _
  | PartitionIsolatorExec _ props _ | PrefetchExec _ _ props => props
  | MaxRowsExec input _ => properties input
  | NodeExec _ node _ => node_properties node
  end.

Definition children (p : Plan) : list Plan :=
  match p with
  | DFRayStageExec input _ _ | PartitionIsolatorExec input _ _
  | MaxRowsExec input _ | PrefetchExec input _ _ => [input]
  | DFRayStageReaderExec _ _ _ => []
  | NodeExec _ _ inputs => inputs
  end.

Definition stage_new (input : Plan) (stage_id : N) : Plan :=
  DFRayStageExec input (properties input) stage_id.

Definition stage_reader_try_new (p : Partitioning) (schema : Schema) (stage_id : N)
    : res DataFusionError Plan :=
  Ok (DFRayStageReaderExec
    (properties_new schema (UnknownPartitioning (partitioning_count p))) schema stage_id).

Definition isolator_new (input : Plan) (partition_count : N) : Plan :=
  PartitionIsolatorExec input
    (with_partitioning (UnknownPartitioning partition_count) (properties input)) partition_count.

Definition prefetch_new (input : Plan) (buf_size : N) : res DataFusionError Plan :=
  match children input with
  | [child] => Ok (PrefetchExec input buf_size (properties child))
  | _ => Panic "PrefetchExec must have exactly one input"
  end.

Definition assert_one (cs : list Plan) : res DataFusionError Plan :=
  match cs with [c] => Ok c | _ => Panic "assertion `left == right` failed" end.

(** [with_new_children] of the nodes of DataFusion. *)
Context (node_with_new_children : NodeKind -> Node -> list Plan -> res DataFusionError Node).

Definition with_new_children (p : Plan) (cs : list Plan) : res DataFusionError Plan :=
  match p with
  | DFRayStageExec _ props id => c ← assert_one cs; Ok (DFRayStageExec c props id)
  | DFRayStageReaderExec _ _ _ => Panic "not implemented"
  | PartitionIsolatorExec _ _ n => c ← assert_one cs; Ok (isolator_new c n)
  | MaxRowsExec _ n => c ← assert_one cs; Ok (MaxRowsExec c n)
  | PrefetchExec _ n _ => c ← assert_one cs; prefetch_new c n
  | NodeExec k node _ => node ← node_with_new_children k node cs; Ok (NodeExec k node cs)
  end.

(** ** Marking stages (physical.rs) *)

Definition visit {S} (f : Plan -> S -> (Plan * bool) * S) (p : Plan) (changed : bool)
    : act S DataFusionError (Plan * bool) :=
  fun s => let '((p, changed'), s) := f p s in (s, Ok (p, changed || changed')).

(** [TreeNode::transform_up]: the children first, in order; a node is rebuilt when a child
    changed; then [f] sees the node.  The flag says whether anything changed. *)
Fixpoint transform_up {S} (f : Plan -> S -> (Plan * bool) * S) (p : Plan)
    : act S DataFusionError (Plan * bool) :=
  let fix go (cs : list Plan) : act S DataFusionError (list Plan * bool) :=
    match cs with
    | [] => mret ([], false)
    | c :: cs =>
        '(c, changed) ← transform_up f c;
        '(cs, changed') ← go cs;
        mret (c :: cs, changed || changed')
    end in
  '(cs, changed) ← match p with
    | DFRayStageExec input _ _ | PartitionIsolatorExec input _ _
    | MaxRowsExec input _ | PrefetchExec input _ _ =>
        '(c, changed) ← transform_up f input; mret ([c], changed)
    | DFRayStageReaderExec _ _ _ => mret ([], false)
    | NodeExec _ _ inputs => go inputs
    end;
  p ← (lift (if (changed : bool) then with_new_children p cs else Ok p) : act S DataFusionError Plan);
  visit f p changed.

(** The nodes that end a stage. *)
Definition is_boundary (p : Plan) : bool :=
  match p with
  | NodeExec (RepartitionExec | SortExec | NestedLoopJoinExec) _ _ => true
  | _ => false
  end.

(** The closure [up]; the state is [stage_counter]. *)
Definition up (p : Plan) (stage_counter : N) : (Plan * bool) * N :=
  if is_boundary p then ((stage_new p stage_counter, true), stage_counter + 1)
  else ((p, false), stage_counter).

Definition optimize (plan : Plan) : res DataFusionError Plan :=
  match transform_up up plan 0 with
  | (stage_counter, Ok (plan, _)) => Ok (stage_new plan stage_counter)
  | (_, Err e) => Err e
  | (_, Panic w) => Panic w
  end.

(** [input_stage_ids]: the stages that a plan reads, from the root down. *)
Fixpoint input_stage_ids (p : Plan) : list N :=
  match p with
  | DFRayStageReaderExec _ _ id => [id]
  | DFRayStageExec c _ _ | PartitionIsolatorExec c _ _ | MaxRowsExec c _ | PrefetchExec c _ _ =>
      input_stage_ids c
  | NodeExec _ _ cs => concat (List.map input_stage_ids cs)
  end.
End plans.

(** ** What the optimizer rule does *)

Section optimizer.
Context `{DataFusion}.

Section plan_induction.
Context (P : Plan -> Prop).
Context (Hstage : forall c props id, P c -> P (DFRayStageExec c props id)).
Context (Hreader : forall props s id, P (DFRayStageReaderExec props s id)).
Context (Hisolator : forall c props n, P c -> P (PartitionIsolatorExec c props n)).
Context (Hmax : forall c n, P c -> P (MaxRowsExec c n)).
Context (Hprefetch : forall c n props, P c -> P (PrefetchExec c n props)).
Context (Hnode : forall k node cs, Forall P cs -> P (NodeExec k node cs)).

Fixpoint plan_ind' (p : Plan) : P p :=
  match p with
  | DFRayStageExec c props id => Hstage c props id (plan_ind' c)
  | DFRayStageReaderExec props s id => Hreader props s id
  | PartitionIsolatorExec c props n => Hisolator c props n (plan_ind' c)
  | MaxRowsExec c n => Hmax c n (plan_ind' c)
  | PrefetchExec c n props => Hprefetch c n props (plan_ind' c)
  | NodeExec k node cs => Hnode k node cs
      ((fix go (cs : list Plan) : Forall P cs :=
        match cs with
        | [] => List.Forall_nil P
        | c :: cs => List.Forall_cons P c cs (plan_ind' c) (go cs)
        end) cs)
  end.
End plan_induction.

(** What a node is, apart from its properties and inputs; a stage marker is nothing. *)
Inductive label :=
  | LReader (schema : Schema) (stage_id : N)
  | LIsolator (n : N)
  | LMaxRows (n : N)
  | LPrefetch (n : N)
  | LNode (kind : NodeKind).

Definition label_of (p : Plan) : option label :=
  match p with
  | DFRayStageExec _ _ _ => None
  | DFRayStageReaderExec _ s id => Some (LReader s id)
  | PartitionIsolatorExec _ _ n => Some (LIsolator n)
  | MaxRowsExec _ n => Some (LMaxRows n)
  | PrefetchExec _ n _ => Some (LPrefetch n)
  | NodeExec k _ _ => Some (LNode k)
  end.

(** The plan without its stage markers. *)
Inductive Shape := shape_node (l : label) (cs : list Shape).
Fixpoint shape (p : Plan) : Shape :=
  match p with
  | DFRayStageExec c _ _ => shape c
  | DFRayStageReaderExec _ s id => shape_node (LReader s id) []
  | PartitionIsolatorExec c _ n => shape_node (LIsolator n) [shape c]
  | MaxRowsExec c n => shape_node (LMaxRows n) [shape c]
  | PrefetchExec c n _ => shape_node (LPrefetch n) [shape c]
  | NodeExec k _ cs => shape_node (LNode k) (List.map shape cs)
  end.

(** Every boundary node is the input of a stage marker. *)
Fixpoint marked (under_stage : bool) (p : Plan) : bool :=
  match p with
  | DFRayStageExec c _ _ => marked true c
  | DFRayStageReaderExec _ _ _ => true
  | PartitionIsolatorExec c _ _ | MaxRowsExec c _ | PrefetchExec c _ _ => marked false c
  | NodeExec _ _ cs => (negb (is_boundary p) || under_stage) && forallb (marked false) cs
  end.

(** The stages, each after those below it. *)
Fixpoint stages (p : Plan) : list N :=
  match p with
  | DFRayStageExec c _ id => stages c ++ [id]
  | DFRayStageReaderExec _ _ _ => []
  | PartitionIsolatorExec c _ _ | MaxRowsExec c _ | PrefetchExec c _ _ => stages c
  | NodeExec _ _ cs => concat (List.map stages cs)
  end.

Fixpoint boundaries (p : Plan) : nat :=
  match p with
  | DFRayStageReaderExec _ _ _ => 0
  | DFRayStageExec c _ _ | PartitionIsolatorExec c _ _ | MaxRowsExec c _ | PrefetchExec c _ _ =>
      boundaries c
  | NodeExec _ _ cs => (sum_list_with boundaries cs + if is_boundary p then 1 else 0)%nat
  end.

(** How many inputs a node of DataFusion takes. *)
Context (node_arity : Node -> nat).

(** A plan before the rule: no stage marker, every node with its inputs, and a prefetch over a
    node with one input. *)
Fixpoint unmarked (p : Plan) : bool :=
  match p with
  | DFRayStageExec _ _ _ => false
  | DFRayStageReaderExec _ _ _ => true
  | PartitionIsolatorExec c _ _ | MaxRowsExec c _ => unmarked c
  | PrefetchExec c _ _ => unmarked c && (length (children c) =? 1)%nat
  | NodeExec _ node cs => (length cs =? node_arity node)%nat && forallb unmarked cs
  end.

Lemma labelled_eqs p l :
  label_of p = Some l ->
  shape p = shape_node l (List.map shape (children p)) /\
  (forall b, marked b p = (negb (is_boundary p) || b) && forallb (marked false) (children p)) /\
  stages p = concat (List.map stages (children p)) /\
  boundaries p = (sum_list_with boundaries (children p) + if is_boundary p then 1 else 0)%nat.
Proof.
  destruct p; intros [= <-]; cbn; rewrite ?app_nil_r, ?andb_true_r, ?Nat.add_0_r; done.
Qed.

Lemma boundary_label p p' : label_of p = label_of p' -> is_boundary p = is_boundary p'.
Proof. destruct p, p'; try done. by intros [= ->]. Qed.

Context (node_with_new_children : NodeKind -> Node -> list Plan -> res DataFusionError Node).
(** A node of DataFusion can be rebuilt with as many inputs as it takes. *)
Context (Hrebuild : forall k node cs, length cs = node_arity node ->
  exists node', node_with_new_children k node cs = Ok node').
Abbreviation up_plan := (transform_up node_with_new_children up).

(** Transforming a list of inputs. *)
Fixpoint up_list (cs : list Plan) : act N DataFusionError (list Plan * bool) :=
  match cs with
  | [] => mret ([], false)
  | c :: cs =>
      '(c, changed) ← up_plan c;
      '(cs, changed') ← up_list cs;
      mret (c :: cs, changed || changed')
  end.

Lemma up_plan_eq p s :
  up_plan p s =
    ('(cs, changed) ← up_list (children p);
     p ← (lift (if (changed : bool) then with_new_children node_with_new_children p cs else Ok p)
          : act N DataFusionError Plan);
     visit up p changed) s.
Proof.
  destruct p as [c| |c|c|c|k node cs]; try reflexivity.
  1-4: cbn -[visit up]; unfold mbind, act_bind; destruct (up_plan c s) as [s1 [[c' ch]|e|w]]; try done;
    cbn -[visit up]; by rewrite orb_false_r.
Qed.

(** [n] consecutive stage numbers. *)
Fixpoint numbers (s : N) (n : nat) : list N :=
  match n with O => [] | S n => s :: numbers (s + 1) n end.

Lemma numbers_app s n m : numbers s (n + m) = numbers s n ++ numbers (s + N.of_nat n) m.
Proof.
  revert s. induction n as [|n IH]; intros s; cbn [numbers Nat.add app].
  - by rewrite N.add_0_r.
  - rewrite IH. do 3 f_equal. lia.
Qed.

(** What transforming a plan with the counter at [s] gives. *)
Definition up_spec (p : Plan) (s : N) (p' : Plan) (changed : bool) : Prop :=
  shape p' = shape p /\ marked false p' = true /\ stages p' = numbers s (boundaries p) /\
  (changed = false -> p' = p) /\ (length (children p) = 1%nat -> length (children p') = 1%nat).

Lemma rebuild p l cs (changed : bool) :
  label_of p = Some l -> unmarked p = true -> length cs = length (children p) ->
  (changed = false -> cs = children p) -> (changed = true -> cs <> []) ->
  Forall2 (fun c c' => length (children c) = 1%nat -> length (children c') = 1%nat) (children p) cs ->
  exists p', (if changed then with_new_children node_with_new_children p cs else Ok p) = Ok p' /\
    label_of p' = Some l /\ children p' = cs /\ (changed = false -> p' = p).
Proof.
  intros Hl Hu Hlen Hcs Hne Hone. destruct changed; [|by exists p; rewrite Hcs]. clear Hcs.
  specialize (Hne eq_refl).
  destruct p as [c|props sch id|c props n|c n|c n props|k node inputs]; [done|..]; cbn in Hlen.
  1: by destruct cs.
  1-3: destruct cs as [|c' [|]]; [done| |done].
  - eexists. split; [done|]. done.
  - eexists. split; [done|]. done.
  - cbn in Hu. apply andb_true_iff in Hu as [_ Hu%Nat.eqb_eq].
    apply Forall2_cons in Hone as [Hone _]. specialize (Hone Hu). cbn. unfold prefetch_new.
    destruct (children c') as [|x [|]]; [done| |done]. eexists. split; [done|]. done.
  - cbn in Hu |- *. apply andb_true_iff in Hu as [Hn%Nat.eqb_eq _].
    destruct (Hrebuild k node cs) as [node' ->]; [congruence|]. eexists. split; [done|]. done.
Qed.

Lemma up_list_spec cs :
  Forall (fun c => unmarked c = true -> forall s, exists p' ch,
    up_plan c s = (s + N.of_nat (boundaries c), Ok (p', ch)) /\ up_spec c s p' ch) cs ->
  forallb unmarked cs = true -> forall s, exists cs' ch,
    up_list cs s = (s + N.of_nat (sum_list_with boundaries cs), Ok (cs', ch)) /\
    List.map shape cs' = List.map shape cs /\ forallb (marked false) cs' = true /\
    concat (List.map stages cs') = numbers s (sum_list_with boundaries cs) /\
    (ch = false -> cs' = cs) /\ (ch = true -> cs' <> []) /\
    Forall2 (fun c c' => length (children c) = 1%nat -> length (children c') = 1%nat) cs cs'.
Proof.
  induction 1 as [|c cs Hc _ IH]; intros Hu s.
  { exists [], false. rewrite N.add_0_r. by repeat split. }
  cbn in Hu. apply andb_true_iff in Hu as [Huc Hu].
  destruct (Hc Huc s) as (c' & ch & Hup & Hsh & Hm & Hst & Hch & Hone).
  destruct (IH Hu (s + N.of_nat (boundaries c))) as (cs' & ch' & Hl & Hshs & Hms & Hsts & Hchs & _ & Hones).
  exists (c' :: cs'), (ch || ch'). split; [|split; [|split; [|split; [|split; [|split]]]]].
  - cbn [up_list sum_list_with]. unfold mbind, act_bind. rewrite Hup, Hl. unfold mret, act_ret.
    f_equal. lia.
  - cbn. by rewrite Hsh, Hshs.
  - cbn. by rewrite Hm, Hms.
  - cbn [List.map concat sum_list_with]. by rewrite numbers_app, Hst, Hsts.
  - intros [-> ->]%orb_false_iff. by rewrite Hch, Hchs.
  - done.
  - by constructor.
Qed.

Lemma up_plan_spec p :
  unmarked p = true -> forall s, exists p' ch,
    up_plan p s = (s + N.of_nat (boundaries p), Ok (p', ch)) /\ up_spec p s p' ch.
Proof.
  assert (forall p l, label_of p = Some l -> unmarked p = true ->
    Forall (fun c => unmarked c = true -> forall s, exists p' ch,
      up_plan c s = (s + N.of_nat (boundaries c), Ok (p', ch)) /\ up_spec c s p' ch) (children p) ->
    forallb unmarked (children p) = true -> forall s, exists p' ch,
    up_plan p s = (s + N.of_nat (boundaries p), Ok (p', ch)) /\ up_spec p s p' ch) as Hnode.
  { clear p. intros p l Hl Hu IH Hus s.
    destruct (up_list_spec (children p) IH Hus s) as (cs & ch & Hlist & Hsh & Hm & Hst & Hch & Hne & Hone).
    destruct (rebuild p l cs ch Hl Hu) as (p1 & Hp1 & Hl1 & Hc1 & Hch1);
      [symmetry; by eapply Forall2_length|done..|].
    destruct (labelled_eqs p l Hl) as (Eshape & _ & _ & Ebound).
    destruct (labelled_eqs p1 l Hl1) as (Eshape1 & Emarked1 & Estages1 & _).
    assert (is_boundary p1 = is_boundary p) as Hb by (apply boundary_label; congruence).
    assert (length (children p) = 1%nat -> length (children p1) = 1%nat) as Hone1.
    { rewrite Hc1. intros Hlen. by rewrite <- (Forall2_length _ _ _ Hone). }
    rewrite up_plan_eq. erewrite act_bind_Ok by exact Hlist. unfold lift. rewrite Hp1.
    erewrite act_bind_Ok by done. unfold visit, up. rewrite Hb. unfold up_spec.
    rewrite Eshape, Ebound. destruct (is_boundary p).
    - exists (stage_new p1 (s + N.of_nat (sum_list_with boundaries (children p)))), true.
      rewrite orb_true_r. split; [f_equal; lia|]. cbn [shape marked stages stage_new children].
      rewrite Eshape1, Emarked1, Estages1, Hc1, Hsh, Hm, Hst, numbers_app, orb_true_r.
      by repeat split.
    - exists p1, ch. rewrite orb_false_r, Nat.add_0_r. split; [done|].
      rewrite Eshape1, Emarked1, Estages1, Hc1, Hsh, Hm, Hst, Hb. rewrite Hc1 in Hone1. repeat split; auto. }
  apply (plan_ind' (fun p => unmarked p = true -> forall s, exists p' ch,
    up_plan p s = (s + N.of_nat (boundaries p), Ok (p', ch)) /\ up_spec p s p' ch)); [done|..].
  - intros props sch id Hu. by eapply Hnode; [|done|constructor|].
  - intros c props n IH Hu. eapply Hnode; [done|done|by repeat constructor|]. cbn in *. by rewrite Hu.
  - intros c n IH Hu. eapply Hnode; [done|done|by repeat constructor|]. cbn in *. by rewrite Hu.
  - intros c n props IH Hu. eapply Hnode; [done|done|by repeat constructor|]. cbn in *.
    apply andb_true_iff in Hu as [-> _]. done.
  - intros k node cs IH Hu. eapply Hnode; [done|done|done|]. by apply andb_true_iff in Hu as [_ Hu].
Qed.

(** C20: the optimizer rule cuts a plan where it should.  On a plan without stage markers it
    succeeds; the result is the same plan with stage markers inserted, up to the payload that
    DataFusion gives its nodes when their inputs are replaced; every repartition, sort and nested
    loop join is the input of a marker, and so is the whole plan; and the stages are
    numbered 0, 1, 2, ... so that a stage comes after those below it, the root last. *)
Theorem optimize_marks_stages plan :
  unmarked plan = true ->
  exists input props,
    let plan' := DFRayStageExec input props (N.of_nat (boundaries plan)) in
    optimize node_with_new_children plan = Ok plan' /\
    shape plan' = shape plan /\ marked false plan' = true /\
    stages plan' = numbers 0 (S (boundaries plan)).
Proof.
  intros Hu. destruct (up_plan_spec plan Hu 0) as (p' & ch & Hup & Hsh & Hm & Hst & _).
  exists p', (properties p'). unfold optimize. rewrite Hup, N.add_0_l. split; [done|].
  split; [done|]. split.
  - cbn. destruct (label_of p') as [l|] eqn:Hl.
    + destruct (labelled_eqs p' l Hl) as (_ & Em & _). rewrite Em in *.
      by apply andb_true_iff in Hm as [_ ->]; rewrite orb_true_r.
    + by destruct p'.
  - cbn [stages]. rewrite Hst. by rewrite <- Nat.add_1_r, numbers_app.
Qed.
End optimizer.
