(* ===== verification/Codec.v ===== *)
(** * The plan codec (../codec.rs, ../proto/generated/protobuf.rs)

    How the plan nodes of Plans.v are sent to the processors: [RayCodec], over the protobuf
    messages of the generated file.  A message is decoded here field by field as prost does it
    (a field that is missing or has its default value is not sent, a field with an unknown tag is
    skipped, a field with another wire type than its tag has is an error); the bytes of a list of
    fields, and the messages of DataFusion for schemas and partitionings, are parameters. *)

From S2P Require Import Prelude Plans.

(** ** Messages on the wire *)

(** The value of a field: a varint, four bytes, or a length and as many bytes. *)
Inductive Wire := Varint (n : N) | I32 (bits : N) | Len (bs : Bytes).
Abbreviation Fields := (list (N * Wire)).

(** The bytes of the fields of a message. *)
Class Protobuf := {
  encode_fields : Fields -> Bytes;
  decode_fields : Bytes -> option Fields;
}.

(** The fields that prost writes: small positive tags, values in the range of their types. *)
Definition field_ok (f : N * Wire) : Prop :=
  0 < f.1 < 2 ^ 29 /\
  match f.2 with Varint n => n < u64_modulus | I32 b => b < 2 ^ 32 | Len bs => N.of_nat (length bs) < 2 ^ 32 end.

Class ProtobufLaws `{Protobuf} : Prop :=
  decode_encode_fields fs : Forall field_ok fs -> decode_fields (encode_fields fs) = Some fs.

(** What is used of datafusion_proto. *)
Class DataFusionProto `{DataFusion} := {
  PbSchema : Type;
  PbPartitioning : Type;
  (** [protobuf::Schema::try_from] and its inverse *)
  schema_to_pb : Schema -> res DataFusionError PbSchema;
  schema_of_pb : PbSchema -> res DataFusionError Schema;
  (** [serialize_partitioning] and [parse_protobuf_partitioning] *)
  serialize_partitioning : Partitioning -> res DataFusionError PbPartitioning;
  FunctionRegistry : Type;
  parse_protobuf_partitioning :
    option PbPartitioning -> FunctionRegistry -> Schema -> res DataFusionError (option Partitioning);
  (** the bytes of a message, and [merge] of bytes into a message *)
  encode_schema : PbSchema -> Bytes;
  merge_schema : option PbSchema -> Bytes -> option PbSchema;
  encode_partitioning : PbPartitioning -> Bytes;
  merge_partitioning : option PbPartitioning -> Bytes -> option PbPartitioning;
}.

Class DataFusionProtoLaws `{DataFusionProto} : Prop := {
  schema_pb s pb : schema_to_pb s = Ok pb -> schema_of_pb pb = Ok s;
  merge_encoded_schema pb : merge_schema None (encode_schema pb) = Some pb;
  encode_schema_length pb : N.of_nat (length (encode_schema pb)) < 2 ^ 32;
  unknown_partitioning_pb n : exists pb, serialize_partitioning (UnknownPartitioning n) = Ok pb /\
    forall registry s, parse_protobuf_partitioning (Some pb) registry s = Ok (Some (UnknownPartitioning n));
  merge_encoded_partitioning pb : merge_partitioning None (encode_partitioning pb) = Some pb;
  encode_partitioning_length pb : N.of_nat (length (encode_partitioning pb)) < 2 ^ 32;
  partitioning_new s p : partitioning (properties_new s p) = p;
  partitioning_count_unknown n : partitioning_count (UnknownPartitioning n) = n;
}.

Section codec.
Context `{Protobuf} `{DataFusionProto}.

(** ** The messages (proto/generated/protobuf.rs) *)

Record DfRayStageReaderExecNode := {
  reader_schema : option PbSchema;
  reader_partitioning : option PbPartitioning;
  reader_stage_id : N;
}.
Record MaxRowsExecNode := { pb_max_rows : N }.
Record PrefetchExecNode := { prefetch_dummy : N; pb_buf_size : N }.
(** the [f32] by its bits *)
Record PartitionIsolatorExecNode := { isolator_dummy : N; pb_partition_count : N }.
Record FlightTicketData := { ticket_dummy : bool; ticket_partition : N }.

(** [encode_field] of the scalar types: the default is not written. *)
Definition varint_field (tag v : N) : Fields := if v =? 0 then [] else [(tag, Varint v)].
Definition float_field (tag bits : N) : Fields := if bits =? 0 then [] else [(tag, I32 bits)].
Definition bool_field (tag : N) (b : bool) : Fields := if b then [(tag, Varint 1)] else [].
Definition message_field {M} (encode : M -> Bytes) (tag : N) (m : option M) : Fields :=
  match m with None => [] | Some m => [(tag, Len (encode m))] end.

Definition reader_fields (m : DfRayStageReaderExecNode) : Fields :=
  message_field encode_schema 1 (reader_schema m) ++
  message_field encode_partitioning 2 (reader_partitioning m) ++
  varint_field 3 (reader_stage_id m).
Definition max_rows_fields (m : MaxRowsExecNode) : Fields := varint_field 1 (pb_max_rows m).
Definition prefetch_fields (m : PrefetchExecNode) : Fields :=
  varint_field 1 (prefetch_dummy m) ++ varint_field 2 (pb_buf_size m).
Definition isolator_fields (m : PartitionIsolatorExecNode) : Fields :=
  float_field 1 (isolator_dummy m) ++ varint_field 2 (pb_partition_count m).
Definition ticket_fields (m : FlightTicketData) : Fields :=
  bool_field 1 (ticket_dummy m) ++ varint_field 2 (ticket_partition m).

(** [Message::merge_field] of each message. *)
Definition merge_reader (m : DfRayStageReaderExecNode) (f : N * Wire) : option DfRayStageReaderExecNode :=
  match f with
  | (1, Len bs) => s ← merge_schema (reader_schema m) bs;
      Some (Build_DfRayStageReaderExecNode (Some s) (reader_partitioning m) (reader_stage_id m))
  | (2, Len bs) => p ← merge_partitioning (reader_partitioning m) bs;
      Some (Build_DfRayStageReaderExecNode (reader_schema m) (Some p) (reader_stage_id m))
  | (3, Varint v) =>
      Some (Build_DfRayStageReaderExecNode (reader_schema m) (reader_partitioning m) v)
  | (1, _) | (2, _) | (3, _) => None
  | _ => Some m
  end.
Definition merge_max_rows (m : MaxRowsExecNode) (f : N * Wire) : option MaxRowsExecNode :=
  match f with
  | (1, Varint v) => Some {| pb_max_rows := v |}
  | (1, _) => None
  | _ => Some m
  end.
Definition merge_prefetch (m : PrefetchExecNode) (f : N * Wire) : option PrefetchExecNode :=
  match f with
  | (1, Varint v) => Some {| prefetch_dummy := v mod 2 ^ 32; pb_buf_size := pb_buf_size m |}
  | (2, Varint v) => Some {| prefetch_dummy := prefetch_dummy m; pb_buf_size := v |}
  | (1, _) | (2, _) => None
  | _ => Some m
  end.
Definition merge_isolator (m : PartitionIsolatorExecNode) (f : N * Wire) : option PartitionIsolatorExecNode :=
  match f with
  | (1, I32 v) => Some {| isolator_dummy := v; pb_partition_count := pb_partition_count m |}
  | (2, Varint v) => Some {| isolator_dummy := isolator_dummy m; pb_partition_count := v |}
  | (1, _) | (2, _) => None
  | _ => Some m
  end.
Definition merge_ticket (m : FlightTicketData) (f : N * Wire) : option FlightTicketData :=
  match f with
  | (1, Varint v) => Some {| ticket_dummy := negb (v =? 0); ticket_partition := ticket_partition m |}
  | (2, Varint v) => Some {| ticket_dummy := ticket_dummy m; ticket_partition := v |}
  | (1, _) | (2, _) => None
  | _ => Some m
  end.

(** [Message::decode]: from the default message, field by field. *)
Definition decode {M} (default : M) (merge : M -> N * Wire -> option M) (buf : Bytes) : option M :=
  fs ← decode_fields buf; foldl (fun m f => m ← m; merge m f) (Some default) fs.

Definition decode_reader := decode (Build_DfRayStageReaderExecNode None None 0) merge_reader.
Definition decode_max_rows := decode {| pb_max_rows := 0 |} merge_max_rows.
Definition decode_prefetch := decode {| prefetch_dummy := 0; pb_buf_size := 0 |} merge_prefetch.
Definition decode_isolator := decode {| isolator_dummy := 0; pb_partition_count := 0 |} merge_isolator.
Definition decode_ticket := decode {| ticket_dummy := false; ticket_partition := 0 |} merge_ticket.

(** ** [RayCodec] (codec.rs) *)

Definition one_input (error : string) (inputs : list Plan) : res DataFusionError Plan :=
  match inputs with [input] => Ok input | _ => Err (Internal error) end.

Definition got (inputs : list Plan) : string :=
  "MaxRowsExec requires one input, got " +:+ pretty (N.of_nat (length inputs)).

Definition try_decode (buf : Bytes) (inputs : list Plan) (registry : FunctionRegistry)
    : res DataFusionError Plan :=
  match decode_isolator buf with
  | Some node =>
      input ← one_input "PartitionIsolatorExec requires one input" inputs;
      Ok (isolator_new input (pb_partition_count node))
  | None =>
  match decode_reader buf with
  | Some node =>
      pb ← ok_or (Internal "missing schema in proto") (reader_schema node);
      schema ← schema_of_pb pb;
      part ← parse_protobuf_partitioning (reader_partitioning node) registry schema;
      part ← ok_or (Internal "missing partitioning in proto") part;
      stage_reader_try_new part schema (reader_stage_id node)
  | None =>
  match decode_max_rows buf with
  | Some node =>
      input ← one_input (got inputs) inputs;
      Ok (MaxRowsExec input (pb_max_rows node))
  | None =>
  match decode_prefetch buf with
  | Some node =>
      input ← one_input (got inputs) inputs;
      prefetch_new input (pb_buf_size node)
  | None => Err (Internal "Should not reach this point")
  end end end end.

(** Appends to [buf]. *)
Definition try_encode (node : Plan) (buf : Bytes) : res DataFusionError Bytes :=
  match node with
  | DFRayStageReaderExec props schema stage_id =>
      schema ← schema_to_pb schema;
      part ← serialize_partitioning (partitioning props);
      Ok (buf ++ encode_fields (reader_fields
        (Build_DfRayStageReaderExecNode (Some schema) (Some part) stage_id)))
  | PartitionIsolatorExec _ _ partition_count =>
      Ok (buf ++ encode_fields (isolator_fields
        {| isolator_dummy := 0; pb_partition_count := partition_count |}))
  | MaxRowsExec _ max_rows =>
      Ok (buf ++ encode_fields (max_rows_fields {| pb_max_rows := max_rows |}))
  | PrefetchExec _ buf_size _ =>
      Ok (buf ++ encode_fields (prefetch_fields {| prefetch_dummy := 0; pb_buf_size := buf_size |}))
  | _ => Err (Internal "Not supported")
  end.
End codec.

(** ** What comes back *)

Section round_trip.
Context `{ProtobufLaws} `{DataFusionProtoLaws}.

(** The nodes as their constructors build them. *)
Inductive built : Plan -> Prop :=
  | built_reader p s id r : stage_reader_try_new p s id = Ok r -> fits id ->
      is_Ok (schema_to_pb s) -> built r
  | built_isolator c n : fits n -> built (isolator_new c n)
  | built_max_rows c n : fits n -> built (MaxRowsExec c n)
  | built_prefetch c n p : prefetch_new c n = Ok p -> fits n -> built p.

(** What the other side makes of a node. *)
Definition received (p : Plan) : Plan :=
  match p with
  | PrefetchExec c n _ => isolator_new c n
  | MaxRowsExec c 0 => isolator_new c 0
  | _ => p
  end.

Lemma varint_field_ok tag v : 0 < tag < 2 ^ 29 -> fits v -> Forall field_ok (varint_field tag v).
Proof. intros Ht Hv. unfold varint_field. destruct (v =? 0); repeat constructor; cbn; tauto. Qed.

Lemma decode_encoded {M} (default : M) merge fs :
  Forall field_ok fs ->
  decode default merge (encode_fields fs) = foldl (fun m f => m ← m; merge m f) (Some default) fs.
Proof. intros Hfs. unfold decode. by rewrite decode_encode_fields. Qed.

(** A message whose first field is not the float of an isolator. *)
Lemma not_isolator tag1 w fs :
  Forall field_ok ((tag1, w) :: fs) -> tag1 = 1 -> (forall b, w <> I32 b) ->
  decode_isolator (encode_fields ((tag1, w) :: fs)) = None.
Proof.
  intros Hfs -> Hw. unfold decode_isolator. rewrite decode_encoded by done. cbn.
  assert (foldl (fun m f => m ← m; merge_isolator m f) None fs = None) as E
    by (clear; by induction fs).
  destruct w; [exact E|by destruct (Hw bits)|exact E].
Qed.

(** Two varints at most, the first absent: an isolator. *)
Lemma varint_2_is_isolator n :
  fits n ->
  decode_isolator (encode_fields (varint_field 2 n)) = Some {| isolator_dummy := 0; pb_partition_count := n |}.
Proof.
  intros Hn. unfold decode_isolator. rewrite decode_encoded by by apply varint_field_ok.
  unfold varint_field. by destruct (N.eqb_spec n 0) as [->|].
Qed.

(** What the other side makes of a node over the inputs [cs] that it has received. *)
Definition received_over (p : Plan) (cs : list Plan) : res DataFusionError Plan :=
  match p, cs with
  | DFRayStageReaderExec _ _ _, _ => Ok p
  | PartitionIsolatorExec _ _ n, [c] => Ok (isolator_new c n)
  | MaxRowsExec _ 0, [c] => Ok (isolator_new c 0)
  | MaxRowsExec _ n, [c] => Ok (MaxRowsExec c n)
  | PrefetchExec _ n _, [c] => Ok (isolator_new c n)
  | _, _ => Err (Internal "")
  end.

Lemma codec_carries p registry cs :
  built p -> length cs = length (children p) ->
  exists buf, try_encode p [] = Ok buf /\ try_decode buf cs registry = received_over p cs.
Proof.
  intros Hp Hlen. destruct Hp as [part s id r [= <-] Hid [pb Hpb]|c n Hn|c n Hn|c n p Hp Hn].
  - cbn [try_encode received_over]. rewrite Hpb, partitioning_new. cbn [mbind res_bind].
    destruct (unknown_partitioning_pb (partitioning_count part)) as (pp & -> & Hpp).
    eexists. split; [done|]. unfold reader_fields, message_field. cbn [reader_schema reader_partitioning reader_stage_id app].
    assert (Forall field_ok ((1, Len (encode_schema pb)) :: (2, Len (encode_partitioning pp)) :: varint_field 3 id)) as Hfs.
    { repeat constructor; [apply encode_schema_length|apply encode_partitioning_length|].
      by apply varint_field_ok. }
    unfold try_decode. rewrite not_isolator by done. unfold decode_reader.
    rewrite decode_encoded by done. cbn [foldl mbind option_bind merge_reader reader_schema].
    rewrite merge_encoded_schema. cbn [mbind option_bind reader_partitioning reader_schema reader_stage_id].
    rewrite merge_encoded_partitioning. cbn [mbind option_bind reader_partitioning reader_schema reader_stage_id].
    unfold varint_field. destruct (N.eqb_spec id 0) as [->|];
      cbn [foldl mbind option_bind merge_reader reader_schema reader_partitioning reader_stage_id ok_or res_bind];
      rewrite (schema_pb _ _ Hpb); cbn [mbind res_bind]; rewrite Hpp; cbn;
      unfold stage_reader_try_new; by rewrite partitioning_count_unknown.
  - destruct cs as [|c' [|]]; try done. eexists. split; [done|]. unfold try_decode. cbn. by rewrite varint_2_is_isolator.
  - destruct cs as [|c' [|]]; try done. eexists. split; [done|]. unfold try_decode, max_rows_fields. cbn [app pb_max_rows received_over].
    assert (Forall field_ok (varint_field 1 n)) as Hfs by by apply varint_field_ok.
    unfold varint_field in *. destruct (N.eqb_spec n 0) as [->|Hn0].
    + unfold decode_isolator. by rewrite decode_encoded.
    + rewrite not_isolator by done. unfold decode_reader, decode_max_rows.
      rewrite !decode_encoded by done. cbn. by destruct n.
  - unfold prefetch_new in Hp. destruct (children c) as [|child [|]]; try done. injection Hp as <-.
    destruct cs as [|c' [|]]; try done. eexists. split; [done|]. unfold try_decode. cbn. by rewrite varint_2_is_isolator.
Qed.

(** A plan node that is encoded is decoded to the same node over the same inputs when it is
    a stage reader, a partition isolator or a limit of at least one row.  A prefetch, and a limit
    of no rows, come back as a partition isolator: their messages have no field that tells them
    apart from one, and the isolator is tried first. *)
Theorem codec_round_trip p registry :
  built p ->
  exists buf, try_encode p [] = Ok buf /\ try_decode buf (children p) registry = Ok (received p).
Proof.
  intros Hp. destruct (codec_carries p registry (children p) Hp eq_refl) as (buf & He & Hd).
  exists buf. split; [done|]. rewrite Hd. clear Hd He.
  destruct Hp as [part s id r [= <-]|c n|c [|n]|c n p Hp]; try done.
  unfold prefetch_new in Hp. destruct (children c) as [|? [|]]; try done. by injection Hp as <-.
Qed.
End round_trip.

(** ** A concrete wire

    The protobuf encoding of fields: the key is the tag times 8 plus the wire type, integers are
    varints in groups of 7 bits, low groups first. *)
Module ProtobufWire.

Fixpoint put_varint (fuel : nat) (n : N) : Bytes :=
  match fuel with
  | O => [n]
  | S fuel => if n <? 128 then [n] else (n mod 128 + 128) :: put_varint fuel (n / 128)
  end.
Fixpoint get_varint (bs : Bytes) : option (N * Bytes) :=
  match bs with
  | [] => None
  | b :: bs => if b <? 128 then Some (b, bs) else
      '(n, bs) ← get_varint bs; Some (b - 128 + 128 * n, bs)
  end.

Fixpoint put_le (k : nat) (n : N) : Bytes :=
  match k with O => [] | S k => n mod 256 :: put_le k (n / 256) end.
Fixpoint get_le (bs : Bytes) : N :=
  match bs with [] => 0 | b :: bs => b + 256 * get_le bs end.

Definition varint := put_varint 9.
Definition put_field (f : N * Wire) : Bytes :=
  match f.2 with
  | Varint n => varint (f.1 * 8) ++ varint n
  | Len bs => varint (f.1 * 8 + 2) ++ varint (N.of_nat (length bs)) ++ bs
  | I32 b => varint (f.1 * 8 + 5) ++ put_le 4 b
  end.
Definition get_field (bs : Bytes) : option ((N * Wire) * Bytes) :=
  '(key, bs) ← get_varint bs;
  match key mod 8 with
  | 0 => '(n, bs) ← get_varint bs; Some ((key / 8, Varint n), bs)
  | 2 => '(n, bs) ← get_varint bs;
      if N.of_nat (length bs) <? n then None
      else Some ((key / 8, Len (take (N.to_nat n) bs)), drop (N.to_nat n) bs)
  | 5 => if (length bs <? 4)%nat then None
      else Some ((key / 8, I32 (get_le (take 4 bs))), drop 4 bs)
  | _ => None
  end.

Fixpoint get_fields (fuel : nat) (bs : Bytes) : option Fields :=
  match bs with
  | [] => Some []
  | _ => match fuel with
    | O => None
    | S fuel => '(f, bs) ← get_field bs; fs ← get_fields fuel bs; Some (f :: fs)
    end
  end.

#[export] Instance protobuf : Protobuf := {|
  encode_fields fs := concat (List.map put_field fs);
  decode_fields bs := get_fields (length bs) bs;
|}.

(** Arithmetic with one quotient and its remainder. *)
Local Ltac quotient n d :=
  pose proof (N.div_mod n d ltac:(done));
  generalize dependent (n / d); generalize dependent (n mod d); intros; lia.

Lemma get_put_varint fuel n rest :
  n < 128 ^ N.of_nat (S fuel) -> get_varint (put_varint fuel n ++ rest) = Some (n, rest).
Proof.
  revert n. induction fuel as [|fuel IH]; intros n Hn; cbn [put_varint].
  { change (128 ^ N.of_nat 1) with 128 in Hn. cbn. by apply N.ltb_lt in Hn as ->. }
  destruct (N.ltb_spec n 128); cbn [app get_varint]; [by destruct (N.ltb_spec n 128); [|lia]|].
  destruct (N.ltb_spec (n mod 128 + 128) 128); [clear IH; quotient n 128|].
  rewrite IH.
  - cbn. do 2 f_equal. clear IH. quotient n 128.
  - apply N.Div0.div_lt_upper_bound. by rewrite <- N.pow_succ_r', <- Nat2N.inj_succ.
Qed.

Lemma get_varint_fits n rest : n < u64_modulus -> get_varint (varint n ++ rest) = Some (n, rest).
Proof. intros Hn. apply get_put_varint. eapply N.lt_le_trans; [done|]. by vm_compute. Qed.

Lemma get_put_le k n : n < 256 ^ N.of_nat k -> get_le (put_le k n) = n.
Proof.
  revert n. induction k as [|k IH]; intros n Hn; cbn [put_le get_le].
  { change (256 ^ N.of_nat 0) with 1 in Hn. lia. }
  rewrite IH; [clear IH; quotient n 256|].
  apply N.Div0.div_lt_upper_bound. by rewrite <- N.pow_succ_r', <- Nat2N.inj_succ.
Qed.

Lemma put_le_length k n : length (put_le k n) = k.
Proof. revert n. induction k as [|k IH]; intros n; cbn; auto. Qed.

Lemma key_div_mod t w : w < 8 -> (t * 8 + w) / 8 = t /\ (t * 8 + w) mod 8 = w.
Proof.
  intros Hw. rewrite N.div_add_l, N.div_small, N.add_0_r by done.
  by rewrite N.add_comm, N.Div0.mod_add, N.mod_small.
Qed.

Lemma get_put_field f rest : field_ok f -> get_field (put_field f ++ rest) = Some (f, rest).
Proof.
  destruct f as [t w]. intros [Ht Hw]. cbn [fst snd] in *. unfold get_field, put_field, fits in *.
  assert (forall x, x < 8 -> t * 8 + x < u64_modulus) as Hkey.
  { intros x Hx. unfold u64_modulus. change (2 ^ 29) with 536870912 in Ht. lia. }
  destruct w as [n|b|bs]; cbn [snd fst]; rewrite <- ?app_assoc.
  - rewrite <- (N.add_0_r (t * 8)), get_varint_fits by (by apply Hkey).
    cbn [mbind option_bind].
    destruct (key_div_mod t 0) as [E ->]; [done|]. rewrite E, get_varint_fits by done. done.
  - rewrite get_varint_fits by (by apply Hkey). cbn [mbind option_bind].
    destruct (key_div_mod t 5) as [E ->]; [done|]. rewrite E, length_app, put_le_length.
    rewrite take_app_length', drop_app_length' by (by rewrite put_le_length).
    by rewrite get_put_le.
  - rewrite get_varint_fits by (by apply Hkey). cbn [mbind option_bind].
    destruct (key_div_mod t 2) as [E ->]; [done|]. rewrite E, get_varint_fits by (unfold u64_modulus; lia).
    cbn [mbind option_bind]. rewrite length_app. destruct (N.ltb_spec (N.of_nat (length bs + length rest)) (N.of_nat (length bs))); [lia|].
    by rewrite take_app_length', drop_app_length' by lia.
Qed.

Lemma put_field_nonempty f : (0 < length (put_field f))%nat.
Proof.
  assert (forall n, (0 < length (varint n))%nat) as Hv
    by (intros n; unfold varint; cbn [put_varint]; destruct (n <? 128); cbn; lia).
  unfold put_field. destruct f.2; rewrite !length_app; match goal with
    | |- context [length (varint ?n)] => pose proof (Hv n) end; lia.
Qed.

Lemma get_fields_put fs fuel :
  Forall field_ok fs -> (length (concat (List.map put_field fs)) <= fuel)%nat ->
  get_fields fuel (concat (List.map put_field fs)) = Some fs.
Proof.
  intros Hfs. revert fuel. induction Hfs as [|f fs Hf _ IH]; intros fuel Hfuel; [by destruct fuel|].
  cbn in Hfuel |- *. rewrite length_app in Hfuel. pose proof (put_field_nonempty f).
  destruct fuel as [|fuel]; [lia|].
  destruct (put_field f ++ concat (List.map put_field fs)) as [|b bs] eqn:E.
  { apply (f_equal length) in E. rewrite length_app in E. cbn in E. lia. }
  cbn [get_fields]. rewrite <- E, get_put_field by done. cbn. rewrite IH by lia. done.
Qed.

#[export] Instance protobuf_laws : ProtobufLaws.
Proof. intros fs Hfs. by apply get_fields_put. Qed.
End ProtobufWire.

(** A DataFusion with numbers for its data. *)
Module NumberedPlans.
#[export] Instance data_fusion : DataFusion := {|
  Schema := N; Partitioning := N; partitioning_count p := p; UnknownPartitioning n := n;
  PlanProperties := N * N; partitioning := snd; with_partitioning p props := (props.1, p);
  properties_new s p := (s, p); Node := N * nat; node_properties n := (n.1, 1);
|}.
#[export] Instance data_fusion_proto : DataFusionProto := {|
  PbSchema := N; PbPartitioning := N; schema_to_pb := Ok; schema_of_pb := Ok;
  serialize_partitioning := Ok; FunctionRegistry := unit;
  parse_protobuf_partitioning p _ _ := Ok p;
  encode_schema n := [n]; merge_schema _ bs := head bs;
  encode_partitioning n := [n]; merge_partitioning _ bs := head bs;
|}.
#[export] Instance data_fusion_proto_laws : DataFusionProtoLaws.
Proof. constructor; try done; cbn; try naive_solver. Qed.

Definition arity (node : Node) : nat := node.2.
Definition with_children (k : NodeKind) (node : Node) (cs : list Plan) : res DataFusionError Node :=
  if (length cs =? arity node)%nat then Ok node else Err (Internal "Wrong number of children").
Definition reader : Plan := DFRayStageReaderExec (7, 2) 7 5.
Definition registry : FunctionRegistry := tt.
Definition leaf : Plan := NodeExec OtherExec (1, 0%nat) [].
Definition repartition : Plan := NodeExec RepartitionExec (2, 1%nat) [leaf].
Definition two_repartitions : Plan := NodeExec RepartitionExec (3, 1%nat) [MaxRowsExec repartition 10].
End NumberedPlans.

Section witnesses.
Import ProtobufWire NumberedPlans.

(** A reader is sent as 8 bytes and comes back; a prefetch comes back as an isolator. *)
Lemma codec_round_trip_witness :
  try_encode reader [] = Ok [10; 1; 7; 18; 1; 2; 24; 5] /\
  try_decode [10; 1; 7; 18; 1; 2; 24; 5] [] registry = Ok reader /\
  exists prefetch, prefetch_new repartition 4 = Ok prefetch /\
    try_encode prefetch [] = Ok [16; 4] /\
    try_decode [16; 4] [repartition] registry = Ok (isolator_new repartition 4).
Proof.
  split; [by vm_compute|]. split.
  { destruct (codec_round_trip reader registry) as (buf & E & D).
    - apply (built_reader (2 : NumberedPlans.data_fusion.(Partitioning)) (7 : NumberedPlans.data_fusion.(Schema)) 5);
        [done|done|by eexists].
    - vm_compute in E. injection E as <-. exact D. }
  eexists. split; [done|]. split; [by vm_compute|].
  destruct (codec_round_trip (PrefetchExec repartition 4 (1, 1)) registry) as (buf & E & D).
  - by apply (built_prefetch repartition 4).
  - vm_compute in E. injection E as <-. exact D.
Defined.

(** Two repartitions, one over the other: three stages. *)
Lemma optimize_marks_stages_witness :
  exists input props, optimize with_children two_repartitions = Ok (DFRayStageExec input props 2) /\
    marked false (DFRayStageExec input props 2) = true /\
    stages (DFRayStageExec input props 2) = [0; 1; 2].
Proof.
  destruct (optimize_marks_stages arity with_children) with (plan := two_repartitions) as (input & props & E & _ & M & S).
  - intros k node cs Hlen. exists node. unfold with_children. by rewrite Hlen, Nat.eqb_refl.
  - reflexivity.
  - exists input, props. split; [exact E|]. split; [exact M|exact S].
Defined.
End witnesses.
