(* ===== verification/Processor.v ===== *)
(** * The batch processor (../processor_service.rs, ../stage_reader.rs, ../pre_fetch.rs, ../util.rs)

    A processor hosts the plan of one stage.  Given a plan it connects to the processors of the
    stages that the plan reads, once per address, and registers the object stores of its scans
    ([configure_ctx]); asked for a partition it runs the plan ([get_stream]); a stage reader in the
    plan asks every processor that has its partition and merges what they send.  [PrefetchExec] is a bounded channel between a task that
    runs its input and the stream it returns.  Paths are relative to src/src/streaming/. *)

From S2P Require Import Prelude Stream BatchStreams Plans Codec.

Section processor.
Context `{Protobuf} `{DataFusion}.
Context {Batch : Type}.

Abbreviation BatchStream := (list (option (res DataFusionError Batch))).

(** A client: the address it was made for, and which of the connections of the process it is.
    Cloning a client keeps its connection. *)
Record FlightClient := mkClient { client_addr : string; connection : nat }.
#[global] Instance client_eq_dec : EqDecision FlightClient.
Proof. solve_decision. Defined.

(** The addresses of the connections made so far, and whether the next one to an address can be
    made. *)
Abbreviation Net := (list string).
Context (dial : Net -> string -> option DataFusionError).

Definition make_client (exchange_addr : string) : act Net DataFusionError FlightClient := fun net =>
  match dial net exchange_addr with
  | Some e => (net, Err e)
  | None => (net ++ [exchange_addr], Ok (mkClient exchange_addr (length net)))
  end.

(** ** Object stores (util.rs) *)

Record Url := mkUrl { scheme : string; host_str : option string; port : option N }.
Inductive ObjectStore := AmazonS3 (bucket : string) | GoogleCloudStorage (bucket : string)
  | HttpStore (scheme host : string) | LocalFileSystem.

(** The stores of a session, by scheme, host and port: the key that DataFusion looks a URL up
    with. *)
Abbreviation StoreKey := (string * option string * option N)%type.
Abbreviation Stores := (gmap StoreKey ObjectStore).
Definition key_of (url : Url) : StoreKey := (scheme url, host_str url, port url).

(** [build()] of the store builders: [None] when it succeeds. *)
Context (build : ObjectStore -> option DataFusionError).

(** [ctx.register_object_store(url, store)], after [build()?] *)
Definition register_object_store (url : Url) (store : ObjectStore) : act Stores DataFusionError () := fun stores =>
  match build store with
  | None => (<[key_of url := store]> stores, Ok ())
  | Some e => (stores, Err e)
  end.

Definition maybe_register_object_store (url : Url) : act Stores DataFusionError () :=
  let with_host (f : string -> act Stores DataFusionError ()) : act Stores DataFusionError () :=
    host ← (lift (ok_or (Internal ("missing bucket or host name in " +:+ scheme url +:+ ":// url"))
      (host_str url)) : act Stores DataFusionError string);
    f host in
  if String.eqb (scheme url) "s3" then
    with_host (fun bucket => register_object_store (mkUrl "s3" (Some bucket) None) (AmazonS3 bucket))
  else if String.eqb (scheme url) "gs" || String.eqb (scheme url) "gcs" then
    with_host (fun bucket => register_object_store (mkUrl "gs" (Some bucket) None) (GoogleCloudStorage bucket))
  else if String.eqb (scheme url) "http" || String.eqb (scheme url) "https" then
    with_host (fun host => register_object_store (mkUrl (scheme url) (Some host) None) (HttpStore (scheme url) host))
  else fun stores => (<[key_of (mkUrl "file" None None) := LocalFileSystem]> stores, Ok ()).

(** The [object_store_url] of a Parquet, CSV, JSON, Avro or Arrow scan. *)
Context (file_scan : Node -> option Url).

Definition scan_url (p : Plan) : option Url :=
  match p with NodeExec _ node _ => file_scan node | _ => None end.

(** The closure [check_plan]: looks at the inputs of a node. *)
Definition check_plan (p : Plan) : act Stores DataFusionError () :=
  for_each (fun input => match scan_url input with
    | Some url => maybe_register_object_store url
    | None => mret tt
    end) (children p).

(** [transform_down(check_plan)] *)
Fixpoint register_object_store_for_paths_in_plan (p : Plan) : act Stores DataFusionError () :=
  let fix go (cs : list Plan) : act Stores DataFusionError () :=
    match cs with
    | [] => mret tt
    | c :: cs => register_object_store_for_paths_in_plan c;; go cs
    end in
  check_plan p;;
  match p with
  | DFRayStageExec c _ _ | PartitionIsolatorExec c _ _ | MaxRowsExec c _ | PrefetchExec c _ _ =>
      register_object_store_for_paths_in_plan c
  | DFRayStageReaderExec _ _ _ => mret tt
  | NodeExec _ _ cs => go cs
  end.

(** A new session knows the local file system. *)
Definition default_stores : Stores := {[key_of (mkUrl "file" None None) := LocalFileSystem]}.

(** ** Configuring a context *)

Abbreviation StageAddrs := (gmap N (gmap N (list string))).
Abbreviation ClientMap := (gmap (N * N) (list FlightClient)).

(** A session: the extensions [ServiceClients] and [PartitionGroup], and its object stores. *)
Record Ctx := mkCtx { service_clients : ClientMap; ctx_partition_group : option (list N); object_stores : Stores }.

(** The order in which a HashMap is iterated. *)
Context (iter_order : gmap N (list string) -> list (N * list string)).

Abbreviation Clients := (gmap string FlightClient).

(** The client for an address: a clone of the one there is, or a new one. *)
Definition client_entry (addr : string) (clients : Clients)
    : act Net DataFusionError (FlightClient * Clients) :=
  match clients !! addr with
  | Some c => mret (c, clients)
  | None => c ← make_client addr; mret (c, <[addr := c]> clients)
  end.

Fixpoint clients_for (addrs : list string) (clients : Clients)
    : act Net DataFusionError (list FlightClient * Clients) :=
  match addrs with
  | [] => mret ([], clients)
  | addr :: addrs =>
      '(c, clients) ← client_entry addr clients;
      '(cs, clients) ← clients_for addrs clients;
      mret (c :: cs, clients)
  end.

Fixpoint add_partitions (stage_id : N) (partition_addrs : list (N * list string))
    (st : ClientMap * Clients) : act Net DataFusionError (ClientMap * Clients) :=
  match partition_addrs with
  | [] => mret st
  | (partition, addrs) :: partition_addrs =>
      '(flight_clients, clients) ← clients_for addrs st.2;
      add_partitions stage_id partition_addrs
        (<[(stage_id, partition) := flight_clients]> st.1, clients)
  end.

Fixpoint add_stages (stage_ids : list N) (stage_addrs : StageAddrs) (st : ClientMap * Clients)
    : act Net DataFusionError (ClientMap * Clients) :=
  match stage_ids with
  | [] => mret st
  | stage_id :: stage_ids =>
      partition_addrs ← (lift (ok_or (Internal ("Cannot find stage addr " +:+ pretty stage_id))
        (stage_addrs !! stage_id)) : act Net DataFusionError (gmap N (list string)));
      st ← add_partitions stage_id (iter_order partition_addrs) st;
      add_stages stage_ids stage_addrs st
  end.

Definition configure_ctx (stage_addrs : StageAddrs) (plan : Plan) (partition_group : list N)
    : act Net DataFusionError Ctx :=
  st ← add_stages (input_stage_ids plan) stage_addrs (∅, ∅);
  let '(stores, registered) := register_object_store_for_paths_in_plan plan default_stores in
  lift registered;;
  mret (mkCtx st.1 (Some partition_group) stores).

(** ** The handler *)

Record DFRayProcessorHandlerInner := mkInner { inner_plan : Plan; inner_ctx : Ctx }.
(** The handler is its [inner]. *)
Abbreviation Handler := (option DFRayProcessorHandlerInner).

(** On an error the old plan stays. *)
Definition update_plan (stage_addrs : StageAddrs) (plan : Plan) (partition_group : list N)
    : act (Handler * Net) DataFusionError () := fun '(inner, net) =>
  match configure_ctx stage_addrs plan partition_group net with
  | (net, Ok ctx) => ((Some (mkInner plan ctx), net), Ok ())
  | (net, Err e) => ((inner, net), Err e)
  | (net, Panic w) => ((inner, net), Panic w)
  end.

(** [ExecutionPlan::execute] of the hosted plan. *)
Context (plan_execute : Plan -> N -> Ctx -> res DataFusionError BatchStream).
Context (show : DataFusionError -> string).

(** [collect_from_stage] (util.rs): runs a plan that reads one partition of one processor. *)
Definition collect_from_stage (stage_id partition : N) (stage_addr : string) (plan : Plan)
    : act Net DataFusionError BatchStream :=
  client ← make_client stage_addr;
  lift (plan_execute plan partition
    (mkCtx {[(stage_id, partition) := [client]]} None default_stores)).

(** A gRPC status: [Status::internal]. *)
Inductive Status := StatusInternal (msg : string).

Definition make_stream (inner : DFRayProcessorHandlerInner) (partition : N) : res Status BatchStream :=
  map_err (fun e => StatusInternal ("Could not get partition stream from plan " +:+ show e))
    (plan_execute (inner_plan inner) partition (inner_ctx inner)).

(** [extract_ticket] (util.rs) *)
Definition extract_ticket (ticket : Bytes) : option N := ticket_partition <$> decode_ticket ticket.

Definition get_stream (name : string) (inner : Handler) (ticket : Bytes) : res Status BatchStream :=
  partition ← ok_or (StatusInternal (name +:+ ", Unexpected error extracting ticket"))
    (extract_ticket ticket);
  inner ← ok_or (StatusInternal (name +:+ " No inner found")) inner;
  make_stream inner partition.

(** ** Reading a stage *)

(** [FlightClient::do_get]: the call, then the decoded stream of batches; both may fail. *)
Context (do_get : FlightClient -> Bytes -> res string (list (option (res string Batch)))).

Definition flight_stream (s : list (option (res string Batch))) : BatchStream :=
  List.map (option_map (map_err (fun e => Internal ("Error consuming flight stream: " +:+ e)))) s.

Definition ticket_for (partition : N) : Bytes :=
  encode_fields (ticket_fields {| ticket_dummy := false; ticket_partition := partition |}).

(** What asking the clients in turn gives: the streams, or the errors that are yielded. *)
Fixpoint get_streams (clients : list FlightClient) (ticket : Bytes)
    : list BatchStream * list (res DataFusionError Batch) :=
  match clients with
  | [] => ([], [])
  | c :: clients =>
      let '(streams, errors) := get_streams clients ticket in
      match do_get c ticket with
      | Ok s => (flight_stream s :: streams, errors)
      | Err e => (streams, Err (Internal ("Error getting flight stream: " +:+ e)) :: errors)
      | Panic w => (streams, Panic w :: errors)
      end
  end.

(** [execute] of a stage reader, and what its stream yields until it ends. *)
Definition stage_reader_execute (ctx : option Ctx) (stage_id partition : N)
    (fuel : nat) (rng : nat -> nat -> nat) : res DataFusionError (option (list (res DataFusionError Batch))) :=
  ctx ← ok_or (Internal "Flight Client not in context") ctx;
  clients ← ok_or (Internal ("No flight clients found for " +:+ pretty stage_id +:+ ":" +:+ pretty partition))
    (service_clients ctx !! (stage_id, partition));
  Ok (match get_streams clients (ticket_for partition) with
      | (streams, []) => drain_combined fuel rng streams
      | (_, errors) => Some errors
      end).
End processor.

(** ** Prefetching *)

Section prefetch.
Context {A : Type}.

(** The items that the task has not read yet, those in the channel, and those yielded. *)
Record Prefetch := mkPrefetch { unread : list A; buffered : list A; yielded : list A }.

(** [execute]: a channel of no items panics. *)
Definition prefetch_execute (buf_size : N) (input : list A) : res DataFusionError Prefetch :=
  if buf_size =? 0 then Panic "mpsc bounded channel requires buffer > 0"
  else Ok (mkPrefetch input [] []).

(** The task sends when there is room, the stream receives when there is an item. *)
Inductive prefetch_step (buf_size : N) : Prefetch -> Prefetch -> Prop :=
  | prefetch_send x unread buffered yielded :
      N.of_nat (length buffered) < buf_size ->
      prefetch_step buf_size (mkPrefetch (x :: unread) buffered yielded)
        (mkPrefetch unread (buffered ++ [x]) yielded)
  | prefetch_recv x unread buffered yielded :
      prefetch_step buf_size (mkPrefetch unread (x :: buffered) yielded)
        (mkPrefetch unread buffered (yielded ++ [x])).
End prefetch.
Arguments Prefetch : clear implicits.

(** ** The clients of a context *)

Section configured.
Context `{Protobuf} `{DataFusion} {Batch : Type}.
Context (dial : list string -> string -> option DataFusionError).
Context (iter_order : gmap N (list string) -> list (N * list string)).
Context (iter_order_perm : forall m, iter_order m ≡ₚ map_to_list m).
Context (build : ObjectStore -> option DataFusionError) (file_scan : Node -> option Url).

Abbreviation Net := (list string).
Abbreviation Clients := (gmap string FlightClient).

(** The clients by address are the connections made since the net was [net0], each address
    once. *)
Definition connected (net0 net : Net) (clients : Clients) : Prop :=
  exists new, net = net0 ++ new /\ NoDup new /\
    forall a c, clients !! a = Some c <->
      client_addr c = a /\ (length net0 <= connection c)%nat /\ net !! connection c = Some a.

Lemma connected_empty net : connected net net ∅.
Proof.
  exists []. rewrite app_nil_r. split; [done|]. split; [constructor|]. intros a c.
  rewrite lookup_empty. split; [done|]. intros (_ & Hc & Hl%lookup_lt_Some). lia.
Qed.

Lemma client_entry_spec net0 net net' a clients c clients' :
  connected net0 net clients ->
  client_entry dial a clients net = (net', Ok (c, clients')) ->
  connected net0 net' clients' /\ clients ⊆ clients' /\ clients' !! a = Some c /\
    dom clients' = dom clients ∪ {[a]}.
Proof.
  intros Hc. unfold client_entry. destruct (clients !! a) as [c0|] eqn:Ha.
  { intros [= <- -> ->]. split; [done|]. split; [done|]. split; [done|].
    apply elem_of_dom_2 in Ha. set_solver. }
  unfold make_client, mbind, act_bind. destruct (dial net a); [done|].
  intros [= <- <- <-]. split; [|split; [|split]].
  - destruct Hc as (new & -> & Hnd & Hc). exists (new ++ [a]). rewrite (assoc_L (++)).
    assert (a ∉ new) as Hnew.
    { intros (i & Hi)%list_elem_of_lookup.
      assert (clients !! a = Some (mkClient a (length net0 + i))) as Hx; [|by rewrite Hx in Ha].
      apply Hc. cbn. split; [done|]. split; [lia|].
      rewrite lookup_app_r by lia. by replace (length net0 + i - length net0)%nat with i by lia. }
    split; [done|]. split.
    { apply NoDup_app. split; [done|]. split; [set_solver|]. apply NoDup_singleton. }
    intros b c. destruct (decide (a = b)) as [<-|Hab].
    + rewrite lookup_insert_eq. split.
      * intros [= <-]. cbn. split; [done|]. rewrite length_app. split; [lia|].
        rewrite <- length_app. by rewrite lookup_app_r, Nat.sub_diag by lia.
      * intros (Hca & Hlen & Hl). destruct c as [ca k]. cbn in *. subst ca.
        apply lookup_app_Some in Hl as [Hl|[Hk Hl]].
        { exfalso. apply Hnew. rewrite lookup_app_r in Hl by done. by eapply list_elem_of_lookup_2. }
        apply list_lookup_singleton_Some in Hl as [Hl _]. do 2 f_equal. lia.
    + rewrite lookup_insert_ne by done. rewrite Hc. split; intros (? & ? & Hl); split_and!; try done.
      * by apply lookup_app_l_Some.
      * apply lookup_app_Some in Hl as [Hl|[Hk Hl]]; [done|].
        by apply list_lookup_singleton_Some in Hl as [_ ?].
  - by apply insert_subseteq.
  - apply lookup_insert_eq.
  - rewrite dom_insert_L. set_solver.
Qed.

(** The clients for a list of addresses, by the clients by address. *)
Definition served (clients : Clients) (addrs : list string) (cs : list FlightClient) : Prop :=
  Forall2 (fun a c => clients !! a = Some c) addrs cs.

Lemma served_mono clients clients' addrs cs :
  clients ⊆ clients' -> served clients addrs cs -> served clients' addrs cs.
Proof. intros Hs Hf. eapply Forall2_impl; [exact Hf|]. intros a c Ha. exact (lookup_weaken _ _ _ _ Ha Hs). Qed.

Lemma clients_for_spec net0 addrs net net' clients cs clients' :
  connected net0 net clients ->
  clients_for dial addrs clients net = (net', Ok (cs, clients')) ->
  connected net0 net' clients' /\ clients ⊆ clients' /\ served clients' addrs cs /\
    dom clients' = dom clients ∪ list_to_set addrs.
Proof.
  revert net clients cs. induction addrs as [|a addrs IH]; intros net clients cs Hc.
  { intros [= <- <- <-]. split_and!; [done|done|constructor|set_solver]. }
  cbn [clients_for]. intros (net1 & [c clients1] & He & Hr)%act_bind_inv.
  destruct (client_entry_spec _ _ _ _ _ _ _ Hc He) as (Hc1 & Hs1 & Ha & Hd1).
  apply act_bind_inv in Hr as (net2 & [cs1 clients2] & He2 & [= <- <- <-]).
  destruct (IH _ _ _ Hc1 He2) as (Hc2 & Hs2 & Hf & Hd2).
  split_and!; [done|by etrans| |set_solver].
  constructor; [by eapply lookup_weaken|done].
Qed.

(** The client map holds the clients of the wanted addresses. *)
Definition tracks (clients : Clients) (want : N * N -> option (list string))
    (m : gmap (N * N) (list FlightClient)) : Prop :=
  forall k, option_Forall2 (served clients) (want k) (m !! k).

Lemma tracks_mono clients clients' want m :
  clients ⊆ clients' -> tracks clients want m -> tracks clients' want m.
Proof.
  intros Hs Ht k. specialize (Ht k). inversion Ht; constructor. by eapply served_mono.
Qed.

Lemma tracks_ext clients want want' m :
  (forall k, want k = want' k) -> tracks clients want m -> tracks clients want' m.
Proof. intros Hw Ht k. rewrite <- Hw. apply Ht. Qed.

Lemma add_partitions_spec net0 stage_id parts want net st net' st' :
  NoDup parts.*1 -> connected net0 net st.2 -> tracks st.2 want st.1 ->
  add_partitions dial stage_id parts st net = (net', Ok st') ->
  connected net0 net' st'.2 /\ st.2 ⊆ st'.2 /\
  tracks st'.2 (fun k => (if decide (k.1 = stage_id) then (list_to_map parts : gmap N (list string)) !! k.2 else None) ∪ want k) st'.1 /\
  dom st'.2 = dom st.2 ∪ list_to_set (concat parts.*2).
Proof.
  revert want net st. induction parts as [|[p addrs] parts IH]; intros want net st Hnd Hc Ht.
  { intros [= <- <-]. split_and!; [done|done| |set_solver].
    eapply tracks_ext; [|exact Ht]. intros k. cbn [list_to_map foldr]. rewrite lookup_empty.
    destruct (decide _); by destruct (want k). }
  cbn [add_partitions]. intros (net1 & [cs clients1] & He & Hr)%act_bind_inv.
  destruct (clients_for_spec _ _ _ _ _ _ _ Hc He) as (Hc1 & Hs1 & Hf & Hd1).
  cbn [fmap list_fmap fst] in Hnd. apply NoDup_cons in Hnd as [Hp Hnd].
  set (want1 := fun k => if decide (k = (stage_id, p)) then Some addrs else want k).
  assert (tracks clients1 want1 (<[(stage_id, p) := cs]> st.1)) as Ht1.
  { intros k. unfold want1. destruct (decide (k = (stage_id, p))) as [->|Hk].
    - rewrite lookup_insert_eq. by constructor.
    - rewrite lookup_insert_ne by done. by eapply tracks_mono. }
  destruct (IH want1 net1 (_, clients1) Hnd Hc1 Ht1 Hr) as (Hc2 & Hs2 & Ht2 & Hd2).
  cbn [snd] in *. split_and!; [done|by etrans| |].
  2:{ rewrite Hd2, Hd1. cbn [fmap list_fmap snd concat]. by rewrite list_to_set_app_L, (assoc_L (∪)). }
  eapply tracks_ext; [|exact Ht2]. intros [id q]. unfold want1. cbn [fst snd list_to_map foldr uncurry].
  destruct (decide (id = stage_id)) as [->|Hid].
  - destruct (decide (q = p)) as [->|Hq].
    + rewrite decide_True, lookup_insert_eq by done.
      rewrite not_elem_of_list_to_map_1 by done. by destruct (want (stage_id, p)).
    + rewrite decide_False, lookup_insert_ne by congruence. done.
  - rewrite decide_False by congruence. done.
Qed.

Lemma iter_order_map m :
  (list_to_map (iter_order m) : gmap N (list string)) = m /\ NoDup (iter_order m).*1.
Proof.
  assert (NoDup (iter_order m).*1) as Hnd
    by (rewrite iter_order_perm; apply NoDup_fst_map_to_list).
  split; [|done]. rewrite <- (list_to_map_to_list m) at 2. by apply list_to_map_proper.
Qed.

(** The addresses that some wanted stage has for some partition. *)
Definition address_of (ids : list N) (stage_addrs : gmap N (gmap N (list string))) (a : string) : Prop :=
  exists id m p addrs, id ∈ ids /\ stage_addrs !! id = Some m /\ m !! p = Some addrs /\ a ∈ addrs.

Lemma address_in_iter_order m a :
  a ∈ concat (iter_order m).*2 <-> exists (p : N) addrs, m !! p = Some addrs /\ a ∈ addrs.
Proof.
  rewrite list_elem_of_In, in_concat. setoid_rewrite <- list_elem_of_In.
  setoid_rewrite list_elem_of_fmap. setoid_rewrite iter_order_perm. split.
  - intros (addrs & ([p addrs'] & -> & Hp%elem_of_map_to_list) & Ha). eauto.
  - intros (p & addrs & Hp%elem_of_map_to_list & Ha). exists addrs. split; [|done]. by exists (p, addrs).
Qed.

Lemma add_stages_spec net0 stage_addrs ids want net st net' st' :
  connected net0 net st.2 -> tracks st.2 want st.1 ->
  add_stages dial iter_order ids stage_addrs st net = (net', Ok st') ->
  connected net0 net' st'.2 /\
  Forall (fun id => is_Some (stage_addrs !! id)) ids /\
  tracks st'.2 (fun k => (if decide (k.1 ∈ ids) then stage_addrs !! k.1 ≫= lookup k.2 else None) ∪ want k) st'.1 /\
  (forall a, a ∈ dom st'.2 <-> a ∈ dom st.2 \/ address_of ids stage_addrs a).
Proof.
  revert want net st. induction ids as [|id ids IH]; intros want net st Hc Ht.
  { intros [= <- <-]. split_and!; [done|constructor| |].
    - eapply tracks_ext; [|exact Ht]. intros k. rewrite decide_False by set_solver. by destruct (want k).
    - intros a. unfold address_of. set_solver. }
  cbn [add_stages]. intros (net1 & m & Hm & Hr)%act_bind_inv. injection Hm as <- Hm.
  apply ok_or_Ok in Hm. apply act_bind_inv in Hr as (net2 & st2 & Hp & Hr).
  destruct (iter_order_map m) as [Hmap Hnd].
  destruct (add_partitions_spec _ _ _ _ _ _ _ _ Hnd Hc Ht Hp) as (Hc2 & Hs2 & Ht2 & Hd2).
  destruct (IH _ _ _ Hc2 Ht2 Hr) as (Hc3 & Hids & Ht3 & Hd3).
  split_and!; [done|constructor; [by eexists|done]| |].
  - eapply tracks_ext; [|exact Ht3]. intros k. cbn beta. rewrite Hmap.
    destruct (decide (k.1 ∈ ids)) as [Hk|Hk].
    + rewrite (decide_True (P := k.1 ∈ id :: ids)) by (apply elem_of_cons; by right). destruct (decide (k.1 = id)) as [Hid|Hid]; [|by destruct (want k)].
      rewrite Hid, Hm. cbn. by destruct (m !! k.2), (want k).
    + destruct (decide (k.1 = id)) as [Hid|Hid].
      * rewrite (decide_True (P := k.1 ∈ id :: ids)) by (apply elem_of_cons; by left). rewrite Hid, Hm. cbn.
        by destruct (m !! k.2), (want k).
      * rewrite (decide_False (P := k.1 ∈ id :: ids)) by (rewrite elem_of_cons; tauto). by destruct (want k).
  - intros a. rewrite Hd3, Hd2, elem_of_union, elem_of_list_to_set, address_in_iter_order.
    unfold address_of. split.
    + intros [[?|(p & addrs & ? & ?)]|(id' & m' & p & addrs & ? & ? & ? & ?)]; [by left|right..].
      * exists id, m, p, addrs. set_solver.
      * exists id', m', p, addrs. set_solver.
    + intros [?|(id' & m' & p & addrs & [->|Hin]%elem_of_cons & Hm' & ? & ?)]; [by do 2 left| |].
      * left. right. exists p, addrs. by simplify_eq.
      * right. by exists id', m', p, addrs.
Qed.

(** ** The object stores of a plan *)

Section registered.
Abbreviation register_plan := (register_object_store_for_paths_in_plan build file_scan).

(** The scans of a plan. *)
Fixpoint scans (p : Plan) : list Url :=
  match p with
  | DFRayStageReaderExec _ _ _ => []
  | DFRayStageExec c _ _ | PartitionIsolatorExec c _ _ | MaxRowsExec c _ | PrefetchExec c _ _ => scans c
  | NodeExec _ node cs => option_list (file_scan node) ++ concat (List.map scans cs)
  end.

(** The key under which the store of a URL is registered: the code drops the port, turns gcs
    into gs, and takes every other URL for one of the local file system. *)
Definition registered_key (url : Url) : string * option string * option N :=
  if bool_decide (scheme url ∈ ["s3"; "http"; "https"]) then (scheme url, host_str url, None)
  else if bool_decide (scheme url ∈ ["gs"; "gcs"]) then ("gs", host_str url, None)
  else ("file", None, None).

(** The store that belongs under a key. *)
Definition store_at (key : string * option string * option N) : ObjectStore :=
  let host := default "" key.1.2 in
  if String.eqb key.1.1 "s3" then AmazonS3 host
  else if String.eqb key.1.1 "gs" then GoogleCloudStorage host
  else if String.eqb key.1.1 "file" then LocalFileSystem
  else HttpStore key.1.1 host.

(** Every store is under the key it belongs to. *)
Definition well_keyed (stores : gmap (string * option string * option N) ObjectStore) : Prop :=
  map_Forall (fun key store => store = store_at key) stores.

(** The URLs that are registered under the key they are looked up with: those with a port are
    not, and gcs:// is registered as gs://. *)
Definition registrable (url : Url) : Prop :=
  port url = None /\
  ((scheme url = "file" /\ host_str url = None) \/ scheme url ∈ ["s3"; "gs"; "http"; "https"]).

Lemma registered_key_found url : registered_key url = key_of url <-> registrable url.
Proof.
  clear.
  destruct url as [sch host prt]. unfold registered_key, registrable, key_of. cbn [scheme host_str port].
  repeat case_bool_decide; split.
  - intros [= <-]. split; [done|]. right. set_solver.
  - by intros [-> _].
  - intros [= <- <-]. split; [done|]. right. set_solver.
  - intros [-> [[-> ->]|Hin]]; [set_solver|]. assert (sch = "gs") as -> by set_solver. done.
  - intros [= <- <- <-]. split; [done|by left].
  - intros [-> [[-> ->]|Hin]]; [done|set_solver].
Qed.

Lemma register_keeps url store stores stores' r :
  register_object_store build url store stores = (stores', r) -> dom stores ⊆ dom stores'.
Proof.
  unfold register_object_store. destruct (build store); intros [= <- _]; [done|]. rewrite dom_insert_L. set_solver.
Qed.

Lemma maybe_register_keeps url stores stores' r :
  maybe_register_object_store build url stores = (stores', r) -> dom stores ⊆ dom stores'.
Proof.
  unfold maybe_register_object_store, mbind, act_bind, lift.
  repeat case_match; try (intros [= <- _]; rewrite ?dom_insert_L; set_solver);
    simplify_eq; apply register_keeps.
Qed.

(** What registering a URL amounts to when it succeeds. *)
Lemma maybe_register_inserts url stores stores' :
  maybe_register_object_store build url stores = (stores', Ok ()) ->
  stores' = <[registered_key url := store_at (registered_key url)]> stores.
Proof.
  clear -build. destruct url as [sch host prt].
  unfold maybe_register_object_store, mbind, act_bind, lift, register_object_store, registered_key.
  cbn [scheme host_str]. intros Hr.
  destruct (String.eqb_spec sch "s3") as [-> |]; [|destruct (String.eqb_spec sch "gs") as [-> |];
    [|destruct (String.eqb_spec sch "gcs") as [-> |]; [|destruct (String.eqb_spec sch "http") as [-> |];
    [|destruct (String.eqb_spec sch "https") as [-> |]]]]]; cbn in Hr;
    try (destruct host as [h|]; cbn in Hr; [|done]; destruct (build _); [done|]; by injection Hr as <-).
  rewrite !bool_decide_false by set_solver. by injection Hr as <-.
Qed.

Lemma maybe_register_registers url stores stores' :
  maybe_register_object_store build url stores = (stores', Ok ()) -> registered_key url ∈ dom stores'.
Proof. intros ->%maybe_register_inserts. rewrite dom_insert_L. set_solver. Qed.

Lemma maybe_register_well_keyed url stores stores' :
  maybe_register_object_store build url stores = (stores', Ok ()) -> well_keyed stores -> well_keyed stores'.
Proof. intros ->%maybe_register_inserts Hw. by apply map_Forall_insert_2. Qed.

(** A scan at the root of a plan is not looked at; a gcs:// URL is registered as gs://, and the
    port of an HTTP URL is dropped, so both are looked up in vain. *)
Lemma root_scan_is_not_registered k node stores : register_plan (NodeExec k node []) stores = (stores, Ok ()).
Proof. done. Qed.
Lemma gcs_is_registered_as_gs bucket :
  build (GoogleCloudStorage bucket) = None ->
  maybe_register_object_store build (mkUrl "gcs" (Some bucket) None) ∅ =
    ({[("gs", Some bucket, None) := GoogleCloudStorage bucket]}, Ok ()).
Proof.
  intros Hb. unfold maybe_register_object_store, mbind, act_bind, lift, register_object_store. cbn. by rewrite Hb.
Qed.
Lemma port_is_dropped host n :
  build (HttpStore "http" host) = None ->
  maybe_register_object_store build (mkUrl "http" (Some host) (Some n)) ∅ =
    ({[("http", Some host, None) := HttpStore "http" host]}, Ok ()).
Proof.
  intros Hb. unfold maybe_register_object_store, mbind, act_bind, lift, register_object_store. cbn. by rewrite Hb.
Qed.

(** What one call registered: it kept the stores and their keys, and has those of the URLs. *)
Definition registers (urls : list Url) (f : act (gmap (string * option string * option N) ObjectStore) DataFusionError ()) : Prop :=
  forall stores stores', f stores = (stores', Ok ()) ->
    dom stores ⊆ dom stores' /\ (well_keyed stores -> well_keyed stores') /\
    forall url, url ∈ urls -> registered_key url ∈ dom stores'.

Lemma registers_seq us vs f g : registers us f -> registers vs g -> registers (us ++ vs) (f;; g).
Proof.
  intros Hf Hg stores stores2 (stores1 & [] & E1 & E2)%act_bind_inv.
  destruct (Hf _ _ E1) as (Hs1 & Hw1 & Hu1). destruct (Hg _ _ E2) as (Hs2 & Hw2 & Hu2).
  split; [by etrans|]. split; [auto|]. intros url [Hin|Hin]%elem_of_app; [apply Hs2|]; eauto.
Qed.

Lemma registers_none : registers [] (mret tt).
Proof. intros stores stores' [= <-]. split; [done|]. split; [done|]. intros url Hin. by apply not_elem_of_nil in Hin. Qed.

Lemma registers_url (u : option Url) :
  registers (option_list u) (match u with Some url => maybe_register_object_store build url | None => mret tt end).
Proof.
  destruct u as [url|]; [|apply registers_none]. intros stores stores' E.
  split; [by eapply maybe_register_keeps|]. split; [by eapply maybe_register_well_keyed|].
  intros url' ->%list_elem_of_singleton.
  by eapply maybe_register_registers.
Qed.

Lemma check_plan_registers (p : Plan) :
  registers (concat (List.map (fun c => option_list (scan_url file_scan c)) (children p)))
    (check_plan build file_scan p).
Proof.
  unfold check_plan. induction (children p) as [|c cs IH]; [apply registers_none|].
  cbn [for_each List.map concat]. apply registers_seq; [apply registers_url|exact IH].
Qed.

Lemma scans_split (p : Plan) : scans p = option_list (scan_url file_scan p) ++ concat (List.map scans (children p)).
Proof. destruct p; cbn; by rewrite ?app_nil_r. Qed.

(** Every scan but one at the root has its store registered. *)
Lemma plan_registers (p : Plan) : registers (concat (List.map scans (children p))) (register_plan p).
Proof.
  assert (forall cs f, registers (concat (List.map (fun c => option_list (scan_url file_scan c)) cs)) f ->
    forall g, registers (concat (List.map (fun p => concat (List.map scans (children p))) cs)) g ->
    registers (concat (List.map scans cs)) (f;; g)) as Hboth.
  { intros cs f Hf g Hg stores stores' E.
    destruct (registers_seq _ _ _ _ Hf Hg _ _ E) as (Hs & Hw & Hu). split; [done|]. split; [done|].
    intros url Hin. apply Hu. rewrite elem_of_app.
    rewrite list_elem_of_In, in_concat in Hin. destruct Hin as (l & (c & <- & Hc)%in_map_iff & Hl).
    rewrite scans_split in Hl. apply in_app_iff in Hl as [Hl|Hl]; [left|right];
      rewrite list_elem_of_In, in_concat; eexists; (split; [|exact Hl]); apply in_map_iff; by eexists. }
  induction p as [c props id IH|props s id|c props n IH|c n IH|c n props IH|k node cs IH] using plan_ind';
    cbn [register_object_store_for_paths_in_plan].
  1,3,4,5: apply Hboth; [apply check_plan_registers|];
    cbn [List.map concat children]; by rewrite app_nil_r.
  - apply Hboth; [apply check_plan_registers|apply registers_none].
  - apply Hboth; [apply check_plan_registers|]. cbn [children].
    induction IH as [|c cs Hc _ IHcs]; [apply registers_none|].
    cbn [List.map concat]. by apply registers_seq.
Qed.
End registered.

(** ** Nothing fails when every connection can be made *)

Section reachable.
Context (Hdial : forall net a, dial net a = None).

Lemma client_entry_total a clients net : exists net' r, client_entry dial a clients net = (net', Ok r).
Proof.
  unfold client_entry. destruct (clients !! a); [by eexists _, _|].
  unfold make_client, mbind, act_bind. rewrite Hdial. by eexists _, _.
Qed.

Lemma clients_for_total addrs clients net : exists net' r, clients_for dial addrs clients net = (net', Ok r).
Proof.
  revert clients net. induction addrs as [|a addrs IH]; intros clients net; [by eexists _, _|].
  cbn [clients_for]. unfold mbind, act_bind.
  destruct (client_entry_total a clients net) as (net1 & [c clients1] & ->).
  destruct (IH clients1 net1) as (net2 & [cs clients2] & ->). by eexists _, _.
Qed.

Lemma add_partitions_total id parts st net :
  exists net' r, add_partitions dial id parts st net = (net', Ok r).
Proof.
  revert st net. induction parts as [|[p addrs] parts IH]; intros st net; [by eexists _, _|].
  cbn [add_partitions]. unfold mbind, act_bind.
  destruct (clients_for_total addrs st.2 net) as (net1 & [cs clients] & ->). apply IH.
Qed.

Lemma add_stages_total stage_addrs ids st net :
  Forall (fun id => is_Some (stage_addrs !! id)) ids ->
  exists net' r, add_stages dial iter_order ids stage_addrs st net = (net', Ok r).
Proof.
  intros Hids. revert st net. induction Hids as [|id ids [m Hm] _ IH]; intros st net; [by eexists _, _|].
  cbn [add_stages]. unfold mbind, act_bind, lift. rewrite Hm. cbn [ok_or].
  destruct (add_partitions_total id (iter_order m) st net) as (net1 & st1 & ->). apply IH.
Qed.

Lemma configure_ctx_total stage_addrs plan partition_group net :
  (register_object_store_for_paths_in_plan build file_scan plan default_stores).2 = Ok () ->
  Forall (fun id => is_Some (stage_addrs !! id)) (input_stage_ids plan) ->
  exists net' ctx, configure_ctx dial build file_scan iter_order stage_addrs plan partition_group net = (net', Ok ctx).
Proof.
  intros Hreg Hids. destruct (add_stages_total stage_addrs _ (∅, ∅) net Hids) as (net' & st & E).
  destruct (register_object_store_for_paths_in_plan build file_scan plan default_stores) as [stores registered] eqn:Es.
  cbn in Hreg. subst registered. eexists _, _. unfold configure_ctx. erewrite act_bind_Ok by exact E. by rewrite Es.
Qed.

(** ** What a stage reader reads *)

Context (do_get : FlightClient -> Bytes -> res string (list (option (res string Batch)))).

Lemma get_streams_ok cs ticket ss :
  Forall2 (fun c s => do_get c ticket = Ok s) cs ss ->
  get_streams do_get cs ticket = (List.map flight_stream ss, []).
Proof. induction 1 as [|c s cs ss Hc _ IH]; [done|]. cbn. by rewrite IH, Hc. Qed.

End reachable.
End configured.

(** ** Serving a partition *)

Section served_partition.
Context `{ProtobufLaws} `{DataFusion} {Batch : Type}.

Lemma extract_ticket_for partition : fits partition -> extract_ticket (ticket_for partition) = Some partition.
Proof.
  intros Hp. unfold extract_ticket, ticket_for, decode_ticket.
  assert (Forall field_ok (varint_field 2 partition)) by (apply varint_field_ok; done).
  rewrite decode_encoded by done. cbn. unfold varint_field.
  by destruct (N.eqb_spec partition 0) as [->|].
Qed.

(** A processor whose plan was set runs it for the partition that a stage reader asks for. *)
Lemma get_stream_runs_plan dial build file_scan order plan_execute show stage_addrs plan pg net handler net' handler' name p :
  fits p ->
  update_plan dial build file_scan order stage_addrs plan pg (handler, net) = ((handler', net'), Ok ()) ->
  exists ctx, configure_ctx dial build file_scan order stage_addrs plan pg net = (net', Ok ctx) /\
    get_stream plan_execute show name handler' (ticket_for p) =
    map_err (fun e => StatusInternal ("Could not get partition stream from plan " +:+ show e))
      (plan_execute plan p ctx : res DataFusionError (list (option (res DataFusionError Batch)))).
Proof.
  intros Hp. unfold update_plan. destruct (configure_ctx _ _ _ _ _ _ _ _) as [net1 [ctx|e|w]]; [|done..].
  intros [= <- <-]. exists ctx. split; [done|]. unfold get_stream. by rewrite extract_ticket_for.
Qed.

(** A plan that cannot be configured leaves the old one in place. *)
Lemma failed_update_keeps_plan dial build file_scan order stage_addrs plan pg net handler s r :
  update_plan dial build file_scan order stage_addrs plan pg (handler, net) = (s, r) ->
  r <> Ok () -> s.1 = handler.
Proof.
  unfold update_plan. destruct (configure_ctx _ _ _ _ _ _ _ _) as [net1 [ctx|e|w]]; by intros [= <- <-].
Qed.
End served_partition.

(** ** The prefetched stream *)

Section prefetched.
Context {A : Type} (buf_size : N) (Hbuf : 0 < buf_size).

Definition prefetch_inv (input : list A) (s : Prefetch A) : Prop :=
  yielded s ++ buffered s ++ unread s = input /\ N.of_nat (length (buffered s)) <= buf_size.

Lemma prefetch_step_inv input s s' :
  prefetch_inv input s -> prefetch_step buf_size s s' -> prefetch_inv input s'.
Proof.
  intros [Hi Hb] Hs. destruct Hs as [x u b y Hlt|x u b y]; split; cbn in *.
  - by rewrite <- app_assoc.
  - rewrite length_app. cbn. lia.
  - by rewrite <- app_assoc.
  - lia.
Qed.

(** Every step moves one item one place on. *)
Definition moves_left (s : Prefetch A) : nat := 2 * length (unread s) + length (buffered s).

Lemma prefetch_step_moves s s' : prefetch_step buf_size s s' -> (moves_left s' < moves_left s)%nat.
Proof. intros []; unfold moves_left; cbn; rewrite ?length_app; cbn; lia. Qed.

Lemma prefetch_stuck (s : Prefetch A) : (forall s', ~ prefetch_step buf_size s s') -> buffered s = [] /\ unread s = [].
Proof.
  destruct s as [u [|x b] y]; intros Hs; cbn.
  - destruct u as [|x u]; [done|]. exfalso. eapply Hs. by constructor.
  - exfalso. eapply Hs. constructor.
Qed.

(** A prefetched stream yields its input.  In every interleaving of the task that fills the
    channel with the stream that empties it, the channel never holds more than its size and what
    was yielded is a prefix of the input; at most twice as many steps as there are items are
    possible, and when none is left the whole input was yielded. *)
Theorem prefetch_delivers (input : list A) s0 n s :
  prefetch_execute buf_size input = Ok s0 ->
  nsteps (prefetch_step buf_size) n s0 s ->
  N.of_nat (length (buffered s)) <= buf_size /\ yielded s `prefix_of` input /\
  (n <= 2 * length input)%nat /\
  ((forall s', ~ prefetch_step buf_size s s') -> yielded s = input).
Proof.
  unfold prefetch_execute. destruct (N.eqb_spec buf_size 0); [lia|]. intros [= <-] Hn.
  assert (prefetch_inv input s /\ (n + moves_left s <= 2 * length input)%nat) as [[Hi Hb] Hm].
  { remember (mkPrefetch input [] []) as s0 eqn:E.
    assert (prefetch_inv input s0 /\ (moves_left s0 <= 2 * length input)%nat) as [Hi0 Hm0].
    { subst s0. unfold prefetch_inv, moves_left. cbn. split; [split; [done|lia]|lia]. }
    clear E. revert Hi0 Hm0. generalize (2 * length input)%nat as k.
    induction Hn as [|n s0 s1 s Hs _ IH]; intros k Hi0 Hk; [done|].
    destruct (IH (moves_left s1)) as [Hi Hm]; [by eapply prefetch_step_inv|done|].
    apply prefetch_step_moves in Hs. split; [done|lia]. }
  split_and!; [done|by exists (buffered s ++ unread s)|lia|].
  intros Hs. destruct (prefetch_stuck s Hs) as [Eb Eu]. rewrite Eb, Eu, app_nil_r in Hi. exact Hi.
Qed.
End prefetched.

(** ** Witnesses *)

Section witnesses.
Import ProtobufWire NumberedPlans.

(** Three processors; the plan reads stage 5, whose partition 0 two of them have. *)
Definition example_addrs : gmap N (gmap N (list string)) :=
  {[5 := {[0 := ["a"; "b"]; 1 := ["b"; "c"]]}]}.
Definition example_get (c : FlightClient) (ticket : Bytes) : res string (list (option (res string N))) :=
  Ok [None; Some (Ok (if String.eqb (client_addr c) "a" then 1 else 2))].

(** Leaves scan a bucket. *)
Definition example_scan (node : Node) : option Url :=
  if Nat.eqb node.2 0 then Some (mkUrl "s3" (Some "bucket") None) else None.
Definition example_plan : Plan := NodeExec OtherExec (1, 2%nat) [MaxRowsExec reader 10; leaf].


Lemma prefetch_delivers_witness :
  exists s : Prefetch N, prefetch_execute 1 [7; 8] = Ok (mkPrefetch [7; 8] [] []) /\
    yielded s = [7] /\ [7] `prefix_of` [7; 8].
Proof.
  exists (mkPrefetch [8] [] [7]). split; [done|]. split; [done|].
  destruct (prefetch_delivers 1 ltac:(done) [7; 8] (mkPrefetch [7; 8] [] []) 2 (mkPrefetch [8] [] [7]))
    as (_ & Hp & _); [done| |exact Hp].
  eapply nsteps_l; [by apply prefetch_send|]. eapply nsteps_l; [apply prefetch_recv|constructor].
Defined.
End witnesses.
