(* ===== verification/BatchService.v ===== *)
(** * The service of a batch processor (../processor_service.rs, ../flight.rs, ../util.rs, ../context.rs)

    A [DFRayProcessorService] is driven from Python: it binds a listener ([start_up]), is given
    the bytes of a plan ([update_plan]), answers the calls of the Flight service ([serve]) and
    stops when it is told that all is done.  The file also has how a whole plan becomes bytes and
    comes back, and the session of the Python module.  Paths are relative to src/src/streaming/. *)

From stdpp Require Import relations.
From S2P Require Import Prelude Stream BatchStreams Plans Codec Processor.

(** ** Plans as bytes (util.rs) *)

Section plan_bytes.
Context `{Protobuf} `{DataFusionProto}.

(** A [PhysicalExtensionCodec]: how it writes and reads a node that DataFusion does not know. *)
Record ExtensionCodec := mkCodec {
  codec_encode : Plan -> Bytes -> res DataFusionError Bytes;
  codec_decode : Bytes -> list Plan -> FunctionRegistry -> res DataFusionError Plan;
}.

Definition RayCodec : ExtensionCodec := mkCodec try_encode try_decode.

(** What is used of [protobuf::PhysicalPlanNode]. *)
Class PhysicalPlanProto := {
  PhysicalPlanNode : Type;
  try_from_physical_plan : Plan -> ExtensionCodec -> res DataFusionError PhysicalPlanNode;
  try_into_physical_plan : PhysicalPlanNode -> FunctionRegistry -> ExtensionCodec -> res DataFusionError Plan;
  encode_plan : PhysicalPlanNode -> Bytes;
  decode_plan : Bytes -> res DataFusionError PhysicalPlanNode;
}.

Context `{!PhysicalPlanProto}.

Definition physical_plan_to_bytes (plan : Plan) : res DataFusionError Bytes :=
  proto ← try_from_physical_plan plan RayCodec; Ok (encode_plan proto).

Definition bytes_to_physical_plan (ctx : FunctionRegistry) (plan_bytes : Bytes) : res DataFusionError Plan :=
  proto_plan ← decode_plan plan_bytes; try_into_physical_plan proto_plan ctx RayCodec.

Definition is_extension (p : Plan) : bool := match p with NodeExec _ _ _ => false | _ => true end.

(** A node that DataFusion does not know becomes an extension, of what the codec writes and its
    inputs; a node of DataFusion that can be sent comes back as it was when its inputs do. *)
Class PhysicalPlanProtoLaws := {
  Extension : Bytes -> list PhysicalPlanNode -> PhysicalPlanNode;
  supported : NodeKind -> Node -> Prop;
  from_extension p codec : is_extension p = true ->
    match codec_encode codec p [] with
    | Ok node => forall inputs,
        Forall2 (fun c i => try_from_physical_plan c codec = Ok i) (children p) inputs ->
        try_from_physical_plan p codec = Ok (Extension node inputs)
    | _ => ~ is_Ok (try_from_physical_plan p codec)
    end;
  from_inputs p codec : is_Ok (try_from_physical_plan p codec) ->
    Forall (fun c => is_Ok (try_from_physical_plan c codec)) (children p);
  into_extension node inputs ctx codec cs :
    Forall2 (fun i c => try_into_physical_plan i ctx codec = Ok c) inputs cs ->
    try_into_physical_plan (Extension node inputs) ctx codec = codec_decode codec node cs ctx;
  native_node kind node cs inputs codec ctx : supported kind node ->
    Forall2 (fun c i => try_from_physical_plan c codec = Ok i /\ try_into_physical_plan i ctx codec = Ok c) cs inputs ->
    exists proto, try_from_physical_plan (NodeExec kind node cs) codec = Ok proto /\
      try_into_physical_plan proto ctx codec = Ok (NodeExec kind node cs);
  decode_encode_plan proto : decode_plan (encode_plan proto) = Ok proto;
}.

Context `{!ProtobufLaws} `{!DataFusionProtoLaws} `{!PhysicalPlanProtoLaws}.

(** A plan that can be sent: nodes of DataFusion that can, readers, isolators and limits of at
    least one row, as their constructors make them. *)
Inductive sendable : Plan -> Prop :=
  | sendable_reader p s id r : stage_reader_try_new p s id = Ok r -> fits id ->
      is_Ok (schema_to_pb s) -> sendable r
  | sendable_isolator c n : sendable c -> fits n -> sendable (isolator_new c n)
  | sendable_max_rows c n : sendable c -> 0 < n -> fits n -> sendable (MaxRowsExec c n)
  | sendable_node kind node cs : Forall sendable cs -> supported kind node -> sendable (NodeExec kind node cs).

(** A node of the engine arrives when its inputs do. *)
Lemma extension_arrives p ctx inputs :
  is_extension p = true -> built p -> received_over p (children p) = Ok p ->
  Forall2 (fun c i => try_from_physical_plan c RayCodec = Ok i /\ try_into_physical_plan i ctx RayCodec = Ok c)
    (children p) inputs ->
  exists proto, try_from_physical_plan p RayCodec = Ok proto /\ try_into_physical_plan proto ctx RayCodec = Ok p.
Proof.
  intros Hext Hb Hrec Hall. destruct (codec_carries p ctx (children p) Hb eq_refl) as (buf & He & Hd).
  pose proof (from_extension p RayCodec Hext) as Hfrom. cbn [codec_encode RayCodec] in Hfrom. rewrite He in Hfrom.
  exists (Extension buf inputs). split.
  - apply Hfrom. eapply Forall2_impl; [exact Hall|]. by intros ?? [? _].
  - rewrite (into_extension buf inputs ctx RayCodec (children p)); [cbn; by rewrite Hd|].
    apply Forall2_flip. eapply Forall2_impl; [exact Hall|]. by intros ?? [_ ?].
Qed.

Lemma sendable_arrives p ctx : sendable p ->
  exists proto, try_from_physical_plan p RayCodec = Ok proto /\ try_into_physical_plan proto ctx RayCodec = Ok p.
Proof.
  induction p as [c props id IH|props s id|c props n IH|c n IH|c n props IH|kind node cs IH] using plan_ind';
    intros Hs; inversion Hs as [q s' id' r Hr Hid Hpb|c' n' Hc Hn|c' n' Hc Hpos Hn|k' node' cs' Hcs Hsup]; subst;
    try done.
  - apply (extension_arrives _ ctx []); [done| |done|constructor].
    by eapply built_reader.
  - destruct IH as (i & Hi); [done|].
    apply (extension_arrives (isolator_new c n) ctx [i]); [done|exact (built_isolator c n Hn)|done|constructor; [exact Hi|constructor]].
  - destruct IH as (i & Hi); [done|].
    apply (extension_arrives (MaxRowsExec c n) ctx [i]); [done|exact (built_max_rows c n Hn)|by destruct n|constructor; [exact Hi|constructor]].
  - assert (exists inputs, Forall2 (fun c i => try_from_physical_plan c RayCodec = Ok i /\
      try_into_physical_plan i ctx RayCodec = Ok c) cs inputs) as [inputs Hall]; [|by eapply native_node].
    clear Hs Hsup. induction IH as [|c cs Hc _ IH']; [by exists []|].
    apply Forall_cons in Hcs as [Hsc Hcs]. destruct (Hc Hsc) as [i Hi], (IH' Hcs) as [inputs Hall].
    exists (i :: inputs). by constructor.
Qed.

(** A plan that has a marker of the optimizer in it. *)
Fixpoint has_stage (p : Plan) : bool :=
  match p with
  | DFRayStageExec _ _ _ => true
  | DFRayStageReaderExec _ _ _ => false
  | PartitionIsolatorExec c _ _ | MaxRowsExec c _ | PrefetchExec c _ _ => has_stage c
  | NodeExec _ _ cs => existsb has_stage cs
  end.

Lemma has_stage_not_sent p : has_stage p = true -> ~ is_Ok (try_from_physical_plan p RayCodec).
Proof.
  induction p as [c props id IH|props s id|c props n IH|c n IH|c n props IH|kind node cs IH] using plan_ind';
    intros Hst Hok; cbn in Hst; [|done|..].
  - exact (from_extension (DFRayStageExec c props id) RayCodec eq_refl Hok).
  - apply from_inputs in Hok. apply Forall_cons in Hok as [Hc _]. by apply IH.
  - apply from_inputs in Hok. apply Forall_cons in Hok as [Hc _]. by apply IH.
  - apply from_inputs in Hok. apply Forall_cons in Hok as [Hc _]. by apply IH.
  - apply from_inputs in Hok. apply existsb_exists in Hst as (c & Hin & Hc).
    apply list_elem_of_In in Hin. rewrite Forall_forall in IH, Hok. by apply (IH c Hin), Hok.
Qed.

(** C19: a plan that a processor can host arrives as it was sent.  For every plan of nodes of
    DataFusion that it can encode, stage readers, isolators and limits of at least one row, at
    any depth, the bytes of the plan are decoded to the same plan, in any session; and a plan
    that still has a stage marker of the optimizer anywhere in it has no bytes. *)
Theorem plan_bytes_round_trip p ctx :
  (sendable p -> exists bytes, physical_plan_to_bytes p = Ok bytes /\ bytes_to_physical_plan ctx bytes = Ok p) /\
  (has_stage p = true -> ~ is_Ok (physical_plan_to_bytes p)).
Proof.
  unfold physical_plan_to_bytes, bytes_to_physical_plan. split.
  - intros (proto & Hf & Hi)%(sendable_arrives p ctx). exists (encode_plan proto).
    rewrite Hf. split; [done|]. by rewrite decode_encode_plan.
  - intros Hst%has_stage_not_sent [b Hb]. apply Hst.
    destruct (try_from_physical_plan p RayCodec) as [proto|e|w]; [by exists proto|done|done].
Qed.
End plan_bytes.

(** ** The service (processor_service.rs, flight.rs) *)

Section service.
Context `{Protobuf} `{DataFusionProto} `{!PhysicalPlanProto}.
Context {Batch : Type}.
Abbreviation BatchStream := (list (option (res DataFusionError Batch))).

Context (dial : list string -> string -> option DataFusionError).
Context (iter_order : gmap N (list string) -> list (N * list string)).
Context (build : ObjectStore -> option DataFusionError) (file_scan : Node -> option Url).
Context (plan_execute : Plan -> N -> Ctx -> res DataFusionError BatchStream).
Context (show : DataFusionError -> string).

(** The Python exceptions, by their text; [debug]: the [Debug] of an error. *)
Abbreviation PyErr := string.
Context (debug : DataFusionError -> string).

(** The registry of a new [SessionContext], and whether the log level is debug. *)
Context (new_session : FunctionRegistry) (debug_enabled : bool).

(** The operating system: its local address, and listening on it. *)
Context {Os : Type} (local_ip : act Os PyErr string) (bind_listener : string -> act Os PyErr string).

(** The receiver of the shutdown signal: with the service, with the server, or dropped. *)
Inductive Receiver := Held | Serving | Dropped.

(** [all_done_queue]: the messages in the channel of capacity 1.  [serving]: the listener that
    the server answers on. *)
Record DFRayProcessorService := mkProcessorService {
  name : string;
  listener : option string;
  handler : option DFRayProcessorHandlerInner;
  addr : option string;
  all_done_queue : nat;
  all_done_rx : Receiver;
  serving : option string;
}.

Definition service_new (name : string) : DFRayProcessorService :=
  mkProcessorService ("[" +:+ name +:+ "]") None None None 0 Held None.

Definition start_up (self : DFRayProcessorService) (os : Os) : Os * DFRayProcessorService * res PyErr () :=
  match (my_local_ip ← local_ip; bind_listener (my_local_ip +:+ ":0")) os with
  | (os, Ok a) =>
      (os, mkProcessorService (name self) (Some a) (handler self) (Some a) (all_done_queue self)
             (all_done_rx self) (serving self), Ok tt)
  | (os, Err e) => (os, self, Err e)
  | (os, Panic w) => (os, self, Panic w)
  end.

Definition service_addr (self : DFRayProcessorService) : res PyErr string :=
  ok_or (name self +:+ ",Couldn't get addr") (addr self).

(** Handing a message to a receiver that waits for it ends the server. *)
Definition deliver (self : DFRayProcessorService) : DFRayProcessorService :=
  match all_done_rx self with
  | Serving =>
      if (0 <? all_done_queue self)%nat
      then mkProcessorService (name self) (listener self) (handler self) (addr self) 0 Dropped None
      else self
  | _ => self
  end.

(** [all_done]: sending fails when the receiver is dropped and waits while the channel is full. *)
Definition all_done (self : DFRayProcessorService) : DFRayProcessorService * Poll (res PyErr ()) :=
  match all_done_rx self with
  | Dropped => (self, Ready (Err "SendError"))
  | _ =>
      if (all_done_queue self <? 1)%nat then
        (deliver (mkProcessorService (name self) (listener self) (handler self) (addr self)
                    (Datatypes.S (all_done_queue self)) (all_done_rx self) (serving self)), Ready (Ok tt))
      else (self, Pending)
  end.

(** [update_plan]; the arguments of [debug!] are evaluated when it is enabled. *)
Definition service_update_plan (self : DFRayProcessorService) (stage_addrs : gmap N (gmap N (list string)))
    (partition_group : list N) (plan_bytes : Bytes) (net : list string)
    : list string * DFRayProcessorService * res PyErr () :=
  match (plan ← map_err show (bytes_to_physical_plan new_session plan_bytes);
         _ ← (if debug_enabled then _ ← service_addr self; Ok tt else Ok tt);
         Ok plan) with
  | Ok plan =>
      let '((inner, net), r) :=
        update_plan dial build file_scan iter_order stage_addrs plan partition_group (handler self, net) in
      (net, mkProcessorService (name self) (listener self) inner (addr self) (all_done_queue self)
              (all_done_rx self) (serving self), map_err debug r)
  | Err e => (net, self, Err e)
  | Panic w => (net, self, Panic w)
  end.

Definition unwrap_none : string := "called `Option::unwrap()` on a `None` value".

(** [serve]: the receiver is taken first, then the listener; what was taken is dropped when the
    second is missing.  The server then runs until the signal. *)
Definition serve (self : DFRayProcessorService) : DFRayProcessorService * res PyErr () :=
  match all_done_rx self with
  | Held =>
      match listener self with
      | None =>
          (mkProcessorService (name self) None (handler self) (addr self) (all_done_queue self) Dropped (serving self),
           Panic unwrap_none)
      | Some l =>
          (deliver (mkProcessorService (name self) None (handler self) (addr self) (all_done_queue self) Serving (Some l)),
           Ok tt)
      end
  | _ => (self, Panic unwrap_none)
  end.

(** The methods of the Flight service (flight.rs). *)
Inductive Method :=
  | DoGet (ticket : Bytes)
  | DoPut | Handshake | ListFlights | GetFlightInfo | PollFlightInfo | GetSchema | DoAction | ListActions | DoExchange.

Inductive RpcStatus := Unimplemented (msg : string) | Handled (status : Status).

Definition flight_serv (get_stream : Bytes -> res Status BatchStream) (method : Method) : res RpcStatus BatchStream :=
  match method with
  | DoGet request => map_err Handled (get_stream request)
  | DoPut => Err (Unimplemented "Unimplemented: do put")
  | Handshake => Err (Unimplemented "Unimplemented: handshake")
  | ListFlights => Err (Unimplemented "Unimplemented: list_flights")
  | GetFlightInfo => Err (Unimplemented "Unimplemented: get_flight_info")
  | PollFlightInfo => Err (Unimplemented "Unimplemented: poll_flight_info")
  | GetSchema => Err (Unimplemented "Unimplemented: get_schema")
  | DoAction => Err (Unimplemented "Unimplemented: do action")
  | ListActions => Err (Unimplemented "Unimplemented: list_actions")
  | DoExchange => Err (Unimplemented "Unimplemented: do_exchange")
  end.

(** A call to an address: [None] when nothing answers there. *)
Definition request (self : DFRayProcessorService) (to : string) (method : Method) : option (res RpcStatus BatchStream) :=
  if bool_decide (serving self = Some to)
  then Some (flight_serv (get_stream plan_execute show (name self) (handler self)) method)
  else None.

(** ** A hosted plan is served *)

Context `{!ProtobufLaws} `{!DataFusionProtoLaws} `{!PhysicalPlanProtoLaws}.

Abbreviation request_status := (fun e => Handled (StatusInternal ("Could not get partition stream from plan " +:+ show e))).

(** What a service is after it has bound its listener. *)
Lemma listener_bound self os os1 self1 :
  start_up self os = (os1, self1, Ok tt) ->
  exists a, self1 = mkProcessorService (name self) (Some a) (handler self) (Some a) (all_done_queue self)
    (all_done_rx self) (serving self).
Proof. unfold start_up. destruct ((my_local_ip ← local_ip; _) os) as [os' [a|e|w]]; intros [= <- <-]; by exists a. Qed.

Lemma service_update_plan_ok self a stage_addrs pg plan bytes net net1 ctx :
  addr self = Some a -> bytes_to_physical_plan new_session bytes = Ok plan ->
  configure_ctx dial build file_scan iter_order stage_addrs plan pg net = (net1, Ok ctx) ->
  service_update_plan self stage_addrs pg bytes net =
  (net1, mkProcessorService (name self) (listener self) (Some (mkInner plan ctx)) (addr self) (all_done_queue self)
     (all_done_rx self) (serving self), Ok tt).
Proof.
  intros Ha Hp Hc. unfold service_update_plan, service_addr. rewrite Hp, Ha. cbn.
  destruct debug_enabled; cbn; unfold update_plan; by rewrite Hc.
Qed.

(** A plan that is refused changes nothing. *)
Lemma refused_plan_changes_nothing self stage_addrs pg bytes net net1 self1 r :
  service_update_plan self stage_addrs pg bytes net = (net1, self1, r) -> r <> Ok tt -> self1 = self.
Proof.
  unfold service_update_plan. destruct (plan ← _; _) as [plan|e|w]; [|by intros [= <- <-]..].
  unfold update_plan. destruct (configure_ctx _ _ _ _ _ _ _ _) as [net2 [ctx|e|w]]; cbn; intros [= <- <- <-];
    [done|by destruct self..].
Qed.

(** C15: a processor serves the plan that it is given.  When a new service has bound its listener,
    and is given the bytes of any plan that can be sent whose stages have addresses that can be
    connected to, it takes the plan; serving then answers on the address that it reports and on
    no other: asked for a partition, with the stream of exactly that plan, run in the context that
    was configured for it, and with a failure only when running it fails; every other method of
    Flight is unimplemented.  A later plan that is refused leaves all answers as they are.  The
    server ends with the first [all_done], which is not blocked, and nothing answers from then
    on. *)
Theorem hosted_plan_served id os os1 svc1 plan bytes stage_addrs pg net :
  start_up (service_new id) os = (os1, svc1, Ok tt) ->
  sendable plan -> physical_plan_to_bytes plan = Ok bytes ->
  (forall net a, dial net a = None) ->
  (register_object_store_for_paths_in_plan build file_scan plan default_stores).2 = Ok () ->
  Forall (fun id => is_Some (stage_addrs !! id)) (input_stage_ids plan) ->
  exists a net1 ctx svc2 svc3,
    service_addr svc1 = Ok a /\
    configure_ctx dial build file_scan iter_order stage_addrs plan pg net = (net1, Ok ctx) /\
    service_update_plan svc1 stage_addrs pg bytes net = (net1, svc2, Ok tt) /\
    serve svc2 = (svc3, Ok tt) /\
    (forall to method, request svc3 to method = None <-> to <> a) /\
    (forall p, fits p -> request svc3 a (DoGet (ticket_for p)) = Some (map_err request_status (plan_execute plan p ctx))) /\
    (forall method, (forall t, method <> DoGet t) -> exists msg, request svc3 a method = Some (Err (Unimplemented msg))) /\
    (forall stage_addrs' pg' bytes' net net' svc' r,
       service_update_plan svc3 stage_addrs' pg' bytes' net = (net', svc', r) -> r <> Ok tt ->
       forall to method, request svc' to method = request svc3 to method) /\
    exists svc4, all_done svc3 = (svc4, Ready (Ok tt)) /\ forall to method, request svc4 to method = None.
Proof.
  intros [a ->]%listener_bound Hs Hb Hdial Hreg Hids.
  destruct (configure_ctx_total dial iter_order build file_scan Hdial stage_addrs plan pg net Hreg Hids) as (net1 & ctx & Hc).
  destruct (sendable_arrives plan new_session Hs) as (proto & Hf & Hi).
  assert (bytes_to_physical_plan new_session bytes = Ok plan) as Hplan.
  { unfold physical_plan_to_bytes in Hb. rewrite Hf in Hb. injection Hb as <-.
    unfold bytes_to_physical_plan. by rewrite decode_encode_plan. }
  eexists a, net1, ctx, _, _. split; [done|]. split; [exact Hc|].
  split; [by eapply service_update_plan_ok|]. split; [reflexivity|]. cbn. split_and!.
  - intros to method. unfold request. cbn. case_bool_decide as E; [injection E as ->; split; by intros|].
    split; [|done]. intros _ ->. by apply E.
  - intros p Hp. unfold request. cbn. rewrite bool_decide_true by done. unfold get_stream.
    rewrite extract_ticket_for by done. cbn. unfold make_stream. cbn. by destruct (plan_execute plan p ctx).
  - intros method Hm. unfold request. cbn. rewrite bool_decide_true by done.
    destruct method; [by destruct (Hm ticket)|by eexists..].
  - intros ??????? Hu Hr ??. by rewrite (refused_plan_changes_nothing _ _ _ _ _ _ _ _ Hu Hr).
  - by eexists.
Qed.

(** Serving before the listener is bound panics, and takes the receiver with it: the service can
    never serve, and telling it that all is done fails. *)
Theorem early_serve_is_fatal id os os1 svc svc1 r :
  serve (service_new id) = (svc, r) -> start_up svc os = (os1, svc1, Ok tt) ->
  r = Panic unwrap_none /\ (serve svc1).2 = Panic unwrap_none /\ (all_done svc1).2 = Ready (Err "SendError").
Proof. intros [= <- <-] [a ->]%listener_bound. done. Qed.
End service.

(** ** A concrete plan message

    A tree: an extension is a node 0 of its bytes and its inputs, a node of DataFusion a node 1. *)
Module TreePlans.
Import ProtobufWire NumberedPlans.

#[export] Instance node_kind_eq_dec : EqDecision NodeKind.
Proof. solve_decision. Defined.
#[export] Instance node_kind_countable : Countable NodeKind.
Proof.
  apply (inj_countable' (fun k => match k with RepartitionExec => 0 | SortExec => 1 | NestedLoopJoinExec => 2 | OtherExec => 3 end)
    (fun n => match n with 0 => RepartitionExec | 1 => SortExec | 2 => NestedLoopJoinExec | _ => OtherExec end)).
  by intros [].
Defined.

Abbreviation PlanTree := (gen_tree (Bytes + NodeKind * (N * nat))).

Fixpoint try_from (p : Plan) (codec : ExtensionCodec) : res DataFusionError PlanTree :=
  let fix go (cs : list Plan) : res DataFusionError (list PlanTree) :=
    match cs with [] => Ok [] | c :: cs => i ← try_from c codec; ts ← go cs; Ok (i :: ts) end in
  match p with
  | NodeExec kind node cs => inputs ← go cs; Ok (GenNode 1 (GenLeaf (inr (kind, node)) :: inputs))
  | DFRayStageReaderExec _ _ _ => node ← codec_encode codec p []; Ok (GenNode 0 [GenLeaf (inl node)])
  | DFRayStageExec c _ _ | PartitionIsolatorExec c _ _ | MaxRowsExec c _ | PrefetchExec c _ _ =>
      node ← codec_encode codec p []; input ← try_from c codec; Ok (GenNode 0 [GenLeaf (inl node); input])
  end.

Fixpoint try_into (t : PlanTree) (ctx : FunctionRegistry) (codec : ExtensionCodec) : res DataFusionError Plan :=
  let fix go (ts : list PlanTree) : res DataFusionError (list Plan) :=
    match ts with [] => Ok [] | t :: ts => c ← try_into t ctx codec; cs ← go ts; Ok (c :: cs) end in
  match t with
  | GenNode 0 (GenLeaf (inl node) :: inputs) => cs ← go inputs; codec_decode codec node cs ctx
  | GenNode 1 (GenLeaf (inr (kind, node)) :: inputs) => cs ← go inputs; Ok (NodeExec kind node cs)
  | _ => Err (Internal "unknown plan")
  end.

#[export] Instance plan_proto : PhysicalPlanProto := {|
  PhysicalPlanNode := PlanTree; try_from_physical_plan := try_from; try_into_physical_plan := try_into;
  encode_plan t := [N.pos (countable.encode t)];
  decode_plan bs := ok_or (Internal "no plan")
    (match bs with [N.pos p] => countable.decode p | _ => None end);
|}.

#[export] Instance plan_proto_laws : PhysicalPlanProtoLaws.
Proof.
  refine {| Extension node inputs := GenNode 0 (GenLeaf (inl node) :: inputs);
    supported := fun (kind : NodeKind) (node : Node) => True |}.
  - intros p codec Hext. cbn [try_from_physical_plan plan_proto].
    assert (forall e (k : Bytes -> res DataFusionError PlanTree), e = codec_encode codec p [] ->
      try_from p codec = (node ← e; k node) ->
      (forall node inputs, e = Ok node -> Forall2 (fun c i => try_from c codec = Ok i) (children p) inputs ->
         k node = Ok (GenNode 0 (GenLeaf (inl node) :: inputs))) ->
      match e with
      | Ok node => forall inputs, Forall2 (fun c i => try_from c codec = Ok i) (children p) inputs ->
          try_from p codec = Ok (GenNode 0 (GenLeaf (inl node) :: inputs))
      | _ => ~ is_Ok (try_from p codec)
      end) as Hgen.
    { intros e k _ -> Hk. destruct e as [node|e|w]; [intros inputs Hi; by apply Hk|by intros []..]. }
    destruct p; try done; eapply Hgen; try reflexivity; intros node inputs _ Hi; cbn [children] in Hi.
    2: by inversion Hi.
    all: inversion Hi as [|c i cs ts Hc Hn]; subst; inversion Hn; subst; cbv beta;
      match goal with H : ?h = Ok _ |- (_ ← ?m; _) = _ => change m with h; by rewrite H end.
  - intros p codec [t Ht]. cbn [try_from_physical_plan plan_proto] in *.
    destruct p as [c props id|props s id|c props n|c n|c n props|kind node cs]; cbn [try_from children] in *.
    1,3-5: destruct (codec_encode _ _ _); [|done..]; cbn in Ht; constructor; [|constructor];
      by destruct (try_from c codec); [eexists|..].
    + constructor.
    + match type of Ht with (inputs ← ?go cs; _) = _ => destruct (go cs) as [inputs| |] eqn:E; [|done..] end.
      clear Ht. revert inputs E. induction cs as [|c cs IH]; intros inputs E; [constructor|].
      destruct (try_from c codec) as [i| |] eqn:Ei; [|done..]. cbn in E. constructor; [by eexists|].
      match type of E with (ts ← ?go cs; _) = _ => destruct (go cs) as [ts| |] eqn:E'; [|done..] end.
      by eapply IH.
  - intros node inputs ctx codec cs Hall. cbn [try_into_physical_plan plan_proto try_into].
    match goal with |- (cs ← ?go inputs; _) = _ => assert (go inputs = Ok cs) as ->; [|done] end.
    induction Hall as [|i c ts cs Hi _ IH]; [done|]. cbn in Hi. by rewrite Hi, IH.
  - intros kind node cs inputs codec ctx _ Hall. exists (GenNode 1 (GenLeaf (inr (kind, node)) :: inputs)).
    cbn [try_from_physical_plan try_into_physical_plan plan_proto try_from try_into]. split.
    + match goal with |- (inputs ← ?go cs; _) = _ => assert (go cs = Ok inputs) as ->; [|done] end.
      induction Hall as [|c i cs ts [Hi _] _ IH]; [done|]. cbn in Hi. by rewrite Hi, IH.
    + match goal with |- (cs ← ?go inputs; _) = _ => assert (go inputs = Ok cs) as ->; [|done] end.
      induction Hall as [|c i cs ts [_ Hi] _ IH]; [done|]. cbn in Hi. by rewrite Hi, IH.
  - intros proto. cbn. by rewrite countable.decode_encode.
Defined.
End TreePlans.

(** ** Witnesses *)
Section witnesses.
Import ProtobufWire NumberedPlans TreePlans.

(** A node over a limit of what a stage sends and over an isolated leaf. *)
Definition sent_plan : Plan := NodeExec OtherExec (1, 2%nat) [MaxRowsExec reader 10; isolator_new leaf 4].

Lemma reader_sendable : sendable reader.
Proof. by apply (sendable_reader (2 : NumberedPlans.data_fusion.(Partitioning)) (7 : NumberedPlans.data_fusion.(Schema)) 5); [| |eexists]. Qed.

Lemma sent_plan_sendable : sendable sent_plan.
Proof.
  constructor; [|exact I]. constructor; [|constructor; [|constructor]].
  - by apply sendable_max_rows; [apply reader_sendable|..].
  - by apply sendable_isolator; [apply sendable_node|].
Qed.

Lemma plan_bytes_round_trip_witness :
  (exists bytes, physical_plan_to_bytes sent_plan = Ok bytes /\ bytes_to_physical_plan registry bytes = Ok sent_plan) /\
  ~ is_Ok (physical_plan_to_bytes (MaxRowsExec (stage_new leaf 3) 10)).
Proof.
  split.
  - apply (plan_bytes_round_trip sent_plan registry), sent_plan_sendable.
  - by apply (plan_bytes_round_trip (MaxRowsExec (stage_new leaf 3) 10) registry).
Defined.

(** A service on host 10.0.0.1; partition [p] of a plan is one batch with [p] in it. *)
Definition example_run (plan : Plan) (p : N) (ctx : Ctx) : res DataFusionError (list (option (res DataFusionError N))) :=
  Ok [Some (Ok p)].

Definition example_ip : act () string string := mret "10.0.0.1".
Definition example_bind (host : string) : act () string string := mret "10.0.0.1:4242".

Lemma hosted_plan_served_witness :
  exists os1 svc1 bytes net1 svc2 svc3,
    start_up example_ip example_bind (service_new "p") tt = (os1, svc1, Ok tt) /\
    physical_plan_to_bytes sent_plan = Ok bytes /\
    service_update_plan (fun _ _ => None) (fun m => map_to_list m) (fun _ => None) (fun _ => None) (fun _ => "")
      (fun _ => "") registry true svc1 example_addrs [0] bytes [] = (net1, svc2, Ok tt) /\
    serve svc2 = (svc3, Ok tt) /\
    request example_run (fun _ => "") svc3 "10.0.0.1:4242" (DoGet (ticket_for 3)) = Some (Ok [Some (Ok 3)]) /\
    request example_run (fun _ => "") svc3 "10.0.0.2:4242" (DoGet (ticket_for 3)) = None.
Proof.
  destruct (proj1 (plan_bytes_round_trip sent_plan registry) sent_plan_sendable) as (bytes & Hb & _).
  destruct (hosted_plan_served (fun _ _ => None) (fun m => map_to_list m) (fun _ => None) (fun _ => None)
    example_run (fun _ => "") (fun _ => "") registry true example_ip example_bind
    "p" tt tt _ sent_plan bytes example_addrs [0] [] eq_refl sent_plan_sendable Hb)
    as (a & net1 & ctx & svc2 & svc3 & Ha & _ & Hu & Hserve & Hnone & Hget & _); [done|done|by repeat constructor|].
  injection Ha as <-.
  exists tt. eexists _, bytes, net1, svc2, svc3. split; [reflexivity|]. split; [exact Hb|]. split; [exact Hu|].
  split; [exact Hserve|]. split; [by apply (Hget 3)|by apply Hnone].
Defined.
End witnesses.
