(* ===== verification/Execute.v ===== *)
(** * Running distributed plans (../stage.rs, ../stage_reader.rs, ../isolator.rs, ../max_rows.rs, ../pre_fetch.rs)

    The [execute] methods of the plan nodes, composed: a plan runs on a processor, and its stage
    readers run the plans of other processors over the network.  Against it stand the outcomes of
    the plan before it was cut into stages, for any order and batches of its streams.  Paths are relative to src/src/streaming/. *)

From S2P Require Import Prelude Arrow Stream BatchStreams Plans Codec Processor BatchService.

Section execute.
Context `{Protobuf} `{DataFusion} `{Arrow}.

(** What a stream delivers until its end. *)
Abbreviation Items := (list (res DataFusionError Batch)).
Abbreviation Run := (res DataFusionError Items).

(** [execute] of a node of DataFusion, given the number of partitions of each of its inputs and
    their [execute]. *)
Context (node_execute : NodeKind -> Node -> list (N * (N -> Run)) -> N -> Run).

(** A stream as it is read at the other end of a connection: encoded, sent and decoded, with
    the polls that find nothing. *)
Context (transport : string -> Items -> list (option (res string Batch))).
(** The random starts of the merged stream of a reader. *)
Context (rng : N -> N -> nat -> nat -> nat).
Context (show : DataFusionError -> string) (show_status : RpcStatus -> string).

(** The processors, by address. *)
Context (services : gmap string DFRayProcessorService).

Definition count (p : Plan) : N := partitioning_count (partitioning (properties p)).

(** Enough slices for every batch of a stream. *)
Definition total_rows (l : Items) : nat :=
  sum_list (List.map (fun r => match r with Ok b => S (num_rows b) | _ => 0%nat end) l).

(** A stream that is not at its end after the given fuel. *)
Definition cut_off : Items := [Panic "out of fuel"].

(** [FlightClient::do_get]: the processor at the address runs its plan with [execute]; a panic
    there closes the connection. *)
Definition do_get_from (execute : Plan -> N -> Ctx -> Run) (client : FlightClient) (ticket : Bytes)
    : res string (list (option (res string Batch))) :=
  match svc ← services !! client_addr client;
        request (Batch := Batch) (fun p partition ctx => l ← execute p partition ctx; Ok (List.map Some l)) show svc
          (client_addr client) (DoGet ticket) with
  | Some (Ok stream) => Ok (transport (client_addr client) (items stream))
  | Some (Err status) => Err (show_status status)
  | Some (Panic w) => Err "connection closed"
  | None => Err "connection refused"
  end.

(** The polls that the merged stream of a reader takes. *)
Definition reader_polls (execute : Plan -> N -> Ctx -> Run) (ctx : Ctx) (stage_id partition : N) : nat :=
  match service_clients ctx !! (stage_id, partition) with
  | Some clients => S (polls_left (get_streams (do_get_from execute) clients (ticket_for partition)).1)
  | None => 0
  end.

(** [ExecutionPlan::execute], read to the end.  The fuel counts the connections that are
    nested. *)
Fixpoint execute (fuel : nat) : Plan -> N -> Ctx -> Run :=
  fix run (p : Plan) (partition : N) (ctx : Ctx) {struct p} : Run :=
    let fix inputs (cs : list Plan) : list (N * (N -> Run)) :=
      match cs with
      | [] => []
      | c :: cs => (count c, fun i => run c i ctx) :: inputs cs
      end in
    match p with
    | DFRayStageExec _ _ _ => Panic "not implemented: Ray Stage Exec"
    | DFRayStageReaderExec _ _ stage_id =>
        match fuel with
        | O => Ok cut_off
        | S fuel =>
            out ← stage_reader_execute (do_get_from (execute fuel)) (Some ctx) stage_id partition
                    (reader_polls (execute fuel) ctx stage_id partition) (rng stage_id partition);
            Ok (default cut_off out)
        end
    | PartitionIsolatorExec c _ n =>
        isolator_execute (fun c i => run c (N.of_nat i) ctx) (mkIsolator Plan c (N.to_nat n))
          (option_map (List.map N.to_nat) (ctx_partition_group ctx)) (N.to_nat partition)
    | MaxRowsExec c n =>
        out ← max_rows_execute (fun c i => run c (N.of_nat i) ctx)
                total_rows
                (mkMaxRows Plan c (N.to_nat n)) (N.to_nat partition);
        Ok (default cut_off out)
    | PrefetchExec c buf_size _ =>
        _ ← prefetch_execute buf_size ([] : Items);
        run c partition ctx
    | NodeExec kind node cs => node_execute kind node (inputs cs) partition
    end.

(** ** What a run delivers *)

Definition rows_of {E} (r : res E Batch) : list Row := match r with Ok b => rows b | _ => [] end.
Definition rows_at (r : Run) : list Row := match r with Ok l => l ≫= rows_of | _ => [] end.

(** The run ended without an error. *)
Definition delivered (r : Run) : Prop := exists l, r = Ok l /\ Forall is_Ok l.

(** The second run delivers the rows of the first, in any order. *)
Definition same_rows (r r' : Run) : Prop := delivered r' /\ rows_at r' ≡ₚ rows_at r.

(** A machine that runs the plan that was not cut. *)
Definition local (p : Plan) (partition : N) : Run :=
  execute 0 p partition (mkCtx ∅ None default_stores).

(** ** What a plan may deliver

    The rows of a stream come in an order and in batches that depend on the timing, and the
    result of some nodes depends on these: a limit takes the rows that come first, and a
    repartition in turns deals batches out.  A plan therefore has several outcomes, and a
    distributed plan is right when it delivers one of them. *)

(** The streams of the partitions of an input, with these rows in any order and batches. *)
Definition streams (c : Plan) (G : N -> list Row) (i : N * (N -> Run)) : Prop :=
  i.1 = count c /\ forall k, k < count c -> delivered (i.2 k) /\ rows_at (i.2 k) ≡ₚ G k.

(** The rows that a plan of DataFusion's nodes may deliver in its partitions, with the streams
    between the nodes in any order and batches. *)
Inductive outcome : Plan -> (N -> list Row) -> Prop :=
  | outcome_node kind node cs Gs ins F :
      Forall2 outcome cs Gs -> Forall3 streams cs Gs ins ->
      (forall q, q < count (NodeExec kind node cs) ->
         delivered (node_execute kind node ins q) /\ rows_at (node_execute kind node ins q) ≡ₚ F q) ->
      outcome (NodeExec kind node cs) F.

(** No node of the plan fails, whatever its inputs deliver. *)
Inductive never_fails : Plan -> Prop :=
  | never_fails_node kind node cs :
      Forall never_fails cs ->
      (forall Gs ins q, Forall2 outcome cs Gs -> Forall3 streams cs Gs ins ->
         q < count (NodeExec kind node cs) -> delivered (node_execute kind node ins q)) ->
      never_fails (NodeExec kind node cs).

(** A plan with one outcome. *)
Definition determined (p : Plan) : Prop := forall F F', outcome p F -> outcome p F' ->
  forall q, q < count p -> F q ≡ₚ F' q.

(** ** Cutting a plan *)

(** [ExecutionPlan::schema] *)
Context (plan_schema : Plan -> Plans.Schema).

(** [DFRayStageReaderExec::try_new_from_input]: a reader of the stage whose plan is [input]. *)
Definition try_new_from_input (input : Plan) (stage_id : N) : res DataFusionError Plan :=
  stage_reader_try_new (partitioning (properties input)) (plan_schema input) stage_id.

(** A node that depends only on the rows of its inputs, not on their order or their batches. *)
Definition insensitive (kind : NodeKind) (node : Node) : Prop := forall ins ins' q,
  Forall2 (fun i i' => i.1 = i'.1 /\ forall k, k < i.1 -> delivered (i.2 k) /\ same_rows (i.2 k) (i'.2 k)) ins ins' ->
  delivered (node_execute kind node ins q) ->
  same_rows (node_execute kind node ins q) (node_execute kind node ins' q).

(** The nodes of a plan that has only such nodes. *)
Inductive all_insensitive : Plan -> Prop :=
  | insensitive_node kind node cs :
      insensitive kind node -> Forall all_insensitive cs -> all_insensitive (NodeExec kind node cs).

(** The first [n] partitions. *)
Definition upto (n : N) : list N := N.of_nat <$> seq 0 (N.to_nat n).

(** A node that sends every row of its input to one of its partitions, whichever partition of
    the input it is in. *)
Definition repartitions (kind : NodeKind) (node : Node) (route : Row -> N) : Prop := forall n f q,
  (forall i, i < n -> delivered (f i)) ->
  delivered (node_execute kind node [(n, f)] q) /\
  rows_at (node_execute kind node [(n, f)] q) ≡ₚ
    filter (fun r => route r = q) (upto n ≫= fun i => rows_at (f i)).

(** All rows of the partitions of an input. *)
Definition all_rows (i : N * (N -> Run)) : list Row := upto i.1 ≫= fun k => rows_at (i.2 k).
Definition delivers (i : N * (N -> Run)) : Prop := forall k, k < i.1 -> delivered (i.2 k).

(** A node that can be split: what several of it send, each given a part of the rows of an
    input, is what one of it may send that is given the input, in some order and batches.
    This holds of repartitions by row, and of those that deal the batches out. *)
Definition splits (kind : NodeKind) (node : Node) : Prop := forall n f parts,
  delivers (n, f) -> Forall delivers parts -> parts ≫= all_rows ≡ₚ all_rows (n, f) ->
  Forall (fun i => forall q, q < count (NodeExec kind node []) -> delivered (node_execute kind node [i] q)) parts /\
  exists f', (forall k, k < n -> same_rows (f k) (f' k)) /\
    forall q, q < count (NodeExec kind node []) -> delivered (node_execute kind node [(n, f')] q) /\
      rows_at (node_execute kind node [(n, f')] q) ≡ₚ parts ≫= fun i => rows_at (node_execute kind node [i] q).

(** A node that passes the rows of every partition on, such as CoalesceBatchesExec. *)
Definition keeps_rows (kind : NodeKind) (node : Node) : Prop := forall n f q,
  q < n -> delivers (n, f) -> same_rows (f q) (node_execute kind node [(n, f)] q).

(** The second plan is the first under nodes that keep its rows. *)
Inductive over : Plan -> Plan -> Prop :=
  | over_refl p : over p p
  | over_max_rows p p' n : 0 < n -> over p p' -> over p (MaxRowsExec p' n)
  | over_prefetch p p' n prefetch :
      0 < n -> prefetch_new p' n = Ok prefetch -> count prefetch = count p' -> over p p' -> over p prefetch
  | over_node p p' kind node :
      keeps_rows kind node -> count (NodeExec kind node [p']) = count p' -> over p p' ->
      over p (NodeExec kind node [p']).

(** A processor of a stage: its address, the plan below the isolator, the number of partitions
    that the isolator provides, and its session. *)
Record Host := mkHost { host_addr : string; host_input : Plan; provided : N; host_ctx : Ctx; group : list N }.

(** The processor at the address serves the stage: the node over the isolated input, under
    limits, coalesced batches and prefetches. *)
Definition hosts_stage (kind : NodeKind) (node : Node) (h : Host) : Prop :=
  N.of_nat (length (group h)) <= provided h /\ ctx_partition_group (host_ctx h) = Some (group h) /\
  exists svc hosted, services !! host_addr h = Some svc /\ serving svc = Some (host_addr h) /\
    over (NodeExec kind node [isolator_new (host_input h) (provided h)]) hosted /\
    handler svc = Some (mkInner hosted (host_ctx h)).

(** [p'], run in the session, delivers an outcome of [p]. *)
Definition runs (f : nat) (ctx : Ctx) (p p' : Plan) : Prop :=
  (forall q, q < count p -> delivered (execute f p' q ctx)) /\
  outcome p (fun q => rows_at (execute f p' q ctx)).

(** Every processor runs the input of its stage itself, so that the outcomes may differ; the
    partitions that they take must be those of one outcome. *)
Definition agree (c : Plan) (hosts : list Host) : Prop := forall f,
  (forall h, h ∈ hosts -> runs f (host_ctx h) c (host_input h)) ->
  exists F, outcome c F /\ forall h a, h ∈ hosts -> a ∈ group h ->
    rows_at (execute f (host_input h) a (host_ctx h)) ≡ₚ F a.

(** [distributed depth ctx p p']: run in the session [ctx], [p'] stands for the plan [p].
    Repartitions may be cut: a reader of the stage takes their place, in a session with clients
    for the processors of the stage, and the partitions of the input are divided among these. *)
Inductive distributed : nat -> Ctx -> Plan -> Plan -> Prop :=
  | distributed_node d ctx kind node cs cs' :
      length cs = length cs' ->
      (forall i c c', cs !! i = Some c -> cs' !! i = Some c' -> distributed d ctx c c') ->
      distributed d ctx (NodeExec kind node cs) (NodeExec kind node cs')
  | distributed_over d ctx p p' p'' : distributed d ctx p p' -> over p' p'' -> distributed d ctx p p''
  | distributed_stage d ctx kind node c id reader hosts :
      splits kind node -> agree c hosts ->
      try_new_from_input (NodeExec kind node [c]) id = Ok reader ->
      count (NodeExec kind node [c]) <= u64_modulus ->
      (forall q, q < count (NodeExec kind node [c]) -> exists clients,
         service_clients ctx !! (id, q) = Some clients /\ List.map client_addr clients = List.map host_addr hosts) ->
      (forall h, h ∈ hosts -> hosts_stage kind node h) ->
      (forall h, h ∈ hosts -> distributed d (host_ctx h) c (host_input h)) ->
      (hosts ≫= group) ≡ₚ upto (count c) ->
      distributed (S d) ctx (NodeExec kind node [c]) reader.

(** ** Running the nodes *)

Lemma execute_node f kind node cs q ctx :
  execute f (NodeExec kind node cs) q ctx =
  node_execute kind node (List.map (fun c => (count c, fun i => execute f c i ctx)) cs) q.
Proof.
  assert (forall g, (fix inputs (cs : list Plan) : list (N * (N -> Run)) :=
      match cs with [] => [] | c :: cs => (count c, fun i => g c i ctx) :: inputs cs end) cs =
      List.map (fun c => (count c, fun i => g c i ctx)) cs) as E
    by (intros g; induction cs as [|c cs IH]; [done|]; cbn; by rewrite IH).
  destruct f; cbn [execute]; by rewrite E.
Qed.

Lemma execute_isolator f c n q ctx :
  execute f (isolator_new c n) q ctx =
  isolator_execute (fun c i => execute f c (N.of_nat i) ctx) (mkIsolator Plan c (N.to_nat n))
    (option_map (List.map N.to_nat) (ctx_partition_group ctx)) (N.to_nat q).
Proof. by destruct f. Qed.

Lemma execute_max_rows f c n q ctx :
  execute f (MaxRowsExec c n) q ctx =
  (out ← max_rows_execute (fun c i => execute f c (N.of_nat i) ctx) total_rows
     (mkMaxRows Plan c (N.to_nat n)) (N.to_nat q); Ok (default cut_off out)).
Proof. by destruct f. Qed.

Lemma execute_prefetch f c n props q ctx : 0 < n ->
  execute f (PrefetchExec c n props) q ctx = execute f c q ctx.
Proof. intros Hn. destruct f; cbn [execute]; unfold prefetch_execute; by destruct (N.eqb_spec n 0); [lia|]. Qed.

Lemma elem_of_upto n i : i ∈ upto n <-> i < n.
Proof.
  unfold upto. rewrite list_elem_of_fmap. split.
  - intros (k & -> & Hk%elem_of_seq). lia.
  - intros Hi. exists (N.to_nat i). split; [lia|]. apply elem_of_seq. lia.
Qed.

Lemma delivered_rows r : delivered r -> exists l, r = Ok l /\ rows_at r = l ≫= rows_of /\ Forall is_Ok l.
Proof. intros (l & -> & Hl). by exists l. Qed.

(** A limit cuts the batches and keeps the rows. *)
Context `{!ArrowLaws}.

Lemma limit_rows_keeps fuel n r : (0 < n)%nat -> is_Ok r -> (match r with Ok b => num_rows b | _ => 0 end <= fuel)%nat ->
  exists out, limit_rows fuel n r = Some out /\ Forall is_Ok out /\ out ≫= rows_of = rows_of r.
Proof.
  intros Hn [b ->] Hf. cbn [limit_rows]. destruct (Nat.ltb_spec n (num_rows b)) as [Hlt|].
  - destruct (slices_spec n fuel b 0 (num_rows b)) as (out & -> & Hrows & _); [lia..|].
    eexists. split; [done|]. split.
    + apply Forall_map, Forall_true. intros b'. by eexists.
    + rewrite drop_0 in Hrows. cbn [rows_of]. rewrite <- Hrows. clear. induction out as [|b' out IH]; [done|].
      cbn. by rewrite <- IH.
  - eexists. split; [done|]. split; [by repeat econstructor|]. cbn. apply app_nil_r.
Qed.

Lemma max_rows_keeps n l fuel : (0 < n)%nat -> Forall is_Ok l -> (total_rows l <= fuel)%nat ->
  exists out, max_rows_stream fuel l n = Some out /\ Forall is_Ok out /\ out ≫= rows_of = l ≫= rows_of.
Proof.
  intros Hn Hl. unfold max_rows_stream. revert fuel. induction Hl as [|r l Hr _ IH]; intros fuel Hf; [by exists []|].
  cbn in Hf. destruct (IH fuel) as (out & Ho & Hok & Hrows); [unfold total_rows; lia|].
  destruct (limit_rows_keeps fuel n r Hn Hr) as (o & Hlo & Hok' & Hrows').
  { destruct Hr as [b ->]. lia. }
  cbn [mapM]. rewrite Hlo. cbn. destruct (mapM _ l) as [k|]; [|done]. cbn in *. injection Ho as <-.
  eexists. split; [done|]. split; [by apply Forall_app|]. by rewrite bind_app, Hrows', Hrows.
Qed.

Lemma max_rows_runs f c n q ctx : 0 < n -> delivered (execute f c q ctx) ->
  same_rows (execute f c q ctx) (execute f (MaxRowsExec c n) q ctx).
Proof.
  intros Hn (l & E & Hl). rewrite execute_max_rows. unfold max_rows_execute.
  cbn [input max_rows]. rewrite N2Nat.id. rewrite E. cbn [mbind res_bind].
  destruct (max_rows_keeps (N.to_nat n) l (total_rows l)) as (out & -> & Hok & Ho); [lia|done|done|].
  split; [by exists out|]. cbn in *. by rewrite Ho.
Qed.

(** A plan under nodes that keep its rows delivers them. *)
Lemma over_count p p' : over p p' -> count p' = count p.
Proof.
  induction 1 as [p|p p' n _ _ IH|p p' n pf _ _ E _ IH|p p' kind node _ E _ IH];
    [done|exact IH|by rewrite E|by rewrite E].
Qed.

Lemma over_runs f ctx p p' : over p p' -> (forall q, q < count p -> delivered (execute f p q ctx)) ->
  forall q, q < count p -> same_rows (execute f p q ctx) (execute f p' q ctx).
Proof.
  intros Ho Hd. induction Ho as [p|p p' n Hn Ho IH|p p' n pf Hn Hpf E Ho IH|p p' kind node Hk E Ho IH]; intros q Hq.
  - by split; [apply Hd|].
  - destruct (IH Hd q Hq) as [Hd' Hr]. destruct (max_rows_runs f p' n q ctx Hn Hd') as [? Hm].
    split; [done|]. by rewrite Hm.
  - unfold prefetch_new in Hpf. destruct (children p') as [|child [|]]; try done. injection Hpf as <-.
    rewrite execute_prefetch by done. by apply IH.
  - rewrite execute_node. cbn [List.map]. pose proof (over_count _ _ Ho) as Hc.
    destruct (Hk (count p') (fun i => execute f p' i ctx) q) as [? Hm]; [by rewrite Hc| |].
    + intros i Hi. apply IH; [done|]. by rewrite <- Hc.
    + split; [done|]. rewrite Hm. by apply IH.
Qed.

(** An isolator gives the partitions of the group, and then empty ones. *)
Lemma isolated_rows f c n q ctx g : ctx_partition_group ctx = Some g -> q < n ->
  execute f (isolator_new c n) q ctx =
  match g !! N.to_nat q with Some a => execute f c a ctx | None => Ok [] end.
Proof.
  intros Hg Hq. rewrite execute_isolator, Hg. unfold isolator_execute. cbn [option_map ok_or mbind res_bind partition_count iso_input].
  destruct (Nat.ltb_spec (N.to_nat n) (N.to_nat q)); [lia|]. rewrite list_lookup_fmap.
  destruct (g !! N.to_nat q); cbn; by rewrite ?N2Nat.id.
Qed.

(** The rows of the partitions that an isolator provides. *)
Lemma upto_group {T} (g : list N) (f : N -> list T) n : N.of_nat (length g) <= n ->
  (upto n ≫= fun i => match g !! N.to_nat i with Some a => f a | None => [] end) = g ≫= f.
Proof.
  intros Hn. unfold upto. assert (length g <= N.to_nat n)%nat as Hle by lia. clear Hn. revert Hle.
  generalize (N.to_nat n) as m. clear n. intros m Hle.
  assert (forall pre, (N.of_nat <$> seq (length pre) m) ≫=
    (fun i => match (pre ++ g) !! N.to_nat i with Some a => f a | None => [] end) = g ≫= f) as Hall; [|exact (Hall [])].
  revert m Hle. induction g as [|a g IH]; intros m Hle pre.
  - rewrite app_nil_r. clear Hle. assert (forall k, (length pre <= k)%nat -> (N.of_nat <$> seq k m) ≫=
      (fun i => match pre !! N.to_nat i with Some a => f a | None => [] end) = []) as Hk; [|by apply Hk].
    induction m as [|m IH]; intros k Hk; [done|]. cbn. rewrite Nat2N.id, lookup_ge_None_2 by done. cbn. apply IH. lia.
  - destruct m as [|m]; [cbn in Hle; lia|]. cbn in Hle |- *. rewrite Nat2N.id, list_lookup_middle by done. f_equal.
    rewrite cons_middle, app_assoc. replace (S (length pre)) with (length (pre ++ [a])) by (rewrite length_app; cbn; lia).
    apply IH. lia.
Qed.

(** ** Reading a stage *)

Context (Htransport : forall a l, Forall is_Ok l ->
  Forall is_Ok (omap id (transport a l)) /\ omap id (transport a l) ≫= rows_of = l ≫= rows_of).
Context (Hrng : forall id q k n, (0 < n -> rng id q k n < n)%nat).
Context `{!ProtobufLaws}.

(** What a host runs for a partition. *)
Definition host_run (f : nat) (kind : NodeKind) (node : Node) (q : N) (h : Host) : Run :=
  execute f (NodeExec kind node [isolator_new (host_input h) (provided h)]) q (host_ctx h).

Lemma host_answers f kind node h client q :
  hosts_stage kind node h -> client_addr client = host_addr h -> fits q ->
  (forall q, q < count (NodeExec kind node []) -> delivered (host_run f kind node q h)) ->
  q < count (NodeExec kind node []) ->
  exists s, do_get_from (execute f) client (ticket_for q) = Ok s /\ Forall is_Ok (omap id s) /\
    omap id s ≫= rows_of ≡ₚ rows_at (host_run f kind node q h).
Proof.
  intros (_ & _ & svc & hosted & Hsvc & Hserv & Hover & Hh) Hc Hq Hd Hlt.
  destruct (over_runs f (host_ctx h) _ _ Hover Hd q Hlt) as [(l & E & Hl) Hr].
  destruct (Htransport (host_addr h) l Hl) as [Hok Hrows].
  exists (transport (host_addr h) l). split; [|split; [done|]].
  - unfold do_get_from. rewrite Hc, Hsvc. cbn [mbind option_bind]. unfold request. rewrite bool_decide_true by done.
    cbn [flight_serv]. unfold get_stream. rewrite extract_ticket_for by done. rewrite Hh. cbn [ok_or mbind res_bind].
    unfold make_stream. cbn [inner_plan inner_ctx]. rewrite E. cbn [mbind res_bind map_err].
    do 2 f_equal. clear. unfold items. induction l as [|x l IH]; [done|]. cbn. by rewrite IH.
  - rewrite Hrows. unfold host_run. rewrite <- Hr, E. done.
Qed.

Lemma interleaving_concat {T} (ls : list (list T)) out : interleaving ls out -> out ≡ₚ concat ls.
Proof.
  induction 1 as [ls Hall|ls x l rest out Hls _ IH].
  - clear -Hall. induction Hall as [|l ls -> _ IH]; [done|exact IH].
  - rewrite IH. transitivity (concat ((x :: l) :: rest)); [done|]. clear -Hls.
    symmetry in Hls. induction Hls; cbn; [done|by f_equiv| |by etrans].
    rewrite !app_assoc. f_equiv. apply Permutation_app_comm.
Qed.

Lemma reader_reads exec ctx sid q clients ss :
  service_clients ctx !! (sid, q) = Some clients ->
  Forall2 (fun c s => do_get_from exec c (ticket_for q) = Ok s /\ Forall is_Ok (omap id s)) clients ss ->
  exists outs, stage_reader_execute (do_get_from exec) (Some ctx) sid q (reader_polls exec ctx sid q) (rng sid q) = Ok (Some outs) /\
    Forall is_Ok outs /\ (outs ≫= rows_of) ≡ₚ ss ≫= fun s => omap id s ≫= rows_of.
Proof.
  intros Hc Hss. unfold stage_reader_execute, reader_polls. rewrite Hc. cbn [ok_or mbind res_bind].
  match goal with |- context [ok_or _ ?l] => change l with (service_clients ctx !! (sid, q)) end. rewrite Hc. cbn [ok_or mbind res_bind].
  rewrite !(get_streams_ok (do_get_from exec) clients (ticket_for q) ss); [|by eapply Forall2_impl; [exact Hss|intros ?? []]].
  cbn [fst]. destruct (drain_combined_interleaving (rng sid q) (List.map flight_stream ss) (S (polls_left (List.map flight_stream ss))))
    as (outs & -> & Hi); [by intros; apply Hrng|lia|].
  exists outs. split; [done|]. apply interleaving_concat in Hi.
  assert (items <$> List.map flight_stream ss =
    List.map (fun s => List.map (map_err (fun e => Internal ("Error consuming flight stream: " +:+ e))) (omap id s)) ss) as E.
  { clear. induction ss as [|s ss IH]; [done|]. cbn. rewrite IH. f_equal. clear. unfold items, flight_stream.
    induction s as [|[x|] s IH]; cbn; [done|by rewrite IH|done]. }
  rewrite E in Hi. clear E. split.
  - rewrite Hi. apply Forall_concat, Forall_map. clear -Hss. induction Hss as [|c s cs ss [_ Hs] _ IH]; constructor; [|done].
    apply Forall_map. eapply Forall_impl; [exact Hs|]. intros x [b ->]. by eexists.
  - rewrite Hi. clear. induction ss as [|s ss IH]; [done|]. cbn. rewrite bind_app. apply Permutation_app; [|exact IH].
    apply Permutation_refl'.
    clear. induction (omap id s) as [|x l IH]; [done|]. cbn. rewrite IH. by destruct x.
Qed.

Lemma hosts_answer f kind node clients hosts q :
  fits q -> q < count (NodeExec kind node []) -> List.map client_addr clients = List.map host_addr hosts ->
  (forall h, h ∈ hosts -> hosts_stage kind node h /\
     forall q, q < count (NodeExec kind node []) -> delivered (host_run f kind node q h)) ->
  exists ss, Forall2 (fun c s => do_get_from (execute f) c (ticket_for q) = Ok s /\ Forall is_Ok (omap id s)) clients ss /\
    (ss ≫= fun s => omap id s ≫= rows_of) ≡ₚ hosts ≫= fun h => rows_at (host_run f kind node q h).
Proof.
  intros Hq Hlt. revert clients. induction hosts as [|h hosts IH]; intros [|c clients] Hc Hh; try done; [by exists []|].
  injection Hc as Hc Hcs. destruct (Hh h) as [Hs Hd]; [by left|].
  destruct (host_answers f kind node h c q Hs Hc Hq Hd Hlt) as (s & E & Hok & Hrows).
  destruct (IH clients Hcs) as (ss & Hss & Hr); [intros; apply Hh; by right|].
  exists (s :: ss). split; [by constructor|]. cbn. by apply Permutation_app.
Qed.

(** ** A distributed plan delivers the rows of the local one *)

Context (Hwith : forall p props, partitioning (with_partitioning p props) = p).
Context (Hnew : forall s p, partitioning (properties_new s p) = p).
Context (Hunknown : forall n, partitioning_count (UnknownPartitioning n) = n).

Lemma count_isolator c n : count (isolator_new c n) = n.
Proof. unfold count. cbn. by rewrite Hwith, Hunknown. Qed.

Lemma distributed_count d ctx p p' : distributed d ctx p p' -> count p' = count p.
Proof.
  induction 1 as [|d ctx p p' p'' _ IH Ho|d ctx kind node c id reader hosts _ _ Hreader];
    [done|by rewrite (over_count _ _ Ho)|].
  injection Hreader as <-. unfold count. cbn. by rewrite Hnew, Hunknown.
Qed.

Lemma node_runs f ctx kind node cs cs' :
  never_fails (NodeExec kind node cs) ->
  Forall2 (fun c c' => count c' = count c /\ runs f ctx c c') cs cs' ->
  runs f ctx (NodeExec kind node cs) (NodeExec kind node cs').
Proof.
  inversion 1 as [??? _ Hd]; subst. intros Hcs.
  assert (Forall2 outcome cs ((fun c' q => rows_at (execute f c' q ctx)) <$> cs')) as Hout.
  { apply Forall2_fmap_r. eapply Forall2_impl; [exact Hcs|]. by intros c c' (_ & _ & ?). }
  assert (Forall3 streams cs ((fun c' q => rows_at (execute f c' q ctx)) <$> cs')
    (List.map (fun c' => (count c', fun i => execute f c' i ctx)) cs')) as Hins.
  { clear -Hcs. induction Hcs as [|c c' cs cs' [Hc [Hd _]] _ IH]; constructor; [|done].
    split; [done|]. intros k Hk. split; [by apply Hd|done]. }
  split.
  - intros q Hq. rewrite execute_node. by eapply Hd.
  - eapply outcome_node; [exact Hout|exact Hins|]. intros q Hq. rewrite execute_node. split; [by eapply Hd|done].
Qed.

(** A plan that does not fail delivers one of its outcomes on one machine. *)
Lemma never_fails_runs f ctx p : never_fails p -> runs f ctx p p.
Proof.
  induction p as [| | | | |kind node cs IH] using plan_ind'; try by inversion 1.
  intros Hn. apply node_runs; [done|]. inversion Hn as [??? Hcs _]; subst.
  clear Hn. induction IH as [|c cs Hc _ IH]; [constructor|].
  apply Forall_cons in Hcs as [Hn Hcs]. constructor; [|by apply IH]. by split; [|apply Hc].
Qed.

(** A plan of nodes that depend on the rows alone has one outcome. *)
Lemma insensitive_determined p : all_insensitive p -> determined p.
Proof.
  induction p as [| | | | |kind node cs IH] using plan_ind'; try by inversion 1.
  inversion 1 as [??? Hins Hcs]; subst. intros F F' HF HF'.
  inversion HF as [??? Gs ins ? HGs Hs HFq]; subst. inversion HF' as [??? Gs' ins' ? HGs' Hs' HFq']; subst.
  intros q Hq. destruct (HFq q Hq) as [Hd <-]. destruct (HFq' q Hq) as [_ <-]. symmetry.
  apply Hins; [|done]. clear -IH Hcs HGs HGs' Hs Hs'. revert Gs' ins' IH Hcs HGs HGs' Hs'.
  induction Hs as [|c G i cs Gs ins [Hi Hg] _ IHs]; intros Gs' ins' IH Hcs HGs HGs' Hs';
    inversion Hs' as [|? G' i' ? ? ? [Hi' Hg']]; subst; [constructor|].
  apply Forall_cons in IH as [IHc IH], Hcs as [Hc Hcs]. apply Forall2_cons in HGs as [HG HGs], HGs' as [HG' HGs'].
  constructor; [|by eapply IHs]. split; [congruence|]. rewrite Hi. intros n Hn.
  destruct (Hg n Hn) as [? E], (Hg' n Hn) as [? E']. split; [done|]. split; [done|].
  rewrite E, E'. by apply (IHc Hc).
Qed.

(** ** Splitting a repartition *)

(** A repartition by row can be split, with the input as it is. *)
Lemma repartitions_splits kind node route : repartitions kind node route -> splits kind node.
Proof.
  intros Hr n f parts Hf Hparts Hrows. split.
  - eapply Forall_impl; [exact Hparts|]. intros [m g] Hg q _. by apply Hr.
  - exists f. split; [intros k Hk; by split; [apply Hf|]|]. intros q _.
    destruct (Hr n f q Hf) as [Hd E]. split; [done|]. rewrite E.
    transitivity (filter (fun r => route r = q) (parts ≫= all_rows)); [by rewrite Hrows|].
    rewrite filter_bind. apply bind_perm; [done|]. intros [m g] Hin. symmetry. apply Hr.
    rewrite Forall_forall in Hparts. by apply (Hparts _ Hin).
Qed.

(** *** When the processors of a stage agree *)

(** The input has one outcome. *)
Lemma agree_determined c hosts :
  determined c -> hosts <> [] -> hosts ≫= group ≡ₚ upto (count c) -> agree c hosts.
Proof.
  intros Hdet Hne Hgroups f Hruns. destruct hosts as [|h0 hosts]; [done|].
  exists (fun q => rows_at (execute f (host_input h0) q (host_ctx h0))). split; [apply Hruns; by left|].
  intros h a Hh Ha. destruct (Hruns h Hh) as [_ Ho]. destruct (Hruns h0) as [_ Ho0]; [by left|].
  apply (Hdet _ _ Ho Ho0).
  apply elem_of_upto. rewrite <- Hgroups. apply list_elem_of_bind. by exists h.
Qed.

(** One processor has all the partitions of the input. *)
Lemma agree_one c h hosts :
  h ∈ hosts -> (forall h', h' ∈ hosts -> h' = h \/ group h' = []) -> agree c hosts.
Proof.
  intros Hh Hothers f Hruns. exists (fun q => rows_at (execute f (host_input h) q (host_ctx h))).
  split; [by apply Hruns|]. intros h' a Hh' Ha. destruct (Hothers h' Hh') as [->|E]; [done|].
  rewrite E in Ha. by apply not_elem_of_nil in Ha.
Qed.

(** The sessions have clients for the same processors, on connections of their own. *)
Definition same_readers (ctx ctx' : Ctx) : Prop := forall k,
  option_map (List.map client_addr) (service_clients ctx !! k) =
  option_map (List.map client_addr) (service_clients ctx' !! k).

Fixpoint isolator_free (p : Plan) : bool :=
  match p with
  | PartitionIsolatorExec _ _ _ => false
  | DFRayStageReaderExec _ _ _ => true
  | DFRayStageExec c _ _ | MaxRowsExec c _ | PrefetchExec c _ _ => isolator_free c
  | NodeExec _ _ cs => forallb isolator_free cs
  end.

Lemma get_streams_addrs exec cs cs' ticket : List.map client_addr cs = List.map client_addr cs' ->
  get_streams (do_get_from exec) cs ticket = get_streams (do_get_from exec) cs' ticket.
Proof.
  revert cs'. induction cs as [|c cs IH]; intros [|c' cs'] E; try done. injection E as Ec E.
  cbn [get_streams]. rewrite (IH cs' E). unfold do_get_from. by rewrite Ec.
Qed.

Lemma reader_same_readers f props schema id q ctx ctx' : same_readers ctx ctx' ->
  execute f (DFRayStageReaderExec props schema id) q ctx = execute f (DFRayStageReaderExec props schema id) q ctx'.
Proof.
  intros Hs. destruct f as [|f]; [done|]. cbn [execute]. unfold stage_reader_execute, reader_polls.
  cbn [ok_or mbind res_bind]. specialize (Hs (id, q)).
  destruct (service_clients ctx !! (id, q)) as [cs|], (service_clients ctx' !! (id, q)) as [cs'|]; try done.
  injection Hs as E. cbn [ok_or mbind res_bind]. by rewrite (get_streams_addrs _ cs cs' _ E).
Qed.

(** Below the isolator, the session matters for the addresses that the readers read. *)
Context (Hext : forall kind node ins ins' q,
  Forall2 (fun i i' => i.1 = i'.1 /\ forall k, i.2 k = i'.2 k) ins ins' ->
  node_execute kind node ins q = node_execute kind node ins' q).

Lemma execute_same_readers f p ctx ctx' : isolator_free p = true -> same_readers ctx ctx' ->
  forall q, execute f p q ctx = execute f p q ctx'.
Proof.
  intros Hp Hs. induction p as [|props schema id|c props n IH|c n IH|c n props IH|kind node cs IH] using plan_ind';
    intros q; cbn in Hp.
  - by destruct f.
  - by apply reader_same_readers.
  - done.
  - rewrite !execute_max_rows. unfold max_rows_execute. cbn [input max_rows]. by rewrite IH.
  - assert (forall ctx, execute f (PrefetchExec c n props) q ctx =
      (_ ← prefetch_execute n ([] : Items); execute f c q ctx)) as E by by destruct f.
    by rewrite !E, IH.
  - rewrite !execute_node. apply Hext, Forall2_fmap, Forall_Forall2_diag, Forall_forall.
    intros c Hc. split; [done|]. cbn. rewrite Forall_forall in IH. apply IH; [done|].
    rewrite forallb_forall in Hp. by apply Hp, list_elem_of_In.
Qed.

(** All processors have the same input and read its stages from the same processors, as those
    that a coordinator sends one plan to. *)
Lemma agree_same c c' h hosts :
  h ∈ hosts -> isolator_free c' = true ->
  (forall h', h' ∈ hosts -> host_input h' = c' /\ same_readers (host_ctx h') (host_ctx h)) -> agree c hosts.
Proof.
  intros Hh Hfree Hsame f Hruns. exists (fun q => rows_at (execute f (host_input h) q (host_ctx h))).
  split; [by apply Hruns|]. intros h' a Hh' _. destruct (Hsame h' Hh') as [-> Hr], (Hsame h Hh) as [-> _].
  by rewrite (execute_same_readers f c' _ _ Hfree Hr).
Qed.

(** ** Reading a stage, whole *)

(** What the isolator gives to the node on a processor. *)
Definition isolated (f : nat) (h : Host) : N * (N -> Run) :=
  (provided h, fun i => execute f (isolator_new (host_input h) (provided h)) i (host_ctx h)).

Lemma isolated_part f h kind node :
  hosts_stage kind node h -> (forall a, a ∈ group h -> delivered (execute f (host_input h) a (host_ctx h))) ->
  delivers (isolated f h) /\
  all_rows (isolated f h) ≡ₚ group h ≫= fun a => rows_at (execute f (host_input h) a (host_ctx h)).
Proof.
  intros (Hlen & Hg & _) Hd. split.
  - intros i Hi. cbn in Hi |- *. rewrite (isolated_rows _ _ _ _ _ _ Hg Hi).
    destruct (group h !! N.to_nat i) as [a|] eqn:E; [|by exists []]. by eapply Hd, list_elem_of_lookup_2.
  - rewrite <- (upto_group (group h) _ (provided h) Hlen). unfold all_rows. cbn [isolated fst snd].
    apply bind_perm; [done|]. intros i Hi%elem_of_upto.
    rewrite (isolated_rows _ _ _ _ _ _ Hg Hi). by destruct (group h !! N.to_nat i).
Qed.

(** The partitions of the input, each from the processor that has it. *)
Lemma owned_runs n hosts (run : Host -> N -> Run) (F : N -> list Row) :
  (forall h a, h ∈ hosts -> a ∈ group h -> delivered (run h a) /\ rows_at (run h a) ≡ₚ F a) ->
  hosts ≫= group ≡ₚ upto n ->
  exists own, (forall a, a < n -> delivered (own a) /\ rows_at (own a) ≡ₚ F a) /\
    (hosts ≫= fun h => group h ≫= fun a => rows_at (run h a)) ≡ₚ all_rows (n, own).
Proof.
  intros Hrun Hgroups.
  set (own a := match list_find (fun h => a ∈ group h) hosts with Some (_, h) => run h a | None => Ok [] end).
  assert (forall a, a < n -> delivered (own a) /\ rows_at (own a) ≡ₚ F a) as Hown.
  { intros a Ha. unfold own. destruct (list_find _ hosts) as [[k h]|] eqn:E.
    - apply list_find_Some in E as (Hk%list_elem_of_lookup_2 & Hg & _). by apply Hrun.
    - apply list_find_None in E. apply elem_of_upto in Ha. rewrite <- Hgroups in Ha.
      apply list_elem_of_bind in Ha as (h & Ha & Hh). rewrite Forall_forall in E. by destruct (E h Hh). }
  exists own. split; [done|]. unfold all_rows. cbn [fst snd]. rewrite <- Hgroups, bind_bind.
  apply bind_perm; [done|]. intros h Hh. apply bind_perm; [done|]. intros a Ha.
  destruct (Hrun h a Hh Ha) as [_ ->]. symmetry. apply Hown, elem_of_upto. rewrite <- Hgroups.
  apply list_elem_of_bind. by exists h.
Qed.

(** The node on the processors sends an outcome of the stage. *)
Lemma stage_runs f kind node c hosts :
  splits kind node -> agree c hosts -> (forall h, h ∈ hosts -> hosts_stage kind node h) ->
  (forall h, h ∈ hosts -> runs f (host_ctx h) c (host_input h)) -> hosts ≫= group ≡ₚ upto (count c) ->
  (forall h q, h ∈ hosts -> q < count (NodeExec kind node []) -> delivered (host_run f kind node q h)) /\
  outcome (NodeExec kind node [c]) (fun q => hosts ≫= fun h => rows_at (host_run f kind node q h)).
Proof.
  intros Hsplit Hagree Hhosts Hruns Hgroups.
  set (run h a := execute f (host_input h) a (host_ctx h)).
  destruct (Hagree f Hruns) as (F & HF & HG).
  assert (forall h a, h ∈ hosts -> a ∈ group h -> delivered (run h a) /\ rows_at (run h a) ≡ₚ F a) as Hrun.
  { intros h a Hh Ha. split; [|by apply HG].
    apply Hruns; [done|]. apply elem_of_upto. rewrite <- Hgroups. apply list_elem_of_bind. by exists h. }
  destruct (owned_runs (count c) hosts run F Hrun Hgroups) as (own & Hown & Hall).
  assert (forall h, h ∈ hosts -> delivers (isolated f h) /\
    all_rows (isolated f h) ≡ₚ group h ≫= fun a => rows_at (run h a)) as Hiso.
  { intros h Hh. apply (isolated_part f h kind node); [by apply Hhosts|]. intros a Ha. by apply Hrun. }
  destruct (Hsplit (count c) own (isolated f <$> hosts)) as (Hd & f' & Hf' & Hout).
  { intros a Ha. by apply Hown. }
  { apply Forall_fmap, Forall_forall. intros h Hh. by apply Hiso. }
  { rewrite list_fmap_bind, <- Hall. apply bind_perm; [done|]. intros h Hh. by apply Hiso. }
  rewrite Forall_fmap, Forall_forall in Hd.
  assert (forall q h, host_run f kind node q h = node_execute kind node [isolated f h] q) as Ehost.
  { intros q h. unfold host_run. rewrite execute_node. cbn [List.map]. by rewrite count_isolator. }
  split; [intros h q Hh Hq; rewrite Ehost; by apply Hd|].
  eapply (outcome_node kind node [c] [F] [(count c, f')]);
    [by repeat constructor|constructor; [split; [done|]|constructor]|].
  - cbn. intros k Hk. destruct (Hf' k Hk) as [? E]. split; [done|]. rewrite E. by apply Hown.
  - intros q Hq. destruct (Hout q Hq) as [? E]. split; [done|]. rewrite E, list_fmap_bind.
    apply bind_perm; [done|]. intros h _. cbn. by rewrite Ehost.
Qed.

Lemma outcome_perm p F F' : outcome p F -> (forall q, q < count p -> F q ≡ₚ F' q) -> outcome p F'.
Proof.
  intros [kind node cs Gs ins F0 HGs Hs HF] HF'. eapply outcome_node; [exact HGs|exact Hs|].
  intros q Hq. destruct (HF q Hq) as [? E]. split; [done|]. rewrite E. by apply HF'.
Qed.

(** A reader of a stage delivers what its processors send. *)
Lemma reader_runs f ctx kind node c id reader hosts :
  try_new_from_input (NodeExec kind node [c]) id = Ok reader ->
  count (NodeExec kind node [c]) <= u64_modulus ->
  (forall q, q < count (NodeExec kind node [c]) -> exists clients,
     service_clients ctx !! (id, q) = Some clients /\ List.map client_addr clients = List.map host_addr hosts) ->
  (forall h, h ∈ hosts -> hosts_stage kind node h) ->
  (forall h q, h ∈ hosts -> q < count (NodeExec kind node []) -> delivered (host_run f kind node q h)) ->
  forall q, q < count (NodeExec kind node [c]) -> delivered (execute (S f) reader q ctx) /\
    rows_at (execute (S f) reader q ctx) ≡ₚ hosts ≫= fun h => rows_at (host_run f kind node q h).
Proof.
  intros Hreader Hfits Hclients Hhosts Hd q Hq. injection Hreader as <-.
  destruct (Hclients q Hq) as (clients & Hc & Haddrs).
  destruct (hosts_answer f kind node clients hosts q) as (ss & Hss & Ess); [unfold fits; lia|done|done|by auto|].
  destruct (reader_reads (execute f) ctx id q clients ss Hc Hss) as (outs & E & Hok & Hout).
  match goal with |- delivered (execute _ ?reader _ _) /\ _ => change (execute (S f) reader q ctx) with
    (out ← stage_reader_execute (do_get_from (execute f)) (Some ctx) id q
       (reader_polls (execute f) ctx id q) (rng id q); Ok (default cut_off out)) end.
  rewrite E. cbn [mbind res_bind default]. split; [by exists outs|]. cbn [rows_at]. by rewrite Hout.
Qed.

Lemma distributed_runs d ctx p p' : distributed d ctx p p' -> never_fails p ->
  forall fuel, (d <= fuel)%nat -> runs fuel ctx p p'.
Proof.
  induction 1 as [d ctx kind node cs cs' Hlen Hcs IH|d ctx p p' p'' Hdist IH Ho
    |d ctx kind node c id reader hosts Hsplit Hcomb Hreader Hfits Hclients Hhosts Hin IH Hgroups];
    intros Hn fuel Hfuel.
  - apply node_runs; [done|]. inversion Hn as [??? Hns _]; subst. rewrite Forall_lookup in Hns.
    apply Forall2_same_length_lookup. split; [done|]. intros i c c' Hc Hc'.
    split; [by eapply distributed_count, Hcs|]. by eapply IH; eauto.
  - destruct (IH Hn fuel Hfuel) as [Hd Hout]. pose proof (distributed_count _ _ _ _ Hdist) as Hc.
    rewrite <- Hc in Hd. pose proof (over_runs fuel ctx _ _ Ho Hd) as Hsame. rewrite Hc in Hsame.
    split; [intros q Hq; by apply Hsame|]. eapply outcome_perm; [exact Hout|]. intros q Hq. symmetry. by apply Hsame.
  - destruct fuel as [|fuel]; [lia|]. inversion Hn as [??? Hns _]; subst. apply Forall_cons in Hns as [Hnc _].
    destruct (stage_runs fuel kind node c hosts) as [Hd Hout]; [done..| |done|].
    { intros h Hh. apply IH; [done|done|lia]. }
    pose proof (reader_runs fuel ctx kind node c id reader hosts Hreader Hfits Hclients Hhosts Hd) as Hr.
    split; [intros q Hq; by apply Hr|]. eapply outcome_perm; [exact Hout|]. intros q Hq. symmetry. by apply Hr.
Qed.

(** C7: a distributed plan delivers what the plan may deliver that was not cut.  Let a plan be
    given in which no node fails, whatever the order and batches of its inputs.  Repartitions
    in it, at any depth, are replaced by readers of stages; each stage is served by any number
    of processors that run the repartition over an isolator, under limits on the rows of a
    batch, coalesced batches and prefetches, and these may be anywhere else in the plan too.
    Two things are assumed: that the cut repartitions can be split ([splits]), as those by row
    and in turns can, and that the processors of a stage agree on its input ([agree]), as when
    all have the same plan and clients, or one has all the partitions.  Then every partition of
    the distributed plan is delivered to its end without an error, and all together are an
    outcome of the plan that was not cut: rows that its nodes deliver for some order and
    batches of the streams between them.  The local run is an outcome too; so where there is
    just one, every partition has exactly the rows of the local run.  This holds however the
    partitions of the inputs are divided among the processors, for every order in which a
    reader polls the streams, and whatever batches and delays the connections make of them. *)
Theorem distributed_plan_delivers depth ctx p p' fuel :
  distributed depth ctx p p' -> never_fails p -> (depth <= fuel)%nat ->
  (forall q, q < count p -> delivered (execute fuel p' q ctx)) /\
  outcome p (fun q => rows_at (execute fuel p' q ctx)) /\
  outcome p (fun q => rows_at (local p q)) /\
  (determined p -> forall q, q < count p -> same_rows (local p q) (execute fuel p' q ctx)).
Proof.
  intros Hd Hn Hfuel. destruct (distributed_runs _ _ _ _ Hd Hn fuel Hfuel) as [Hall Hout].
  destruct (never_fails_runs 0 (mkCtx ∅ None default_stores) p Hn) as [_ Hlocal].
  split; [done|]. split; [done|]. split; [done|]. intros Hdet q Hq. split; [by apply Hall|].
  by apply (Hdet _ _ Hout Hlocal).
Qed.

End execute.

(** ** A concrete cluster

    Nodes on rows of numbers: a scan of partitions of two rows, a repartition by the value
    modulo the number of partitions, one that deals batches out in turns, one that coalesces
    the batches of a partition, one that gathers its input into one partition, and a limit. *)
Module ExampleCluster.
Import ProtobufWire.
#[export] Existing Instance RowArrow.arrow.
#[export] Existing Instance RowArrow.arrow_laws.

Inductive RowNode := Scan (partitions : N) | Route (partitions : N) | Deal (partitions : N)
  | Coalesce (partitions : N) | Gather | Limit (rows : nat).

#[export] Instance data_fusion : DataFusion := {|
  Schema := unit; Partitioning := N; partitioning_count p := p; UnknownPartitioning n := n;
  PlanProperties := N; partitioning p := p; with_partitioning p _ := p; properties_new _ p := p;
  Node := RowNode;
  node_properties n := match n with Scan n | Route n | Deal n | Coalesce n => n | Gather | Limit _ => 1 end;
|}.

Abbreviation Run := (res DataFusionError (list (res DataFusionError Batch))).

Definition batch (l : list (list N)) : Batch := {| RowArrow.b_schema := ["a"]; RowArrow.b_rows := l |}.

(** All partitions of an input, one after the other. *)
Fixpoint run_all (l : list N) (f : N -> Run) : Run :=
  match l with
  | [] => Ok []
  | i :: l => items ← f i; rest ← run_all l f; Ok (items ++ rest)
  end.

Definition route (n : N) (row : Row) : N := default 0 (head (row : list N)) mod n.

(** The rows of the batches whose turn is [q], the first of them having the number [j]. *)
Fixpoint deal (n q j : N) (l : list (res DataFusionError Batch)) : list Row :=
  match l with
  | [] => []
  | r :: l => (if q =? j mod n then rows_of r else []) ++ deal n q (j + 1) l
  end.

(** One batch of some of the rows of a stream, unless it has an error. *)
Definition all_ok (l : list (res DataFusionError Batch)) : bool :=
  forallb (fun r => match r with Ok _ => true | _ => false end) l.
Definition one_batch (run : Run) (select : list (res DataFusionError Batch) -> list Row) : Run :=
  l ← run; if all_ok l then Ok [Ok (batch (select l))] else Ok l.

Definition node_execute (_ : NodeKind) (node : RowNode) (ins : list (N * (N -> Run))) (q : N) : Run :=
  match node, ins with
  | Scan _, [] => Ok [Ok (batch [[q]; [q + 10]])]
  | Route n, [(m, f)] =>
      one_batch (run_all (upto m) f) (fun l => filter (fun r => route n r = q) ((l ≫= rows_of) : list Row))
  | Deal n, [(m, f)] => one_batch (run_all (upto m) f) (deal n q 0)
  | Coalesce _, [(_, f)] => one_batch (f q) (fun l => l ≫= rows_of)
  | Gather, [(m, f)] => run_all (upto m) f
  | Limit k, [(m, f)] => one_batch (run_all (upto m) f) (fun l => take k (l ≫= rows_of))
  | _, _ => Err (Internal "Wrong number of children")
  end.

(** *** What the nodes do *)

Lemma run_all_delivered l (f : N -> Run) : (forall i, i ∈ l -> delivered (f i)) ->
  delivered (run_all l f) /\ rows_at (run_all l f) = l ≫= fun i => rows_at (f i).
Proof.
  induction l as [|i l IH]; intros Hf; [by split; [exists []|]|].
  destruct (Hf i) as (items & E & Hi); [by left|].
  destruct IH as [(rest & E' & Hr) Hrows]; [intros; apply Hf; by right|].
  cbn [run_all]. rewrite bind_cons, <- Hrows, E, E'. cbn. split; [eexists; split; [done|by apply Forall_app]|].
  by rewrite bind_app.
Qed.

Lemma run_input m (f : N -> Run) : delivers (m, f) ->
  delivered (run_all (upto m) f) /\ rows_at (run_all (upto m) f) = all_rows (m, f).
Proof. intros Hf. apply run_all_delivered. intros i Hi%elem_of_upto. by apply Hf. Qed.

Lemma all_ok_true l : Forall is_Ok l -> all_ok l = true.
Proof. induction 1 as [|r l [b ->] _ IH]; [done|exact IH]. Qed.

Lemma one_batch_delivered (run : Run) select l : run = Ok l -> Forall is_Ok l ->
  delivered (one_batch run select) /\ rows_at (one_batch run select) = select l.
Proof.
  intros -> Hl. unfold one_batch. cbn. rewrite all_ok_true by done.
  split; [eexists; split; [done|by repeat econstructor]|]. cbn. by rewrite app_nil_r.
Qed.

Lemma route_repartitions kind n : repartitions node_execute kind (Route n) (route n).
Proof.
  intros m f q Hf. destruct (run_input m f Hf) as [(l & E & Hl) Hr]. rewrite E in Hr. cbn [rows_at] in Hr.
  cbn [node_execute].
  destruct (one_batch_delivered _ (fun l => filter (fun r => route n r = q) ((l ≫= rows_of) : list Row)) l E Hl)
    as [Hd ->]. by rewrite Hr.
Qed.

Lemma coalesce_keeps_rows kind n : keeps_rows node_execute kind (Coalesce n).
Proof.
  intros m f q Hq Hf. destruct (Hf q Hq) as (l & E & Hl). cbn [snd] in E. cbn [node_execute].
  destruct (one_batch_delivered (f q) (fun l => l ≫= rows_of) l E Hl) as [Hd Hrows].
  split; [done|]. by rewrite Hrows, E.
Qed.

(** A node looks at its input only through the streams. *)
Lemma run_all_ext l (f f' : N -> Run) : (forall k, f k = f' k) -> run_all l f = run_all l f'.
Proof. intros Hf. induction l as [|k l IH]; [done|]. cbn [run_all]. by rewrite Hf, IH. Qed.

Lemma node_execute_ext kind node ins ins' q :
  Forall2 (fun i i' => i.1 = i'.1 /\ forall k, i.2 k = i'.2 k) ins ins' ->
  node_execute kind node ins q = node_execute kind node ins' q.
Proof.
  intros Hins. destruct Hins as [|[m f] [m' f'] ins ins' [Hm Hf] Hins]; [done|]. cbn in Hm, Hf. subst m'.
  destruct Hins; destruct node; try done; cbn [node_execute]; by rewrite ?Hf, ?(run_all_ext _ f f' Hf).
Qed.

(** No node of one input fails when its input does not. *)
Lemma never_fails_input kind node c :
  never_fails node_execute c ->
  match node with Route _ | Deal _ | Gather | Limit _ => True | _ => False end ->
  never_fails node_execute (NodeExec kind node [c]).
Proof.
  intros Hc Hnode. constructor; [by constructor|]. intros Gs ins q _ Hins _.
  inversion Hins as [|? G [m f] ? ? ? [Hm Hf] Hnil]; subst. inversion Hnil; subst. cbn in Hm, Hf. subst m.
  destruct (run_input (count c) f) as [(l & E & Hl) _]; [intros k Hk; by apply Hf|].
  destruct node; try done; cbn [node_execute]; try (by eapply one_batch_delivered). by exists l.
Qed.

Lemma never_fails_scan kind n : never_fails node_execute (NodeExec kind (Scan n) []).
Proof.
  constructor; [constructor|]. intros Gs ins q _ Hins _. inversion Hins; subst.
  eexists. split; [done|]. by repeat econstructor.
Qed.

(** *** Dealing in turns can be split *)

Lemma upto_NoDup n : NoDup (upto n).
Proof. apply NoDup_fmap_2; [intros ??; lia|apply NoDup_seq]. Qed.

Lemma deal_all n j l : 0 < n -> (upto n ≫= fun q => deal n q j l) ≡ₚ l ≫= rows_of.
Proof.
  intros Hn. revert j. induction l as [|r l IH]; intros j; cbn [deal].
  - by induction (upto n).
  - rewrite bind_app_perm, IH, bind_cons. apply Permutation_app; [|done].
    rewrite (bind_pick (j mod n) (fun _ => rows_of r)); [done|apply upto_NoDup|].
    by apply elem_of_upto, N.mod_lt; lia.
Qed.

Lemma deal_app n q j l l' : deal n q j (l ++ l') = deal n q j l ++ deal n q (j + N.of_nat (length l)) l'.
Proof.
  revert j. induction l as [|r l IH]; intros j; cbn [deal app length]; [by rewrite N.add_0_r|].
  rewrite IH, (assoc_L (++)). do 2 f_equal. lia.
Qed.

(** A round of batches, each of the rows for its turn. *)
Definition block (n : N) (x : Row * N) : list (res DataFusionError Batch) :=
  (fun i => Ok (batch (if i =? x.2 then [x.1] else []))) <$> upto n.

Lemma deal_round n q s m (g : N -> res DataFusionError Batch) j : (s + m <= N.to_nat n)%nat -> q < n ->
  j mod n = 0 ->
  deal n q (j + N.of_nat s) (g <$> (N.of_nat <$> seq s m)) =
    if decide (s <= N.to_nat q < s + m)%nat then rows_of (g q) else [].
Proof.
  intros Hs Hq Hj. revert s Hs. induction m as [|m IH]; intros s Hs; cbn [seq fmap list_fmap deal].
  { by rewrite decide_False by lia. }
  replace (j + N.of_nat s + 1) with (j + N.of_nat (S s)) by lia. unfold fmap in IH. rewrite IH by lia.
  rewrite <- N.Div0.add_mod_idemp_l, Hj, N.add_0_l, N.mod_small by lia.
  destruct (N.eqb_spec q (N.of_nat s)) as [->|Hne].
  - rewrite (decide_False (P := (S s <= _ < _)%nat)) by lia. rewrite decide_True by lia. apply app_nil_r.
  - apply decide_ext. lia.
Qed.

Lemma deal_blocks n q j T : q < n -> j mod n = 0 ->
  deal n q j (T ≫= block n) = T ≫= fun x => if q =? x.2 then [x.1] else [].
Proof.
  intros Hq. revert j. induction T as [|x T IH]; intros j Hj; [done|]. rewrite !bind_cons, deal_app.
  assert (length (block n x) = N.to_nat n) as -> by (unfold block, upto; by rewrite !length_fmap, length_seq).
  rewrite N2Nat.id, IH by (rewrite <- N.Div0.add_mod_idemp_l, Hj, N.add_0_l; by apply N.Div0.mod_same).
  f_equal. pose proof (deal_round n q 0 (N.to_nat n) (fun i => Ok (batch (if i =? x.2 then [x.1] else []))) j) as Hd.
  rewrite N.add_0_r in Hd. unfold block, upto. rewrite Hd by lia. by rewrite decide_True by lia.
Qed.

Lemma block_rows n x : x.2 < n -> block n x ≫= rows_of = [x.1].
Proof.
  intros Hx. unfold block. rewrite list_fmap_bind. apply (bind_pick x.2 (fun _ => [x.1])); [apply upto_NoDup|].
  by apply elem_of_upto.
Qed.

Lemma run_all_Ok l h : run_all l (fun k => Ok (h k)) = Ok (l ≫= h).
Proof. induction l as [|k l IH]; [done|]. cbn [run_all]. by rewrite IH. Qed.

(** Rows with turns can be put into batches that are dealt out like that. *)
Lemma deal_as n m (f : N -> Run) (T : list (Row * N)) :
  T.*1 = all_rows (m, f) -> Forall (fun x => x.2 < n) T -> delivers (m, f) ->
  exists f', (forall k, k < m -> same_rows (f k) (f' k)) /\ forall q kind, q < n ->
    delivered (node_execute kind (Deal n) [(m, f')] q) /\
    rows_at (node_execute kind (Deal n) [(m, f')] q) = T ≫= fun x => if q =? x.2 then [x.1] else [].
Proof.
  intros HT Hlt Hf. destruct (split_over (upto m) (fun k => rows_at (f k)) T) as (g & Hg & Hrows).
  { apply upto_NoDup. }
  { exact HT. }
  assert (forall k, k < m -> (g k ≫= block n) ≫= rows_of = rows_at (f k)) as Hk.
  { intros k Hk. rewrite <- Hrows by by apply elem_of_upto.
    assert (Forall (fun x => x.2 < n) (g k)) as Hgk.
    { apply Forall_forall. intros x Hx. rewrite Forall_forall in Hlt. apply Hlt. rewrite <- Hg.
      apply list_elem_of_bind. exists k. split; [done|]. by apply elem_of_upto. }
    clear -Hgk. induction Hgk as [|x l Hx _ IH]; [done|]. by rewrite bind_cons, bind_app, IH, block_rows. }
  exists (fun k => Ok (g k ≫= block n)). split.
  - intros k Hm. split; [|cbn; by rewrite Hk]. eexists. split; [done|]. apply Forall_bind, Forall_true.
    intros x. apply Forall_fmap, Forall_true. intros i. by eexists.
  - intros q kind Hq. cbn [node_execute]. rewrite run_all_Ok, <- bind_bind, Hg.
    rewrite <- (deal_blocks n q 0) by (done || apply N.Div0.mod_0_l).
    apply one_batch_delivered; [done|]. apply Forall_bind, Forall_true. intros x.
    apply Forall_fmap, Forall_true. intros i. by eexists.
Qed.

Lemma deal_rows kind n i q : delivers i -> delivered (node_execute kind (Deal n) [i] q) /\
  exists l, rows_at (node_execute kind (Deal n) [i] q) = deal n q 0 l /\ l ≫= rows_of = all_rows i /\
    run_all (upto i.1) i.2 = Ok l.
Proof.
  destruct i as [m f]. intros Hf. destruct (run_input m f Hf) as [(l & E & Hl) Hr]. rewrite E in Hr.
  cbn [node_execute]. destruct (one_batch_delivered _ (deal n q 0) l E Hl) as [Hd Hrows]. split; [done|].
  by exists l.
Qed.

(** Rows with the turns in which they are sent. *)
Definition turns (sent : N -> list Row) (qs : list N) : list (Row * N) := qs ≫= fun q => (fun r => (r, q)) <$> sent q.

Lemma turns_rows sent qs : (turns sent qs).*1 = qs ≫= sent.
Proof.
  unfold turns. induction qs as [|q qs IH]; [done|]. rewrite !bind_cons, fmap_app, IH. f_equal.
  rewrite <- list_fmap_compose. apply list_fmap_id.
Qed.

Lemma turns_pick sent n q : q < n -> (turns sent (upto n) ≫= fun x => if q =? x.2 then [x.1] else []) = sent q.
Proof.
  intros Hq. unfold turns. rewrite bind_bind, <- (bind_pick q sent (upto n)); [|apply upto_NoDup|by apply elem_of_upto].
  induction (upto n) as [|q' qs IH]; [done|]. rewrite !bind_cons, IH. f_equal. rewrite (N.eqb_sym q').
  clear. rewrite list_fmap_bind. induction (sent q') as [|r l IH]; [by destruct (q =? q')|].
  rewrite bind_cons, IH. cbn. by destruct (q =? q').
Qed.

(** Dealing in turns can be split: there are batches of the input for which one node deals the
    rows as several did. *)
Lemma deal_splits kind n : 0 < n -> splits node_execute kind (Deal n).
Proof.
  intros Hn m f parts Hf Hparts Hrows. rewrite Forall_forall in Hparts. split.
  { apply Forall_forall. intros i Hi q _. by apply deal_rows, Hparts. }
  set (sent q := parts ≫= fun i => rows_at (node_execute kind (Deal n) [i] q)).
  assert (upto n ≫= sent ≡ₚ all_rows (m, f)) as Hsent.
  { rewrite <- Hrows. unfold sent. rewrite bind_swap. apply bind_perm; [done|]. intros i Hi.
    destruct (deal_rows kind n i 0 (Hparts i Hi)) as (_ & l & _ & <- & E). rewrite <- (deal_all n 0 l Hn).
    apply bind_perm; [done|]. intros q _.
    destruct (deal_rows kind n i q (Hparts i Hi)) as (_ & l' & -> & _ & E'). by rewrite E in E'; injection E' as <-. }
  set (T := turns sent (upto n)).
  assert (T.*1 = upto n ≫= sent) as HT.
  { apply turns_rows. }
  rewrite <- HT in Hsent. symmetry in Hsent. apply Permutation_map_inv in Hsent as (T' & HT' & Hperm).
  destruct (deal_as n m f T') as (f' & Hsame & Hdeal); [done| |done|].
  { apply Forall_forall. intros x Hx. rewrite <- Hperm in Hx. apply list_elem_of_bind in Hx as (q & Hx & Hq).
    apply list_elem_of_fmap in Hx as (r & -> & _). by apply elem_of_upto. }
  exists f'. split; [done|]. intros q Hq. destruct (Hdeal q kind Hq) as [Hd E]. split; [done|]. rewrite E.
  fold (sent q). rewrite <- Hperm. unfold T. by rewrite turns_pick.
Qed.

(** *** A plan in three stages

    Two processors share the partitions of a scan and deal its rows out, under coalesced and
    limited batches; two others read these and send every row where it belongs; and four rows
    of what they send are taken at the end. *)
Definition scan : Plan := NodeExec OtherExec (Scan 3) [].
Definition dealt : Plan := NodeExec RepartitionExec (Deal 2) [scan].
Definition whole : Plan := NodeExec OtherExec (Limit 4) [NodeExec OtherExec Gather [NodeExec RepartitionExec (Route 2) [dealt]]].
Definition reader (id : N) : Plan := DFRayStageReaderExec 2 tt id.
Definition cut : Plan := NodeExec OtherExec (Limit 4) [NodeExec OtherExec Gather [MaxRowsExec (reader 8) 1]].

Definition dealers : list Host :=
  [mkHost "a" scan 2 (mkCtx ∅ (Some [0; 2]) default_stores) [0; 2];
   mkHost "b" scan 1 (mkCtx ∅ (Some [1]) default_stores) [1]].
Definition clients_of (stage : N) (cs : list FlightClient) : gmap (N * N) (list FlightClient) :=
  {[(stage, 0) := cs; (stage, 1) := cs]}.
Definition router (addr : string) (clients : list FlightClient) (partition : N) : Host :=
  mkHost addr (reader 7) 1 (mkCtx (clients_of 7 clients) (Some [partition]) default_stores) [partition].
Definition routers : list Host :=
  [router "c" [mkClient "a" 0; mkClient "b" 1] 0; router "d" [mkClient "a" 1; mkClient "b" 0] 1].
Definition ctx : Ctx := mkCtx (clients_of 8 [mkClient "c" 0; mkClient "d" 1]) None default_stores.

Definition dealing (h : Host) : Plan :=
  MaxRowsExec (NodeExec OtherExec (Coalesce 2)
    [NodeExec RepartitionExec (Deal 2) [isolator_new (host_input h) (provided h)]]) 1.
Definition routing (h : Host) : Plan := NodeExec RepartitionExec (Route 2) [isolator_new (host_input h) (provided h)].
Definition service (hosted : Host -> Plan) (h : Host) : string * DFRayProcessorService :=
  (host_addr h, mkProcessorService "[p]" None (Some (mkInner (hosted h) (host_ctx h))) (Some (host_addr h)) 0 Serving (Some (host_addr h))).
Definition services : gmap string DFRayProcessorService :=
  list_to_map (List.map (service dealing) dealers ++ List.map (service routing) routers).

(** Every stream is not ready at first. *)
Definition transport (_ : string) (l : list (res DataFusionError Batch)) : list (option (res string Batch)) :=
  None :: List.map (fun r => Some (map_err (fun _ => "error") r)) l.
Definition rng (id q : N) (k n : nat) : nat := (k mod n)%nat.

Abbreviation run := (execute node_execute transport rng (fun _ => "error") (fun _ => "error") services).
Abbreviation distributed_here :=
  (distributed node_execute transport rng (fun _ => "error") (fun _ => "error") services (fun _ => tt)).

Lemma transport_keeps a l : Forall is_Ok l ->
  Forall is_Ok (omap id (transport a l)) /\ omap id (transport a l) ≫= rows_of = l ≫= rows_of.
Proof.
  induction 1 as [|r l [b ->] _ [IH1 IH2]]; [done|]. cbn. split; [by repeat econstructor|].
  f_equal. exact IH2.
Qed.

Lemma clients_of_addrs stage cs cs' k : List.map client_addr cs = List.map client_addr cs' ->
  option_map (List.map client_addr) (clients_of stage cs !! k) =
  option_map (List.map client_addr) (clients_of stage cs' !! k).
Proof.
  intros E. change (List.map client_addr <$> clients_of stage cs !! k = List.map client_addr <$> clients_of stage cs' !! k).
  rewrite <- !lookup_fmap. unfold clients_of. by rewrite !fmap_insert, !map_fmap_singleton, E.
Qed.

Lemma elem_of_pair {A} (x y z : A) : x ∈ [y; z] -> x = y \/ x = z.
Proof. set_solver. Qed.

Lemma scan_itself d ctx : distributed_here d ctx scan scan.
Proof. apply distributed_node; [done|]. by intros []. Qed.

(** The dealers agree on the scan, which has one outcome. *)
Lemma dealt_distributed h : h ∈ routers -> distributed_here 1 (host_ctx h) dealt (host_input h).
Proof.
  intros Hh. assert (host_input h = reader 7) as -> by
    by apply elem_of_pair in Hh as [-> | ->].
  apply (distributed_stage _ _ _ _ _ _ _ 0 _ _ _ scan 7 _ dealers).
  - by apply deal_splits.
  - apply agree_determined; [|done|vm_compute; solve_Permutation].
    apply insensitive_determined. constructor; [|constructor].
    intros ins ins' q Hins Hd. inversion Hins; subst; [by split|]. by destruct Hd as (? & ? & _).
  - done.
  - by vm_compute.
  - intros q Hq. change (q < 2) in Hq. assert (q = 0 \/ q = 1) as Hq' by lia.
    apply elem_of_pair in Hh as [-> | ->];
      (eexists; split; [by destruct Hq' as [-> | ->]|done]).
  - intros h' Hh'. assert (hosted : forall h', over node_execute
      (NodeExec RepartitionExec (Deal 2) [isolator_new (host_input h') (provided h')]) (dealing h')).
    { intros h0. apply over_max_rows; [done|]. apply over_node; [apply coalesce_keeps_rows|done|]. apply over_refl. }
    apply elem_of_pair in Hh' as [-> | ->];
      (split; [done|split; [done|]]); (eexists _, _; split; [reflexivity|]); (split; [done|split; [apply hosted|done]]).
  - intros h' [-> | ->]%elem_of_pair; apply scan_itself.
  - vm_compute. solve_Permutation.
Qed.

(** The routers agree on what the dealers send: they read it from the same processors. *)
Lemma cut_distributed : distributed_here 2 ctx whole cut.
Proof.
  apply distributed_node; [done|]. intros [|[|]] c c' Hc Hc'; [|done..]. injection Hc as <-. injection Hc' as <-.
  apply distributed_node; [done|]. intros [|[|]] c c' Hc Hc'; [|done..]. injection Hc as <-. injection Hc' as <-.
  eapply distributed_over; [|apply over_max_rows; [done|apply over_refl]].
  apply (distributed_stage _ _ _ _ _ _ _ 1 _ _ _ dealt 8 _ routers).
  - eapply repartitions_splits, route_repartitions.
  - eapply agree_same with (c' := reader 7) (h := router "c" [mkClient "a" 0; mkClient "b" 1] 0);
      [apply node_execute_ext|by left|done|]. intros h' Hh'.
    apply elem_of_pair in Hh' as [-> | ->]; (split; [done|]); [done|]. intros k. by apply clients_of_addrs.
  - done.
  - by vm_compute.
  - intros q Hq. change (q < 2) in Hq. assert (q = 0 \/ q = 1) as [-> | ->] by lia; by eexists.
  - intros h' Hh'. apply elem_of_pair in Hh' as [-> | ->];
      (split; [done|split; [done|]]); (eexists _, _; split; [reflexivity|]); (split; [done|split; [apply over_refl|done]]).
  - apply dealt_distributed.
  - vm_compute. solve_Permutation.
Qed.

Lemma distributed_plan_delivers_witness :
  never_fails node_execute whole /\
  (forall q, q < 1 -> delivered (run 2 cut q ctx)) /\ outcome node_execute whole (fun q => rows_at (run 2 cut q ctx)) /\
  rows_at (run 2 cut 0 ctx) = [[2]; [12]; [0]; [10]].
Proof.
  assert (never_fails node_execute whole) as Hn.
  { do 4 (apply never_fails_input; [|done]). apply never_fails_scan. }
  split; [exact Hn|].
  destruct (distributed_plan_delivers (H0 := data_fusion) (H1 := RowArrow.arrow) node_execute transport rng (fun _ => "error") (fun _ => "error") services
    (fun _ => tt) transport_keeps ltac:(intros id q k n Hlt; by apply Nat.mod_upper_bound, Nat.neq_0_lt_0)
    ltac:(done) ltac:(done) ltac:(done)
    2 ctx whole cut 2 cut_distributed Hn) as (Hd & Ho & _); [done|].
  split; [exact Hd|]. split; [exact Ho|]. by vm_compute.
Defined.
End ExampleCluster.
