(* ===== verification/Session.v ===== *)
(** * The sessions of the Python module (../context.rs, ../util.rs)

    A [DFRayContext] holds a DataFusion session with the optimizer rule of the engine; tables are
    registered in it by path, after the object store of the path.  A [LocalValidator] does the
    same on a plain session and runs queries itself.  Last, the reporter of a future that takes
    long ([report_on_lag]).  Paths are relative to src/src/streaming/. *)

From stdpp Require Import relations.
From S2P Require Import Prelude Stream Plans Codec Processor.

Section session.
Abbreviation Stores := (gmap (string * option string * option N) ObjectStore).

Context (build : ObjectStore -> option DataFusionError).

(** What is used of DataFusion: [Ext] is a session but for its object stores.  [url_of]:
    [ListingTableUrl::parse].  Tables are registered and queries planned in the session, which
    reads the object stores; [collect] runs a planned query. *)
Context {Ext DataFrame Batch : Type}.
Inductive Format := Parquet | Csv | ListingTable (file_extension : string).
Context (url_of : string -> res DataFusionError Url).
Context (df_register : Format -> string -> string -> Stores -> act Ext DataFusionError ()).
Context (df_sql : string -> Stores -> act Ext DataFusionError DataFrame).
Context (df_collect : DataFrame -> Stores -> act Ext DataFusionError (list Batch)).
Context (set_option : string -> string -> act Ext DataFusionError ()) (target_partitions : Ext -> N).
Context `{DataFusion} (node_with_new_children : NodeKind -> Node -> list Plan -> res DataFusionError Node).
(** A new session, with or without an information schema, and with additional optimizer rules. *)
Context (new_ext : bool -> list (Plan -> res DataFusionError Plan) -> Ext).

(** The exceptions that are raised. *)
Inductive PyErr := PyException (e : DataFusionError) | NotImplementedError (msg : string).

(** The state of a [SessionContext]. *)
Record SessionContext := mkSession { stores : Stores; ext : Ext }.
Abbreviation session := (act SessionContext PyErr).

(** A step on the object stores, and one on the rest that reads them. *)
Definition on_stores {A} (f : act Stores DataFusionError A) : session A := fun ctx =>
  let '(s, r) := f (stores ctx) in (mkSession s (ext ctx), map_err PyException r).
Definition on_ext {A} (f : Stores -> act Ext DataFusionError A) : session A := fun ctx =>
  let '(e, r) := f (stores ctx) (ext ctx) in (mkSession (stores ctx) e, map_err PyException r).

Definition context_new : SessionContext := mkSession default_stores (new_ext true [optimize node_with_new_children]).

Definition register_table (format : Format) (name path : string) : session () :=
  url ← (lift (map_err PyException (url_of path)) : session Url);
  on_stores (maybe_register_object_store build url);;
  on_ext (df_register format name path).

Definition register_parquet (name path : string) : session () := register_table Parquet name path.
Definition register_csv (name path : string) : session () := register_table Csv name path.
Definition register_listing_table (name path file_extension : string) : session () :=
  register_table (ListingTable file_extension) name (path +:+ "/").

Definition sql (query : string) : session () :=
  _ ← on_ext (df_sql query);
  lift (Err (NotImplementedError "DFRayDataFrame is not implemented yet")).

Definition set (option value : string) : session () := on_ext (fun _ => set_option option value).

Definition get_target_partitions (ctx : SessionContext) : N := target_partitions (ext ctx).

(** [LocalValidator] *)
Definition validator_new : SessionContext := mkSession default_stores (new_ext false []).
Definition collect_sql (query : string) : session (list Batch) :=
  df ← on_ext (df_sql query);
  on_ext (df_collect df).

(** ** What registering does *)

Lemma on_stores_ok {A} (f : act Stores DataFusionError A) ctx ctx' a :
  on_stores f ctx = (ctx', Ok a) -> f (stores ctx) = (stores ctx', Ok a) /\ ext ctx' = ext ctx.
Proof. unfold on_stores. destruct (f (stores ctx)) as [s [b|e|w]]; by intros [= <- <-]. Qed.

Lemma on_ext_ok {A} (f : Stores -> act Ext DataFusionError A) ctx ctx' a :
  on_ext f ctx = (ctx', Ok a) -> f (stores ctx) (ext ctx) = (ext ctx', Ok a) /\ stores ctx' = stores ctx.
Proof. unfold on_ext. destruct (f (stores ctx) (ext ctx)) as [s [b|e|w]]; by intros [= <- <-]. Qed.

(** A table is registered over an object store.  When [register_parquet], [register_csv] or
    [register_listing_table] returns, the path was a URL, the session has an object store for it
    (but for gcs:// and URLs with a port) and all that it had before, and DataFusion registered
    the table in a session with that store; a path that is no URL, or whose store cannot be made,
    registers no table. *)
Theorem registered_table_has_store format name path ctx ctx' r :
  register_table format name path ctx = (ctx', r) ->
  (r = Ok tt -> exists url, url_of path = Ok url /\
     (registrable url -> is_Some (stores ctx' !! key_of url)) /\ dom (stores ctx) ⊆ dom (stores ctx') /\
     df_register format name path (stores ctx') (ext ctx) = (ext ctx', Ok tt)) /\
  (forall url, url_of path = Ok url -> ~ is_Ok (maybe_register_object_store build url (stores ctx)).2 ->
     ~ is_Ok r /\ ext ctx' = ext ctx) /\
  (~ is_Ok (url_of path) -> ~ is_Ok r /\ ctx' = ctx).
Proof.
  intros E. split_and!.
  - intros ->. apply act_bind_inv in E as (ctx1 & url & E1 & E).
    apply act_bind_inv in E as (ctx2 & [] & (E2 & He)%on_stores_ok & (E3 & Hs)%on_ext_ok).
    unfold lift in E1. destruct (url_of path) as [url'|e|w]; cbn in E1; [|done..]. injection E1 as <- <-.
    exists url'. rewrite Hs, <- He. split_and!; [done| |by eapply maybe_register_keeps|done].
    intros <-%registered_key_found. apply elem_of_dom. by eapply maybe_register_registers.
  - intros url Hu Hm. revert E. unfold register_table, mbind, act_bind, lift, on_stores. rewrite Hu. cbn.
    destruct (maybe_register_object_store build url (stores ctx)) as [s [[]|e|w]]; cbn in *;
      [by destruct Hm; eexists|intros [= <- <-]..]; (split; [by intros []|done]).
  - intros Hn. revert E. unfold register_table, mbind, act_bind, lift.
    destruct (url_of path) as [url|e|w]; cbn; [by destruct Hn; eexists|intros [= <- <-]..];
      (split; [by intros []|done]).
Qed.

(** [sql] never returns a data frame, whatever planning the query did to the session. *)
Theorem sql_never_succeeds query ctx : ~ is_Ok (sql query ctx).2.
Proof.
  unfold sql, mbind, act_bind, lift. destruct (on_ext _ ctx) as [ctx' [df|e|w]]; by intros [].
Qed.
End session.

(** ** Reporting on lag (util.rs)

    The future that is waited for runs beside a reporter, which wakes every two seconds until it
    has received the message that the future has ended. *)
Section lag.

Inductive Watched := Running | Returned | Cancelled | SendFailed.
(** [messages]: in the oneshot channel; [reporting]: the reporter has not ended. *)
Record Lag := mkLag { watched : Watched; messages : nat; reporting : bool; reports : nat }.

Definition report_on_lag : Lag := mkLag Running 0 true 0.

(** The future returns and sends, [unwrap] panics when there is no receiver. *)
Definition finish (l : Lag) : Lag :=
  if reporting l then mkLag Returned (S (messages l)) true (reports l)
  else mkLag SendFailed (messages l) false (reports l).
(** The future that waits is dropped. *)
Definition cancel (l : Lag) : Lag := mkLag Cancelled (messages l) (reporting l) (reports l).
(** [rx.try_recv()] is an error when there is no message, whether there is a sender or not. *)
Definition wake (l : Lag) : Lag :=
  match messages l with
  | O => mkLag (watched l) 0 true (S (reports l))
  | S n => mkLag (watched l) n false (reports l)
  end.

Inductive lag_step : Lag -> Lag -> Prop :=
  | lag_finish l : watched l = Running -> lag_step l (finish l)
  | lag_cancel l : watched l = Running -> lag_step l (cancel l)
  | lag_wake l : reporting l = true -> lag_step l (wake l).

(** The reporter ends by a message, so it is there when the only message is sent. *)
Definition lag_ok (l : Lag) : Prop :=
  match watched l with
  | Returned => messages l = if reporting l then 1%nat else 0%nat
  | Running | Cancelled => messages l = 0%nat /\ reporting l = true
  | SendFailed => False
  end.

Lemma lag_step_ok l l' : lag_ok l -> lag_step l l' -> lag_ok l'.
Proof.
  unfold lag_ok. intros Hl Hs. revert Hl. destruct Hs as [l0 Hw|l0 Hw|l0 Hr]; intros Hl; rewrite ?Hw in Hl.
  - destruct Hl as [Hm Hr]. unfold finish. rewrite Hr. cbn. by rewrite Hm.
  - done.
  - unfold wake. rewrite Hr in Hl. destruct (watched l0); cbn; try done.
    + by destruct Hl as [-> _].
    + by rewrite Hl.
    + by destruct Hl as [-> _].
Qed.

(** However the future and the reporter are interleaved, sending never panics; after the future
    has returned the reporter wakes once more and ends, without a report; when the future was
    cancelled it never ends and reports whenever it wakes. *)
Theorem lag_reporter_ends l l' :
  rtc lag_step report_on_lag l -> lag_step l l' ->
  watched l <> SendFailed /\
  (watched l = Returned -> reporting l' = false /\ reports l' = reports l) /\
  (watched l = Cancelled -> watched l' = Cancelled /\ reporting l' = true /\ reports l' = S (reports l)).
Proof.
  intros Hr Hs. assert (lag_ok l) as Hl.
  { assert (lag_ok report_on_lag) as H0 by done. clear Hs. induction Hr; [done|]. eauto using lag_step_ok. }
  unfold lag_ok in Hl. split_and!.
  - by intros Hw; rewrite Hw in Hl.
  - intros Hw. rewrite Hw in Hl. revert Hl Hw. destruct Hs as [l Hw'|l Hw'|l Hw']; intros Hl Hw; [by rewrite Hw in Hw'..|].
    rewrite Hw' in Hl. unfold wake. by rewrite Hl.
  - intros Hw. rewrite Hw in Hl. revert Hl Hw. destruct Hs as [l Hw'|l Hw'|l Hw']; intros [Hm Hrep] Hw; [by rewrite Hw in Hw'..|].
    unfold wake. by rewrite Hm.
Qed.
End lag.

(** ** Witnesses *)
Section witnesses.
Definition example_url (path : string) : res DataFusionError Url :=
  if String.eqb path "s3://b/t" then Ok (mkUrl "s3" (Some "b") None) else Err (Internal "no url").
Definition example_register (f : Format) (name path : string) (_ : gmap (string * option string * option N) ObjectStore)
  : act (list string) DataFusionError () := fun tables => (name :: tables, Ok tt).

Lemma registered_table_has_store_witness :
  exists ctx', register_table (fun _ => None) example_url example_register Parquet "t" "s3://b/t"
      (mkSession default_stores []) = (ctx', Ok tt) /\ ext ctx' = ["t"] /\
    is_Some (stores ctx' !! ("s3", Some "b", None)) /\
    ~ is_Ok (register_table (fun _ => None) example_url example_register Csv "t" "x" ctx').2.
Proof.
  eexists. split; [reflexivity|]. split; [reflexivity|]. split.
  - destruct (registered_table_has_store (fun _ => None) example_url example_register Parquet "t" "s3://b/t"
      (mkSession default_stores []) _ _ eq_refl) as [Hok _].
    destruct (Hok eq_refl) as (url & [= <-] & Hr & _). apply Hr.
    split; [done|right; set_solver].
  - destruct (registered_table_has_store (fun _ => None) example_url example_register Csv "t" "x"
      (mkSession default_stores []) _ _ eq_refl) as (_ & _ & Hno). apply Hno. by intros [].
Defined.
End witnesses.
