(* ===== verification/Transforms.v ===== *)
(** * Filter, projection, union and identity (operators/filter.rs, projection.rs, union.rs,
    identity.rs, task_function.rs, serialization.rs)

    The operators that treat every batch on its own, as task functions that write to an output
    channel, and their protobuf messages.  Expressions are DataFusion's.  Paths are relative to
    src/src/streaming/. *)

From S2P Require Import Prelude Arrow Stream.

(** ** What is used of the libraries *)

(** [ColumnarValue]; a [ScalarValue] other than a boolean is [ScalarOther]. *)
Inductive ColumnarValue (Array : Type) :=
  | ScalarBoolean (boolean : option bool)
  | ScalarOther
  | ArrayValue (array : Array).
Arguments ScalarBoolean {Array} _.
Arguments ScalarOther {Array}.
Arguments ArrayValue {Array} _.

Class Expressions `{Arrow} := {
  PhysicalExpr : Type;
  evaluate_columnar : PhysicalExpr -> Batch -> res DataFusionError (ColumnarValue Array);
  (** [as_boolean_opt]: the values of a boolean array *)
  as_boolean_opt : Array -> option (list (option bool));
  filter_record_batch : Batch -> list (option bool) -> res DataFusionError Batch;
  (** [RecordBatch::new_empty(Schema::empty())] *)
  stateless : Batch;
  (** DataFusion's streaming projection *)
  ProjectionStreamingTask : Type;
  projection_streaming_task_new :
    list (PhysicalExpr * string) -> Schema -> res DataFusionError ProjectionStreamingTask;
  process_batch : ProjectionStreamingTask -> Batch -> res DataFusionError Batch;
  (** [serialize_physical_expr], [parse_physical_expr]; schemas to messages and back *)
  SessionContext : Type;
  PhysicalExprNode : Type;
  SchemaNode : Type;
  serialize_physical_expr : PhysicalExpr -> res DataFusionError PhysicalExprNode;
  parse_physical_expr : PhysicalExprNode -> SessionContext -> Schema -> res DataFusionError PhysicalExpr;
  schema_into_node : Schema -> res DataFusionError SchemaNode;
  schema_of_node : SchemaNode -> res DataFusionError Schema;
}.

(** A predicate has a value for every row, and evaluates to these values; filtering keeps the
    rows whose value is true.  An expression is read back over the schema of its input. *)
Class ExpressionsLaws `{Expressions, !ArrowLaws} := {
  truth : PhysicalExpr -> Row -> option bool;
  evaluate_array e b array :
    evaluate_columnar e b = Ok (ArrayValue array) ->
    forall values, as_boolean_opt array = Some values -> values = List.map (truth e) (rows b);
  evaluate_scalar e b x :
    evaluate_columnar e b = Ok (ScalarBoolean x) -> Forall (fun r => truth e r = x) (rows b);
  filter_rows b values :
    length values = num_rows b ->
    exists b', filter_record_batch b values = Ok b' /\ batch_schema b' = batch_schema b /\
      rows b' = List.map fst (List.filter (fun rv => bool_decide (rv.2 = Some true)) (combine (rows b) values));
  expr_over : Schema -> PhysicalExpr -> Prop;
  expr_node s e n ctx :
    expr_over s e -> serialize_physical_expr e = Ok n -> parse_physical_expr n ctx s = Ok e;
  schema_node s n : schema_into_node s = Ok n -> schema_of_node n = Ok s;
}.

(** [Result::unwrap] *)
Definition unwrap_ok {E F A} (r : res E A) : res F A :=
  match r with
  | Ok a => Ok a
  | Err _ => Panic "called `Result::unwrap()` on an `Err` value"
  | Panic w => Panic w
  end.

(** ** Task functions (task_function.rs) *)

Inductive TaskState := Continue | Exhausted.

Section transforms.
Context `{Expressions}.

Abbreviation Item := (StreamItem Batch).

(** The trait: what each call writes to the output channel. *)
Class TaskFunction (F : Type) := {
  task_poll : F -> res DataFusionError (list Item * TaskState);
  task_process : F -> Batch -> nat -> res DataFusionError (list Item * TaskState);
  task_get_state : F -> Batch;
  task_load_state : F -> Batch -> res DataFusionError ();
}.

Definition unimplemented {A} : res DataFusionError A := Panic "not implemented".

(** *** Filter *)

Record FilterOperator := mkFilterOperator { filter_input_schema : Schema; filter_expression : PhysicalExpr }.
Record FilterTask := mkFilterTask { expression : PhysicalExpr }.
Definition filter_into_function (self : FilterOperator) : FilterTask := mkFilterTask (filter_expression self).

Definition filter_process (self : FilterTask) (data : Batch) (ordinal : nat)
    : res DataFusionError (list Item * TaskState) :=
  result ← unwrap_ok (evaluate_columnar (expression self) data);
  match result with
  | ScalarBoolean boolean =>
      Ok (if default false boolean then [SIRecordBatch data] else [], Continue)
  | ScalarOther => Panic "Expected boolean scalar value"
  | ArrayValue array =>
      boolean_array ← unwrap "boolean array" (as_boolean_opt array);
      result_batch ← unwrap_ok (filter_record_batch data boolean_array);
      Ok ([SIRecordBatch result_batch], Continue)
  end.

#[export] Instance filter_function : TaskFunction FilterTask := {|
  task_poll _ := unimplemented;
  task_process := filter_process;
  task_get_state _ := stateless;
  task_load_state _ _ := unimplemented;
|}.

(** *** Projection *)

Record ProjectionExpression := mkProjectionExpression { proj_expr : PhysicalExpr; alias : string }.
Record ProjectionOperator := mkProjectionOperator { proj_schema : Schema; expressions : list ProjectionExpression }.
Record ProjectionTask := mkProjectionTask { proj_inner : ProjectionStreamingTask }.

Definition projection_task_new (exprs : list (PhysicalExpr * string)) (input_schema : Schema)
    : res DataFusionError ProjectionTask :=
  inner ← unwrap_ok (projection_streaming_task_new exprs input_schema); Ok (mkProjectionTask inner).

Definition projection_into_function (self : ProjectionOperator) : res DataFusionError ProjectionTask :=
  projection_task_new (List.map (fun e => (proj_expr e, alias e)) (expressions self)) (proj_schema self).

Definition projection_process (self : ProjectionTask) (data : Batch) (input_channel : nat)
    : res DataFusionError (list Item * TaskState) :=
  b ← unwrap_ok (process_batch (proj_inner self) data); Ok ([SIRecordBatch b], Continue).

#[export] Instance projection_function : TaskFunction ProjectionTask := {|
  task_poll _ := unimplemented;
  task_process := projection_process;
  task_get_state _ := stateless;
  task_load_state _ _ := Ok ();
|}.

(** *** Union and identity *)

Inductive UnionTask := mkUnionTask.
Inductive IdentityTask := mkIdentityTask.

Definition union_process (self : UnionTask) (data : Batch) (input_channel : nat)
    : res DataFusionError (list Item * TaskState) := Ok ([SIRecordBatch data], Continue).
Definition identity_process (self : IdentityTask) (data : Batch) (ordinal : nat)
    : res DataFusionError (list Item * TaskState) := Ok ([SIRecordBatch data], Continue).

#[export] Instance union_function : TaskFunction UnionTask := {|
  task_poll _ := unimplemented;
  task_process := union_process;
  task_get_state _ := stateless;
  task_load_state _ _ := Ok ();
|}.
#[export] Instance identity_function : TaskFunction IdentityTask := {|
  task_poll _ := unimplemented;
  task_process := identity_process;
  task_get_state _ := stateless;
  task_load_state _ _ := Ok ();
|}.

(** The documented life of a task: [process] is called for each batch, until it is exhausted. *)
Fixpoint process_all {F} `{TaskFunction F} (f : F) (batches : list (nat * Batch))
    : res DataFusionError (list Item) :=
  match batches with
  | [] => Ok []
  | (channel, b) :: batches =>
      '(out, state) ← task_process f b channel;
      match state with
      | Exhausted => Ok out
      | Continue => rest ← process_all f batches; Ok (out ++ rest)
      end
  end.

(** ** Messages (serialization.rs) *)

Class ProtoSerializer (T ProtoType SerializerContext DeserializerContext : Type) := {
  try_into_proto : T -> SerializerContext -> res DataFusionError ProtoType;
  try_from_proto : ProtoType -> DeserializerContext -> res DataFusionError T;
}.

#[export] Instance vec_proto {T P SC DC} `{ProtoSerializer T P SC DC}
    : ProtoSerializer (list T) (list P) SC DC := {|
  try_into_proto l context := try_collect (fun item => try_into_proto item context) l;
  try_from_proto l context := try_collect (fun item => try_from_proto item context) l;
|}.

#[export] Instance expr_proto
    : ProtoSerializer PhysicalExpr PhysicalExprNode () (SessionContext * Schema) := {|
  try_into_proto e _ := serialize_physical_expr e;
  try_from_proto n context := parse_physical_expr n context.1 context.2;
|}.

#[export] Instance schema_proto : ProtoSerializer Schema SchemaNode () () := {|
  try_into_proto s _ := schema_into_node s;
  try_from_proto n _ := schema_of_node n;
|}.

Record FilterProto := mkFilterProto { fp_schema : option SchemaNode; fp_expression : option PhysicalExprNode }.
Definition filter_try_into_proto (self : FilterOperator) (context : ()) : res DataFusionError FilterProto :=
  s ← try_into_proto (filter_input_schema self) ();
  e ← try_into_proto (filter_expression self) context;
  Ok (mkFilterProto (Some s) (Some e)).
Definition filter_try_from_proto (proto : FilterProto) (context : SessionContext)
    : res DataFusionError FilterOperator :=
  s ← ok_or (Internal "Input schema is required for FilterOperator") (fp_schema proto);
  input_schema ← try_from_proto s ();
  e ← ok_or (Internal "Expression is required for FilterOperator") (fp_expression proto);
  e ← try_from_proto e (context, input_schema);
  Ok (mkFilterOperator input_schema e).
#[export] Instance filter_proto : ProtoSerializer FilterOperator FilterProto () SessionContext := {|
  try_into_proto := filter_try_into_proto;
  try_from_proto := filter_try_from_proto;
|}.

Record ProjectionExpressionProto := mkProjectionExpressionProto { pep_expression : option PhysicalExprNode; pep_alias : string }.
#[export] Instance projection_expression_proto
    : ProtoSerializer ProjectionExpression ProjectionExpressionProto () (SessionContext * Schema) := {|
  try_into_proto self context :=
    e ← try_into_proto (proj_expr self) context;
    Ok (mkProjectionExpressionProto (Some e) (alias self));
  try_from_proto proto context :=
    e ← ok_or (Internal "Expression is required for ProjectionExpression") (pep_expression proto);
    e ← try_from_proto e context;
    Ok (mkProjectionExpression e (pep_alias proto));
|}.

Record ProjectionProto := mkProjectionProto { pp_schema : option SchemaNode; pp_expressions : list ProjectionExpressionProto }.
Definition projection_try_into_proto (self : ProjectionOperator) (context : ()) : res DataFusionError ProjectionProto :=
  s ← try_into_proto (proj_schema self) context;
  es ← try_into_proto (expressions self) context;
  Ok (mkProjectionProto (Some s) es).
Definition projection_try_from_proto (proto : ProjectionProto) (context : SessionContext)
    : res DataFusionError ProjectionOperator :=
  s ← ok_or (Internal "Schema is required for ProjectionOperator") (pp_schema proto);
  input_schema ← try_from_proto s ();
  es ← try_from_proto (pp_expressions proto) (context, input_schema);
  Ok (mkProjectionOperator input_schema es).
#[export] Instance projection_proto : ProtoSerializer ProjectionOperator ProjectionProto () SessionContext := {|
  try_into_proto := projection_try_into_proto;
  try_from_proto := projection_try_from_proto;
|}.
End transforms.

(** ** What the operators do *)

Section transforms_correct.
Context `{ExpressionsLaws}.

Abbreviation Item := (StreamItem Batch).

(** The rows written to the output. *)
Definition item_rows (i : Item) : list Row :=
  match i with SIRecordBatch b => rows b | SIMarker _ => [] end.
Definition out_rows (out : list Item) : list Row := concat (List.map item_rows out).

(** The reference: the rows on which the predicate is true. *)
Definition selected (e : PhysicalExpr) (l : list Row) : list Row :=
  List.filter (fun r => bool_decide (truth e r = Some true)) l.

(** The predicate evaluates to booleans on a batch. *)
Definition is_predicate (e : PhysicalExpr) (b : Batch) : Prop :=
  exists v, evaluate_columnar e b = Ok v /\
    match v with
    | ScalarBoolean _ => True
    | ScalarOther => False
    | ArrayValue a => is_Some (as_boolean_opt a)
    end.

Lemma selected_app e l k : selected e (l ++ k) = selected e l ++ selected e k.
Proof. apply List.filter_app. Qed.

Lemma selected_combine e l :
  List.map fst (List.filter (fun rv => bool_decide (rv.2 = Some true)) (combine l (List.map (truth e) l)))
    = selected e l.
Proof.
  unfold selected. induction l as [|r l IH]; [done|]. cbn in *. destruct (bool_decide _); cbn; by rewrite IH.
Qed.

Lemma selected_constant e x l :
  Forall (fun r => truth e r = x) l -> selected e l = if default false x then l else [].
Proof.
  unfold selected. induction 1 as [|r l Hr _ IH]; [by destruct (default false x)|]. cbn. rewrite Hr, IH.
  by destruct x as [[]|].
Qed.

Lemma filter_process_selects e b ordinal :
  is_predicate e b ->
  exists out, filter_process (mkFilterTask e) b ordinal = Ok (out, Continue) /\
    out_rows out = selected e (rows b) /\
    Forall (fun i => exists b', i = SIRecordBatch b' /\ batch_schema b' = batch_schema b) out.
Proof.
  intros (v & Hv & Hb). unfold filter_process. cbn [expression]. rewrite Hv. cbn [unwrap_ok mbind res_bind].
  destruct v as [x| |array]; [|done|].
  - exists (if default false x then [SIRecordBatch b] else []). split; [done|].
    rewrite (selected_constant e x) by by apply evaluate_scalar.
    destruct (default false x); cbn; rewrite ?app_nil_r; split; try done; repeat constructor. by exists b.
  - destruct Hb as [values Hvalues]. rewrite Hvalues. cbn [unwrap mbind res_bind].
    pose proof (evaluate_array e b array Hv values Hvalues) as ->.
    destruct (filter_rows b (List.map (truth e) (rows b))) as (b' & -> & Hs & Hr).
    { by rewrite length_map, num_rows_rows. }
    exists [SIRecordBatch b']. split; [done|]. cbn. rewrite app_nil_r, Hr, selected_combine.
    split; [done|]. constructor; [by exists b'|done].
Qed.

(** C40: the filter operator is the filter of the rows.  When its predicate evaluates to
    booleans, a task that is given batches never panics, and the rows of what it writes are, in
    order, exactly those rows of all batches on which the predicate is true (neither false nor
    null), however the rows are cut into batches. *)
Theorem filter_equals_reference s e batches :
  Forall (fun cb => is_predicate e cb.2) batches ->
  exists out, process_all (filter_into_function (mkFilterOperator s e)) batches = Ok out /\
    out_rows out = selected e (concat (List.map (fun cb => rows cb.2) batches)).
Proof.
  unfold filter_into_function. cbn [filter_expression].
  induction 1 as [|[channel b] batches Hb _ IH]; [by exists []|].
  destruct (filter_process_selects e b channel Hb) as (out & Hout & Hrows & _).
  destruct IH as (rest & Hrest & Erest).
  exists (out ++ rest). cbn [process_all]. cbn [task_process filter_function]. rewrite Hout. cbn [mbind res_bind].
  rewrite Hrest. split; [done|]. cbn [List.map concat snd]. rewrite selected_app, <- Hrows, <- Erest.
  unfold out_rows. by rewrite map_app, concat_app.
Qed.

(** Union and identity pass every batch on. *)
Lemma union_passes batches :
  process_all mkUnionTask batches = Ok (List.map (fun cb => SIRecordBatch cb.2) batches).
Proof. induction batches as [|[channel b] batches IH]; [done|]. cbn in *. by rewrite IH. Qed.
Lemma identity_passes batches :
  process_all mkIdentityTask batches = Ok (List.map (fun cb => SIRecordBatch cb.2) batches).
Proof. induction batches as [|[channel b] batches IH]; [done|]. cbn in *. by rewrite IH. Qed.

(** The filter cannot be restored from the state that it gives, the others can. *)
Lemma filter_state_cannot_be_loaded (f : FilterTask) :
  task_load_state f (task_get_state f) = Panic "not implemented".
Proof. done. Qed.

(** ** Messages *)

Lemma try_collect_round_trip {A B} (f : A -> res DataFusionError B) (g : B -> res DataFusionError A) l k :
  Forall (fun a => forall b, f a = Ok b -> g b = Ok a) l -> try_collect f l = Ok k -> try_collect g k = Ok l.
Proof.
  rewrite !try_collect_Ok. intros Hl Hk. induction Hk as [|a b l k Hab _ IH]; [constructor|].
  apply Forall_cons in Hl as [Ha Hl]. constructor; auto.
Qed.

Lemma filter_round_trip op proto ctx :
  expr_over (filter_input_schema op) (filter_expression op) ->
  filter_try_into_proto op () = Ok proto -> filter_try_from_proto proto ctx = Ok op.
Proof.
  intros Hover (s & Hs & He)%bind_Ok_inv. apply bind_Ok_inv in He as (e & He & [= <-]).
  unfold filter_try_from_proto. cbn in *. rewrite (schema_node _ _ Hs). cbn.
  rewrite (expr_node _ _ _ ctx Hover He). by destruct op.
Qed.

Lemma projection_expression_round_trip pe proto ctx s :
  expr_over s (proj_expr pe) -> try_into_proto pe () = Ok proto -> try_from_proto proto (ctx, s) = Ok pe.
Proof.
  intros Hover (e & He & [= <-])%bind_Ok_inv. cbn in *. rewrite (expr_node _ _ _ ctx Hover He). by destruct pe.
Qed.

(** An operator that is written to its message is read back unchanged: the filter with its
    predicate, the projection with its expressions in order and their aliases; the expressions
    are read over the input schema, which the message carries. *)
Theorem operators_round_trip :
  (forall op proto ctx, expr_over (filter_input_schema op) (filter_expression op) ->
     filter_try_into_proto op () = Ok proto -> filter_try_from_proto proto ctx = Ok op) /\
  (forall op proto ctx, Forall (fun pe => expr_over (proj_schema op) (proj_expr pe)) (expressions op) ->
     projection_try_into_proto op () = Ok proto -> projection_try_from_proto proto ctx = Ok op).
Proof.
  split; [exact filter_round_trip|]. intros op proto ctx Hover (s & Hs & He)%bind_Ok_inv.
  apply bind_Ok_inv in He as (es & He & [= <-]). unfold projection_try_from_proto. cbn [pp_schema pp_expressions ok_or mbind res_bind].
  cbn in Hs. cbn [try_from_proto schema_proto]. rewrite (schema_node _ _ Hs). cbn [mbind res_bind].
  assert (try_from_proto es (ctx, proj_schema op) = Ok (expressions op)) as ->; [|by destruct op].
  eapply try_collect_round_trip; [|exact He]. eapply Forall_impl; [exact Hover|].
  intros pe Hpe proto Hproto. by apply projection_expression_round_trip.
Qed.
End transforms_correct.

(** ** Concrete expressions

    Over the batches of [RowArrow] an expression is a column; it is true where the column is not
    0, and null where there is no such column. *)
Module ColumnExpressions.
#[local] Existing Instances RowArrow.arrow RowArrow.arrow_laws.

Definition column_truth (e : nat) (r : list N) : option bool := (fun n => negb (n =? 0)) <$> (r !! e).
Definition keep_rows (l : list (list N)) (values : list (option bool)) : list (list N) :=
  List.map fst (List.filter (fun rv => bool_decide (rv.2 = Some true)) (combine l values)).
Definition project (es : list nat) (r : list N) : list N := omap (fun e => r !! e) es.

#[export] Instance column_expressions : Expressions := {|
  PhysicalExpr := nat;
  evaluate_columnar e b := Ok (ArrayValue (RowArrow.b_rows b, Some e));
  as_boolean_opt a := e ← a.2; Some (List.map (column_truth e) a.1);
  filter_record_batch b values :=
    Ok {| RowArrow.b_schema := RowArrow.b_schema b; RowArrow.b_rows := keep_rows (RowArrow.b_rows b) values |};
  stateless := {| RowArrow.b_schema := []; RowArrow.b_rows := [] |};
  ProjectionStreamingTask := list (nat * string);
  projection_streaming_task_new es _ := Ok es;
  process_batch t b := Ok {| RowArrow.b_schema := t.*2; RowArrow.b_rows := List.map (project t.*1) (RowArrow.b_rows b) |};
  SessionContext := ();
  PhysicalExprNode := nat;
  SchemaNode := list string;
  serialize_physical_expr := Ok;
  parse_physical_expr n _ _ := Ok n;
  schema_into_node := Ok;
  schema_of_node := Ok;
|}.

#[export] Instance column_expressions_laws : ExpressionsLaws.
Proof.
  refine {| truth := (column_truth : PhysicalExpr -> Row -> option bool); expr_over _ _ := True |}; cbn.
  - by intros e b array [= <-] values [= <-].
  - done.
  - intros b values _. by eexists.
  - by intros s e n _ _ [= <-].
  - by intros s n [= <-].
Defined.

Definition second_column : PhysicalExpr := 1%nat.
Definition filter_operator : FilterOperator := mkFilterOperator ["a"; "b"] second_column.
Definition filter_task : FilterTask := filter_into_function filter_operator.
Definition projection_operator : ProjectionOperator :=
  mkProjectionOperator ["a"; "b"] [mkProjectionExpression second_column "x"].
Definition session : SessionContext := ().
Definition batch (l : list (list N)) : Batch :=
  {| RowArrow.b_schema := ["a"; "b"]; RowArrow.b_rows := l |}.
End ColumnExpressions.

Section witnesses.
Import ColumnExpressions.
#[local] Existing Instances RowArrow.arrow RowArrow.arrow_laws.

(** The rows whose second column is not 0; the last row has none. *)
Lemma filter_equals_reference_witness :
  exists out, process_all filter_task
      [(0%nat, batch [[1; 0]; [2; 5]]); (0%nat, batch [[3; 7]; [4]])] = Ok out /\
    out_rows out = [[2; 5]; [3; 7]].
Proof.
  destruct (filter_equals_reference (filter_input_schema filter_operator) second_column
    [(0%nat, batch [[1; 0]; [2; 5]]); (0%nat, batch [[3; 7]; [4]])]) as (out & E & R).
  - repeat constructor; eexists; (split; [reflexivity|by eexists]).
  - exists out. split; [exact E|]. exact R.
Defined.

Lemma operators_round_trip_witness :
  exists proto, projection_try_into_proto projection_operator () = Ok proto /\
    projection_try_from_proto proto session = Ok projection_operator.
Proof.
  eexists. split; [reflexivity|]. apply (proj2 operators_round_trip); [by repeat constructor|done].
Defined.
End witnesses.
