(* ===== verification/Chunks.v ===== *)
(** * Chunked streams and the checkpoint storage manager (operators/utils/chunked_stream.rs,
    borrowed_stream.rs, checkpoint_storage_manager.rs)

    Two helpers of stateful operators: a stream that is read marker by marker, and an in-memory
    store of the state that tasks wrote at a marker, which gives each reader the rows of its
    partitions.  Paths are relative to src/src/streaming/. *)

From S2P Require Import Prelude Arrow Stream.

(** ** Chunked streams *)

Section chunked.
Context {B : Type}.

(** [GenerationMarker] is never built: the line that would is commented out. *)
Inductive GenerationMarker := mkGenerationMarker.

(** The stream as the answers to its next polls, [None] for pending. *)
Record ChunkedStream := mkChunked {
  stream : list (option (SItem B));
  current_marker : option (Marker + GenerationMarker);
}.

Definition chunked_new (stream : list (option (SItem B))) : ChunkedStream := mkChunked stream None.

(** [stream_record_batches]: one poll of the borrowed stream, mapped and taken while it is a
    batch. *)
Definition poll_record_batches (self : ChunkedStream) : Poll (option B) * ChunkedStream :=
  match stream self with
  | [] => (Ready None, self)
  | None :: s => (Pending, mkChunked s (current_marker self))
  | Some (SRecordBatch record_batch) :: s => (Ready (Some record_batch), mkChunked s None)
  | Some (SMarker marker) :: s => (Ready None, mkChunked s (Some (inl marker)))
  | Some (SGeneration _) :: s => (Ready None, mkChunked s (current_marker self))
  end.

(** [stream_record_batches().collect()], with the polls it takes. *)
Fixpoint collect_chunk (fuel : nat) (self : ChunkedStream) : option (list B * ChunkedStream) :=
  match fuel with
  | O => None
  | S fuel =>
      match poll_record_batches self with
      | (Ready None, self) => Some ([], self)
      | (Ready (Some b), self) => '(bs, self) ← collect_chunk fuel self; Some (b :: bs, self)
      | (Pending, self) => collect_chunk fuel self
      end
  end.

(** Collecting [n] times: each chunk with the marker that is current after it. *)
Fixpoint collect_chunks (n fuel : nat) (self : ChunkedStream)
    : option (list (list B * option (Marker + GenerationMarker)) * ChunkedStream) :=
  match n with
  | O => Some ([], self)
  | S n =>
      '(bs, self) ← collect_chunk fuel self;
      '(rest, self') ← collect_chunks n fuel self;
      Some ((bs, current_marker self) :: rest, self')
  end.

(** The reference: cut the items at everything that is not a batch. *)
Fixpoint segments (items : list (SItem B)) : list (list B * option (SItem B)) :=
  match items with
  | [] => [([], None)]
  | SRecordBatch b :: items =>
      match segments items with
      | (bs, e) :: rest => (b :: bs, e) :: rest
      | [] => []
      end
  | item :: items => ([], Some item) :: segments items
  end.

(** The marker that is current after a segment: the one that ended it; otherwise none, unless the
    segment is empty, when the marker before it stays. *)
Definition marker_after (previous : option (Marker + GenerationMarker)) (seg : list B * option (SItem B))
    : option (Marker + GenerationMarker) :=
  match seg with
  | (_, Some (SMarker m)) => Some (inl m)
  | ([], _) => previous
  | _ => None
  end.

Fixpoint with_markers (previous : option (Marker + GenerationMarker)) (segs : list (list B * option (SItem B)))
    : list (list B * option (Marker + GenerationMarker)) :=
  match segs with
  | [] => []
  | seg :: segs => (seg.1, marker_after previous seg) :: with_markers (marker_after previous seg) segs
  end.

Lemma segments_cons items : exists bs e rest, segments items = (bs, e) :: rest.
Proof.
  induction items as [|[b|m|g] items IH]; cbn; [by eexists _, _, _| |by eexists _, _, _..].
  destruct IH as (bs & e & rest & ->). by eexists _, _, _.
Qed.

(** One chunk is the first segment; the rest of the stream has the other segments. *)
Lemma collect_chunk_segment s previous fuel bs e rest :
  (length s < fuel)%nat -> segments (omap id s) = (bs, e) :: rest ->
  exists s', collect_chunk fuel (mkChunked s previous) =
      Some (bs, mkChunked s' (marker_after previous (bs, e))) /\
    (length s' <= length s)%nat /\
    match e with None => s' = [] /\ rest = [] | Some _ => segments (omap id s') = rest end.
Proof.
  revert s previous bs e rest. induction fuel as [|fuel IH]; intros s previous bs e rest Hf Hs; [lia|].
  cbn [collect_chunk]. destruct s as [|[[b|m|g]|] s]; cbn in Hf, Hs |- *.
  - injection Hs as <- <- <-. by exists [].
  - destruct (segments_cons (omap id s)) as (bs0 & e0 & rest0 & Hs0). rewrite Hs0 in Hs.
    injection Hs as <- <- <-.
    destruct (IH s None bs0 e0 rest0) as (s' & -> & Hl & He); [lia|done|].
    exists s'. split; [|split; [lia|done]]. cbn. do 3 f_equal.
    by destruct e0 as [[]|], bs0.
  - injection Hs as <- <- <-. exists s. split; [done|]. split; [lia|done].
  - injection Hs as <- <- <-. exists s. split; [done|]. split; [lia|done].
  - destruct (IH s previous bs e rest) as (s' & -> & Hl & He); [lia|done|].
    exists s'. split; [done|]. split; [lia|done].
Qed.

(** Reading a stream chunk by chunk is cutting it at its markers.  However the stream is
    pending in between, collecting as many chunks as there are segments gives the batches of the
    segments, in order, and uses the stream up; the marker that is current after a chunk is the
    one that ended it, and is cleared by a batch that follows it.  So a chunk without batches that
    is ended by a generation or by the end of the stream leaves the old marker in place. *)
Theorem chunks_equal_segments s fuel :
  (length s < fuel)%nat ->
  exists marker,
    collect_chunks (length (segments (omap id s))) fuel (chunked_new s) =
      Some (with_markers None (segments (omap id s)), mkChunked [] marker).
Proof.
  unfold chunked_new. generalize (@None (Marker + GenerationMarker)) as previous.
  intros previous Hf. remember (segments (omap id s)) as segs eqn:Hsegs. symmetry in Hsegs.
  revert s previous Hf Hsegs. induction segs as [|[bs e] segs IH]; intros s previous Hf Hsegs.
  { destruct (segments_cons (omap id s)) as (? & ? & ? & E). by rewrite E in Hsegs. }
  destruct (collect_chunk_segment s previous fuel bs e segs Hf Hsegs) as (s' & Hc & Hl & He).
  cbn [length collect_chunks with_markers fst]. rewrite Hc. cbn [mbind option_bind].
  destruct e as [item|].
  - destruct (IH s' (marker_after previous (bs, Some item))) as (marker & Hm); [lia|done|].
    exists marker. by rewrite Hm.
  - destruct He as [-> ->]. by eexists.
Qed.

(** A stream that ends right after a marker: the second chunk still shows the marker. *)
Lemma chunk_keeps_old_marker b m :
  collect_chunks 2 3 (chunked_new [Some (SRecordBatch b); Some (SMarker m)]) =
    Some ([([b], Some (inl m)); ([], Some (inl m))], mkChunked [] (Some (inl m))).
Proof. done. Qed.
End chunked.

Lemma chunks_equal_segments_witness :
  exists marker, collect_chunks 3 7 (chunked_new
      [Some (SRecordBatch 1); None; Some (SRecordBatch 2); Some (SMarker (mkMarker 0)); Some (SRecordBatch 3);
       Some (SGeneration 4)]) =
    Some ([([1; 2], Some (inl (mkMarker 0))); ([3], None); ([], None)], mkChunked [] marker).
Proof.
  apply (chunks_equal_segments (B := N)
    [Some (SRecordBatch 1); None; Some (SRecordBatch 2); Some (SMarker (mkMarker 0)); Some (SRecordBatch 3);
     Some (SGeneration 4)] 7).
  cbn. lia.
Defined.

(** ** The checkpoint storage manager *)

Class StateBatches `{Arrow} := {
  num_columns : Batch -> nat;
  num_fields : Schema -> nat;
  (** [schema.field(0).data_type() == UInt64], for a schema with a field *)
  first_field_is_u64 : Schema -> bool;
  concat_batches : Schema -> list Batch -> res string Batch;
  (** [column(0)] downcast to a [UInt64Array] *)
  u64_column : Batch -> option (list (option N));
  filter_batch : Batch -> list bool -> option Batch;
}.

Class StateBatchesLaws `{StateBatches, !ArrowLaws} := {
  (** the value of a row in the first column *)
  row_hash : Row -> option N;
  no_columns b : num_columns b = num_fields (batch_schema b);
  u64_column_rows b :
    (0 < num_fields (batch_schema b))%nat -> first_field_is_u64 (batch_schema b) = true ->
    u64_column b = Some (List.map row_hash (rows b));
  concat_rows s bs :
    Forall (fun b => batch_schema b = s) bs ->
    exists b, concat_batches s bs = Ok b /\ batch_schema b = s /\ rows b = concat (List.map rows bs);
  filter_batch_rows b mask :
    length mask = num_rows b ->
    exists b', filter_batch b mask = Some b' /\
      rows b' = List.map fst (List.filter snd (combine (rows b) mask));
}.

Section checkpoint_manager.
Context `{StateBatches}.

(** [CheckpointIdentifier] is the pair of the id and the index of the marker. *)
Abbreviation CheckpointIdentifier := (string * N)%type.
Record Checkpoint := mkCheckpoint { written_partitions : list N; data : Batch }.
Abbreviation CheckpointStorageManager := (gmap CheckpointIdentifier Checkpoint).

Definition write_checkpoint_state (checkpoint_id : string) (partitions : list N) (marker_index : N)
    (state : Batch) : act CheckpointStorageManager string () := fun stored =>
  if (num_columns state =? 0)%nat && (num_rows state =? 0)%nat then (stored, Ok ()) else
  let id := (checkpoint_id, marker_index) in
  match stored !! id with
  | Some checkpoint =>
      let schema := batch_schema (data checkpoint) in
      if negb (bool_decide (schema = batch_schema state)) then
        (stored, Err "Schema did not match existing checkpoint schema")
      else
        match concat_batches schema [data checkpoint; state] with
        | Ok all => (<[id := mkCheckpoint (written_partitions checkpoint ++ partitions) all]> stored, Ok ())
        | Err err => (stored, Err ("Encountered ArrowError when concatenating state batches: " +:+ err))
        | Panic w => (stored, Panic w)
        end
  | None =>
      (* the message reads the type of the first field, also when there is none *)
      if (num_fields (batch_schema state) =? 0)%nat then (stored, Panic "index out of bounds")
      else if negb (first_field_is_u64 (batch_schema state)) then
        (stored, Err "Invalid checkpoint schema. First column must be a hash of type Int64")
      else (<[id := mkCheckpoint partitions state]> stored, Ok ())
  end.

Definition MAX_PARTITIONS : N := 10.

Definition get_checkpoint_state (checkpoint_id : string) (partitions : list N) (marker_index : N)
    (stored : CheckpointStorageManager) : res string (option Batch) :=
  match stored !! (checkpoint_id, marker_index) with
  | None => Ok None
  | Some checkpoint =>
      if negb (forallb (fun p => bool_decide (p ∈ written_partitions checkpoint)) partitions) then
        Panic "Not all partitions have been written to checkpoint"
      else
        partition_numbers ← unwrap "downcast" (u64_column (data checkpoint));
        mask ← try_collect (fun partition =>
          n ← unwrap "null partition" partition;
          Ok (bool_decide (n mod MAX_PARTITIONS ∈ partitions))) partition_numbers;
        matched_state ← unwrap "filter" (filter_batch (data checkpoint) mask);
        Ok (Some matched_state)
  end.

(** The tasks of a checkpoint write their states one after the other. *)
Fixpoint write_states (checkpoint_id : string) (marker_index : N) (states : list (list N * Batch))
    : act CheckpointStorageManager string () :=
  match states with
  | [] => mret tt
  | (partitions, state) :: states =>
      write_checkpoint_state checkpoint_id partitions marker_index state;;
      write_states checkpoint_id marker_index states
  end.
End checkpoint_manager.

Section checkpoint_manager_correct.
Context `{StateBatchesLaws}.

(** The rows of a list whose hash falls into the partitions. *)
Definition rows_of (partitions : list N) (l : list Row) : list Row :=
  List.filter (fun r => bool_decide (default 0 (row_hash r) mod MAX_PARTITIONS ∈ partitions)) l.

Lemma rows_of_mask (partitions : list N) (l : list Row) :
  List.map fst (List.filter snd (combine l
    (List.map (fun r => bool_decide (default 0 (row_hash r) mod MAX_PARTITIONS ∈ partitions)) l)))
  = rows_of partitions l.
Proof.
  unfold rows_of. induction l as [|r l IH]; [done|]. cbn. destruct (bool_decide _); cbn; by rewrite IH.
Qed.

Lemma mask_of_hashes (partitions : list N) (l : list Row) :
  Forall (fun r => is_Some (row_hash r)) l ->
  try_collect (E := string) (fun partition =>
      n ← unwrap "null partition" partition; Ok (bool_decide (n mod MAX_PARTITIONS ∈ partitions)))
    (List.map row_hash l) =
  Ok (List.map (fun r => bool_decide (default 0 (row_hash r) mod MAX_PARTITIONS ∈ partitions)) l).
Proof.
  induction 1 as [|r l [n Hn] _ IH]; [done|]. cbn in *. rewrite Hn. cbn. by rewrite IH.
Qed.

(** A state that can be stored: a schema whose first column holds the hashes, none null. *)
Definition storable (s : Schema) (b : Batch) : Prop :=
  batch_schema b = s /\ Forall (fun r => is_Some (row_hash r)) (rows b).

Context (s : Schema) (Hfields : (0 < num_fields s)%nat) (Hu64 : first_field_is_u64 s = true).

Lemma write_first id marker ps b stored :
  storable s b -> stored !! (id, marker) = None ->
  write_checkpoint_state id ps marker b stored = (<[(id, marker) := mkCheckpoint ps b]> stored, Ok ()).
Proof.
  intros [Hs _] Hl. unfold write_checkpoint_state. rewrite Hl, no_columns, Hs, Hu64.
  destruct (Nat.eqb_spec (num_fields s) 0); [lia|]. done.
Qed.

Lemma write_next id marker ps b c stored :
  storable s b -> storable s (data c) -> stored !! (id, marker) = Some c ->
  exists all, storable s all /\ rows all = rows (data c) ++ rows b /\
    write_checkpoint_state id ps marker b stored =
      (<[(id, marker) := mkCheckpoint (written_partitions c ++ ps) all]> stored, Ok ()).
Proof.
  intros [Hs Hb] [Hsc Hc] Hl. unfold write_checkpoint_state. rewrite Hl, no_columns, Hs, Hsc.
  destruct (Nat.eqb_spec (num_fields s) 0); [lia|]. rewrite bool_decide_eq_true_2 by done. cbn [andb negb].
  destruct (concat_rows s [data c; b]) as (all & -> & Hsa & Hra); [by repeat constructor|].
  cbn in Hra. rewrite app_nil_r in Hra. exists all. split; [|done].
  split; [done|]. rewrite Hra. by apply Forall_app.
Qed.

Lemma write_states_stored id marker states stored c :
  Forall (fun ps => storable s ps.2) states -> stored !! (id, marker) = Some c -> storable s (data c) ->
  exists stored' c', write_states id marker states stored = (stored', Ok ()) /\
    stored' !! (id, marker) = Some c' /\ storable s (data c') /\
    written_partitions c' = written_partitions c ++ concat (List.map fst states) /\
    rows (data c') = rows (data c) ++ concat (List.map (fun ps => rows ps.2) states).
Proof.
  intros Hst. revert stored c. induction Hst as [|[ps b] states Hb _ IH]; intros stored c Hl Hc.
  { exists stored, c. cbn. by rewrite !app_nil_r. }
  destruct (write_next id marker ps b c stored Hb Hc Hl) as (all & Ha & Hr & Hw).
  destruct (IH (<[(id, marker) := mkCheckpoint (written_partitions c ++ ps) all]> stored)
    (mkCheckpoint (written_partitions c ++ ps) all)) as (stored' & c' & E & Hl' & Hc' & Hp' & Hr');
    [apply lookup_insert_eq|done|].
  exists stored', c'. cbn [write_states]. erewrite act_bind_Ok by exact Hw. split; [exact E|].
  split; [done|]. split; [done|]. cbn [written_partitions data List.map concat fst snd] in *.
  by rewrite Hp', Hr', Hr, <- !app_assoc.
Qed.

(** What tasks write at a marker, other tasks read by partition.  When states of one schema
    were written for some partitions, a reader whose partitions were all written gets, in the
    order of the writes, exactly the rows whose hash falls into its partitions, and another
    reader makes the manager panic. *)
Theorem written_states_are_read id marker states stored :
  states <> [] -> Forall (fun ps => storable s ps.2) states -> stored !! (id, marker) = None ->
  exists stored', write_states id marker states stored = (stored', Ok ()) /\
    forall partitions : list N,
      if bool_decide (partitions ⊆ concat (List.map fst states)) then
        exists b, get_checkpoint_state id partitions marker stored' = Ok (Some b) /\
          rows b = rows_of partitions (concat (List.map (fun ps => rows ps.2) states))
      else get_checkpoint_state id partitions marker stored'
             = Panic "Not all partitions have been written to checkpoint".
Proof.
  intros Hne Hst Hl. destruct states as [|[ps b] states]; [done|]. clear Hne.
  apply Forall_cons in Hst as [Hb Hst]. cbn in Hb.
  destruct (write_states_stored id marker states (<[(id, marker) := mkCheckpoint ps b]> stored)
    (mkCheckpoint ps b)) as (stored' & c & E & Hl' & [Hsc Hnn] & Hp & Hr);
    [done|apply lookup_insert_eq|done|].
  cbn [data written_partitions] in *. exists stored'. cbn [write_states].
  erewrite act_bind_Ok by (by apply write_first). split; [exact E|].
  intros partitions. unfold get_checkpoint_state. rewrite Hl', Hp. cbn [List.map concat fst snd] in *.
  case_bool_decide as Hsub.
  - replace (forallb _ partitions) with true; cycle 1.
    { symmetry. apply forallb_forall. intros p Hin%list_elem_of_In. apply bool_decide_eq_true. by apply Hsub. }
    cbn [negb]. rewrite u64_column_rows by (by rewrite Hsc). cbn [unwrap mbind res_bind].
    rewrite mask_of_hashes by done. cbn [mbind res_bind].
    destruct (filter_batch_rows (data c) (List.map (fun r => bool_decide
      (default 0 (row_hash r) mod MAX_PARTITIONS ∈ partitions)) (rows (data c)))) as (b' & -> & Hb').
    { by rewrite length_map, num_rows_rows. }
    exists b'. split; [done|]. by rewrite Hb', rows_of_mask, Hr.
  - replace (forallb _ partitions) with false; [done|]. symmetry. apply not_true_is_false.
    intros Hall. apply Hsub. intros p Hin%list_elem_of_In.
    rewrite forallb_forall in Hall. specialize (Hall p Hin). by apply bool_decide_eq_true in Hall.
Qed.

(** A state with rows but no columns makes the error message itself panic. *)
Lemma state_without_columns_panics id marker ps b stored :
  num_fields (batch_schema b) = 0%nat -> num_rows b <> 0%nat -> stored !! (id, marker) = None ->
  write_checkpoint_state id ps marker b stored = (stored, Panic "index out of bounds").
Proof.
  intros Hf Hn Hl. unfold write_checkpoint_state. rewrite Hl, no_columns, Hf.
  by destruct (Nat.eqb_spec (num_rows b) 0).
Qed.
End checkpoint_manager_correct.

(** ** A concrete instance

    Over [RowArrow], where the first column of a row is its first number. *)
Module RowStates.
#[local] Existing Instances RowArrow.arrow RowArrow.arrow_laws.

Definition merge (bs : list RowArrow.batch) (s : list string) : RowArrow.batch :=
  {| RowArrow.b_schema := s; RowArrow.b_rows := concat (List.map RowArrow.b_rows bs) |}.

#[export] Instance state_batches : StateBatches := {|
  num_columns b := length (RowArrow.b_schema b);
  num_fields s := length (s : list string);
  first_field_is_u64 _ := true;
  concat_batches s bs := Ok (merge bs s);
  u64_column b := Some (List.map head (RowArrow.b_rows b));
  filter_batch b mask := Some {| RowArrow.b_schema := RowArrow.b_schema b;
    RowArrow.b_rows := List.map fst (List.filter snd (combine (RowArrow.b_rows b) mask)) |};
|}.

#[export] Instance state_batches_laws : StateBatchesLaws.
Proof.
  refine {| row_hash := (head : Row -> option N) |}; try done.
  - intros s bs _. by eexists.
  - intros b mask _. by eexists.
Defined.

Definition state (l : list (list N)) : Batch :=
  {| RowArrow.b_schema := ["hash"; "count"]; RowArrow.b_rows := l |}.

Lemma written_states_are_read_witness :
  exists stored, write_states "op" 3 [([1; 2], state [[12; 5]; [21; 6]]); ([3], state [[31; 7]; [13; 8]])] ∅
      = (stored, Ok ()) /\
    exists b, get_checkpoint_state "op" [1] 3 stored = Ok (Some b) /\ rows b = [[21; 6]; [31; 7]].
Proof.
  destruct (written_states_are_read (batch_schema (state []))) with (id := "op") (marker := 3)
    (states := [([1; 2], state [[12; 5]; [21; 6]]); ([3], state [[31; 7]; [13; 8]])])
    (stored := ∅ : gmap (string * N) Checkpoint) as (stored & E & Hget).
  - vm_compute. lia.
  - reflexivity.
  - done.
  - repeat constructor; by eexists.
  - reflexivity.
  - exists stored. split; [exact E|]. exact (Hget [1]).
Defined.
End RowStates.
